(** * Remote browser session layer: admission control, protocol bridge and
      interaction synthesis

    A shallow embedding of
    - the session-creation limiter [BrowserbaseSessionLimiter]
      (src/apps/cua-agent/examples.ts, second document), and
    - the [useBrowserCDP] hook (src/unnamed/part_002): command/response
      correlation over the control and page connections, and the synthesis
      of interaction records from keydown, click and navigation events.

    The code is single-threaded and callback-driven.  Every handler is
    modelled as a function from the state before the callback to the state
    after it; the reading of [Date.now()] taken by a handler and the suffix
    produced by [Math.random()] are inputs of the handler. *)

From Stdlib Require Import ZArith Lia Bool Ascii String.
From stdpp Require Import base tactics option list gmap strings pretty.

Local Open Scope Z_scope.

(** * The session admission controller *)

Module Limiter.

Definition DEFAULT_MAX_CREATES_PER_MINUTE : Z := 20.
Definition DEFAULT_MAX_CONCURRENT_SESSIONS : Z := 25.
Definition CREATE_WINDOW_MS : Z := 60000.

(** [readPositiveIntegerEnv]: [parsed] is the result of
    [Number.parseInt(value ?? '', 10)], [None] standing for [NaN]. *)
Definition readPositiveIntegerEnv (parsed : option Z) (fallback : Z) : Z :=
  match parsed with
  | Some n => if 0 <? n then n else fallback
  | None => fallback
  end.

Record Options := {
  opt_maxCreatesPerMinute : option Z;
  opt_maxConcurrentSessions : option Z;
}.

Record Config := {
  maxCreatesPerMinute : Z;
  maxConcurrentSessions : Z;
}.

(** The constructor: an option wins over the environment variable. *)
Definition constructor (options : option Options)
    (env_per_minute env_concurrent : option Z) : Config :=
  {| maxCreatesPerMinute :=
       default (readPositiveIntegerEnv env_per_minute DEFAULT_MAX_CREATES_PER_MINUTE)
               (options ≫= opt_maxCreatesPerMinute);
     maxConcurrentSessions :=
       default (readPositiveIntegerEnv env_concurrent DEFAULT_MAX_CONCURRENT_SESSIONS)
               (options ≫= opt_maxConcurrentSessions) |}.

(** [getLimiter] builds the process-wide instance with no options. *)
Definition getLimiter_config (env_per_minute env_concurrent : option Z) : Config :=
  constructor None env_per_minute env_concurrent.

(** A queued request.  The [resolve] closure of the k-th call of
    [acquireCreateLease] is identified with k: requests are served first
    in, first out, so the k-th lease created answers the k-th request. *)
Record QueueItem := { source : string }.

(** The closure state of one lease returned by [createLease]. *)
Record Lease := {
  lease_source : string;
  finalized : bool;
}.

Record State := {
  createTimestamps : list Z;
  activeSessionIds : gset string;
  pendingReservations : Z;
  queue : list QueueItem;
  (** [Some d]: a one-shot timer with delay [d] ms is armed. *)
  processTimer : option Z;
  (** The leases handed out so far, in creation order; a lease is named by
      its position. *)
  leases : list Lease;
}.

Definition init : State :=
  {| createTimestamps := []; activeSessionIds := ∅; pendingReservations := 0;
     queue := []; processTimer := None; leases := [] |}.

Definition set_createTimestamps (l : list Z) (s : State) : State :=
  {| createTimestamps := l; activeSessionIds := activeSessionIds s;
     pendingReservations := pendingReservations s; queue := queue s;
     processTimer := processTimer s; leases := leases s |}.

Definition set_activeSessionIds (a : gset string) (s : State) : State :=
  {| createTimestamps := createTimestamps s; activeSessionIds := a;
     pendingReservations := pendingReservations s; queue := queue s;
     processTimer := processTimer s; leases := leases s |}.

Definition set_pendingReservations (p : Z) (s : State) : State :=
  {| createTimestamps := createTimestamps s; activeSessionIds := activeSessionIds s;
     pendingReservations := p; queue := queue s;
     processTimer := processTimer s; leases := leases s |}.

Definition set_queue (q : list QueueItem) (s : State) : State :=
  {| createTimestamps := createTimestamps s; activeSessionIds := activeSessionIds s;
     pendingReservations := pendingReservations s; queue := q;
     processTimer := processTimer s; leases := leases s |}.

Definition set_processTimer (t : option Z) (s : State) : State :=
  {| createTimestamps := createTimestamps s; activeSessionIds := activeSessionIds s;
     pendingReservations := pendingReservations s; queue := queue s;
     processTimer := t; leases := leases s |}.

Definition set_leases (l : list Lease) (s : State) : State :=
  {| createTimestamps := createTimestamps s; activeSessionIds := activeSessionIds s;
     pendingReservations := pendingReservations s; queue := queue s;
     processTimer := processTimer s; leases := l |}.

(** [while (ts.length > 0 && ts[0] <= cutoff) ts.shift()] *)
Fixpoint shiftExpired (cutoff : Z) (ts : list Z) : list Z :=
  match ts with
  | [] => []
  | t :: rest => if t <=? cutoff then shiftExpired cutoff rest else ts
  end.

Definition pruneCreateTimestamps (now : Z) (s : State) : State :=
  set_createTimestamps (shiftExpired (now - CREATE_WINDOW_MS) (createTimestamps s)) s.

(** [logStats] writes to the console; its only effect on the limiter is the
    pruning it starts with. *)
Definition logStats (now : Z) (s : State) : State := pruneCreateTimestamps now s.

Definition clearProcessTimer (s : State) : State := set_processTimer None s.

Definition trackedConcurrent (s : State) : Z :=
  Z.of_nat (size (activeSessionIds s)) + pendingReservations s.

Definition hasConcurrentCapacity (cfg : Config) (s : State) : bool :=
  trackedConcurrent s <? maxConcurrentSessions cfg.

(** [hasRateCapacity] prunes, then compares: it returns the pruned state
    with its answer. *)
Definition hasRateCapacity (cfg : Config) (now : Z) (s : State) : State * bool :=
  let s := pruneCreateTimestamps now s in
  (s, Z.of_nat (length (createTimestamps s)) <? maxCreatesPerMinute cfg).

Definition canGrantNextLease (cfg : Config) (now : Z) (s : State) : State * bool :=
  let '(s, rate) := hasRateCapacity cfg now s in
  (s, rate && hasConcurrentCapacity cfg s).

(** [createLease]: a fresh closure with [finalized = false]. *)
Definition createLease (src : string) (s : State) : State :=
  set_leases (leases s ++ [{| lease_source := src; finalized := false |}]) s.

(** One turn of the body of the [while] loop of [processQueue], for the
    item just shifted off the queue. *)
Definition grant (now : Z) (item : QueueItem) (s : State) : State :=
  let s := set_pendingReservations (pendingReservations s + 1) s in
  let s := set_createTimestamps (createTimestamps s ++ [now]) s in
  let s := logStats now s in
  createLease (source item) s.

(** The [while] loop of [processQueue]; every turn shifts the head of the
    queue, so the loop is a recursion on the queue. *)
Fixpoint grantWhilePossible (cfg : Config) (now : Z) (q : list QueueItem)
    (s : State) : State :=
  match q with
  | [] => set_queue [] s
  | item :: rest =>
      let '(s, ok) := canGrantNextLease cfg now s in
      if ok then grantWhilePossible cfg now rest (grant now item (set_queue rest s))
      else set_queue q s
  end.

Definition scheduleWhenRateWindowOpens (now : Z) (s : State) : State :=
  match queue s, createTimestamps s with
  | [], _ => s
  | _, [] => s
  | _ :: _, t0 :: _ =>
      let nextAvailableAt := t0 + CREATE_WINDOW_MS in
      let delayMs := Z.max (nextAvailableAt - now) 50 in
      set_processTimer (Some delayMs) s
  end.

Definition processQueue (cfg : Config) (now : Z) (s : State) : State :=
  let s := clearProcessTimer s in
  let s := pruneCreateTimestamps now s in
  let s := grantWhilePossible cfg now (queue s) s in
  match queue s with
  | [] => s
  | _ :: _ =>
      if hasConcurrentCapacity cfg s then scheduleWhenRateWindowOpens now s else s
  end.

Definition acquireCreateLease (cfg : Config) (now : Z) (src : string) (s : State) : State :=
  let s := set_queue (queue s ++ [{| source := src |}]) s in
  let s := logStats now s in
  processQueue cfg now s.

(** [if (!sessionId) return]: of the strings only the empty one is falsy. *)
Definition falsy (sessionId : string) : bool := bool_decide (sessionId = "").

Definition registerActiveSession (cfg : Config) (now : Z) (sessionId : string)
    (s : State) : State :=
  if falsy sessionId then s
  else processQueue cfg now (set_activeSessionIds ({[sessionId]} ∪ activeSessionIds s) s).

Definition releaseActiveSession (cfg : Config) (now : Z) (sessionId : string)
    (s : State) : State :=
  if falsy sessionId then s
  else if bool_decide (sessionId ∈ activeSessionIds s)
       then processQueue cfg now
              (set_activeSessionIds (activeSessionIds s ∖ {[sessionId]}) s)
       else s.

(** [getStats] only has the effect of its pruning. *)
Definition getStats (now : Z) (s : State) : State := pruneCreateTimestamps now s.

(** [finalize] of the lease at position [k]; [sessionId = None] is the call
    without an argument. *)
Definition finalize (cfg : Config) (now : Z) (k : nat) (sessionId : option string)
    (s : State) : State :=
  match leases s !! k with
  | None => s
  | Some l =>
      if finalized l then s
      else
        let s := set_leases
                   (<[k := {| lease_source := lease_source l; finalized := true |}]>
                      (leases s)) s in
        let s := if 0 <? pendingReservations s
                 then set_pendingReservations (pendingReservations s - 1) s else s in
        let s := match sessionId with
                 | Some sid =>
                     if falsy sid then s
                     else set_activeSessionIds ({[sid]} ∪ activeSessionIds s) s
                 | None => s
                 end in
        processQueue cfg now s
  end.

(** A lease that was never handed out has no closure to call: the call
    is modelled as leaving the limiter as it is. *)
Definition confirmCreated (cfg : Config) (now : Z) (k : nat) (sessionId : string)
    (s : State) : State :=
  match leases s !! k with
  | None => s
  | Some _ =>
      if falsy sessionId then finalize cfg now k None s
      else finalize cfg now k (Some sessionId) (logStats now s)
  end.

Definition cancel (cfg : Config) (now : Z) (k : nat) (s : State) : State :=
  finalize cfg now k None s.

(** The timer callback: [this.processTimer = null; this.processQueue()].
    It runs only when a timer is armed. *)
Definition timerFired (cfg : Config) (now : Z) (s : State) : State :=
  match processTimer s with
  | None => s
  | Some _ => processQueue cfg now (set_processTimer None s)
  end.

Inductive Event :=
| AcquireCreateLease (src : string)
| ConfirmCreated (k : nat) (sessionId : string)
| Cancel (k : nat)
| RegisterActiveSession (sessionId : string)
| ReleaseActiveSession (sessionId : string)
| GetStats
| TimerFired.

(** One callback of the event loop, run at clock reading [now]. *)
Definition step (cfg : Config) (s : State) (e : Z * Event) : State :=
  let '(now, ev) := e in
  match ev with
  | AcquireCreateLease src => acquireCreateLease cfg now src s
  | ConfirmCreated k sid => confirmCreated cfg now k sid s
  | Cancel k => cancel cfg now k s
  | RegisterActiveSession sid => registerActiveSession cfg now sid s
  | ReleaseActiveSession sid => releaseActiveSession cfg now sid s
  | GetStats => getStats now s
  | TimerFired => timerFired cfg now s
  end.

Definition run (cfg : Config) (s : State) (es : list (Z * Event)) : State :=
  foldl (step cfg) s es.

(** The k-th request has been granted a lease. *)
Definition granted (k : nat) (s : State) : bool := bool_decide (k < length (leases s))%nat.

(** The two methods of a lease object. *)
Inductive LeaseCall :=
| CallConfirmCreated (sessionId : string)
| CallCancel.

(** A call of a method of lease [k] at clock reading [c.1]. *)
Definition call (cfg : Config) (k : nat) (s : State) (c : Z * LeaseCall) : State :=
  match c.2 with
  | CallConfirmCreated sid => confirmCreated cfg c.1 k sid s
  | CallCancel => cancel cfg c.1 k s
  end.

(** What [getStats] reports of the accounting, with the queue itself. *)
Definition observable (s : State) : Z * gset string * list QueueItem :=
  (pendingReservations s, activeSessionIds s, queue s).

(** Number of leases handed out and not yet confirmed or cancelled. *)
Definition outstanding (ls : list Lease) : Z :=
  Z.of_nat (length (filter (λ l, finalized l = false) ls)).

(** The accounting invariant of a limiter that is only driven through
    leases: both budgets are respected, and the pending counter counts
    exactly the outstanding leases. *)
Record Inv (cfg : Config) (s : State) : Prop := {
  inv_concurrent : trackedConcurrent s <= maxConcurrentSessions cfg;
  inv_rate : Z.of_nat (length (createTimestamps s)) <= maxCreatesPerMinute cfg;
  inv_pending : pendingReservations s = outstanding (leases s);
}.

(** The first effects of [finalize] on an outstanding lease: the flag is
    set and the pending counter is decremented. *)
Definition mark (k : nat) (l : Lease) (s : State) : State :=
  set_pendingReservations (pendingReservations s - 1)
    (set_leases (<[k := {| lease_source := lease_source l; finalized := true |}]> (leases s)) s).

(** The process-wide limiter with [BROWSERBASE_MAX_CONCURRENT_SESSIONS=1]
    and the default creation rate. *)
Definition single_slot : Config := getLimiter_config None (Some 1).

End Limiter.

(** * The interaction synthesizer *)

Module Synth.

Inductive InteractionType := user_event | tab_navigation | frame_navigation.

Definition type_name (t : InteractionType) : string :=
  match t with
  | user_event => "user_event"
  | tab_navigation => "tab_navigation"
  | frame_navigation => "frame_navigation"
  end.

(** [Interaction['element']]: the four named fields and the free-form
    attributes. *)
Record Element := {
  tagName : option string;
  text : option string;
  selector : option string;
  href : option string;
  attributes : list (string * string);
}.

(** The payload delivered by the in-page binding or by the screencast
    frame.  [combo] is absent from incoming events; [handleKeydown] adds it
    to the copy it stores for a modifier combination. *)
Record EventData := {
  ev_type : string;
  key : string;
  target : option Element;
  ctrlKey : bool;
  altKey : bool;
  metaKey : bool;
  shiftKey : bool;
  x : option Z;
  y : option Z;
  combo : option string;
}.

Inductive Data :=
| NoData
| EventPayload (e : EventData)
| NavigationPayload (url frameId name pageId : string).

Record Interaction := {
  id : string;
  type : InteractionType;
  timestamp : Z;
  pageId : string;
  screenshotUrl : option string;
  element : Element;
  data : Data;
}.

(** [typingBufferRef.current] *)
Record TypingBuffer := {
  interactionId : string;
  buffered : string;
  lastTimestamp : Z;
  buffer_selector : string;
}.

Record State := {
  interactions : list Interaction;
  typingBuffer : option TypingBuffer;
  lastNavigationRefresh : Z;
  lastClickTimestamp : Z;
  lastKeydown : option (string * Z);
}.

Definition init : State :=
  {| interactions := []; typingBuffer := None; lastNavigationRefresh := 0;
     lastClickTimestamp := 0; lastKeydown := None |}.

Definition set_interactions (l : list Interaction) (s : State) : State :=
  {| interactions := l; typingBuffer := typingBuffer s;
     lastNavigationRefresh := lastNavigationRefresh s;
     lastClickTimestamp := lastClickTimestamp s; lastKeydown := lastKeydown s |}.

Definition set_typingBuffer (b : option TypingBuffer) (s : State) : State :=
  {| interactions := interactions s; typingBuffer := b;
     lastNavigationRefresh := lastNavigationRefresh s;
     lastClickTimestamp := lastClickTimestamp s; lastKeydown := lastKeydown s |}.

Definition set_lastNavigationRefresh (t : Z) (s : State) : State :=
  {| interactions := interactions s; typingBuffer := typingBuffer s;
     lastNavigationRefresh := t;
     lastClickTimestamp := lastClickTimestamp s; lastKeydown := lastKeydown s |}.

Definition set_lastClickTimestamp (t : Z) (s : State) : State :=
  {| interactions := interactions s; typingBuffer := typingBuffer s;
     lastNavigationRefresh := lastNavigationRefresh s;
     lastClickTimestamp := t; lastKeydown := lastKeydown s |}.

Definition set_lastKeydown (k : option (string * Z)) (s : State) : State :=
  {| interactions := interactions s; typingBuffer := typingBuffer s;
     lastNavigationRefresh := lastNavigationRefresh s;
     lastClickTimestamp := lastClickTimestamp s; lastKeydown := k |}.

(** ** Strings *)

(** [s.endsWith(c)] for a one-character [c] *)
Fixpoint endsWith (c : ascii) (s : string) : bool :=
  match s with
  | EmptyString => false
  | String a EmptyString => Ascii.eqb a c
  | String _ rest => endsWith c rest
  end.

(** [s.lastIndexOf(c)]; [None] stands for -1. *)
Fixpoint lastIndexOf (c : ascii) (s : string) : option nat :=
  match s with
  | EmptyString => None
  | String a rest =>
      match lastIndexOf c rest with
      | Some i => Some (S i)
      | None => if Ascii.eqb a c then Some 0%nat else None
      end
  end.

(** [s.slice(0, -1)] *)
Definition dropLast (s : string) : string :=
  String.substring 0 (String.length s - 1) s.

(** [c.toUpperCase()] on the ASCII letters; any other character is left as
    it is (JavaScript also maps letters outside ASCII). *)
Definition upper (c : ascii) : ascii :=
  let n := nat_of_ascii c in
  if (97 <=? n)%nat && (n <=? 122)%nat then ascii_of_nat (n - 32) else c.

Fixpoint toUpperCase (s : string) : string :=
  match s with
  | EmptyString => EmptyString
  | String a rest => String (upper a) (toUpperCase rest)
  end.

(** [modifiers.join('+')] *)
Fixpoint join (sep : string) (l : list string) : string :=
  match l with
  | [] => ""
  | [a] => a
  | a :: rest => a +:+ sep +:+ join sep rest
  end.

(** ** Identifiers: [`${prefix}-${Date.now()}-${Math.random()...}`] *)
Definition fresh_id (prefix : string) (now : Z) (rnd : string) : string :=
  prefix +:+ "-" +:+ pretty now +:+ "-" +:+ rnd.

(** ** Entry points *)

Definition clearInteractions (s : State) : State :=
  set_typingBuffer None (set_interactions [] s).

Definition removeInteraction (i : string) (s : State) : State :=
  set_interactions (filter (λ x, id x ≠ i) (interactions s)) s.

(** [addInteraction(type, element, pageId, data)].  The notification of
    [onInteraction] and the screenshot request leave the state alone; the
    cropped screenshot comes back later through [screenshotCropped]. *)
Definition addInteraction (now : Z) (rnd : string) (ty : InteractionType)
    (el : Element) (page : option string) (d : Data) (s : State) : State :=
  let s := set_typingBuffer None s in
  let interactionId := fresh_id (type_name ty) now rnd in
  let interaction :=
    {| id := interactionId; type := ty; timestamp := now;
       pageId := default "" page; screenshotUrl := None;
       element := el; data := d |} in
  set_interactions (interactions s ++ [interaction]) s.

(** The continuation of [cropScreenshotAroundClick]:
    [prev.map(i => i.id === interactionId ? {...i, screenshotUrl} : i)] *)
Definition screenshotCropped (interactionId croppedUrl : string) (s : State) : State :=
  set_interactions
    (map (λ i, if bool_decide (id i = interactionId)
               then {| id := id i; type := type i; timestamp := timestamp i;
                       pageId := pageId i; screenshotUrl := Some croppedUrl;
                       element := element i; data := data i |}
               else i) (interactions s)) s.

(** [{ ...el, text: t }] *)
Definition with_text (t : string) (el : Element) : Element :=
  {| tagName := tagName el; text := Some t; selector := selector el;
     href := href el; attributes := attributes el |}.

(** [{ ...target }] of a possibly missing target *)
Definition spread (target : option Element) : Element :=
  default {| tagName := None; text := None; selector := None; href := None;
             attributes := [] |} target.

(** [target?.selector || 'unknown'] *)
Definition selector_of (e : EventData) : string :=
  match target e ≫= selector with
  | Some sel => if bool_decide (sel = "") then "unknown" else sel
  | None => "unknown"
  end.

(** The update both typing branches apply to the interaction list. *)
Definition retext (interactionId : string) (now : Z) (t : string)
    (prev : list Interaction) : list Interaction :=
  match list_find (λ i, id i = interactionId) prev with
  | None => prev
  | Some (index, i) =>
      <[index := {| id := id i; type := type i; timestamp := now;
                    pageId := pageId i; screenshotUrl := screenshotUrl i;
                    element := with_text t (element i); data := data i |}]> prev
  end.

(** The text left by a Backspace (lines 1035-1046). *)
Definition backspaced (currentText : string) : string :=
  if endsWith "]"%char currentText then
    match lastIndexOf "["%char currentText with
    | Some bracketStart => String.substring 0 bracketStart currentText
    | None => dropLast currentText
    end
  else dropLast currentText.

(** [key.length === 1 ? key : `[${key}]`] *)
Definition char_of (k : string) : string :=
  if (String.length k =? 1)%nat then k else "[" +:+ k +:+ "]".

Definition is_modifier_key (k : string) : bool :=
  bool_decide (k ∈ ["Shift"; "Control"; "Alt"; "Meta"; "CapsLock"]).

(** The de-duplication test on [lastKeydownRef]. *)
Definition duplicate_keydown (now : Z) (k : string) (s : State) : bool :=
  match lastKeydown s with
  | Some (k0, t0) => bool_decide (k0 = k) && (now - t0 <? 50)
  | None => false
  end.

(** The test shared by the Backspace and the append branch: a buffer is
    active for [sel] and was updated less than 3000 ms ago. *)
Definition mergeable (now : Z) (sel : string) (s : State) : option TypingBuffer :=
  match typingBuffer s with
  | Some b =>
      if bool_decide (buffer_selector b = sel) && (now - lastTimestamp b <? 3000)
      then Some b else None
  | None => None
  end.

Definition combo_of (e : EventData) : string :=
  join "+"
    ((if ctrlKey e then ["Ctrl"] else []) ++
     (if altKey e then ["Alt"] else []) ++
     (if metaKey e then ["Cmd"] else []) ++
     [if (String.length (key e) =? 1)%nat then toUpperCase (key e) else key e]).

(** [{ ...eventData, type: ty, combo }] *)
Definition retype (ty : string) (c : option string) (e : EventData) : EventData :=
  {| ev_type := ty; key := key e; target := target e; ctrlKey := ctrlKey e;
     altKey := altKey e; metaKey := metaKey e; shiftKey := shiftKey e;
     x := x e; y := y e; combo := c |}.

Definition handleKeydown (now : Z) (rnd : string) (eventData : EventData)
    (page : option string) (s : State) : State :=
  let k := key eventData in
  if is_modifier_key k then s
  else if duplicate_keydown now k s then s
  else
    let s := set_lastKeydown (Some (k, now)) s in
    let sel := selector_of eventData in
    if ctrlKey eventData || altKey eventData || metaKey eventData then
      let c := combo_of eventData in
      let s := set_typingBuffer None s in
      let newInteraction :=
        {| id := fresh_id "keypress" now rnd; type := user_event; timestamp := now;
           pageId := default "" page; screenshotUrl := None;
           element :=
             {| tagName := Some "KEYPRESS"; text := Some c;
                selector := selector (spread (target eventData));
                href := href (spread (target eventData));
                attributes := attributes (spread (target eventData)) |};
           data := EventPayload (retype "keypress" (Some c) eventData) |} in
      set_interactions (interactions s ++ [newInteraction]) s
    else if bool_decide (k = "Backspace") then
      match mergeable now sel s with
      | Some b =>
          if (0 <? String.length (buffered b))%nat then
            let currentText := backspaced (buffered b) in
            let s := set_typingBuffer
                       (Some {| interactionId := interactionId b; buffered := currentText;
                                lastTimestamp := now;
                                buffer_selector := buffer_selector b |}) s in
            set_interactions (retext (interactionId b) now currentText (interactions s)) s
          else s
      | None => s
      end
    else
      let char := char_of k in
      match mergeable now sel s with
      | Some b =>
          let newText := buffered b +:+ char in
          let s := set_typingBuffer
                     (Some {| interactionId := interactionId b; buffered := newText;
                              lastTimestamp := now;
                              buffer_selector := buffer_selector b |}) s in
          set_interactions (retext (interactionId b) now newText (interactions s)) s
      | None =>
          let newId := fresh_id "typing" now rnd in
          let newInteraction :=
            {| id := newId; type := user_event; timestamp := now;
               pageId := default "" page; screenshotUrl := None;
               element := with_text char (spread (target eventData));
               data := EventPayload (retype "keydown" (combo eventData) eventData) |} in
          let s := set_typingBuffer
                     (Some {| interactionId := newId; buffered := char;
                              lastTimestamp := now; buffer_selector := sel |}) s in
          set_interactions (interactions s ++ [newInteraction]) s
      end.

(** [eventData.target || { tagName: 'CLICK', text: 'click', selector: 'unknown' }] *)
Definition click_element (e : EventData) : Element :=
  default {| tagName := Some "CLICK"; text := Some "click"; selector := Some "unknown";
             href := None; attributes := [] |} (target e).

(** The click branch, written out twice in the source: in [ws.onmessage] of
    a page connection (lines 277-293) and in [handleScreencastMessage]
    (lines 1149-1162). *)
Definition bindingClick (now : Z) (rnd : string) (eventData : EventData)
    (page : string) (s : State) : State :=
  if now - lastClickTimestamp s <? 100 then s
  else
    let s := set_lastClickTimestamp now s in
    addInteraction now rnd user_event (click_element eventData) (Some page)
      (EventPayload eventData) s.

Definition screencastClick (now : Z) (rnd : string) (eventData : EventData)
    (page : string) (s : State) : State :=
  if now - lastClickTimestamp s <? 100 then s
  else
    let s := set_lastClickTimestamp now s in
    addInteraction now rnd user_event (click_element eventData) (Some page)
      (EventPayload eventData) s.

(** The dispatch on [eventData.type] of a [Runtime.bindingCalled] message
    named [__cdpEvent], on the connection of page [page]. *)
Definition onBindingCalled (now : Z) (rnd : string) (eventData : EventData)
    (page : string) (s : State) : State :=
  if bool_decide (ev_type eventData = "keydown")
  then handleKeydown now rnd eventData (Some page) s
  else if bool_decide (ev_type eventData = "click")
  then bindingClick now rnd eventData page s
  else s.

(** The same dispatch for a [screencast:cdp-event] message; [page] is
    [msg.pageId || '']. *)
Definition onScreencastEvent (now : Z) (rnd : string) (eventData : EventData)
    (page : string) (s : State) : State :=
  if bool_decide (ev_type eventData = "keydown")
  then handleKeydown now rnd eventData (Some page) s
  else if bool_decide (ev_type eventData = "click")
  then screencastClick now rnd eventData page s
  else s.

(** A main-frame navigation, on either path: accepted when more than
    1000 ms passed since the last accepted one.  The answer tells the
    caller whether it was accepted. *)
Definition frameNavigated (now : Z) (rnd : string) (url frameId name page : string)
    (s : State) : State * bool :=
  if 1000 <? now - lastNavigationRefresh s then
    let s := set_lastNavigationRefresh now s in
    (addInteraction now rnd frame_navigation
       {| tagName := Some "FRAME_NAVIGATION"; text := Some ("Navigated to " +:+ url);
          selector := Some frameId; href := Some url; attributes := [] |}
       (Some page) (NavigationPayload url frameId name page) s, true)
  else (s, false).

(** ** Keystroke sequences *)

Record Keystroke := {
  at_time : Z;
  random : string;
  event : EventData;
  on_page : option string;
}.

Definition press (s : State) (k : Keystroke) : State :=
  handleKeydown (at_time k) (random k) (event k) (on_page k) s.

Definition type_keys (s : State) (ks : list Keystroke) : State := foldl press s ks.

(** A plain keydown: not a lone modifier key, no Ctrl, Alt or Meta held,
    and not Backspace. *)
Definition plain (e : EventData) : bool :=
  negb (is_modifier_key (key e)) && negb (ctrlKey e) && negb (altKey e)
  && negb (metaKey e) && negb (bool_decide (key e = "Backspace")).

(** A keydown of key [k] on the element selected by [sel]. *)
Definition keydown (k sel : string) : EventData :=
  {| ev_type := "keydown"; key := k;
     target := Some {| tagName := Some "INPUT"; text := None; selector := Some sel;
                       href := None; attributes := [] |};
     ctrlKey := false; altKey := false; metaKey := false; shiftKey := false;
     x := None; y := None; combo := None |}.

Definition stroke (t : Z) (k sel : string) : Keystroke :=
  {| at_time := t; random := "r" +:+ pretty t; event := keydown k sel;
     on_page := Some "page-1" |}.

(** The interaction the append branch creates for keystroke [k0], as it
    reads once its text has become [txt] at time [tlast]. *)
Definition typing_interaction (k0 : Keystroke) (txt : string) (tlast : Z) : Interaction :=
  {| id := fresh_id "typing" (at_time k0) (random k0); type := user_event;
     timestamp := tlast; pageId := default "" (on_page k0); screenshotUrl := None;
     element := with_text txt (spread (target (event k0)));
     data := EventPayload (retype "keydown" (combo (event k0)) (event k0)) |}.

(** The keys of a sequence, rendered and concatenated. *)
Fixpoint typed (ks : list Keystroke) : string :=
  match ks with
  | [] => ""
  | k :: rest => char_of (key (event k)) +:+ typed rest
  end.

(** The keystrokes [ks] continue the burst whose last keystroke was [prev]:
    each is plain, on the element selected by [sel], less than 3000 ms
    after its predecessor, and not a repetition of its predecessor's key
    less than 50 ms after it. *)
Fixpoint burst (sel : string) (prev : Keystroke) (ks : list Keystroke) : bool :=
  match ks with
  | [] => true
  | k :: rest =>
      plain (event k)
      && bool_decide (selector_of (event k) = sel)
      && (at_time k - at_time prev <? 3000)
      && negb (bool_decide (key (event prev) = key (event k))
               && (at_time k - at_time prev <? 50))
      && burst sel k rest
  end.

(** The last keystroke of a burst that started with [prev]. *)
Fixpoint final (prev : Keystroke) (ks : list Keystroke) : Keystroke :=
  match ks with
  | [] => prev
  | k :: rest => final k rest
  end.
(** "hello", one key every [gap] ms from time 1000, on the element [#q]. *)
Definition hello (gap : Z) : list Keystroke :=
  [stroke 1000 "h" "#q"; stroke (1000 + gap) "e" "#q"; stroke (1000 + 2 * gap) "l" "#q";
   stroke (1000 + 3 * gap) "l" "#q"; stroke (1000 + 4 * gap) "o" "#q"].

(** Every keystroke comes less than 3000 ms after the one before. *)
Fixpoint within_merge_window (prev : Z) (ks : list Keystroke) : bool :=
  match ks with
  | [] => true
  | k :: rest => (at_time k - prev <? 3000) && within_merge_window (at_time k) rest
  end.

(** Backspace with Ctrl held, on the element selected by [sel]. *)
Definition ctrl_backspace (sel : string) : EventData :=
  {| ev_type := "keydown"; key := "Backspace";
     target := Some {| tagName := Some "INPUT"; text := None; selector := Some sel;
                       href := None; attributes := [] |};
     ctrlKey := true; altKey := false; metaKey := false; shiftKey := false;
     x := None; y := None; combo := None |}.

(** The two places a click comes in through. *)
Inductive ClickPath := BindingPath | ScreencastPath.

Definition click (p : ClickPath) : Z → string → EventData → string → State → State :=
  match p with
  | BindingPath => bindingClick
  | ScreencastPath => screencastClick
  end.

(** A click at the element selected by [sel]. *)
Definition click_at (sel : string) : EventData :=
  {| ev_type := "click"; key := "";
     target := Some {| tagName := Some "BUTTON"; text := Some "Go"; selector := Some sel;
                       href := None; attributes := [] |};
     ctrlKey := false; altKey := false; metaKey := false; shiftKey := false;
     x := Some 10; y := Some 20; combo := None |}.

(** The interaction [addInteraction] appends for an accepted click. *)
Definition click_interaction (now : Z) (rnd : string) (e : EventData) (page : string)
    : Interaction :=
  {| id := fresh_id "user_event" now rnd; type := user_event; timestamp := now;
     pageId := page; screenshotUrl := None; element := click_element e;
     data := EventPayload e |}.

End Synth.

(** * The protocol bridge *)

Module Bridge.

Inductive ReadyState := CONNECTING | OPEN | CLOSING | CLOSED.

#[global] Instance ReadyState_eq_dec : EqDecision ReadyState.
Proof. solve_decision. Defined.

Record CDPError := { code : Z; message : string }.

(** A result object: its JSON text, and the [result.value] field the title
    and favicon handlers read. *)
Record CDPResult := { json : string; value : option string }.

(** [message.result || {}] *)
Definition empty_result : CDPResult := {| json := "{}"; value := None |}.

Record TargetInfo := {
  target_type : string;
  targetId : string;
  target_url : option string;
}.

Record Frame := {
  frame_id : string;
  parentId : option string;
  frame_url : string;
  frame_name : string;
}.

(** The [params] of a message: the three shapes the bridge looks into, and
    anything else.  [payload] of a binding call is the result of
    [JSON.parse(payload || '{}')], [None] when it throws. *)
Inductive Params :=
| NoParams
| Opaque (text : string)
| BindingCalled (name : string) (payload : option Synth.EventData)
| TargetCreated (targetInfo : option TargetInfo)
| FrameNavigated (frame : option Frame).

(** [CDPMessage].  [msg_id = None] is [message.id === undefined]; an id
    that is not an integer matches no key of the pending map and is
    represented the same way.  Ids are unbounded integers here; the
    counters of the source are doubles, exact up to 2^53. *)
Record CDPMessage := {
  msg_id : option Z;
  method : option string;
  params : Params;
  result : option CDPResult;
  error : option CDPError;
}.

Record BrowserCDPState := { isConnected : bool; state_error : option string }.

(** Which counter an outgoing id was read from: [messageIdRef], shared by
    the whole hook, or the [msgId] variable of one page connection. *)
Inductive Counter := Shared | Local.

Inductive Callback :=
| onFrameNavigation (url frameId pageId : string)
| onTitleUpdate (title pageId : string)
| onFaviconUpdate (faviconUrl pageId : string)
| onNewTabDetected (target url : string)
| onWebSocketDisconnected.

(** What a handler does to the outside: frames written to a socket, calls
    of the [resolve] and [reject] functions of a promise, and calls of the
    callbacks of the owner of the hook. *)
Inductive Effect :=
| WsSend (ws : nat) (counter : Counter) (id : Z) (meth : string) (args : Params)
| Resolve (promise : nat) (r : CDPResult)
| Reject (promise : nat) (reason : string)
| Call (c : Callback).

(** A ['message'] listener added with [addEventListener]. *)
Inductive Listener :=
| CommandListener (id : Z) (promise : nat)
| TitleFaviconListener (titleMsgId faviconMsgId : Z) (pageId : string).

(** A [sendToPage] call waiting for its socket to open. *)
Record Queued := { q_promise : nat; q_method : string; q_params : string }.

Inductive Role := ControlSocket | PageSocket.

(** A [WebSocket] object with what its handlers close over. *)
Record WebSocket := {
  role : Role;
  page : string;
  readyState : ReadyState;
  msgId : Z;
  messageListeners : list (nat * Listener);
  openListeners : list Queued;
  errorListeners : list nat;
}.

(** The closure of a [setTimeout] or [setInterval]. *)
Inductive Timer :=
| SendTimeout (id : Z) (promise : nat) (meth : string)
| PageCommandTimeout (ws listener promise : nat) (meth : string)
| RemoveListener (ws listener : nat)
| NavigationEnrichment (ws : nat) (pageId : string)
| KeepAliveInterval (pageId : string) (ws : nat).

Definition is_interval (t : Timer) : bool :=
  match t with KeepAliveInterval _ _ => true | _ => false end.

(** The refs and the state of the hook, the heap of the objects it
    created (sockets, timers; promises and listeners are named by handles
    drawn from [nextHandle]), and the trace of its effects. *)
Record State := {
  messageIdRef : Z;
  pendingRequests : gmap Z nat;
  wsRef : option nat;
  currentPageIdRef : option string;
  pageSessions : gmap string nat;
  keepAliveIntervals : gmap string nat;
  knownPageIds : gset string;
  state : BrowserCDPState;
  sockets : gmap nat WebSocket;
  timers : gmap nat (Z * Timer);
  nextHandle : nat;
  synth : Synth.State;
  trace : list Effect;
}.

Definition init : State :=
  {| messageIdRef := 1; pendingRequests := ∅; wsRef := None; currentPageIdRef := None;
     pageSessions := ∅; keepAliveIntervals := ∅; knownPageIds := ∅;
     state := {| isConnected := false; state_error := None |};
     sockets := ∅; timers := ∅; nextHandle := 0; synth := Synth.init; trace := [] |}.

Definition set_messageIdRef (v : Z) (s : State) : State :=
  {| messageIdRef := v; pendingRequests := pendingRequests s; wsRef := wsRef s;
     currentPageIdRef := currentPageIdRef s; pageSessions := pageSessions s;
     keepAliveIntervals := keepAliveIntervals s; knownPageIds := knownPageIds s;
     state := state s; sockets := sockets s; timers := timers s; nextHandle :=
     nextHandle s; synth := synth s; trace := trace s |}.

Definition set_pendingRequests (v : gmap Z nat) (s : State) : State :=
  {| messageIdRef := messageIdRef s; pendingRequests := v; wsRef := wsRef s;
     currentPageIdRef := currentPageIdRef s; pageSessions := pageSessions s;
     keepAliveIntervals := keepAliveIntervals s; knownPageIds := knownPageIds s;
     state := state s; sockets := sockets s; timers := timers s; nextHandle :=
     nextHandle s; synth := synth s; trace := trace s |}.

Definition set_wsRef (v : option nat) (s : State) : State :=
  {| messageIdRef := messageIdRef s; pendingRequests := pendingRequests s; wsRef :=
     v; currentPageIdRef := currentPageIdRef s; pageSessions := pageSessions s;
     keepAliveIntervals := keepAliveIntervals s; knownPageIds := knownPageIds s;
     state := state s; sockets := sockets s; timers := timers s; nextHandle :=
     nextHandle s; synth := synth s; trace := trace s |}.

Definition set_currentPageIdRef (v : option string) (s : State) : State :=
  {| messageIdRef := messageIdRef s; pendingRequests := pendingRequests s; wsRef :=
     wsRef s; currentPageIdRef := v; pageSessions := pageSessions s;
     keepAliveIntervals := keepAliveIntervals s; knownPageIds := knownPageIds s;
     state := state s; sockets := sockets s; timers := timers s; nextHandle :=
     nextHandle s; synth := synth s; trace := trace s |}.

Definition set_pageSessions (v : gmap string nat) (s : State) : State :=
  {| messageIdRef := messageIdRef s; pendingRequests := pendingRequests s; wsRef :=
     wsRef s; currentPageIdRef := currentPageIdRef s; pageSessions := v;
     keepAliveIntervals := keepAliveIntervals s; knownPageIds := knownPageIds s;
     state := state s; sockets := sockets s; timers := timers s; nextHandle :=
     nextHandle s; synth := synth s; trace := trace s |}.

Definition set_keepAliveIntervals (v : gmap string nat) (s : State) : State :=
  {| messageIdRef := messageIdRef s; pendingRequests := pendingRequests s; wsRef :=
     wsRef s; currentPageIdRef := currentPageIdRef s; pageSessions := pageSessions s;
     keepAliveIntervals := v; knownPageIds := knownPageIds s; state := state s;
     sockets := sockets s; timers := timers s; nextHandle := nextHandle s; synth :=
     synth s; trace := trace s |}.

Definition set_knownPageIds (v : gset string) (s : State) : State :=
  {| messageIdRef := messageIdRef s; pendingRequests := pendingRequests s; wsRef :=
     wsRef s; currentPageIdRef := currentPageIdRef s; pageSessions := pageSessions s;
     keepAliveIntervals := keepAliveIntervals s; knownPageIds := v; state := state s;
     sockets := sockets s; timers := timers s; nextHandle := nextHandle s; synth :=
     synth s; trace := trace s |}.

Definition set_state (v : BrowserCDPState) (s : State) : State :=
  {| messageIdRef := messageIdRef s; pendingRequests := pendingRequests s; wsRef :=
     wsRef s; currentPageIdRef := currentPageIdRef s; pageSessions := pageSessions s;
     keepAliveIntervals := keepAliveIntervals s; knownPageIds := knownPageIds s;
     state := v; sockets := sockets s; timers := timers s; nextHandle := nextHandle
     s; synth := synth s; trace := trace s |}.

Definition set_sockets (v : gmap nat WebSocket) (s : State) : State :=
  {| messageIdRef := messageIdRef s; pendingRequests := pendingRequests s; wsRef :=
     wsRef s; currentPageIdRef := currentPageIdRef s; pageSessions := pageSessions s;
     keepAliveIntervals := keepAliveIntervals s; knownPageIds := knownPageIds s;
     state := state s; sockets := v; timers := timers s; nextHandle := nextHandle s;
     synth := synth s; trace := trace s |}.

Definition set_timers (v : gmap nat (Z * Timer)) (s : State) : State :=
  {| messageIdRef := messageIdRef s; pendingRequests := pendingRequests s; wsRef :=
     wsRef s; currentPageIdRef := currentPageIdRef s; pageSessions := pageSessions s;
     keepAliveIntervals := keepAliveIntervals s; knownPageIds := knownPageIds s;
     state := state s; sockets := sockets s; timers := v; nextHandle := nextHandle s;
     synth := synth s; trace := trace s |}.

Definition set_nextHandle (v : nat) (s : State) : State :=
  {| messageIdRef := messageIdRef s; pendingRequests := pendingRequests s; wsRef :=
     wsRef s; currentPageIdRef := currentPageIdRef s; pageSessions := pageSessions s;
     keepAliveIntervals := keepAliveIntervals s; knownPageIds := knownPageIds s;
     state := state s; sockets := sockets s; timers := timers s; nextHandle := v;
     synth := synth s; trace := trace s |}.

Definition set_synth (v : Synth.State) (s : State) : State :=
  {| messageIdRef := messageIdRef s; pendingRequests := pendingRequests s; wsRef :=
     wsRef s; currentPageIdRef := currentPageIdRef s; pageSessions := pageSessions s;
     keepAliveIntervals := keepAliveIntervals s; knownPageIds := knownPageIds s;
     state := state s; sockets := sockets s; timers := timers s; nextHandle :=
     nextHandle s; synth := v; trace := trace s |}.

Definition set_trace (v : list Effect) (s : State) : State :=
  {| messageIdRef := messageIdRef s; pendingRequests := pendingRequests s; wsRef :=
     wsRef s; currentPageIdRef := currentPageIdRef s; pageSessions := pageSessions s;
     keepAliveIntervals := keepAliveIntervals s; knownPageIds := knownPageIds s;
     state := state s; sockets := sockets s; timers := timers s; nextHandle :=
     nextHandle s; synth := synth s; trace := v |}.


(** Which callbacks the owner of the hook passed. *)
Record InteractionCallbacks := {
  has_onFrameNavigation : bool;
  has_onTitleUpdate : bool;
  has_onFaviconUpdate : bool;
  has_onNewTabDetected : bool;
  has_onWebSocketDisconnected : bool;
}.

(** The arguments of [useBrowserCDP]. *)
Record Hook := {
  sessionId : option string;
  callbacks : InteractionCallbacks;
}.

(** [!sessionId] is false *)
Definition has_session (h : Hook) : bool :=
  match sessionId h with
  | Some sid => negb (bool_decide (sid = ""))
  | None => false
  end.

(** ** Primitives *)

Definition emit (e : Effect) (s : State) : State := set_trace (trace s ++ [e]) s.

Definition call_if (present : bool) (c : Callback) (s : State) : State :=
  if present then emit (Call c) s else s.

(** A new object: its handle, and the state with the counter moved on. *)
Definition fresh (s : State) : nat * State :=
  (nextHandle s, set_nextHandle (S (nextHandle s)) s).

(** [messageIdRef.current++] *)
Definition next_id (s : State) : Z * State :=
  (messageIdRef s, set_messageIdRef (messageIdRef s + 1) s).

Definition ready (ws : nat) (s : State) : option ReadyState :=
  readyState <$> sockets s !! ws.

Definition is_open (ws : nat) (s : State) : bool :=
  bool_decide (ready ws s = Some OPEN).

(** [readyState === OPEN || readyState === CONNECTING] *)
Definition open_or_connecting (ws : nat) (s : State) : bool :=
  bool_decide (ready ws s = Some OPEN) || bool_decide (ready ws s = Some CONNECTING).

Definition with_readyState (r : ReadyState) (w : WebSocket) : WebSocket :=
  {| role := role w; page := page w; readyState := r; msgId := msgId w;
     messageListeners := messageListeners w; openListeners := openListeners w;
     errorListeners := errorListeners w |}.

Definition with_msgId (n : Z) (w : WebSocket) : WebSocket :=
  {| role := role w; page := page w; readyState := readyState w; msgId := n;
     messageListeners := messageListeners w; openListeners := openListeners w;
     errorListeners := errorListeners w |}.

Definition with_messageListeners (l : list (nat * Listener)) (w : WebSocket) : WebSocket :=
  {| role := role w; page := page w; readyState := readyState w; msgId := msgId w;
     messageListeners := l; openListeners := openListeners w;
     errorListeners := errorListeners w |}.

Definition with_openListeners (l : list Queued) (w : WebSocket) : WebSocket :=
  {| role := role w; page := page w; readyState := readyState w; msgId := msgId w;
     messageListeners := messageListeners w; openListeners := l;
     errorListeners := errorListeners w |}.

Definition with_errorListeners (l : list nat) (w : WebSocket) : WebSocket :=
  {| role := role w; page := page w; readyState := readyState w; msgId := msgId w;
     messageListeners := messageListeners w; openListeners := openListeners w;
     errorListeners := l |}.

Definition update_socket (ws : nat) (f : WebSocket → WebSocket) (s : State) : State :=
  set_sockets (alter f ws (sockets s)) s.

(** [new WebSocket(url)] *)
Definition new_socket (r : Role) (pageId : string) (s : State) : nat * State :=
  let '(ws, s) := fresh s in
  (ws, set_sockets
         (<[ws := {| role := r; page := pageId; readyState := CONNECTING; msgId := 1000;
                     messageListeners := []; openListeners := [];
                     errorListeners := [] |}]> (sockets s)) s).

(** [ws.close()]: an open or connecting socket starts closing; the close
    event comes later. *)
Definition close (ws : nat) (s : State) : State :=
  if open_or_connecting ws s then update_socket ws (with_readyState CLOSING) s else s.

Definition setTimeout (delay : Z) (t : Timer) (s : State) : nat * State :=
  let '(h, s) := fresh s in
  (h, set_timers (<[h := (delay, t)]> (timers s)) s).

Definition clearTimer (h : nat) (s : State) : State :=
  set_timers (delete h (timers s)) s.

Definition addEventListener (ws : nat) (l : Listener) (s : State) : nat * State :=
  let '(h, s) := fresh s in
  (h, update_socket ws
        (λ w, with_messageListeners (messageListeners w ++ [(h, l)]) w) s).

Definition removeEventListener (ws : nat) (h : nat) (s : State) : State :=
  update_socket ws
    (λ w, with_messageListeners (filter (λ x, x.1 ≠ h) (messageListeners w)) w) s.

(** ** Keep-alive *)

Definition setupKeepAlive (pageId : string) (ws : nat) (s : State) : State :=
  let s := match keepAliveIntervals s !! pageId with
           | Some existingInterval => clearTimer existingInterval s
           | None => s
           end in
  let '(interval, s) := setTimeout 2000 (KeepAliveInterval pageId ws) s in
  set_keepAliveIntervals (<[pageId := interval]> (keepAliveIntervals s)) s.

(** One tick of the interval of [setupKeepAlive]. *)
Definition keepAliveTick (ws : nat) (s : State) : State :=
  if is_open ws s then
    let '(id, s) := next_id s in
    emit (WsSend ws Shared id "Runtime.evaluate" (Opaque "{expression:'1',returnByValue:true}")) s
  else s.

(** One tick of the interval of the main connection; the interval exists
    while there is a session and [state.isConnected] holds. *)
Definition mainKeepAliveTick (h : Hook) (s : State) : State :=
  if has_session h && isConnected (state s) then
    match wsRef s with
    | Some ws =>
        if is_open ws s then
          let '(id, s) := next_id s in
          emit (WsSend ws Shared id "Runtime.evaluate"
                  (Opaque "{expression:'1',returnByValue:true}")) s
        else s
    | None => s
    end
  else s.

(** ** Title and favicon queries

    Written out three times in the source (page load, 500 ms after a
    navigation, screencast page load): two ids, one listener, its removal
    after 5 s, two frames. *)
Definition queryTitleAndFavicon (ws : nat) (pageId : string) (s : State) : State :=
  let '(titleMsgId, s) := next_id s in
  let '(faviconMsgId, s) := next_id s in
  let '(handler, s) := addEventListener ws (TitleFaviconListener titleMsgId faviconMsgId pageId) s in
  let '(_, s) := setTimeout 5000 (RemoveListener ws handler) s in
  let s := emit (WsSend ws Shared titleMsgId "Runtime.evaluate"
                   (Opaque "{expression:'document.title',returnByValue:true}")) s in
  emit (WsSend ws Shared faviconMsgId "Runtime.evaluate"
          (Opaque "{expression:'(favicon href)',returnByValue:true}")) s.

(** ** Correlation *)

(** [if (message.error) reject(...) else resolve(message.result || {})] *)
Definition settle (promise : nat) (m : CDPMessage) (s : State) : State :=
  match error m with
  | Some e => emit (Reject promise (message e)) s
  | None => emit (Resolve promise (default empty_result (result m))) s
  end.

(** The first block of both [onmessage] handlers. *)
Definition settlePending (m : CDPMessage) (s : State) : State :=
  match msg_id m with
  | Some id =>
      match pendingRequests s !! id with
      | Some pending =>
          let s := set_pendingRequests (delete id (pendingRequests s)) s in
          settle pending m s
      | None => s
      end
  | None => s
  end.

(** [title && callbacksRef.current?.onTitleUpdate] *)
Definition truthy (v : option string) : option string :=
  match v with
  | Some t => if bool_decide (t = "") then None else Some t
  | None => None
  end.

(** One ['message'] listener, called with the parsed data. *)
Definition runListener (h : Hook) (ws : nat) (m : CDPMessage) (s : State)
    (l : nat * Listener) : State :=
  match l.2 with
  | CommandListener id promise =>
      if bool_decide (msg_id m = Some id) then
        settle promise m (removeEventListener ws l.1 s)
      else s
  | TitleFaviconListener titleMsgId faviconMsgId pageId =>
      let s := if bool_decide (msg_id m = Some titleMsgId) then
                 match truthy (result m ≫= value) with
                 | Some title =>
                     call_if (has_onTitleUpdate (callbacks h)) (onTitleUpdate title pageId) s
                 | None => s
                 end
               else s in
      if bool_decide (msg_id m = Some faviconMsgId) then
        match truthy (result m ≫= value) with
        | Some faviconUrl =>
            call_if (has_onFaviconUpdate (callbacks h))
              (onFaviconUpdate faviconUrl pageId) s
        | None => s
        end
      else s
  end.

(** The listeners that were registered when the dispatch of a message
    started, each called unless it was removed meanwhile. *)
Definition runListeners (h : Hook) (ws : nat) (data : option CDPMessage)
    (registered : list (nat * Listener)) (s : State) : State :=
  match data with
  | Some m =>
      foldl (λ s l,
               match sockets s !! ws with
               | Some w =>
                   if bool_decide (l.1 ∈ (messageListeners w).*1)
                   then runListener h ws m s l else s
               | None => s
               end)
            s registered
  | None => s
  end.

(** ** The control connection *)

Definition setState (c : bool) (e : option string) (s : State) : State :=
  set_state {| isConnected := c; state_error := e |} s.

Definition connect (h : Hook) (pageId : string) (s : State) : State :=
  if negb (has_session h) then s
  else if match wsRef s with
          | Some ws => is_open ws s && bool_decide (currentPageIdRef s = Some pageId)
          | None => false
          end then s
  else
    let s := match wsRef s with
             | Some ws => set_wsRef None (close ws s)
             | None => s
             end in
    let s := set_currentPageIdRef (Some pageId) s in
    let '(ws, s) := new_socket ControlSocket pageId s in
    set_wsRef (Some ws) s.

Definition control_onopen (ws : nat) (s : State) : State :=
  let s := setState true None s in
  let '(discoverMsgId, s) := next_id s in
  emit (WsSend ws Shared discoverMsgId "Target.setDiscoverTargets" (Opaque "{discover:true}")) s.

Definition control_onclose (h : Hook) (pageId : string) (closeCode : Z) (s : State) : State :=
  if bool_decide (currentPageIdRef s = Some pageId) then
    let s := setState false None s in
    let s := set_wsRef None s in
    let s := set_currentPageIdRef None s in
    if negb (closeCode =? 1000) then
      call_if (has_onWebSocketDisconnected (callbacks h)) onWebSocketDisconnected s
    else s
  else s.

Definition control_onerror (s : State) : State :=
  setState false (Some "WebSocket connection error") s.

Definition control_onmessage (h : Hook) (data : option CDPMessage) (s : State) : State :=
  match data with
  | None => s
  | Some m =>
      let s := settlePending m s in
      if bool_decide (method m = Some "Target.targetCreated") then
        match params m with
        | TargetCreated (Some targetInfo) =>
            if bool_decide (target_type targetInfo = "page")
               && negb (bool_decide (targetId targetInfo ∈ knownPageIds s))
            then call_if (has_onNewTabDetected (callbacks h))
                   (onNewTabDetected (targetId targetInfo)
                      (default "about:blank" (truthy (target_url targetInfo)))) s
            else s
        | _ => s
        end
      else s
  end.

Definition send (meth : string) (args : string) (s : State) : State :=
  let '(promise, s) := fresh s in
  match wsRef s with
  | Some ws =>
      if is_open ws s then
        let '(id, s) := next_id s in
        let s := set_pendingRequests (<[id := promise]> (pendingRequests s)) s in
        let '(_, s) := setTimeout 30000 (SendTimeout id promise meth) s in
        emit (WsSend ws Shared id meth (Opaque args)) s
      else emit (Reject promise "WebSocket not connected") s
  | None => emit (Reject promise "WebSocket not connected") s
  end.

(** The callback of the 30 s timer of [send]. *)
Definition sendTimedOut (id : Z) (promise : nat) (meth : string) (s : State) : State :=
  match pendingRequests s !! id with
  | Some _ =>
      let s := set_pendingRequests (delete id (pendingRequests s)) s in
      emit (Reject promise ("CDP command timeout: " +:+ meth)) s
  | None => s
  end.

(** ** Page connections *)

Definition connectToPage (h : Hook) (pageId : string) (s : State) : State :=
  if negb (has_session h) then s
  else
    let s := set_knownPageIds ({[pageId]} ∪ knownPageIds s) s in
    if match pageSessions s !! pageId with
       | Some existingWs => open_or_connecting existingWs s
       | None => false
       end then s
    else
      let '(ws, s) := new_socket PageSocket pageId s in
      set_pageSessions (<[pageId := ws]> (pageSessions s)) s.

(** [ws.send(JSON.stringify({ id: msgId++, method }))] *)
Definition sendLocal (ws : nat) (meth : string) (args : Params) (s : State) : State :=
  match sockets s !! ws with
  | Some w =>
      let s := update_socket ws (with_msgId (msgId w + 1)) s in
      emit (WsSend ws Local (msgId w) meth args) s
  | None => s
  end.

(** [executeCommand] of [sendToPage], for the socket [pageWs] it closes over. *)
Definition executeCommand (pageWs : nat) (promise : nat) (meth : string) (args : string)
    (s : State) : State :=
  let '(id, s) := next_id s in
  let '(handleMessage, s) := addEventListener pageWs (CommandListener id promise) s in
  let s := emit (WsSend pageWs Shared id meth (Opaque args)) s in
  let '(_, s) := setTimeout 30000 (PageCommandTimeout pageWs handleMessage promise meth) s in
  s.

(** The callback of the 30 s timer of [executeCommand]. *)
Definition pageCommandTimedOut (pageWs handleMessage promise : nat) (meth : string)
    (s : State) : State :=
  let s := removeEventListener pageWs handleMessage s in
  emit (Reject promise ("Page CDP command timeout: " +:+ meth)) s.

Definition page_onopen (pageId : string) (ws : nat) (s : State) : State :=
  let s := setupKeepAlive pageId ws s in
  let s := sendLocal ws "Page.enable" NoParams s in
  let s := sendLocal ws "Runtime.enable" NoParams s in
  sendLocal ws "Runtime.addBinding" (Opaque "{name:'__cdpEvent'}") s.

Definition hasActiveConnections (s : State) : bool :=
  existsb (λ ws, open_or_connecting ws s) (map snd (map_to_list (pageSessions s))).

Definition page_onclose (h : Hook) (pageId : string) (closeCode : Z) (s : State) : State :=
  let s := set_pageSessions (delete pageId (pageSessions s)) s in
  let s := match keepAliveIntervals s !! pageId with
           | Some interval =>
               set_keepAliveIntervals (delete pageId (keepAliveIntervals s))
                 (clearTimer interval s)
           | None => s
           end in
  if negb (hasActiveConnections s) && negb (closeCode =? 1000) then
    call_if (has_onWebSocketDisconnected (callbacks h)) onWebSocketDisconnected s
  else s.

(** [frame && !frame.parentId] *)
Definition main_frame (f : Frame) : bool :=
  match parentId f with
  | Some p => bool_decide (p = "")
  | None => true
  end.

Definition page_onmessage (h : Hook) (ws : nat) (pageId : string) (now : Z) (rnd : string)
    (data : option CDPMessage) (s : State) : State :=
  match data with
  | None => s
  | Some m =>
      let s := settlePending m s in
      let s :=
        if bool_decide (method m = Some "Runtime.bindingCalled") then
          match params m with
          | BindingCalled name (Some eventData) =>
              if bool_decide (name = "__cdpEvent")
              then set_synth (Synth.onBindingCalled now rnd eventData pageId (synth s)) s
              else s
          | _ => s
          end
        else s in
      let s :=
        if bool_decide (method m = Some "Page.loadEventFired")
           || bool_decide (method m = Some "Page.domContentEventFired")
        then if is_open ws s then queryTitleAndFavicon ws pageId s else s
        else s in
      if bool_decide (method m = Some "Page.frameNavigated") then
        match params m with
        | FrameNavigated (Some frame) =>
            if main_frame frame then
              let '(sy, accepted) :=
                Synth.frameNavigated now rnd (frame_url frame) (frame_id frame)
                  (frame_name frame) pageId (synth s) in
              if accepted then
                let s := set_synth sy s in
                let s := call_if (has_onFrameNavigation (callbacks h))
                           (onFrameNavigation (frame_url frame) (frame_id frame) pageId) s in
                (setTimeout 500 (NavigationEnrichment ws pageId) s).2
              else s
            else s
        | _ => s
        end
      else s
  end.

(** The callback of the 500 ms timer set on an accepted navigation. *)
Definition navigationEnrichment (ws : nat) (pageId : string) (s : State) : State :=
  if is_open ws s then queryTitleAndFavicon ws pageId s else s.

Definition ensurePageConnections (h : Hook) (pageIds : list string) (s : State) : State :=
  if negb (has_session h) then s
  else
    let s :=
      foldl (λ s pageId,
               let s := set_knownPageIds ({[pageId]} ∪ knownPageIds s) s in
               let isConnected :=
                 match pageSessions s !! pageId with
                 | Some existingWs => open_or_connecting existingWs s
                 | None => false
                 end in
               if negb isConnected then connectToPage h pageId s else s)
            s pageIds in
    let removedPages :=
      filter (λ id, id ∉ pageIds) (elements (knownPageIds s)) in
    foldl (λ s pageId,
             let s := set_knownPageIds (knownPageIds s ∖ {[pageId]}) s in
             let s := match pageSessions s !! pageId with
                      | Some ws =>
                          set_pageSessions (delete pageId (pageSessions s)) (close ws s)
                      | None => s
                      end in
             match keepAliveIntervals s !! pageId with
             | Some interval =>
                 set_keepAliveIntervals (delete pageId (keepAliveIntervals s))
                   (clearTimer interval s)
             | None => s
             end)
          s removedPages.

Definition disconnect (s : State) : State :=
  let s := foldl (λ s interval, clearTimer interval s) s
             (map snd (map_to_list (keepAliveIntervals s))) in
  let s := set_keepAliveIntervals ∅ s in
  let s := foldl (λ s ws, close ws s) s (map snd (map_to_list (pageSessions s))) in
  let s := set_pageSessions ∅ s in
  let s := match wsRef s with
           | Some ws => set_wsRef None (close ws s)
           | None => s
           end in
  let s := set_currentPageIdRef None s in
  setState false None s.

(** The effect that reconnects the known pages. *)
Definition reconnectKnownPages (h : Hook) (s : State) : State :=
  if negb (has_session h) then s
  else
    foldl (λ s pageId,
             match pageSessions s !! pageId with
             | Some existingWs =>
                 if is_open existingWs s then s else connectToPage h pageId s
             | None => connectToPage h pageId s
             end)
          s (elements (knownPageIds s)).

(** The branch of [sendToPage] for a page that is not open: connect if
    need be, and wait for the ['open'] event (or reject on ['error']). *)
Definition sendWhenOpen (h : Hook) (promise : nat) (target meth args : string)
    (s : State) : State :=
  let s := connectToPage h target s in
  match pageSessions s !! target with
  | Some pageWs =>
      update_socket pageWs
        (λ w, with_errorListeners (errorListeners w ++ [promise])
                (with_openListeners
                   (openListeners w ++
                      [{| q_promise := promise; q_method := meth; q_params := args |}])
                   w)) s
  | None => emit (Reject promise "Failed to create WebSocket for page") s
  end.

Definition sendToPage (h : Hook) (target meth args : string) (s : State) : State :=
  let '(promise, s) := fresh s in
  if negb (has_session h) then emit (Reject promise "No session ID") s
  else
    match pageSessions s !! target with
    | Some pageWs =>
        if is_open pageWs s then executeCommand pageWs promise meth args s
        else sendWhenOpen h promise target meth args s
    | None => sendWhenOpen h promise target meth args s
    end.

(** The synchronous part of [closeTarget], which ends in a [send]. *)
Definition closeTarget (target : string) (s : State) : State :=
  let s := set_knownPageIds (knownPageIds s ∖ {[target]}) s in
  let s := match keepAliveIntervals s !! target with
           | Some interval =>
               set_keepAliveIntervals (delete target (keepAliveIntervals s))
                 (clearTimer interval s)
           | None => s
           end in
  let s := match pageSessions s !! target with
           | Some pageWs => set_pageSessions (delete target (pageSessions s)) (close pageWs s)
           | None => s
           end in
  send "Target.closeTarget" target s.

(** The continuation of [createTarget] once its [send] has resolved. *)
Definition createTargetResolved (target : option string) (s : State) : State :=
  match truthy target with
  | Some t => set_knownPageIds ({[t]} ∪ knownPageIds s) s
  | None => s
  end.

(** ** Socket events *)

(** The ['open'] event. *)
Definition wsOpen (ws : nat) (s : State) : State :=
  match sockets s !! ws with
  | Some w =>
      match readyState w with
      | CONNECTING =>
          let s := update_socket ws (with_readyState OPEN) s in
          match role w with
          | ControlSocket => control_onopen ws s
          | PageSocket =>
              let s := page_onopen (page w) ws s in
              let s := update_socket ws (with_openListeners []) s in
              foldl (λ s q, executeCommand ws (q_promise q) (q_method q) (q_params q) s)
                    s (openListeners w)
          end
      | _ => s
      end
  | None => s
  end.

(** The ['close'] event with its code. *)
Definition wsClose (h : Hook) (ws : nat) (closeCode : Z) (s : State) : State :=
  match sockets s !! ws with
  | Some w =>
      match readyState w with
      | CLOSED => s
      | _ =>
          let s := update_socket ws (with_readyState CLOSED) s in
          match role w with
          | ControlSocket => control_onclose h (page w) closeCode s
          | PageSocket => page_onclose h (page w) closeCode s
          end
      end
  | None => s
  end.

(** The ['error'] event: the handler of the socket, then the once-listeners
    [sendToPage] added. *)
Definition wsError (ws : nat) (s : State) : State :=
  match sockets s !! ws with
  | Some w =>
      match role w with
      | ControlSocket => control_onerror s
      | PageSocket =>
          let s := update_socket ws (with_errorListeners []) s in
          foldl (λ s promise, emit (Reject promise "Failed to connect to page target") s)
                s (errorListeners w)
      end
  | None => s
  end.

(** A ['message'] event: the [onmessage] handler, then the listeners.
    Messages are delivered to a socket that is open or closing. *)
Definition wsMessage (h : Hook) (ws : nat) (now : Z) (rnd : string)
    (data : option CDPMessage) (s : State) : State :=
  match sockets s !! ws with
  | Some w =>
      match readyState w with
      | OPEN | CLOSING =>
          let s := match role w with
                   | ControlSocket => control_onmessage h data s
                   | PageSocket => page_onmessage h ws (page w) now rnd data s
                   end in
          runListeners h ws data (messageListeners w) s
      | _ => s
      end
  | None => s
  end.

(** A timer comes due.  A timeout fires once; an interval stays armed. *)
Definition timerFired (t : nat) (s : State) : State :=
  match timers s !! t with
  | Some (_, action) =>
      let s := if is_interval action then s else clearTimer t s in
      match action with
      | SendTimeout id promise meth => sendTimedOut id promise meth s
      | PageCommandTimeout ws listener promise meth =>
          pageCommandTimedOut ws listener promise meth s
      | RemoveListener ws listener => removeEventListener ws listener s
      | NavigationEnrichment ws pageId => navigationEnrichment ws pageId s
      | KeepAliveInterval _ ws => keepAliveTick ws s
      end
  | None => s
  end.

(** ** Messages of the screencast frame *)

Inductive ScreencastMessage :=
| ScreencastCdpEvent (data : Synth.EventData) (pageId : option string)
| ScreencastFrameNavigated (frame : Frame) (pageId : option string)
| ScreencastPageLoaded (pageId : option string)
| ScreencastOther.

(** [msg.pageId || ''] *)
Definition page_or_empty (pageId : option string) : string := default "" pageId.

Definition handleScreencastMessage (h : Hook) (now : Z) (rnd : string)
    (msg : ScreencastMessage) (s : State) : State :=
  if negb (has_session h) then s
  else
    match msg with
    | ScreencastCdpEvent eventData pageId =>
        set_synth (Synth.onScreencastEvent now rnd eventData (page_or_empty pageId) (synth s)) s
    | ScreencastFrameNavigated frame pageId =>
        let '(sy, accepted) :=
          Synth.frameNavigated now rnd (frame_url frame) (frame_id frame)
            (frame_name frame) (page_or_empty pageId) (synth s) in
        if accepted then
          call_if (has_onFrameNavigation (callbacks h))
            (onFrameNavigation (frame_url frame) (frame_id frame) (page_or_empty pageId))
            (set_synth sy s)
        else s
    | ScreencastPageLoaded pageId =>
        if has_onTitleUpdate (callbacks h) || has_onFaviconUpdate (callbacks h) then
          match pageSessions s !! page_or_empty pageId with
          | Some ws =>
              if is_open ws s then queryTitleAndFavicon ws (page_or_empty pageId) s else s
          | None => s
          end
        else s
    | ScreencastOther => s
    end.

(** ** The event loop

    Every synchronous entry into the hook: the calls of its interface (the
    asynchronous helpers [createTarget], [navigate], [reload], ... are
    sequences of these), the events of its sockets, its timers and the
    messages of the screencast frame. *)
Inductive Event :=
| Connect (pageId : string)
| ConnectToPage (pageId : string)
| EnsurePageConnections (pageIds : list string)
| ReconnectKnownPages
| Disconnect
| Send (meth args : string)
| SendToPage (target meth args : string)
| CloseTarget (target : string)
| CreateTargetResolved (target : option string)
| WsOpen (ws : nat)
| WsMessage (ws : nat) (now : Z) (rnd : string) (data : option CDPMessage)
| WsClose (ws : nat) (closeCode : Z)
| WsError (ws : nat)
| TimerFired (t : nat)
| MainKeepAliveTick
| Screencast (now : Z) (rnd : string) (msg : ScreencastMessage)
| AddInteraction (now : Z) (rnd : string) (ty : Synth.InteractionType)
    (el : Synth.Element) (pageId : option string) (d : Synth.Data)
| RemoveInteraction (id : string)
| ClearInteractions
| ScreenshotCropped (interactionId croppedUrl : string).

Definition step (h : Hook) (s : State) (e : Event) : State :=
  match e with
  | Connect pageId => connect h pageId s
  | ConnectToPage pageId => connectToPage h pageId s
  | EnsurePageConnections pageIds => ensurePageConnections h pageIds s
  | ReconnectKnownPages => reconnectKnownPages h s
  | Disconnect => disconnect s
  | Send meth args => send meth args s
  | SendToPage target meth args => sendToPage h target meth args s
  | CloseTarget target => closeTarget target s
  | CreateTargetResolved target => createTargetResolved target s
  | WsOpen ws => wsOpen ws s
  | WsMessage ws now rnd data => wsMessage h ws now rnd data s
  | WsClose ws closeCode => wsClose h ws closeCode s
  | WsError ws => wsError ws s
  | TimerFired t => timerFired t s
  | MainKeepAliveTick => mainKeepAliveTick h s
  | Screencast now rnd msg => handleScreencastMessage h now rnd msg s
  | AddInteraction now rnd ty el pageId d =>
      set_synth (Synth.addInteraction now rnd ty el pageId d (synth s)) s
  | RemoveInteraction id => set_synth (Synth.removeInteraction id (synth s)) s
  | ClearInteractions => set_synth (Synth.clearInteractions (synth s)) s
  | ScreenshotCropped interactionId croppedUrl =>
      set_synth (Synth.screenshotCropped interactionId croppedUrl (synth s)) s
  end.

Definition run (h : Hook) (s : State) (es : list Event) : State := foldl (step h) s es.

End Bridge.

(** * Vocabulary for the correlation properties *)

Module Correlation.
Import Bridge.

(** The effect calls [resolve] or [reject] of promise [p]. *)
Definition settles (p : nat) (e : Effect) : bool :=
  match e with
  | Resolve q _ | Reject q _ => bool_decide (q = p)
  | _ => false
  end.

(** The calls of [resolve] and [reject] of promise [p] in a trace. *)
Definition settlements (p : nat) (tr : list Effect) : list Effect :=
  List.filter (settles p) tr.

Definition is_settlement (e : Effect) : bool :=
  match e with
  | Resolve _ _ | Reject _ _ => true
  | _ => false
  end.

(** The calls of [resolve] and [reject] of any promise in a trace. *)
Definition all_settlements (tr : list Effect) : list Effect :=
  List.filter is_settlement tr.

(** What [settle] emits for promise [p] and message [m]. *)
Definition settlement_of (p : nat) (m : CDPMessage) : Effect :=
  match error m with
  | Some e => Reject p (message e)
  | None => Resolve p (default empty_result (result m))
  end.

(** The event concerns command [N]: it delivers a message that carries id
    [N], on whatever socket, or it fires the timeout of a [send] with id
    [N]. *)
Definition disturbs (N : Z) (s : State) (e : Event) : bool :=
  match e with
  | WsMessage _ _ _ (Some m) => bool_decide (msg_id m = Some N)
  | TimerFired t =>
      match timers s !! t with
      | Some (_, SendTimeout id _ _) => bool_decide (id = N)
      | _ => false
      end
  | _ => false
  end.

(** No event of the sequence concerns command [N]. *)
Fixpoint undisturbed (h : Hook) (N : Z) (s : State) (es : list Event) : Prop :=
  match es with
  | [] => True
  | e :: rest => disturbs N s e = false ∧ undisturbed h N (step h s e) rest
  end.

(** The control connection is open. *)
Definition control_open (s : State) : Prop :=
  ∃ ws, wsRef s = Some ws ∧ is_open ws s = true.

(** A message that is only a response: an id and no method. *)
Definition response (N : Z) (r : option CDPResult) (e : option CDPError) : CDPMessage :=
  {| msg_id := Some N; method := None; params := NoParams; result := r; error := e |}.

Section Command.
(** The promise, the id and the timer of one [send], and its method. *)
Variables (p : nat) (N : Z) (t : nat) (meth : string).

Definition listener_clean (l : Listener) : Prop :=
  match l with
  | CommandListener id q => id ≠ N ∧ q ≠ p
  | TitleFaviconListener a b _ => a ≠ N ∧ b ≠ N
  end.

Record socket_clean (w : WebSocket) : Prop := {
  clean_message : Forall (λ l : nat * Listener, listener_clean l.2) (messageListeners w);
  clean_open : Forall (λ q, q_promise q ≠ p) (openListeners w);
  clean_error : Forall (λ q, q ≠ p) (errorListeners w);
}.

Definition timer_clean (t' : nat) (a : Timer) : Prop :=
  match a with
  | SendTimeout id q m => (q = p ∨ id = N) → t' = t ∧ id = N ∧ q = p ∧ m = meth
  | PageCommandTimeout _ _ q _ => q ≠ p
  | _ => True
  end.

(** The command is referred to by nothing but its entry in the pending
    map and its timer; promise, timer and id were handed out already. *)
Record owned (s : State) : Prop := {
  owned_promise : (p < nextHandle s)%nat;
  owned_timer : (t < nextHandle s)%nat;
  owned_id : N < messageIdRef s;
  owned_pending : ∀ k q, pendingRequests s !! k = Some q → (q = p ∨ k = N) → k = N ∧ q = p;
  owned_sockets : ∀ ws w, sockets s !! ws = Some w → socket_clean w;
  owned_timers : ∀ t' d a, timers s !! t' = Some (d, a) → timer_clean t' a;
  owned_timeout : ∀ d a, timers s !! t = Some (d, a) → d = 30000 ∧ a = SendTimeout N p meth;
  owned_keepalive : ∀ pg i, keepAliveIntervals s !! pg = Some i → i ≠ t;
}.

(** From [s] to [s'] the command was left alone: still owned, entry and
    timer as they were, and no call of [resolve] or [reject] of its
    promise. *)
Record left_alone (s s' : State) : Prop := {
  alone_owned : owned s';
  alone_pending : pendingRequests s' !! N = pendingRequests s !! N;
  alone_timer : timers s' !! t = timers s !! t;
  alone_trace : ∃ eff, trace s' = trace s ++ eff ∧ settlements p eff = [];
}.

(** The event may run without touching the command: either the command is
    gone (no entry, no timer), or the event does not concern it. *)
Definition calm (s : State) (e : Event) : Prop :=
  (pendingRequests s !! N = None ∧ timers s !! t = None) ∨ disturbs N s e = false.

End Command.

(** ** Handles and ids in use *)

Definition listener_bounded (B : nat) (M : Z) (l : Listener) : Prop :=
  match l with
  | CommandListener id q => id < M ∧ (q < B)%nat
  | TitleFaviconListener a b _ => a < M ∧ b < M
  end.

Record socket_bounded (B : nat) (M : Z) (w : WebSocket) : Prop := {
  bounded_message :
    Forall (λ l : nat * Listener, listener_bounded B M l.2) (messageListeners w);
  bounded_open : Forall (λ q, (q_promise q < B)%nat) (openListeners w);
  bounded_error : Forall (λ q, (q < B)%nat) (errorListeners w);
}.

Definition timer_bounded (B : nat) (M : Z) (a : Timer) : Prop :=
  match a with
  | SendTimeout id q _ => id < M ∧ (q < B)%nat
  | PageCommandTimeout _ _ q _ => (q < B)%nat
  | _ => True
  end.

Definition effect_bounded (B : nat) (e : Effect) : Prop :=
  match e with
  | Resolve q _ | Reject q _ => (q < B)%nat
  | _ => True
  end.

(** Every promise and keep-alive timer the state or its trace refers to
    is below [B], every command id below [M]. *)
Record bounded (B : nat) (M : Z) (s : State) : Prop := {
  bounded_pending : ∀ k q, pendingRequests s !! k = Some q → k < M ∧ (q < B)%nat;
  bounded_sockets : ∀ ws w, sockets s !! ws = Some w → socket_bounded B M w;
  bounded_timers : ∀ t d a, timers s !! t = Some (d, a) → timer_bounded B M a;
  bounded_keepalive : ∀ pg i, keepAliveIntervals s !! pg = Some i → (i < B)%nat;
  bounded_trace : Forall (effect_bounded B) (trace s);
}.

(** Handles and ids that were not handed out yet are not in use. *)
Definition well_formed (s : State) : Prop :=
  bounded (nextHandle s) (messageIdRef s) s.

(** From [s] to [x] the counters only went up, and [x] is well formed. *)
Record grows (s x : State) : Prop := {
  grows_wf : well_formed x;
  grows_handle : (nextHandle s <= nextHandle x)%nat;
  grows_id : messageIdRef s <= messageIdRef x;
}.

(** ** Scenarios *)

(** The ids written to socket [ws], in the order they were written. *)
Definition sent_ids (ws : nat) (tr : list Effect) : list Z :=
  omap (λ e, match e with
             | WsSend ws' _ id _ _ => if bool_decide (ws' = ws) then Some id else None
             | _ => None
             end) tr.

(** A hook with a session and every callback. *)
Definition recorder : Hook :=
  {| sessionId := Some "sess";
     callbacks := {| has_onFrameNavigation := true; has_onTitleUpdate := true;
                     has_onFaviconUpdate := true; has_onNewTabDetected := true;
                     has_onWebSocketDisconnected := true |} |}.

(** The control connection is opened: socket 0, and the id 1 goes to
    [Target.setDiscoverTargets]. *)
Definition connected : list Event := [Connect "p0"; WsOpen 0].

(** An event message: a method and no id. *)
Definition notification (meth : string) (args : Params) : CDPMessage :=
  {| msg_id := None; method := Some meth; params := args; result := None; error := None |}.

(** The control connection has been open for a while: 998 ticks of its
    keep-alive, each of which took an id from [messageIdRef]. *)
Definition long_session : list Event := connected ++ replicate 998 MainKeepAliveTick.

(** Pending map and settlements are as they were. *)
Definition quiet (s s' : State) : Prop :=
  pendingRequests s' = pendingRequests s
  ∧ all_settlements (trace s') = all_settlements (trace s).

(** A new tab is announced on the control connection. *)
Definition new_tab : CDPMessage :=
  notification "Target.targetCreated"
    (TargetCreated (Some {| target_type := "page"; targetId := "p9";
                            target_url := Some "https://example.com" |})).

(** What follows a [send] that took id 2: a keep-alive (id 3), an event,
    another command (id 4), and the responses to 4 and 3, in that order. *)
Definition interleaved : list Event :=
  [MainKeepAliveTick;
   WsMessage 0 5 "r" (Some new_tab);
   Send "Target.createTarget" "{url:'about:blank'}";
   WsMessage 0 6 "r"
     (Some (response 4 (Some {| json := "{targetId:'p2'}"; value := None |}) None));
   WsMessage 0 7 "r" (Some (response 3 None None))].

Definition control_socket : WebSocket :=
  {| role := ControlSocket; page := "p0"; readyState := OPEN; msgId := 1000;
     messageListeners := []; openListeners := []; errorListeners := [] |}.

Definition targets : CDPMessage :=
  response 2 (Some {| json := "{targetInfos:[]}"; value := None |}) None.

(** After a long session a command goes to a page that is not connected
    yet; the page connection opens (socket 2; the promise of the command
    is 1). *)
Definition page_opened : list Event :=
  long_session
  ++ [SendToPage "p1" "Page.navigate" "{url:'https://example.com'}"; WsOpen 2].

(** A page connection of a fresh hook opens (socket 0), and its
    keep-alive (timer 1) ticks once. *)
Definition page_kept_alive : list Event := [ConnectToPage "p1"; WsOpen 0; TimerFired 1].

End Correlation.

(** * What an observer of the limiter sees *)

Module LimiterLog.
Import Limiter.

(** The sources of the requests a sequence of events makes, in order. *)
Definition requested (es : list (Z * Event)) : list string :=
  omap (λ e : Z * Event,
          match e.2 with AcquireCreateLease src => Some src | _ => None end) es.

(** The sources of the requests answered so far, then of those waiting. *)
Definition served_then_waiting (s : State) : list string :=
  map lease_source (leases s) ++ map source (queue s).

(** The clock readings at which leases were handed out: every event
    contributes its reading once for each lease it created. *)
Fixpoint grant_times (cfg : Config) (s : State) (es : list (Z * Event)) : list Z :=
  match es with
  | [] => []
  | e :: rest =>
      replicate (length (leases (step cfg s e)) - length (leases s)) e.1
      ++ grant_times cfg (step cfg s e) rest
  end.

(** The clock never goes back: readings from [prev] on do not decrease. *)
Fixpoint monotone (prev : Z) (es : list (Z * Event)) : Prop :=
  match es with
  | [] => True
  | e :: rest => prev <= e.1 ∧ monotone e.1 rest
  end.

(** The reading [g] lies in the window of 60 s that ends at [upto]. *)
Definition in_window (upto : Z) (g : Z) : bool :=
  (upto - CREATE_WINDOW_MS <? g) && (g <=? upto).

(** The lease a grant creates for a queued request. *)
Definition lease_for (item : QueueItem) : Lease :=
  {| lease_source := source item; finalized := false |}.

(** The timer is armed exactly when a request waits with a slot free. *)
Definition scheduled (cfg : Config) (s : State) : Prop :=
  (processTimer s ≠ None ↔ queue s ≠ [] ∧ hasConcurrentCapacity cfg s = true)
  ∧ ∀ d, processTimer s = Some d → 50 <= d.

(** The creations still counted are the latest leases handed out; those
    no longer counted were handed out at least 60 s before [now]. *)
Definition counted (now : Z) (log : list Z) (s : State) : Prop :=
  ∃ old, log = old ++ createTimestamps s
         ∧ Forall (λ g, g <= now - CREATE_WINDOW_MS) old.

(** No window of 60 s holds more than [m] of the readings. *)
Definition within_rate (m : Z) (log : list Z) : Prop :=
  ∀ upto, Z.of_nat (length (List.filter (in_window upto) log)) <= m.

Record paced (cfg : Config) (now : Z) (log : list Z) (s : State) : Prop := {
  paced_counted : counted now log s;
  paced_rate : within_rate (maxCreatesPerMinute cfg) log;
  paced_length : Z.of_nat (length (createTimestamps s)) <= maxCreatesPerMinute cfg;
}.

End LimiterLog.

(** * Vocabulary for more properties of the synthesizer *)

Module SynthLog.
Import Synth.

(** The interaction [addInteraction] appends for an accepted navigation. *)
Definition navigation_interaction (now : Z) (rnd : string) (url frameId name page : string)
    : Interaction :=
  {| id := fresh_id "frame_navigation" now rnd; type := frame_navigation; timestamp := now;
     pageId := page; screenshotUrl := None;
     element := {| tagName := Some "FRAME_NAVIGATION"; text := Some ("Navigated to " +:+ url);
                   selector := Some frameId; href := Some url; attributes := [] |};
     data := NavigationPayload url frameId name page |}.

(** A Backspace keystroke on the element selected by [sel]. *)
Definition backspace (t : Z) (sel : string) : Keystroke :=
  {| at_time := t; random := "r" +:+ pretty t; event := keydown "Backspace" sel;
     on_page := Some "page-1" |}.

(** Backspace takes the rendering of key [k] back as one unit: a single
    character other than the closing bracket, or a key name without an
    opening bracket. *)
Definition erasable (k : string) : bool :=
  if (String.length k =? 1)%nat then negb (bool_decide (k = "]"))
  else bool_decide (lastIndexOf "[" k = None).

End SynthLog.

(** * Vocabulary for more properties of the bridge *)

Module BridgeLog.
Import Bridge Correlation.

(** ** The life of one command *)

(** How the promise [p] of a command with id [N] and method [meth] can
    have been settled: by the timeout of [send], or by a message that
    carries its id. *)
Definition settled_by (p : nat) (N : Z) (meth : string) (e : Effect) : Prop :=
  e = Reject p ("CDP command timeout: " +:+ meth)
  ∨ ∃ m, msg_id m = Some N ∧ e = settlement_of p m.

(** The command is pending and unsettled, or its entry is gone and its
    promise was settled exactly once. *)
Definition pending_or_settled_once (p : nat) (N : Z) (meth : string) (s : State) : Prop :=
  (pendingRequests s !! N = Some p ∧ settlements p (trace s) = [])
  ∨ (pendingRequests s !! N = None
     ∧ ∃ e, settlements p (trace s) = [e] ∧ settled_by p N meth e).

(** The two states of a command, with what the proofs need besides. *)
Definition alive (p : nat) (N : Z) (t : nat) (meth : string) (s : State) : Prop :=
  owned p N t meth s
  ∧ ((pendingRequests s !! N = Some p
      ∧ timers s !! t = Some (30000, SendTimeout N p meth)
      ∧ settlements p (trace s) = [])
     ∨ (pendingRequests s !! N = None
        ∧ ∃ e, settlements p (trace s) = [e] ∧ settled_by p N meth e)).

(** ** Ids from the shared counter *)

Definition shared_id (e : Effect) : option Z :=
  match e with
  | WsSend _ Shared id _ _ => Some id
  | _ => None
  end.

(** The ids taken from [messageIdRef] that were written to a socket, any
    socket, in the order they were written. *)
Definition shared_ids (tr : list Effect) : list Z := omap shared_id tr.

(** From [s] to [x] every id taken from the counter went out, once and in
    order. *)
Record numbered (s x : State) : Prop := {
  numbered_le : messageIdRef s <= messageIdRef x;
  numbered_ids :
    shared_ids (trace x)
    = shared_ids (trace s) ++ seqZ (messageIdRef s) (messageIdRef x - messageIdRef s);
}.

(** ** Keep-alive intervals *)

(** Every armed keep-alive interval is the one [keepAliveIntervalsRef]
    holds for its page. *)
Definition registered (s : State) : Prop :=
  ∀ i d pg ws, timers s !! i = Some (d, KeepAliveInterval pg ws) →
               keepAliveIntervals s !! pg = Some i.

(** No keep-alive interval is armed. *)
Definition no_keepalive (s : State) : Prop :=
  ∀ i d a, timers s !! i = Some (d, a) → is_interval a = false.

(** ** A hook without a session *)

Definition is_reject (e : Effect) : Prop :=
  match e with
  | Reject _ _ => True
  | _ => False
  end.

(** Nothing is connected, armed or pending, no id was taken, and all
    that ever happened is that promises were rejected. *)
Record inert (s : State) : Prop := {
  inert_sockets : sockets s = ∅;
  inert_timers : timers s = ∅;
  inert_pending : pendingRequests s = ∅;
  inert_keepalive : keepAliveIntervals s = ∅;
  inert_pages : pageSessions s = ∅;
  inert_control : wsRef s = None;
  inert_ids : messageIdRef s = 1;
  inert_trace : Forall is_reject (trace s);
}.

(** A hook that was given no session id. *)
Definition no_session : Hook :=
  {| sessionId := None; callbacks := callbacks recorder |}.

(** ** A command to a page *)

(** A page connection of a fresh hook is open (socket 0). *)
Definition page_open : list Event := [ConnectToPage "p1"; WsOpen 0].

Definition page_socket : WebSocket :=
  {| role := PageSocket; page := "p1"; readyState := OPEN; msgId := 1003;
     messageListeners := []; openListeners := []; errorListeners := [] |}.

(** ** Pending commands and their timers *)

(** Every entry of the pending map has the timer of its [send] armed;
    timers and keep-alive intervals bear handles that were handed out,
    and a handle registered as keep-alive interval is not the handle of a
    timeout. *)
Record timed (s : State) : Prop := {
  timed_pending :
    ∀ N p, pendingRequests s !! N = Some p →
           ∃ t meth, timers s !! t = Some (30000, SendTimeout N p meth);
  timed_keys : ∀ t d a, timers s !! t = Some (d, a) → (t < nextHandle s)%nat;
  timed_keepalive :
    ∀ pg i, keepAliveIntervals s !! pg = Some i →
            (i < nextHandle s)%nat ∧ ∀ d a, timers s !! i = Some (d, a) → is_interval a = true;
}.

Definition is_send_timeout (a : Timer) : bool :=
  match a with
  | SendTimeout _ _ _ => true
  | _ => false
  end.

(** ** Page connections *)

(** The socket registered for a page was opened for that page, sockets
    bear handles that were handed out, and a page with a registered
    socket is a known page. *)
Record paged (s : State) : Prop := {
  paged_socket :
    ∀ pg ws, pageSessions s !! pg = Some ws → ∃ w, sockets s !! ws = Some w ∧ page w = pg;
  paged_keys : ∀ ws w, sockets s !! ws = Some w → (ws < nextHandle s)%nat;
  paged_known : ∀ pg ws, pageSessions s !! pg = Some ws → pg ∈ knownPageIds s;
}.

(** Page [pg] has a socket registered that is open or connecting. *)
Definition connected_page (pg : string) (s : State) : Prop :=
  ∃ ws, pageSessions s !! pg = Some ws ∧ open_or_connecting ws s = true.

(** One round of the second loop of [ensurePageConnections]. *)
Definition forget (s : State) (pageId : string) : State :=
  let s := set_knownPageIds (knownPageIds s ∖ {[pageId]}) s in
  let s := match pageSessions s !! pageId with
           | Some ws => set_pageSessions (delete pageId (pageSessions s)) (close ws s)
           | None => s
           end in
  match keepAliveIntervals s !! pageId with
  | Some interval =>
      set_keepAliveIntervals (delete pageId (keepAliveIntervals s)) (clearTimer interval s)
  | None => s
  end.

(** One round of the first loop of [ensurePageConnections]. *)
Definition remember (h : Hook) (s : State) (pageId : string) : State :=
  let s := set_knownPageIds ({[pageId]} ∪ knownPageIds s) s in
  let isConnected :=
    match pageSessions s !! pageId with
    | Some existingWs => open_or_connecting existingWs s
    | None => false
    end in
  if negb isConnected then connectToPage h pageId s else s.

End BridgeLog.

(** * Focusing an element, with retries *)

Module Focus.

(** What [await sendToPage(...)] comes to in one attempt of
    [focusElement]: the promise resolves, and [result?.result?.value ===
    true] holds or not, or it rejects and the error is caught. *)
Inductive Outcome :=
| Resolved (value_is_true : bool)
| Rejected.

(** The [for] loop of [focusElement] (lines 812-843) from the iteration
    [attempt] on, with [remaining] iterations to go; [outcome k] is what
    the command of iteration [k] comes to.  The answer of the function,
    with the number of commands it sent. *)
Fixpoint attempts (remaining attempt : nat) (outcome : nat → Outcome) : bool * nat :=
  match remaining with
  | O => (false, attempt)
  | S remaining' =>
      match outcome attempt with
      | Resolved true => (true, S attempt)
      | _ => attempts remaining' (S attempt) outcome
      end
  end.

(** [focusElement(targetId, selector, maxAttempts)]: the loop runs while
    [attempt < maxAttempts]. *)
Definition focusElement (maxAttempts : Z) (outcome : nat → Outcome) : bool * nat :=
  attempts (Z.to_nat maxAttempts) 0 outcome.

(** Attempt [k] is the first one that reports [true]. *)
Definition first_success (outcome : nat → Outcome) (k : nat) : Prop :=
  outcome k = Resolved true ∧ ∀ j, (j < k)%nat → outcome j ≠ Resolved true.

End Focus.

(** * Properties of the admission controller *)

Module LimiterProofs.
Import Limiter.

Lemma shiftExpired_length cutoff ts :
  (length (shiftExpired cutoff ts) <= length ts)%nat.
Proof.
  induction ts as [|t ts IH]; simpl; [lia|].
  destruct (t <=? cutoff); simpl; lia.
Qed.

Lemma outstanding_nonneg ls : 0 <= outstanding ls.
Proof. unfold outstanding. lia. Qed.

Lemma outstanding_app ls l :
  outstanding (ls ++ [l]) = outstanding ls + (if finalized l then 0 else 1).
Proof.
  unfold outstanding. rewrite filter_app, length_app.
  destruct (finalized l) eqn:E.
  - rewrite filter_cons_False by congruence. simpl. lia.
  - rewrite filter_cons_True by assumption. simpl. lia.
Qed.

Lemma outstanding_finalize ls k l :
  ls !! k = Some l → finalized l = false →
  outstanding (<[k := {| lease_source := lease_source l; finalized := true |}]> ls)
  = outstanding ls - 1.
Proof.
  intros Hk Hf. unfold outstanding.
  rewrite insert_take_drop by (eapply lookup_lt_Some; eauto).
  rewrite <- (take_drop_middle ls k l Hk) at 3.
  rewrite !filter_app, !length_app.
  rewrite filter_cons_False by (simpl; congruence).
  rewrite (filter_cons_True _ l) by assumption.
  simpl. lia.
Qed.

Lemma size_add_le (sid : string) (a : gset string) :
  (size ({[sid]} ∪ a) <= S (size a))%nat.
Proof.
  rewrite size_union_alt, size_singleton.
  assert (size (a ∖ {[sid]}) <= size a)%nat by (apply subseteq_size; set_solver).
  lia.
Qed.

Lemma size_remove_le (sid : string) (a : gset string) :
  (size (a ∖ {[sid]}) <= size a)%nat.
Proof. apply subseteq_size. set_solver. Qed.

Section Preservation.
Context (cfg : Config).

Lemma inv_prune now s : Inv cfg s → Inv cfg (pruneCreateTimestamps now s).
Proof.
  intros [Hc Hr Hp]. split; simpl; auto.
  pose proof (shiftExpired_length (now - CREATE_WINDOW_MS) (createTimestamps s)). lia.
Qed.

Lemma inv_set_queue q s : Inv cfg s → Inv cfg (set_queue q s).
Proof. intros [Hc Hr Hp]. split; auto. Qed.

Lemma inv_set_processTimer t s : Inv cfg s → Inv cfg (set_processTimer t s).
Proof. intros [Hc Hr Hp]. split; auto. Qed.

(** One grant keeps the budgets when both had headroom. *)
Lemma inv_grant now item s :
  Inv cfg s →
  Z.of_nat (length (createTimestamps s)) < maxCreatesPerMinute cfg →
  trackedConcurrent s < maxConcurrentSessions cfg →
  Inv cfg (grant now item s).
Proof.
  intros [Hc Hr Hp] Hrate Hconc. unfold grant, logStats, createLease.
  split; simpl.
  - unfold trackedConcurrent in *. simpl. lia.
  - pose proof (shiftExpired_length (now - CREATE_WINDOW_MS) (createTimestamps s ++ [now])) as H.
    rewrite length_app in H. simpl in H. lia.
  - rewrite outstanding_app. simpl. lia.
Qed.

Lemma canGrantNextLease_true now s s' :
  canGrantNextLease cfg now s = (s', true) →
  s' = pruneCreateTimestamps now s ∧
  Z.of_nat (length (createTimestamps s')) < maxCreatesPerMinute cfg ∧
  trackedConcurrent s' < maxConcurrentSessions cfg.
Proof.
  unfold canGrantNextLease, hasRateCapacity, hasConcurrentCapacity.
  intros [= <- [Hr%Z.ltb_lt Hc%Z.ltb_lt]%andb_true_iff]. done.
Qed.

Lemma canGrantNextLease_state now s :
  (canGrantNextLease cfg now s).1 = pruneCreateTimestamps now s.
Proof. reflexivity. Qed.

Lemma inv_grantWhilePossible now q s :
  Inv cfg s → Inv cfg (grantWhilePossible cfg now q s).
Proof.
  revert s. induction q as [|item rest IH]; intros s HI; cbn [grantWhilePossible].
  - by apply inv_set_queue.
  - destruct (canGrantNextLease cfg now s) as [s1 ok] eqn:E.
    assert (HI1 : Inv cfg s1).
    { pose proof (canGrantNextLease_state now s) as Hs. rewrite E in Hs.
      simpl in Hs. subst s1. by apply inv_prune. }
    destruct ok; [|by apply inv_set_queue].
    apply canGrantNextLease_true in E as (_ & Hrate & Hconc).
    apply IH, inv_grant; [by apply inv_set_queue|done|done].
Qed.

Lemma inv_scheduleWhenRateWindowOpens now s :
  Inv cfg s → Inv cfg (scheduleWhenRateWindowOpens now s).
Proof.
  intros HI. unfold scheduleWhenRateWindowOpens.
  destruct (queue s); [done|]. destruct (createTimestamps s) eqn:E; [done|].
  by apply inv_set_processTimer.
Qed.

Lemma inv_processQueue now s : Inv cfg s → Inv cfg (processQueue cfg now s).
Proof.
  intros HI. unfold processQueue, clearProcessTimer.
  set (s2 := grantWhilePossible _ _ _ _).
  assert (HI2 : Inv cfg s2)
    by (apply inv_grantWhilePossible, inv_prune, inv_set_processTimer, HI).
  destruct (queue s2); [done|].
  destruct (hasConcurrentCapacity cfg s2); [|done].
  by apply inv_scheduleWhenRateWindowOpens.
Qed.

Lemma inv_finalize now k sid s : Inv cfg s → Inv cfg (finalize cfg now k sid s).
Proof.
  intros HI. unfold finalize.
  destruct (leases s !! k) as [l|] eqn:Hk; [|done].
  destruct (finalized l) eqn:Hf; [done|].
  apply inv_processQueue.
  destruct HI as [Hc Hr Hp].
  pose proof (outstanding_finalize _ _ _ Hk Hf) as Hout.
  pose proof (outstanding_nonneg
    (<[k:={| lease_source := lease_source l; finalized := true |}]> (leases s))) as Hnn.
  simpl. rewrite (proj2 (Z.ltb_lt 0 (pendingReservations s))) by lia.
  unfold trackedConcurrent in Hc.
  destruct sid as [sid|]; [destruct (falsy sid)|]; split; simpl;
    unfold trackedConcurrent; simpl; try lia.
  pose proof (size_add_le sid (activeSessionIds s)). lia.
Qed.

Lemma inv_releaseActiveSession now sid s :
  Inv cfg s → Inv cfg (releaseActiveSession cfg now sid s).
Proof.
  intros HI. unfold releaseActiveSession.
  destruct (falsy sid); [done|]. case_bool_decide; [|done].
  apply inv_processQueue. destruct HI as [Hc Hr Hp].
  split; simpl; auto. unfold trackedConcurrent in *. simpl.
  pose proof (size_remove_le sid (activeSessionIds s)). lia.
Qed.

Lemma inv_step s now ev :
  (∀ sid, ev ≠ RegisterActiveSession sid) →
  Inv cfg s → Inv cfg (step cfg s (now, ev)).
Proof.
  intros Hev HI. destruct ev; simpl.
  - unfold acquireCreateLease, logStats.
    by apply inv_processQueue, inv_prune, inv_set_queue.
  - unfold confirmCreated. destruct (leases s !! k); [|done].
    destruct (falsy sessionId); [by apply inv_finalize|].
    by apply inv_finalize, inv_prune.
  - by apply inv_finalize.
  - by destruct (Hev sessionId).
  - by apply inv_releaseActiveSession.
  - by apply inv_prune.
  - unfold timerFired. destruct (processTimer s); [|done].
    by apply inv_processQueue, inv_set_processTimer.
Qed.

End Preservation.

Lemma getLimiter_config_positive envp envc :
  0 < maxCreatesPerMinute (getLimiter_config envp envc) ∧
  0 < maxConcurrentSessions (getLimiter_config envp envc).
Proof.
  unfold getLimiter_config, constructor, readPositiveIntegerEnv; simpl.
  split.
  - destruct envp as [n|]; [destruct (0 <? n) eqn:E|]; unfold DEFAULT_MAX_CREATES_PER_MINUTE; lia.
  - destruct envc as [n|]; [destruct (0 <? n) eqn:E|]; unfold DEFAULT_MAX_CONCURRENT_SESSIONS; lia.
Qed.

Lemma inv_init cfg :
  0 <= maxCreatesPerMinute cfg → 0 <= maxConcurrentSessions cfg → Inv cfg init.
Proof. intros. split; simpl; try done. Qed.

Lemma inv_run cfg es s :
  Forall (λ e : Z * Event, ∀ sid, e.2 ≠ RegisterActiveSession sid) es →
  Inv cfg s → Inv cfg (run cfg s es).
Proof.
  intros Hes. revert s. induction Hes as [|[now ev] es Hev _ IH]; intros s HI; [done|].
  simpl. apply IH. by apply inv_step.
Qed.

(** ** Leases are only ever appended *)

Lemma leases_grantWhilePossible cfg now q s k l :
  leases s !! k = Some l → leases (grantWhilePossible cfg now q s) !! k = Some l.
Proof.
  revert s. induction q as [|item rest IH]; intros s Hk; cbn [grantWhilePossible]; [done|].
  destruct (canGrantNextLease cfg now s) as [s1 ok] eqn:E.
  pose proof (canGrantNextLease_state cfg now s) as Hs. rewrite E in Hs. simpl in Hs.
  subst s1. destruct ok; [|done].
  apply IH. simpl. by apply lookup_app_l_Some.
Qed.

Lemma leases_processQueue cfg now s k l :
  leases s !! k = Some l → leases (processQueue cfg now s) !! k = Some l.
Proof.
  intros Hk. unfold processQueue.
  set (s2 := grantWhilePossible _ _ _ _).
  assert (H2 : leases s2 !! k = Some l) by by apply leases_grantWhilePossible.
  destruct (queue s2); [done|]. destruct (hasConcurrentCapacity cfg s2); [|done].
  unfold scheduleWhenRateWindowOpens.
  destruct (queue s2); [done|]. by destruct (createTimestamps s2).
Qed.

(** After [finalize], the lease is marked. *)
Lemma finalize_finalized cfg now k sid s l :
  leases s !! k = Some l →
  ∃ l', leases (finalize cfg now k sid s) !! k = Some l' ∧ finalized l' = true.
Proof.
  intros Hk. unfold finalize. rewrite Hk.
  destruct (finalized l) eqn:Hf; [by eauto|].
  exists {| lease_source := lease_source l; finalized := true |}.
  split; [|reflexivity].
  apply leases_processQueue.
  assert (Hlt : (k < length (leases s))%nat) by (eapply lookup_lt_Some; eauto).
  simpl. destruct (0 <? pendingReservations s);
    (destruct sid as [sid|]; [destruct (falsy sid)|]); simpl;
    by apply list_lookup_insert_eq.
Qed.

(** On a finalized lease, [finalize] returns at once. *)
Lemma finalize_again cfg now k sid s l :
  leases s !! k = Some l → finalized l = true → finalize cfg now k sid s = s.
Proof. intros Hk Hf. unfold finalize. by rewrite Hk, Hf. Qed.

Lemma call_finalized cfg k s c l :
  leases s !! k = Some l →
  ∃ l', leases (call cfg k s c) !! k = Some l' ∧ finalized l' = true.
Proof.
  intros Hk. destruct c as [now [sid|]]; unfold call, cancel, confirmCreated; simpl.
  - rewrite Hk. destruct (falsy sid); by eapply finalize_finalized.
  - by eapply finalize_finalized.
Qed.

Lemma call_again cfg k s c l :
  leases s !! k = Some l → finalized l = true →
  observable (call cfg k s c) = observable s ∧ leases (call cfg k s c) = leases s.
Proof.
  intros Hk Hf. destruct c as [now [sid|]]; unfold call, cancel, confirmCreated; simpl.
  - rewrite Hk. destruct (falsy sid).
    + by erewrite finalize_again.
    + by erewrite finalize_again.
  - by erewrite finalize_again.
Qed.

Lemma call_unknown cfg k s c : leases s !! k = None → call cfg k s c = s.
Proof.
  intros Hk. destruct c as [now [sid|]]; unfold call, cancel, confirmCreated, finalize; simpl;
    by rewrite Hk.
Qed.

Lemma calls_again cfg k cs s l :
  leases s !! k = Some l → finalized l = true →
  observable (foldl (call cfg k) s cs) = observable s.
Proof.
  revert s. induction cs as [|c cs IH]; intros s Hk Hf; [done|]. simpl.
  destruct (call_again cfg k s c l Hk Hf) as [Hobs Hl].
  rewrite <- Hobs. eapply IH; [by rewrite Hl|done].
Qed.

Lemma calls_unknown cfg k cs s :
  leases s !! k = None → foldl (call cfg k) s cs = s.
Proof.
  induction cs as [|c cs IH]; intros Hk; [done|]. simpl.
  rewrite call_unknown by done. by apply IH.
Qed.

(** C6 — Once confirm or cancel has been called on a lease, any further
    calls of confirm or cancel on that lease, in any order and number,
    leave the pending counter, the active-session set and the queue as the
    first call left them. *)
Theorem lease_finalize_idempotent (cfg : Config) (s : State) (k : nat)
    (first : Z * LeaseCall) (again : list (Z * LeaseCall)) :
  observable (foldl (call cfg k) (call cfg k s first) again)
  = observable (call cfg k s first).
Proof.
  destruct (leases s !! k) as [l|] eqn:Hk.
  - destruct (call_finalized cfg k s first l Hk) as (l' & Hk' & Hf').
    by eapply calls_again.
  - rewrite (call_unknown _ _ _ _ Hk). by rewrite calls_unknown.
Qed.

(** C1 — For the limiter built by [getLimiter], after any sequence of
    lease acquisitions, confirmations, cancellations, session releases,
    statistics reads and timer wake-ups, the active sessions plus the
    pending reservations are at most [maxConcurrentSessions], and the
    creation window holds at most [maxCreatesPerMinute] timestamps. *)
Theorem limiter_budgets_respected (envp envc : option Z) (es : list (Z * Event)) :
  Forall (λ e : Z * Event, ∀ sid, e.2 ≠ RegisterActiveSession sid) es →
  let cfg := getLimiter_config envp envc in
  let s := run cfg init es in
  Z.of_nat (size (activeSessionIds s)) + pendingReservations s
    <= maxConcurrentSessions cfg
  ∧ Z.of_nat (length (createTimestamps s)) <= maxCreatesPerMinute cfg.
Proof.
  intros Hes. cbv zeta.
  destruct (getLimiter_config_positive envp envc) as [Hr Hc].
  assert (HI : Inv (getLimiter_config envp envc)
                   (run (getLimiter_config envp envc) init es)).
  { apply inv_run; [done|]. apply inv_init; lia. }
  destruct HI as [H1 H2 _]. done.
Qed.

(** ** The single-slot scenario *)

Lemma processQueue_full cfg now s item rest :
  queue s = item :: rest →
  maxConcurrentSessions cfg <= trackedConcurrent s →
  let s' := processQueue cfg now s in
  leases s' = leases s ∧ queue s' = queue s ∧
  pendingReservations s' = pendingReservations s ∧
  activeSessionIds s' = activeSessionIds s ∧
  (length (createTimestamps s') <= length (createTimestamps s))%nat.
Proof.
  intros Hq Hfull. cbv zeta. unfold processQueue, clearProcessTimer. simpl. rewrite Hq.
  cbn [grantWhilePossible]. unfold canGrantNextLease, hasRateCapacity, hasConcurrentCapacity.
  replace (trackedConcurrent _ <? maxConcurrentSessions cfg) with false
    by (symmetry; apply Z.ltb_ge; exact Hfull).
  rewrite andb_false_r. simpl.
  unfold hasConcurrentCapacity.
  replace (trackedConcurrent _ <? maxConcurrentSessions cfg) with false
    by (symmetry; apply Z.ltb_ge; exact Hfull).
  simpl. split_and!; try done.
  etrans; apply shiftExpired_length.
Qed.

Lemma processQueue_one cfg now s item :
  queue s = [item] →
  trackedConcurrent s < maxConcurrentSessions cfg →
  Z.of_nat (length (createTimestamps s)) < maxCreatesPerMinute cfg →
  let s' := processQueue cfg now s in
  leases s' = leases s ++ [{| lease_source := source item; finalized := false |}] ∧
  queue s' = [] ∧
  pendingReservations s' = pendingReservations s + 1 ∧
  activeSessionIds s' = activeSessionIds s ∧
  (length (createTimestamps s') <= S (length (createTimestamps s)))%nat.
Proof.
  intros Hq Hc Hr. cbv zeta. unfold processQueue, clearProcessTimer. simpl. rewrite Hq.
  cbn [grantWhilePossible]. unfold canGrantNextLease, hasRateCapacity, hasConcurrentCapacity.
  set (ts2 := createTimestamps (pruneCreateTimestamps now _)).
  assert (Hlen : (length ts2 <= length (createTimestamps s))%nat).
  { subst ts2. simpl. etrans; apply shiftExpired_length. }
  replace (Z.of_nat (length ts2) <? maxCreatesPerMinute cfg) with true
    by (symmetry; apply Z.ltb_lt; lia).
  replace (trackedConcurrent _ <? maxConcurrentSessions cfg) with true
    by (symmetry; apply Z.ltb_lt; exact Hc).
  simpl. split_and!; try done.
  pose proof (shiftExpired_length (now - CREATE_WINDOW_MS)
    (shiftExpired (now - CREATE_WINDOW_MS)
       (shiftExpired (now - CREATE_WINDOW_MS) (createTimestamps s)) ++ [now])) as H.
  rewrite length_app in H. simpl in H. subst ts2. simpl in Hlen. lia.
Qed.

Lemma acquire_free cfg now src s :
  queue s = [] →
  trackedConcurrent s < maxConcurrentSessions cfg →
  Z.of_nat (length (createTimestamps s)) < maxCreatesPerMinute cfg →
  let s' := acquireCreateLease cfg now src s in
  leases s' = leases s ++ [{| lease_source := src; finalized := false |}] ∧
  queue s' = [] ∧
  pendingReservations s' = pendingReservations s + 1 ∧
  activeSessionIds s' = activeSessionIds s ∧
  (length (createTimestamps s') <= S (length (createTimestamps s)))%nat.
Proof.
  intros Hq Hc Hr. cbv zeta. unfold acquireCreateLease, logStats.
  set (s0 := pruneCreateTimestamps now _).
  assert (Hlen : (length (createTimestamps s0) <= length (createTimestamps s))%nat)
    by apply shiftExpired_length.
  destruct (processQueue_one cfg now s0 {| source := src |}) as (H1 & H2 & H3 & H4 & H5).
  - subst s0. simpl. by rewrite Hq.
  - exact Hc.
  - lia.
  - split_and!; try done. lia.
Qed.

Lemma acquire_full cfg now src s :
  queue s = [] →
  maxConcurrentSessions cfg <= trackedConcurrent s →
  let s' := acquireCreateLease cfg now src s in
  leases s' = leases s ∧
  queue s' = [{| source := src |}] ∧
  pendingReservations s' = pendingReservations s ∧
  activeSessionIds s' = activeSessionIds s ∧
  (length (createTimestamps s') <= length (createTimestamps s))%nat.
Proof.
  intros Hq Hc. cbv zeta. unfold acquireCreateLease, logStats.
  set (s0 := pruneCreateTimestamps now _).
  assert (Hlen : (length (createTimestamps s0) <= length (createTimestamps s))%nat)
    by apply shiftExpired_length.
  destruct (processQueue_full cfg now s0 {| source := src |} []) as (H1 & H2 & H3 & H4 & H5).
  - subst s0. simpl. by rewrite Hq.
  - exact Hc.
  - split_and!; try done.
    + rewrite H2. subst s0. simpl. by rewrite Hq.
    + lia.
Qed.


Lemma finalize_release cfg now k s l :
  leases s !! k = Some l → finalized l = false → 0 < pendingReservations s →
  finalize cfg now k None s = processQueue cfg now (mark k l s).
Proof.
  intros Hk Hf Hp. unfold finalize. rewrite Hk, Hf. simpl.
  by rewrite (proj2 (Z.ltb_lt _ _) Hp).
Qed.

Lemma finalize_activate cfg now k sid s l :
  leases s !! k = Some l → finalized l = false → 0 < pendingReservations s →
  sid ≠ "" →
  finalize cfg now k (Some sid) s
  = processQueue cfg now
      (set_activeSessionIds ({[sid]} ∪ activeSessionIds s) (mark k l s)).
Proof.
  intros Hk Hf Hp Hsid. unfold finalize. rewrite Hk, Hf. simpl.
  rewrite (proj2 (Z.ltb_lt _ _) Hp). unfold falsy.
  by rewrite bool_decide_eq_false_2.
Qed.

(** C4 — With a single concurrent slot (and a creation rate of at least
    two per minute), the first of two requests is granted and the second
    is not while the first lease is outstanding; the second is granted as
    soon as the first lease is cancelled or confirmed with an empty session
    id; after the first lease is confirmed with a session id the second
    stays queued, and is granted once that session is released. *)
Theorem single_slot_scenario (cfg : Config) (a b sid : string) (t1 t2 t3 t4 : Z) :
  maxConcurrentSessions cfg = 1 → 2 <= maxCreatesPerMinute cfg → sid ≠ "" →
  let s2 := run cfg init [(t1, AcquireCreateLease a); (t2, AcquireCreateLease b)] in
  (granted 0 s2 = true ∧ granted 1 s2 = false) ∧
  granted 1 (step cfg s2 (t3, Cancel 0)) = true ∧
  granted 1 (step cfg s2 (t3, ConfirmCreated 0 "")) = true ∧
  let s3 := step cfg s2 (t3, ConfirmCreated 0 sid) in
  granted 1 s3 = false ∧
  granted 1 (step cfg s3 (t4, ReleaseActiveSession sid)) = true.
Proof.
  intros HC HR Hsid. cbv zeta. unfold run. simpl foldl.
  set (s1 := acquireCreateLease cfg t1 a init).
  destruct (acquire_free cfg t1 a init) as (L1 & Q1 & P1 & A1 & T1).
  { done. }
  { unfold trackedConcurrent, init. cbn [activeSessionIds pendingReservations].
    rewrite size_empty. lia. }
  { simpl; lia. }
  fold s1 in L1, Q1, P1, A1, T1. simpl in L1, P1, A1, T1.
  set (s2 := acquireCreateLease cfg t2 b s1).
  destruct (acquire_full cfg t2 b s1) as (L2 & Q2 & P2 & A2 & T2);
    [done| unfold trackedConcurrent; rewrite A1, P1, size_empty; lia |].
  fold s2 in L2, Q2, P2, A2, T2. rewrite L1 in L2. rewrite P1 in P2. rewrite A1 in A2.
  assert (K2 : leases s2 !! 0%nat = Some {| lease_source := a; finalized := false |})
    by by rewrite L2.
  assert (M2 : ∀ s, leases s = leases s2 → queue s = queue s2 →
             pendingReservations s = 1 → activeSessionIds s = ∅ →
             (length (createTimestamps s) <= length (createTimestamps s2))%nat →
             granted 1 (processQueue cfg t3 (mark 0 {| lease_source := a; finalized := false |} s)) = true).
  { intros s Ls Qs Ps As Ts.
    destruct (processQueue_one cfg t3 (mark 0 {| lease_source := a; finalized := false |} s) {| source := b |})
      as (L3 & _).
    - simpl. by rewrite Qs, Q2.
    - unfold trackedConcurrent. simpl. rewrite As, Ps, size_empty. lia.
    - simpl. lia.
    - unfold granted. rewrite L3. simpl. by rewrite Ls, L2. }
  assert (E3 : step cfg s2 (t3, ConfirmCreated 0 sid) =
    processQueue cfg t3
      (set_activeSessionIds ({[sid]} ∪ activeSessionIds (logStats t3 s2))
         (mark 0 {| lease_source := a; finalized := false |} (logStats t3 s2)))).
  { cbn [step]. unfold confirmCreated. rewrite K2. unfold falsy.
    rewrite bool_decide_eq_false_2 by done.
    erewrite finalize_activate; [done|exact K2|done|simpl; lia|done]. }
  rewrite E3. clear E3.
  set (s3 := processQueue cfg t3 _).
  destruct (processQueue_full cfg t3
      (set_activeSessionIds ({[sid]} ∪ activeSessionIds (logStats t3 s2))
         (mark 0 {| lease_source := a; finalized := false |} (logStats t3 s2)))
      {| source := b |} []) as (L3 & Q3 & P3 & A3 & T3).
  { simpl. by rewrite Q2. }
  { unfold trackedConcurrent. cbn [activeSessionIds pendingReservations mark logStats
      pruneCreateTimestamps set_createTimestamps set_activeSessionIds
      set_pendingReservations set_leases].
    rewrite A2, P2, HC, (right_id_L ∅ (∪)), size_singleton. lia. }
  fold s3 in L3, Q3, P3, A3, T3.
  cbn [activeSessionIds pendingReservations mark logStats queue leases createTimestamps
      pruneCreateTimestamps set_createTimestamps set_activeSessionIds
      set_pendingReservations set_leases] in L3, Q3, P3, A3, T3.
  rewrite L2 in L3. rewrite Q2 in Q3. rewrite P2 in P3. rewrite A2, (right_id_L ∅ (∪)) in A3.
  split_and!.
  - unfold granted. by rewrite L2.
  - unfold granted. by rewrite L2.
  - cbn [step]. unfold cancel. erewrite finalize_release by (first [exact K2 | done | lia]).
    apply M2; try done.
  - cbn [step]. unfold confirmCreated. rewrite K2. simpl.
    erewrite finalize_release by (first [exact K2 | done | lia]).
    apply M2; try done.
  - unfold granted. by rewrite L3.
  - cbn [step]. unfold releaseActiveSession, falsy.
    rewrite bool_decide_eq_false_2 by done.
    rewrite bool_decide_eq_true_2 by (rewrite A3; set_solver).
    destruct (processQueue_one cfg t4
      (set_activeSessionIds (activeSessionIds s3 ∖ {[sid]}) s3) {| source := b |})
      as (L4 & _).
    + done.
    + unfold trackedConcurrent. cbn [activeSessionIds pendingReservations set_activeSessionIds].
      rewrite A3, P3, difference_diag_L, size_empty. lia.
    + cbn [createTimestamps set_activeSessionIds].
      pose proof (shiftExpired_length (t3 - CREATE_WINDOW_MS) (createTimestamps s2)). lia.
    + unfold granted. rewrite L4. simpl. by rewrite L3.
Qed.

Lemma single_slot_scenario_witness :
  (maxConcurrentSessions single_slot = 1 ∧ 2 <= maxCreatesPerMinute single_slot
   ∧ "sess-1" ≠ "") ∧
  let s2 := run single_slot init
              [(1000, AcquireCreateLease "recorder"); (1001, AcquireCreateLease "runner")] in
  (granted 0 s2 = true ∧ granted 1 s2 = false) ∧
  granted 1 (step single_slot s2 (1002, Cancel 0)) = true ∧
  granted 1 (step single_slot s2 (1002, ConfirmCreated 0 "")) = true ∧
  let s3 := step single_slot s2 (1002, ConfirmCreated 0 "sess-1") in
  granted 1 s3 = false ∧
  granted 1 (step single_slot s3 (1003, ReleaseActiveSession "sess-1")) = true.
Proof.
  split; [split_and!; [reflexivity | vm_compute; discriminate | discriminate]|].
  apply (single_slot_scenario single_slot "recorder" "runner" "sess-1" 1000 1001 1002 1003);
    [reflexivity | vm_compute; discriminate | discriminate].
Defined.

(** With one concurrent slot, confirming the first lease with a session id
    does not let the second request through: the confirmed session keeps
    the slot. *)
Lemma confirm_keeps_slot :
  let s := run single_slot init
             [(1000, AcquireCreateLease "recorder"); (1001, AcquireCreateLease "runner");
              (1002, ConfirmCreated 0 "sess-1")] in
  granted 1 s = false ∧ queue s = [{| source := "runner" |}]
  ∧ pendingReservations s = 0 ∧ elements (activeSessionIds s) = ["sess-1"].
Proof. vm_compute. done. Qed.

Lemma limiter_budgets_respected_witness :
  let es := [(1000, AcquireCreateLease "recorder"); (1001, AcquireCreateLease "runner");
             (1002, ConfirmCreated 0 "sess-1"); (1003, Cancel 1);
             (1004, ReleaseActiveSession "sess-1"); (1005, TimerFired)] in
  Forall (λ e : Z * Event, ∀ sid, e.2 ≠ RegisterActiveSession sid) es ∧
  let cfg := getLimiter_config (Some 2) (Some 1) in
  let s := run cfg init es in
  Z.of_nat (size (activeSessionIds s)) + pendingReservations s
    <= maxConcurrentSessions cfg
  ∧ Z.of_nat (length (createTimestamps s)) <= maxCreatesPerMinute cfg.
Proof.
  assert (H : Forall (λ e : Z * Event, ∀ sid, e.2 ≠ RegisterActiveSession sid)
    [(1000, AcquireCreateLease "recorder"); (1001, AcquireCreateLease "runner");
     (1002, ConfirmCreated 0 "sess-1"); (1003, Cancel 1);
     (1004, ReleaseActiveSession "sess-1"); (1005, TimerFired)])
    by (repeat constructor; intros sid; discriminate).
  split; [exact H|].
  exact (limiter_budgets_respected (Some 2) (Some 1) _ H).
Defined.

(** Out-of-band registration is not checked against the budget: one slot,
    two registered sessions. *)
Example register_exceeds_budget :
  let s := run single_slot init
             [(1000, RegisterActiveSession "s1"); (1001, RegisterActiveSession "s2")] in
  trackedConcurrent s = 2 ∧ maxConcurrentSessions single_slot = 1.
Proof. vm_compute. done. Qed.

End LimiterProofs.

(** * Properties of the interaction synthesizer *)

Module SynthProofs.
Import Synth.

(** ** Clicks *)

Lemma click_paths_agree p : click p = bindingClick.
Proof. by destruct p. Qed.

Lemma click_dropped p now rnd e page s :
  now - lastClickTimestamp s < 100 → click p now rnd e page s = s.
Proof.
  intros H. rewrite click_paths_agree. unfold bindingClick.
  by rewrite (proj2 (Z.ltb_lt _ _) H).
Qed.

Lemma click_accepted p now rnd e page s :
  100 <= now - lastClickTimestamp s →
  click p now rnd e page s
  = set_interactions (interactions s ++ [click_interaction now rnd e page])
      (set_typingBuffer None (set_lastClickTimestamp now s)).
Proof.
  intros H. rewrite click_paths_agree. unfold bindingClick.
  by rewrite (proj2 (Z.ltb_ge _ _) H).
Qed.

(** C9 — After a click was accepted at [now1], a second click on the same
    page is dropped, leaving no trace, when it comes less than 100 ms
    later, and is accepted, appending its own interaction, when it comes
    150 ms or more later; on either delivery path. *)
Theorem click_deduplication (p1 p2 : ClickPath) (s : State)
    (now1 now2 : Z) (rnd1 rnd2 : string) (e1 e2 : EventData) (page : string) :
  100 <= now1 - lastClickTimestamp s →
  let s1 := click p1 now1 rnd1 e1 page s in
  interactions s1 = interactions s ++ [click_interaction now1 rnd1 e1 page]
  ∧ (now2 - now1 < 100 → click p2 now2 rnd2 e2 page s1 = s1)
  ∧ (150 <= now2 - now1 →
     interactions (click p2 now2 rnd2 e2 page s1)
     = interactions s1 ++ [click_interaction now2 rnd2 e2 page]).
Proof.
  intros H1. cbv zeta. rewrite (click_accepted p1) by done. split_and!.
  - done.
  - intros H2. by apply click_dropped.
  - intros H2. by rewrite click_accepted by (simpl; lia).
Qed.

Lemma click_deduplication_witness :
  100 <= 5000 - lastClickTimestamp init ∧
  let s1 := click BindingPath 5000 "a1" (click_at "#go") "page-1" init in
  interactions s1 = interactions init ++ [click_interaction 5000 "a1" (click_at "#go") "page-1"]
  ∧ (5060 - 5000 < 100 → click ScreencastPath 5060 "b2" (click_at "#go") "page-1" s1 = s1)
  ∧ (150 <= 5060 - 5000 →
     interactions (click ScreencastPath 5060 "b2" (click_at "#go") "page-1" s1)
     = interactions s1 ++ [click_interaction 5060 "b2" (click_at "#go") "page-1"]).
Proof.
  split; [simpl; lia|].
  apply (click_deduplication BindingPath ScreencastPath init 5000 5060 "a1" "b2"
           (click_at "#go") (click_at "#go") "page-1").
  simpl; lia.
Defined.

(** ** Typing *)

Lemma plain_inv e :
  plain e = true →
  is_modifier_key (key e) = false ∧ ctrlKey e = false ∧ altKey e = false
  ∧ metaKey e = false ∧ key e ≠ "Backspace".
Proof.
  unfold plain. rewrite !andb_true_iff, !negb_true_iff.
  intros ((((?&?)&?)&?)&Hb). split_and!; try done.
  by apply bool_decide_eq_false in Hb.
Qed.

(** A plain keydown that is not dropped and finds no buffer to merge into
    starts a buffer and an interaction. *)
Lemma handleKeydown_new now rnd e page s :
  plain e = true →
  duplicate_keydown now (key e) s = false →
  mergeable now (selector_of e) s = None →
  handleKeydown now rnd e page s
  = set_interactions
      (interactions s ++
         [typing_interaction {| at_time := now; random := rnd; event := e; on_page := page |}
            (char_of (key e)) now])
      (set_typingBuffer
         (Some {| interactionId := fresh_id "typing" now rnd; buffered := char_of (key e);
                  lastTimestamp := now; buffer_selector := selector_of e |})
         (set_lastKeydown (Some (key e, now)) s)).
Proof.
  intros (Hm & Hc & Ha & Hme & Hb)%plain_inv Hd Hg. unfold handleKeydown.
  rewrite Hm, Hd, Hc, Ha, Hme. simpl.
  rewrite bool_decide_eq_false_2 by done.
  change (mergeable now (selector_of e) (set_lastKeydown (Some (key e, now)) s))
    with (mergeable now (selector_of e) s).
  by rewrite Hg.
Qed.

(** A plain keydown that is not dropped and finds a buffer to merge into
    appends to it. *)
Lemma handleKeydown_append now rnd e page s b :
  plain e = true →
  duplicate_keydown now (key e) s = false →
  mergeable now (selector_of e) s = Some b →
  handleKeydown now rnd e page s
  = set_interactions
      (retext (interactionId b) now (buffered b +:+ char_of (key e)) (interactions s))
      (set_typingBuffer
         (Some {| interactionId := interactionId b;
                  buffered := buffered b +:+ char_of (key e);
                  lastTimestamp := now; buffer_selector := buffer_selector b |})
         (set_lastKeydown (Some (key e, now)) s)).
Proof.
  intros (Hm & Hc & Ha & Hme & Hb)%plain_inv Hd Hg. unfold handleKeydown.
  rewrite Hm, Hd, Hc, Ha, Hme. simpl.
  rewrite bool_decide_eq_false_2 by done.
  change (mergeable now (selector_of e) (set_lastKeydown (Some (key e, now)) s))
    with (mergeable now (selector_of e) s).
  by rewrite Hg.
Qed.

Lemma retext_last base i now t :
  id i ∉ map id base →
  retext (id i) now t (base ++ [i])
  = base ++ [{| id := id i; type := type i; timestamp := now; pageId := pageId i;
                screenshotUrl := screenshotUrl i; element := with_text t (element i);
                data := data i |}].
Proof.
  intros Hfresh. unfold retext.
  assert (Hnone : list_find (λ j, id j = id i) base = None).
  { apply list_find_None, Forall_forall. intros j Hj Heq. apply Hfresh.
    rewrite <- Heq. apply list_elem_of_In, in_map, list_elem_of_In, Hj. }
  rewrite list_find_app_r by done. simpl.
  rewrite decide_True by done. simpl.
  rewrite insert_app_r_alt by lia.
  by rewrite Nat.sub_diag.
Qed.


Lemma append_cons (x : ascii) (a b : string) : String x a +:+ b = String x (a +:+ b).
Proof. reflexivity. Qed.

Lemma append_nil_l (b : string) : "" +:+ b = b.
Proof. reflexivity. Qed.

Lemma append_assoc (a b c : string) : (a +:+ b) +:+ c = a +:+ (b +:+ c).
Proof.
  induction a as [|x a IH]; [done|]. rewrite !append_cons. by rewrite IH.
Qed.

Lemma append_nil_r (a : string) : a +:+ "" = a.
Proof. induction a as [|x a IH]; [done|]. rewrite append_cons. by rewrite IH. Qed.

(** The state in the middle of a burst: the interaction of its first
    keystroke is the last of the list, the buffer points to it, and the
    last accepted keydown is the last keystroke of the burst. *)
Lemma burst_run sel base k0 ks : ∀ s prev txt,
  interactions s = base ++ [typing_interaction k0 txt (at_time prev)] →
  typingBuffer s
  = Some {| interactionId := fresh_id "typing" (at_time k0) (random k0);
            buffered := txt; lastTimestamp := at_time prev; buffer_selector := sel |} →
  lastKeydown s = Some (key (event prev), at_time prev) →
  fresh_id "typing" (at_time k0) (random k0) ∉ map id base →
  burst sel prev ks = true →
  let s' := type_keys s ks in
  interactions s'
  = base ++ [typing_interaction k0 (txt +:+ typed ks) (at_time (final prev ks))]
  ∧ typingBuffer s'
    = Some {| interactionId := fresh_id "typing" (at_time k0) (random k0);
              buffered := txt +:+ typed ks; lastTimestamp := at_time (final prev ks);
              buffer_selector := sel |}
  ∧ lastKeydown s' = Some (key (event (final prev ks)), at_time (final prev ks)).
Proof.
  induction ks as [|k rest IH]; intros s prev txt Hi Hb Hl Hfresh Hburst; cbv zeta.
  - simpl. by rewrite append_nil_r.
  - cbn [burst] in Hburst.
    apply andb_true_iff in Hburst as [Hburst Hrest].
    apply andb_true_iff in Hburst as [Hburst Hrep].
    apply andb_true_iff in Hburst as [Hburst Hwin].
    apply andb_true_iff in Hburst as [Hplain Hsel].
    apply bool_decide_eq_true in Hsel. apply negb_true_iff in Hrep.
    assert (Hdup : duplicate_keydown (at_time k) (key (event k)) s = false)
      by (unfold duplicate_keydown; by rewrite Hl).
    assert (Hmerge : mergeable (at_time k) (selector_of (event k)) s
      = Some {| interactionId := fresh_id "typing" (at_time k0) (random k0);
                buffered := txt; lastTimestamp := at_time prev; buffer_selector := sel |}).
    { unfold mergeable. rewrite Hb. simpl. rewrite Hwin.
      by rewrite bool_decide_eq_true_2. }
    set (s1 := set_interactions
        (base ++ [typing_interaction k0 (txt +:+ char_of (key (event k))) (at_time k)])
        (set_typingBuffer
           (Some {| interactionId := fresh_id "typing" (at_time k0) (random k0);
                    buffered := txt +:+ char_of (key (event k));
                    lastTimestamp := at_time k; buffer_selector := sel |})
           (set_lastKeydown (Some (key (event k), at_time k)) s))).
    assert (Hstep : press s k = s1).
    { unfold press, s1.
      rewrite (handleKeydown_append _ _ _ _ _ _ Hplain Hdup Hmerge). simpl.
      rewrite Hi.
      change (fresh_id "typing" (at_time k0) (random k0))
        with (id (typing_interaction k0 txt (at_time prev))) at 1.
      by rewrite retext_last by done. }
    unfold type_keys. cbn [foldl final typed]. rewrite Hstep.
    destruct (IH s1 k (txt +:+ char_of (key (event k))) eq_refl eq_refl eq_refl Hfresh Hrest)
      as (I1 & I2 & I3).
    rewrite append_assoc in I1, I2. done.
Qed.

Lemma burst_take sel n : ∀ ks prev,
  burst sel prev ks = true → burst sel prev (take n ks) = true.
Proof.
  induction n as [|n IH]; intros [|k rest] prev H; try done.
  cbn [take burst] in *. apply andb_true_iff in H as [H Hrest].
  rewrite H. simpl. by apply IH.
Qed.

(** The whole burst, from the state before its first keystroke. *)
Lemma burst_from_start s sel k0 ks :
  plain (event k0) = true →
  selector_of (event k0) = sel →
  duplicate_keydown (at_time k0) (key (event k0)) s = false →
  mergeable (at_time k0) sel s = None →
  fresh_id "typing" (at_time k0) (random k0) ∉ map id (interactions s) →
  burst sel k0 ks = true →
  let s' := type_keys s (k0 :: ks) in
  interactions s'
  = interactions s ++ [typing_interaction k0 (typed (k0 :: ks)) (at_time (final k0 ks))]
  ∧ typingBuffer s'
    = Some {| interactionId := fresh_id "typing" (at_time k0) (random k0);
              buffered := typed (k0 :: ks); lastTimestamp := at_time (final k0 ks);
              buffer_selector := sel |}
  ∧ lastKeydown s' = Some (key (event (final k0 ks)), at_time (final k0 ks)).
Proof.
  intros Hplain Hsel Hdup Hmerge Hfresh Hburst. cbv zeta.
  unfold type_keys. cbn [foldl]. fold (type_keys (press s k0) ks).
  assert (Hstart : press s k0 = set_interactions
      (interactions s ++ [typing_interaction k0 (char_of (key (event k0))) (at_time k0)])
      (set_typingBuffer
         (Some {| interactionId := fresh_id "typing" (at_time k0) (random k0);
                  buffered := char_of (key (event k0));
                  lastTimestamp := at_time k0; buffer_selector := sel |})
         (set_lastKeydown (Some (key (event k0), at_time k0)) s))).
  { unfold press. rewrite <- Hsel in Hmerge.
    rewrite (handleKeydown_new _ _ _ _ _ Hplain Hdup Hmerge). by rewrite Hsel. }
  rewrite Hstart. cbn [typed]. by apply burst_run.
Qed.

(** C7 — A burst of plain keydowns on one selector, each less than
    3000 ms after the one before and none repeating the key before it
    within 50 ms, starting when no buffer can be merged into, yields one
    interaction appended to the list; after every keystroke of the burst
    its text is the concatenation of the keys rendered so far.  A plain
    keydown 3000 ms or more after the burst appends a second interaction. *)
Theorem typing_burst_one_interaction (s : State) (sel : string) (k0 : Keystroke)
    (ks : list Keystroke) :
  plain (event k0) = true →
  selector_of (event k0) = sel →
  duplicate_keydown (at_time k0) (key (event k0)) s = false →
  mergeable (at_time k0) sel s = None →
  fresh_id "typing" (at_time k0) (random k0) ∉ map id (interactions s) →
  burst sel k0 ks = true →
  (∀ n,
     interactions (type_keys s (k0 :: take n ks))
     = interactions s ++
         [typing_interaction k0 (typed (k0 :: take n ks))
            (at_time (final k0 (take n ks)))])
  ∧ (∀ k,
       plain (event k) = true →
       3000 <= at_time k - at_time (final k0 ks) →
       interactions (press (type_keys s (k0 :: ks)) k)
       = interactions (type_keys s (k0 :: ks)) ++
           [typing_interaction k (char_of (key (event k))) (at_time k)]).
Proof.
  intros Hplain Hsel Hdup Hmerge Hfresh Hburst. split.
  - intros n.
    by destruct (burst_from_start s sel k0 (take n ks) Hplain Hsel Hdup Hmerge Hfresh
                   (burst_take sel n ks k0 Hburst)) as (H & _).
  - intros k Hk Hgap.
    destruct (burst_from_start s sel k0 ks Hplain Hsel Hdup Hmerge Hfresh Hburst)
      as (_ & Hb & Hl).
    unfold press. rewrite handleKeydown_new; [by destruct k| done | | ].
    + unfold duplicate_keydown. rewrite Hl.
      rewrite (proj2 (Z.ltb_ge _ _)) by lia. apply andb_false_r.
    + unfold mergeable. rewrite Hb. simpl.
      rewrite (proj2 (Z.ltb_ge _ _)) by lia. by rewrite andb_false_r.
Qed.

Lemma typing_burst_one_interaction_witness :
  let s := init in
  let k0 := stroke 1000 "h" "#q" in
  let ks := [stroke 1100 "e" "#q"; stroke 1200 "l" "#q"; stroke 1300 "l" "#q";
             stroke 1400 "o" "#q"] in
  (plain (event k0) = true ∧ selector_of (event k0) = "#q"
   ∧ duplicate_keydown (at_time k0) (key (event k0)) s = false
   ∧ mergeable (at_time k0) "#q" s = None
   ∧ (fresh_id "typing" (at_time k0) (random k0) ∉ map id (interactions s))
   ∧ burst "#q" k0 ks = true)
  ∧ (∀ n,
       interactions (type_keys s (k0 :: take n ks))
       = interactions s ++
           [typing_interaction k0 (typed (k0 :: take n ks))
              (at_time (final k0 (take n ks)))])
  ∧ (∀ k,
       plain (event k) = true →
       3000 <= at_time k - at_time (final k0 ks) →
       interactions (press (type_keys s (k0 :: ks)) k)
       = interactions (type_keys s (k0 :: ks)) ++
           [typing_interaction k (char_of (key (event k))) (at_time k)]).
Proof.
  cbv zeta.
  assert (Hfresh : fresh_id "typing" (at_time (stroke 1000 "h" "#q"))
                     (random (stroke 1000 "h" "#q")) ∉ map id (interactions init))
    by (simpl; apply not_elem_of_nil).
  split; [(split_and!; solve [reflexivity | exact Hfresh])|].
  apply (typing_burst_one_interaction init "#q" (stroke 1000 "h" "#q")
           [stroke 1100 "e" "#q"; stroke 1200 "l" "#q"; stroke 1300 "l" "#q";
            stroke 1400 "o" "#q"]);
    solve [reflexivity | exact Hfresh].
Defined.

(** The instance of the burst theorem for "hello", read off. *)
Example hello_100ms :
  map (λ i, text (element i)) (interactions (type_keys init (hello 100)))
  = [Some "hello"]
  ∧ map (λ i, text (element i))
      (interactions (type_keys init (hello 100 ++ [stroke 5400 "!" "#q"])))
    = [Some "hello"; Some "!"].
Proof. vm_compute. done. Qed.

(** Five plain keydowns on one selector, 10 ms apart: the second "l" is
    dropped as a duplicate of the first, and the text ends as "helo". *)
Lemma fast_repeat_is_dropped :
  let ks := hello 10 in
  forallb (λ k, plain (event k)) ks = true
  ∧ forallb (λ k, bool_decide (selector_of (event k) = "#q")) ks = true
  ∧ within_merge_window 1000 ks = true
  ∧ typed ks = "hello"
  ∧ map (λ i, text (element i)) (interactions (type_keys init ks)) = [Some "helo"].
Proof. vm_compute. done. Qed.

(** ** Backspace *)

Lemma length_append (a b : string) :
  String.length (a +:+ b) = (String.length a + String.length b)%nat.
Proof. induction a as [|x a IH]; [done|]. rewrite append_cons. simpl. by rewrite IH. Qed.

Lemma endsWith_cons c a rest :
  rest ≠ "" → endsWith c (String a rest) = endsWith c rest.
Proof. by destruct rest. Qed.

Lemma endsWith_snoc c pre c' :
  endsWith c (pre +:+ String c' "") = Ascii.eqb c' c.
Proof.
  induction pre as [|x pre IH]; [done|]. rewrite append_cons.
  rewrite endsWith_cons; [done|]. by destruct pre.
Qed.

Lemma lastIndexOf_None_app c a b :
  lastIndexOf c a = None → lastIndexOf c b = None → lastIndexOf c (a +:+ b) = None.
Proof.
  intros Ha Hb. induction a as [|x a IH]; [done|].
  rewrite append_cons. simpl in *.
  destruct (lastIndexOf c a); [done|]. rewrite IH by done.
  by destruct (Ascii.eqb x c).
Qed.

Lemma lastIndexOf_app c pre suf :
  lastIndexOf c suf = None →
  lastIndexOf c (pre +:+ String c suf) = Some (String.length pre).
Proof.
  intros Hs. induction pre as [|x pre IH].
  - rewrite append_nil_l. simpl. by rewrite Hs, Ascii.eqb_refl.
  - rewrite append_cons. simpl. by rewrite IH.
Qed.

Lemma substring_prefix pre suf :
  String.substring 0 (String.length pre) (pre +:+ suf) = pre.
Proof.
  induction pre as [|x pre IH].
  - simpl. by destruct suf.
  - rewrite append_cons. simpl. by rewrite IH.
Qed.

Lemma dropLast_snoc pre c : dropLast (pre +:+ String c "") = pre.
Proof.
  unfold dropLast. rewrite length_append. simpl.
  replace (String.length pre + 1 - 1)%nat with (String.length pre) by lia.
  apply substring_prefix.
Qed.

(** A bracketed token at the end goes as one unit. *)
Lemma backspaced_token pre tok :
  lastIndexOf "[" tok = None → backspaced (pre +:+ "[" +:+ tok +:+ "]") = pre.
Proof.
  intros Htok. unfold backspaced.
  assert (Hend : endsWith "]" (pre +:+ "[" +:+ tok +:+ "]") = true).
  { rewrite <- !append_assoc. by rewrite endsWith_snoc. }
  rewrite Hend.
  change (pre +:+ "[" +:+ tok +:+ "]") with (pre +:+ String "[" (tok +:+ "]")).
  rewrite lastIndexOf_app by (by apply lastIndexOf_None_app).
  apply substring_prefix.
Qed.

(** Any other last character goes alone. *)
Lemma backspaced_char pre c : c ≠ "]"%char → backspaced (pre +:+ String c "") = pre.
Proof.
  intros Hc. unfold backspaced. rewrite endsWith_snoc.
  rewrite (proj2 (Ascii.eqb_neq _ _) Hc). apply dropLast_snoc.
Qed.


Lemma retext_ids i now t l : map id (retext i now t l) = map id l.
Proof.
  unfold retext. destruct (list_find _ l) as [[index x]|] eqn:Hfind; [|done].
  apply list_find_Some in Hfind as (Hl & Hx & _).
  change (map id) with (fmap (M := list) id).
  rewrite list_fmap_insert. simpl. apply list_insert_id.
  by rewrite list_lookup_fmap, Hl.
Qed.




(** The scenario of the specification: "hi[Enter]", then Backspace. *)
Example backspace_after_enter :
  let s := type_keys init [stroke 1000 "h" "#q"; stroke 1100 "i" "#q";
                           stroke 1200 "Enter" "#q"] in
  let s' := press s (stroke 1300 "Backspace" "#q") in
  map (λ i, text (element i)) (interactions s) = [Some "hi[Enter]"]
  ∧ map (λ i, text (element i)) (interactions s') = [Some "hi"]
  ∧ (buffered <$> typingBuffer s') = Some "hi".
Proof. vm_compute. done. Qed.

(** Backspace with Ctrl held takes the modifier branch: it clears the
    buffer and appends an interaction of its own. *)
Lemma ctrl_backspace_creates_interaction :
  let s := type_keys init [stroke 1000 "h" "#q"; stroke 1100 "i" "#q"] in
  let s' := handleKeydown 1200 "r" (ctrl_backspace "#q") (Some "page-1") s in
  key (ctrl_backspace "#q") = "Backspace"
  ∧ (buffered <$> mergeable 1200 (selector_of (ctrl_backspace "#q")) s) = Some "hi"
  ∧ length (interactions s) = 1%nat
  ∧ map (λ i, text (element i)) (interactions s') = [Some "hi"; Some "Ctrl+Backspace"]
  ∧ typingBuffer s' = None.
Proof. vm_compute. done. Qed.


(** ** addInteraction and the buffer *)

Lemma accepted_click_is_addInteraction p now rnd e page s :
  100 <= now - lastClickTimestamp s →
  click p now rnd e page s
  = addInteraction now rnd user_event (click_element e) (Some page) (EventPayload e)
      (set_lastClickTimestamp now s).
Proof.
  intros H. rewrite click_paths_agree. unfold bindingClick.
  by rewrite (proj2 (Z.ltb_ge _ _) H).
Qed.

Lemma accepted_navigation_is_addInteraction now rnd url frameId name page s :
  1000 < now - lastNavigationRefresh s →
  (frameNavigated now rnd url frameId name page s).1
  = addInteraction now rnd frame_navigation
      {| tagName := Some "FRAME_NAVIGATION"; text := Some ("Navigated to " +:+ url);
         selector := Some frameId; href := Some url; attributes := [] |}
      (Some page) (NavigationPayload url frameId name page)
      (set_lastNavigationRefresh now s).
Proof.
  intros H. unfold frameNavigated. by rewrite (proj2 (Z.ltb_lt _ _) H).
Qed.

(** C10 — [addInteraction] leaves no typing buffer, so the next plain
    keydown that is not dropped as a duplicate appends a new typing
    interaction, whatever its selector and however soon it comes. *)
Theorem addInteraction_ends_typing (s : State) (now : Z) (rnd : string)
    (ty : InteractionType) (el : Element) (page : option string) (d : Data)
    (k : Keystroke) :
  plain (event k) = true →
  duplicate_keydown (at_time k) (key (event k)) s = false →
  let s1 := addInteraction now rnd ty el page d s in
  typingBuffer s1 = None
  ∧ interactions (press s1 k)
    = interactions s1 ++ [typing_interaction k (char_of (key (event k))) (at_time k)]
  ∧ typingBuffer (press s1 k)
    = Some {| interactionId := fresh_id "typing" (at_time k) (random k);
              buffered := char_of (key (event k)); lastTimestamp := at_time k;
              buffer_selector := selector_of (event k) |}.
Proof.
  intros Hplain Hdup. cbv zeta. split; [done|].
  unfold press. rewrite handleKeydown_new; [by destruct k|done|done|done].
Qed.

Lemma addInteraction_ends_typing_witness :
  let s := type_keys init [stroke 1000 "h" "#q"; stroke 1100 "i" "#q"] in
  let k := stroke 1300 "!" "#q" in
  (plain (event k) = true ∧ duplicate_keydown (at_time k) (key (event k)) s = false)
  ∧ let s1 := addInteraction 1200 "c1" user_event (click_element (click_at "#go"))
                (Some "page-1") (EventPayload (click_at "#go")) s in
    typingBuffer s1 = None
    ∧ interactions (press s1 k)
      = interactions s1 ++ [typing_interaction k (char_of (key (event k))) (at_time k)]
    ∧ typingBuffer (press s1 k)
      = Some {| interactionId := fresh_id "typing" (at_time k) (random k);
                buffered := char_of (key (event k)); lastTimestamp := at_time k;
                buffer_selector := selector_of (event k) |}.
Proof.
  cbv zeta. split; [by split|].
  apply (addInteraction_ends_typing
    (type_keys init [stroke 1000 "h" "#q"; stroke 1100 "i" "#q"])
    1200 "c1" user_event (click_element (click_at "#go"))
    (Some "page-1") (EventPayload (click_at "#go")) (stroke 1300 "!" "#q")); reflexivity.
Defined.

(** A keydown of "a", a click 10 ms later, and "a" again 10 ms after the
    click: the buffer is gone, and yet the second keydown is dropped as a
    duplicate of the first. *)
Lemma keydown_after_click_can_be_dropped :
  let s1 := press init (stroke 1000 "a" "#q") in
  let s2 := click BindingPath 1010 "c1" (click_at "#go") "page-1" s1 in
  let s3 := press s2 (stroke 1020 "a" "#q") in
  plain (event (stroke 1020 "a" "#q")) = true
  ∧ length (interactions s2) = 2%nat
  ∧ typingBuffer s2 = None
  ∧ s3 = s2.
Proof. vm_compute. done. Qed.

End SynthProofs.

(** * Properties of the protocol bridge *)

Module BridgeProofs.
Import Bridge Correlation.

Lemma settlements_app p a b : settlements p (a ++ b) = settlements p a ++ settlements p b.
Proof. apply List.filter_app. Qed.

Lemma all_settlements_app a b : all_settlements (a ++ b) = all_settlements a ++ all_settlements b.
Proof. apply List.filter_app. Qed.

(** ** Reachable states are well formed *)

Section WellFormed.
Context (h : Hook).

Lemma listener_bounded_mono B B' M M' l :
  (B <= B')%nat → M <= M' → listener_bounded B M l → listener_bounded B' M' l.
Proof. intros HB HM. destruct l; simpl; lia. Qed.

Lemma socket_bounded_mono B B' M M' w :
  (B <= B')%nat → M <= M' → socket_bounded B M w → socket_bounded B' M' w.
Proof.
  intros HB HM [C1 C2 C3]. split.
  - eapply Forall_impl; [exact C1|]. intros l. by apply listener_bounded_mono.
  - eapply Forall_impl; [exact C2|]. simpl. lia.
  - eapply Forall_impl; [exact C3|]. simpl. lia.
Qed.

Lemma timer_bounded_mono B B' M M' a :
  (B <= B')%nat → M <= M' → timer_bounded B M a → timer_bounded B' M' a.
Proof. intros HB HM. destruct a; simpl; lia. Qed.

Lemma effect_bounded_mono B B' e :
  (B <= B')%nat → effect_bounded B e → effect_bounded B' e.
Proof. intros HB. destruct e; simpl; lia. Qed.

Lemma bounded_mono B B' M M' s :
  (B <= B')%nat → M <= M' → bounded B M s → bounded B' M' s.
Proof.
  intros HB HM [W1 W2 W3 W4 W5]. split.
  - intros k q Hk. destruct (W1 _ _ Hk). lia.
  - intros ws w Hw. eapply socket_bounded_mono; eauto.
  - intros t d a Ht. eapply timer_bounded_mono; eauto.
  - intros pg i Hi. specialize (W4 _ _ Hi). lia.
  - eapply Forall_impl; [exact W5|]. intros e. by apply effect_bounded_mono.
Qed.

Lemma well_formed_init : well_formed init.
Proof.
  split; simpl; try done.
Qed.

Lemma grows_refl s : well_formed s → grows s s.
Proof. by split. Qed.

Lemma grows_trans s x y : grows s x → grows x y → grows s y.
Proof. intros [? ? ?] [? ? ?]. split; [done|lia..]. Qed.

Lemma grows_same s x x' :
  grows s x →
  (nextHandle x <= nextHandle x')%nat → messageIdRef x <= messageIdRef x' →
  pendingRequests x' = pendingRequests x → sockets x' = sockets x →
  timers x' = timers x → keepAliveIntervals x' = keepAliveIntervals x →
  trace x' = trace x →
  grows s x'.
Proof.
  intros [Hx G1 G2] Hn Hm Hp Hs Ht Hk Htr. split; [|lia..]. unfold well_formed.
  apply (bounded_mono _ _ _ _ _ Hn Hm) in Hx. destruct Hx as [W1 W2 W3 W4 W5].
  split; rewrite ?Hp, ?Hs, ?Ht, ?Hk, ?Htr; done.
Qed.

Lemma grows_set_wsRef v s x : grows s x → grows s (set_wsRef v x).
Proof. intros; by eapply grows_same. Qed.
Lemma grows_set_currentPageIdRef v s x : grows s x → grows s (set_currentPageIdRef v x).
Proof. intros; by eapply grows_same. Qed.
Lemma grows_set_pageSessions v s x : grows s x → grows s (set_pageSessions v x).
Proof. intros; by eapply grows_same. Qed.
Lemma grows_set_knownPageIds v s x : grows s x → grows s (set_knownPageIds v x).
Proof. intros; by eapply grows_same. Qed.
Lemma grows_set_state v s x : grows s x → grows s (set_state v x).
Proof. intros; by eapply grows_same. Qed.
Lemma grows_set_synth v s x : grows s x → grows s (set_synth v x).
Proof. intros; by eapply grows_same. Qed.

Lemma grows_set_nextHandle n s x :
  grows s x → (nextHandle x <= n)%nat → grows s (set_nextHandle n x).
Proof. intros; by eapply grows_same. Qed.

Lemma grows_set_messageIdRef n s x :
  grows s x → messageIdRef x <= n → grows s (set_messageIdRef n x).
Proof. intros; by eapply grows_same. Qed.

Lemma grows_emit e s x :
  grows s x → (well_formed x → effect_bounded (nextHandle x) e) → grows s (emit e x).
Proof.
  intros [Hx G1 G2] He. specialize (He Hx). split; [|done..].
  destruct Hx as [W1 W2 W3 W4 W5]. split; try done. simpl.
  apply Forall_app. split; [done|]. by apply Forall_singleton.
Qed.

Lemma grows_call_if b c s x : grows s x → grows s (call_if b c x).
Proof. intros Hx. unfold call_if. destruct b; [by apply grows_emit|done]. Qed.

Lemma grows_set_pendingRequests m s x :
  grows s x →
  (well_formed x → ∀ k q, m !! k = Some q → k < messageIdRef x ∧ (q < nextHandle x)%nat) →
  grows s (set_pendingRequests m x).
Proof.
  intros [Hx G1 G2] Hm. specialize (Hm Hx). split; [|done..]. destruct Hx. by split.
Qed.

Lemma grows_set_sockets m s x :
  grows s x →
  (well_formed x →
   ∀ ws w, m !! ws = Some w → socket_bounded (nextHandle x) (messageIdRef x) w) →
  grows s (set_sockets m x).
Proof.
  intros [Hx G1 G2] Hm. specialize (Hm Hx). split; [|done..]. destruct Hx. by split.
Qed.

Lemma grows_update_socket ws f s x :
  grows s x →
  (∀ w, socket_bounded (nextHandle x) (messageIdRef x) w →
        socket_bounded (nextHandle x) (messageIdRef x) (f w)) →
  grows s (update_socket ws f x).
Proof.
  intros Hx Hf. apply grows_set_sockets; [done|].
  intros W ws' w [[-> (w0 & Hw0 & ->)]|[? Hw]]%lookup_alter_Some.
  - apply Hf. by eapply bounded_sockets.
  - by eapply bounded_sockets.
Qed.

Lemma grows_set_timers m s x :
  grows s x →
  (well_formed x →
   ∀ t d a, m !! t = Some (d, a) → timer_bounded (nextHandle x) (messageIdRef x) a) →
  grows s (set_timers m x).
Proof.
  intros [Hx G1 G2] Hm. specialize (Hm Hx). split; [|done..]. destruct Hx. by split.
Qed.

Lemma grows_set_keepAliveIntervals m s x :
  grows s x →
  (well_formed x → ∀ pg i, m !! pg = Some i → (i < nextHandle x)%nat) →
  grows s (set_keepAliveIntervals m x).
Proof.
  intros [Hx G1 G2] Hm. specialize (Hm Hx). split; [|done..]. destruct Hx. by split.
Qed.

(** Insertions and deletions that keep the maps bounded. *)

Lemma pending_insert_bounded (M : gmap Z nat) B I k q :
  (∀ k' q', M !! k' = Some q' → k' < I ∧ (q' < B)%nat) → k < I → (q < B)%nat →
  ∀ k' q', <[k := q]> M !! k' = Some q' → k' < I ∧ (q' < B)%nat.
Proof.
  intros HM Hk Hq k' q' [[<- <-]|[? Hk']]%lookup_insert_Some; [done|by eapply HM].
Qed.

Lemma pending_delete_bounded (M : gmap Z nat) B I k :
  (∀ k' q', M !! k' = Some q' → k' < I ∧ (q' < B)%nat) →
  ∀ k' q', delete k M !! k' = Some q' → k' < I ∧ (q' < B)%nat.
Proof. intros HM k' q' [? Hk]%lookup_delete_Some. by eapply HM. Qed.

Lemma timers_insert_bounded (M : gmap nat (Z * Timer)) B I i d a :
  (∀ t' d' a', M !! t' = Some (d', a') → timer_bounded B I a') → timer_bounded B I a →
  ∀ t' d' a', <[i := (d, a)]> M !! t' = Some (d', a') → timer_bounded B I a'.
Proof.
  intros HM Ha t' d' a' [[<- [= <- <-]]|[? Hk]]%lookup_insert_Some; [done|by eapply HM].
Qed.

Lemma timers_delete_bounded (M : gmap nat (Z * Timer)) B I i :
  (∀ t' d' a', M !! t' = Some (d', a') → timer_bounded B I a') →
  ∀ t' d' a', delete i M !! t' = Some (d', a') → timer_bounded B I a'.
Proof. intros HM t' d' a' [? Hk]%lookup_delete_Some. by eapply HM. Qed.

Lemma keepalive_insert_bounded (M : gmap string nat) (B : nat) pg i :
  (∀ pg' i', M !! pg' = Some i' → (i' < B)%nat) → (i < B)%nat →
  ∀ pg' i', <[pg := i]> M !! pg' = Some i' → (i' < B)%nat.
Proof.
  intros HM Hi pg' i' [[<- <-]|[? Hk]]%lookup_insert_Some; [done|by eapply HM].
Qed.

Lemma keepalive_delete_bounded (M : gmap string nat) (B : nat) pg :
  (∀ pg' i', M !! pg' = Some i' → (i' < B)%nat) →
  ∀ pg' i', delete pg M !! pg' = Some i' → (i' < B)%nat.
Proof. intros HM pg' i' [? Hk]%lookup_delete_Some. by eapply HM. Qed.

Lemma sockets_insert_bounded (M : gmap nat WebSocket) B I k w :
  (∀ ws w', M !! ws = Some w' → socket_bounded B I w') → socket_bounded B I w →
  ∀ ws w', <[k := w]> M !! ws = Some w' → socket_bounded B I w'.
Proof.
  intros HM Hw ws w' [[<- <-]|[? Hk]]%lookup_insert_Some; [done|by eapply HM].
Qed.

Lemma bounded_with_readyState B I r w :
  socket_bounded B I w → socket_bounded B I (with_readyState r w).
Proof. by intros [? ? ?]. Qed.

Lemma bounded_with_msgId B I n w :
  socket_bounded B I w → socket_bounded B I (with_msgId n w).
Proof. by intros [? ? ?]. Qed.

Lemma bounded_with_openListeners_nil B I w :
  socket_bounded B I w → socket_bounded B I (with_openListeners [] w).
Proof. by intros [? ? ?]. Qed.

Lemma bounded_with_errorListeners_nil B I w :
  socket_bounded B I w → socket_bounded B I (with_errorListeners [] w).
Proof. by intros [? ? ?]. Qed.

Lemma bounded_add_listener B I i l w :
  listener_bounded B I l → socket_bounded B I w →
  socket_bounded B I (with_messageListeners (messageListeners w ++ [(i, l)]) w).
Proof.
  intros Hl [C1 C2 C3]. split; simpl; [|done..].
  apply Forall_app. split; [done|]. by apply Forall_singleton.
Qed.

Lemma bounded_remove_listener B I i w :
  socket_bounded B I w →
  socket_bounded B I
    (with_messageListeners (filter (λ x : nat * Listener, x.1 ≠ i) (messageListeners w)) w).
Proof.
  intros [C1 C2 C3]. split; simpl; [|done..].
  apply Forall_forall. intros l [_ Hl]%list_elem_of_filter.
  by eapply Forall_forall in C1.
Qed.

Lemma bounded_new_socket B I r pg :
  socket_bounded B I
    {| role := r; page := pg; readyState := CONNECTING; msgId := 1000;
       messageListeners := []; openListeners := []; errorListeners := [] |}.
Proof. by split. Qed.

Lemma bounded_queue B I q m a w :
  (q < B)%nat → socket_bounded B I w →
  socket_bounded B I
    (with_errorListeners (errorListeners w ++ [q])
       (with_openListeners
          (openListeners w ++ [{| q_promise := q; q_method := m; q_params := a |}]) w)).
Proof.
  intros Hq [C1 C2 C3]. split; simpl; [done| |].
  - apply Forall_app. split; [done|]. by apply Forall_singleton.
  - apply Forall_app. split; [done|]. by apply Forall_singleton.
Qed.

Ltac gchain :=
  lazymatch goal with
  | H : grows ?s ?x |- grows ?s ?x => exact H
  | |- grows _ (set_wsRef _ _) => apply grows_set_wsRef; gchain
  | |- grows _ (set_currentPageIdRef _ _) => apply grows_set_currentPageIdRef; gchain
  | |- grows _ (set_pageSessions _ _) => apply grows_set_pageSessions; gchain
  | |- grows _ (set_knownPageIds _ _) => apply grows_set_knownPageIds; gchain
  | |- grows _ (set_state _ _) => apply grows_set_state; gchain
  | |- grows _ (setState _ _ _) => apply grows_set_state; gchain
  | |- grows _ (set_synth _ _) => apply grows_set_synth; gchain
  | |- grows _ (set_nextHandle _ _) =>
      apply grows_set_nextHandle; [gchain|simpl; try lia]
  | |- grows _ (set_messageIdRef _ _) =>
      apply grows_set_messageIdRef; [gchain|simpl; try lia]
  | |- grows _ (emit _ _) => apply grows_emit; [gchain|]
  | |- grows _ (call_if _ _ _) => apply grows_call_if; gchain
  | |- grows _ (update_socket _ _ _) => apply grows_update_socket; [gchain|]
  | |- grows _ (set_timers _ _) => apply grows_set_timers; [gchain|]
  | |- grows _ (set_pendingRequests _ _) => apply grows_set_pendingRequests; [gchain|]
  | |- grows _ (set_keepAliveIntervals _ _) =>
      apply grows_set_keepAliveIntervals; [gchain|]
  | |- grows _ (set_sockets _ _) => apply grows_set_sockets; [gchain|]
  | |- grows _ (if ?b then _ else _) => destruct b eqn:?; gchain
  | |- grows _ (match ?o with _ => _ end) => destruct o eqn:?; gchain
  | _ => idtac
  end.

Ltac gside :=
  lazymatch goal with
  | |- ∀ w, socket_bounded _ _ w → socket_bounded _ _ _ =>
      first [ apply bounded_with_readyState | apply bounded_with_msgId
            | apply bounded_with_openListeners_nil
            | apply bounded_with_errorListeners_nil
            | apply bounded_remove_listener
            | intros ? ?; apply bounded_add_listener; [simpl; try lia; auto|assumption]
            | idtac ]
  | |- well_formed _ → _ =>
      let W := fresh "W" in
      intros W; destruct W as [?W1 ?W2 ?W3 ?W4 ?W5]; simpl in *;
      first [ lia
            | done
            | apply pending_insert_bounded; [assumption|lia|lia]
            | apply pending_delete_bounded; assumption
            | apply timers_insert_bounded; [assumption|simpl; first [done|lia|auto]]
            | apply timers_delete_bounded; assumption
            | apply keepalive_insert_bounded; [assumption|lia]
            | apply keepalive_delete_bounded; assumption
            | apply sockets_insert_bounded; [assumption|apply bounded_new_socket]
            | idtac ]
  | _ => idtac
  end.

Ltac open_handler :=
  cbv beta iota zeta delta [fresh next_id setTimeout addEventListener new_socket fst snd].

Ltac auto_grows := open_handler; gchain; gside.

Lemma wf_of s x : grows s x → well_formed x.
Proof. apply grows_wf. Qed.

Lemma grows_close ws s x : grows s x → grows s (close ws x).
Proof. intros Hx. unfold close. auto_grows. Qed.

Lemma grows_clearTimer i s x : grows s x → grows s (clearTimer i x).
Proof. intros Hx. unfold clearTimer. auto_grows. Qed.

Lemma grows_setTimeout d a s x :
  grows s x →
  (well_formed x → timer_bounded (S (nextHandle x)) (messageIdRef x) a) →
  grows s (setTimeout d a x).2.
Proof.
  intros Hx Ha. specialize (Ha (wf_of _ _ Hx)).
  unfold setTimeout. auto_grows.
Qed.

Lemma grows_removeEventListener ws i s x :
  grows s x → grows s (removeEventListener ws i x).
Proof. intros Hx. unfold removeEventListener. auto_grows. Qed.

Lemma grows_setupKeepAlive pg ws s x : grows s x → grows s (setupKeepAlive pg ws x).
Proof.
  intros Hx. unfold setupKeepAlive.
  assert (H1 : grows s
    (match keepAliveIntervals x !! pg with
     | Some existingInterval => clearTimer existingInterval x
     | None => x
     end)).
  { destruct (keepAliveIntervals x !! pg) as [i|] eqn:Hi; [|done].
    by apply grows_clearTimer. }
  set (x1 := match keepAliveIntervals x !! pg with
             | Some existingInterval => clearTimer existingInterval x
             | None => x
             end) in *.
  clearbody x1. auto_grows.
Qed.

Lemma grows_keepAliveTick ws s x : grows s x → grows s (keepAliveTick ws x).
Proof. intros Hx. unfold keepAliveTick. auto_grows. Qed.

Lemma grows_mainKeepAliveTick s x : grows s x → grows s (mainKeepAliveTick h x).
Proof. intros Hx. unfold mainKeepAliveTick. auto_grows. Qed.

Lemma grows_queryTitleAndFavicon ws pg s x :
  grows s x → grows s (queryTitleAndFavicon ws pg x).
Proof. intros Hx. unfold queryTitleAndFavicon. auto_grows. Qed.

Lemma grows_settle q m s x :
  grows s x → (q < nextHandle x)%nat → grows s (settle q m x).
Proof. intros Hx Hq. unfold settle. auto_grows. Qed.

Lemma grows_settlePending m s x : grows s x → grows s (settlePending m x).
Proof.
  intros Hx. pose proof (wf_of _ _ Hx) as [W1 W2 W3 W4 W5].
  unfold settlePending.
  destruct (msg_id m) as [id|] eqn:Hid; [|done].
  destruct (pendingRequests x !! id) as [q|] eqn:Hq; [|done].
  apply grows_settle; [auto_grows|]. simpl. by destruct (W1 _ _ Hq).
Qed.

Lemma grows_runListener ws m l s x :
  grows s x → listener_bounded (nextHandle x) (messageIdRef x) l.2 →
  grows s (runListener h ws m x l).
Proof.
  intros Hx Hl. unfold runListener. destruct l as [i [id q|a b pg]]; simpl in *.
  - destruct Hl as [? ?]. gchain. apply grows_settle; [|done].
    by apply grows_removeEventListener.
  - gchain.
Qed.

Lemma grows_runListeners ws data registered s x :
  grows s x →
  Forall (λ l : nat * Listener, listener_bounded (nextHandle s) (messageIdRef s) l.2)
    registered →
  grows s (runListeners h ws data registered x).
Proof.
  intros Hx Hr. unfold runListeners. destruct data as [m|]; [|done].
  revert x Hx. induction Hr as [|l ls Hl _ IH]; intros x Hx; simpl; [done|].
  apply IH. gchain. apply grows_runListener; [done|].
  destruct Hx as [_ G1 G2]. by eapply listener_bounded_mono.
Qed.

Lemma grows_connect pg s x : grows s x → grows s (connect h pg x).
Proof.
  intros Hx. unfold connect. auto_grows. all: by apply grows_close.
Qed.

Lemma grows_control_onopen ws s x : grows s x → grows s (control_onopen ws x).
Proof. intros Hx. unfold control_onopen. auto_grows. Qed.

Lemma grows_control_onclose pg c s x : grows s x → grows s (control_onclose h pg c x).
Proof. intros Hx. unfold control_onclose. auto_grows. Qed.

Lemma grows_control_onerror s x : grows s x → grows s (control_onerror x).
Proof. intros Hx. unfold control_onerror. auto_grows. Qed.

Lemma grows_control_onmessage data s x :
  grows s x → grows s (control_onmessage h data x).
Proof.
  intros Hx. unfold control_onmessage. destruct data as [m|]; [|done].
  assert (H1 : grows s (settlePending m x)) by by apply grows_settlePending.
  auto_grows.
Qed.

Lemma grows_send m a s x : grows s x → grows s (send m a x).
Proof. intros Hx. unfold send. auto_grows. Qed.

Lemma grows_sendTimedOut id q m s x :
  grows s x → (q < nextHandle x)%nat → grows s (sendTimedOut id q m x).
Proof. intros Hx Hq. unfold sendTimedOut. auto_grows. Qed.

Lemma grows_connectToPage pg s x : grows s x → grows s (connectToPage h pg x).
Proof. intros Hx. unfold connectToPage. auto_grows. Qed.

Lemma grows_sendLocal ws m a s x : grows s x → grows s (sendLocal ws m a x).
Proof. intros Hx. unfold sendLocal. auto_grows. Qed.

Lemma grows_executeCommand ws q m a s x :
  grows s x → (q < nextHandle x)%nat → grows s (executeCommand ws q m a x).
Proof. intros Hx Hq. unfold executeCommand. auto_grows. Qed.

Lemma grows_pageCommandTimedOut ws l q m s x :
  grows s x → (q < nextHandle x)%nat → grows s (pageCommandTimedOut ws l q m x).
Proof.
  intros Hx Hq. unfold pageCommandTimedOut. gchain; gside.
  by apply grows_removeEventListener.
Qed.

Lemma grows_page_onopen pg ws s x : grows s x → grows s (page_onopen pg ws x).
Proof.
  intros Hx. unfold page_onopen.
  by apply grows_sendLocal, grows_sendLocal, grows_sendLocal, grows_setupKeepAlive.
Qed.

Ltac gchain ::=
  lazymatch goal with
  | H : grows ?s ?x |- grows ?s ?x => exact H
  | |- grows _ (set_wsRef _ _) => apply grows_set_wsRef; gchain
  | |- grows _ (set_currentPageIdRef _ _) => apply grows_set_currentPageIdRef; gchain
  | |- grows _ (set_pageSessions _ _) => apply grows_set_pageSessions; gchain
  | |- grows _ (set_knownPageIds _ _) => apply grows_set_knownPageIds; gchain
  | |- grows _ (set_state _ _) => apply grows_set_state; gchain
  | |- grows _ (setState _ _ _) => apply grows_set_state; gchain
  | |- grows _ (set_synth _ _) => apply grows_set_synth; gchain
  | |- grows _ (set_nextHandle _ _) =>
      apply grows_set_nextHandle; [gchain|simpl; try lia]
  | |- grows _ (set_messageIdRef _ _) =>
      apply grows_set_messageIdRef; [gchain|simpl; try lia]
  | |- grows _ (emit _ _) => apply grows_emit; [gchain|]
  | |- grows _ (call_if _ _ _) => apply grows_call_if; gchain
  | |- grows _ (close _ _) => apply grows_close; gchain
  | |- grows _ (setTimeout _ _ _).2 => apply grows_setTimeout; [gchain|]
  | |- grows _ (clearTimer _ _) => apply grows_clearTimer; gchain
  | |- grows _ (removeEventListener _ _ _) => apply grows_removeEventListener; gchain
  | |- grows _ (setupKeepAlive _ _ _) => apply grows_setupKeepAlive; gchain
  | |- grows _ (keepAliveTick _ _) => apply grows_keepAliveTick; gchain
  | |- grows _ (mainKeepAliveTick _ _) => apply grows_mainKeepAliveTick; gchain
  | |- grows _ (queryTitleAndFavicon _ _ _) => apply grows_queryTitleAndFavicon; gchain
  | |- grows _ (settle _ _ _) => apply grows_settle; [gchain|]
  | |- grows _ (settlePending _ _) => apply grows_settlePending; gchain
  | |- grows _ (connect _ _ _) => apply grows_connect; gchain
  | |- grows _ (control_onopen _ _) => apply grows_control_onopen; gchain
  | |- grows _ (control_onclose _ _ _ _) => apply grows_control_onclose; gchain
  | |- grows _ (control_onerror _) => apply grows_control_onerror; gchain
  | |- grows _ (send _ _ _) => apply grows_send; gchain
  | |- grows _ (connectToPage _ _ _) => apply grows_connectToPage; gchain
  | |- grows _ (sendLocal _ _ _ _) => apply grows_sendLocal; gchain
  | |- grows _ (executeCommand _ _ _ _ _) => apply grows_executeCommand; [gchain|]
  | |- grows _ (pageCommandTimedOut _ _ _ _ _) =>
      apply grows_pageCommandTimedOut; [gchain|]
  | |- grows _ (page_onopen _ _ _) => apply grows_page_onopen; gchain
  | |- grows _ (update_socket _ _ _) => apply grows_update_socket; [gchain|]
  | |- grows _ (set_timers _ _) => apply grows_set_timers; [gchain|]
  | |- grows _ (set_pendingRequests _ _) => apply grows_set_pendingRequests; [gchain|]
  | |- grows _ (set_keepAliveIntervals _ _) =>
      apply grows_set_keepAliveIntervals; [gchain|]
  | |- grows _ (set_sockets _ _) => apply grows_set_sockets; [gchain|]
  | |- grows _ (if ?b then _ else _) => destruct b eqn:?; gchain
  | |- grows _ (match ?o with _ => _ end) => destruct o eqn:?; gchain
  | _ => idtac
  end.

Lemma grows_page_onclose pg c s x : grows s x → grows s (page_onclose h pg c x).
Proof. intros Hx. unfold page_onclose. auto_grows. Qed.

Lemma grows_navigationEnrichment ws pg s x :
  grows s x → grows s (navigationEnrichment ws pg x).
Proof. intros Hx. unfold navigationEnrichment. auto_grows. Qed.

Ltac gstep_let :=
  lazymatch goal with
  | |- grows ?s0 (let y := ?v in @?b y) =>
      let H := fresh "H" in
      assert (H : grows s0 v);
      [ | let y' := fresh "y" in
          set (y' := v) in *; clearbody y';
          change (grows s0 (b y')); cbv beta ]
  end.

Lemma grows_page_onmessage ws pg now rnd data s x :
  grows s x → grows s (page_onmessage h ws pg now rnd data x).
Proof.
  intros Hx. destruct data as [m|]; [|done].
  cbv beta iota delta [page_onmessage].
  gstep_let; [by apply grows_settlePending|].
  gstep_let; [gchain|].
  gstep_let; [gchain|].
  gchain; gside; cbv zeta; gchain; gside.
Qed.

Lemma grows_foldl {A} (P : A → Prop) (f : State → A → State) l s x :
  grows s x → Forall P l →
  (∀ y a, P a → grows s y → grows s (f y a)) →
  grows s (foldl f x l).
Proof.
  intros Hx Hl Hf. revert x Hx.
  induction Hl as [|a l Ha _ IH]; intros x Hx; simpl; [done|].
  apply IH. by apply Hf.
Qed.

Lemma Forall_trivial {A} (l : list A) : Forall (λ _, True) l.
Proof. by apply Forall_forall. Qed.

Lemma grows_ensurePageConnections pgs s x :
  grows s x → grows s (ensurePageConnections h pgs x).
Proof.
  intros Hx. unfold ensurePageConnections.
  destruct (negb (has_session h)); [done|].
  apply (grows_foldl (λ _, True)); [|apply Forall_trivial|].
  - apply (grows_foldl (λ _, True)); [done|apply Forall_trivial|].
    intros y a _ Hy. cbv zeta. gchain.
  - intros y a _ Hy. cbv zeta. gchain; gside.
Qed.

Lemma grows_disconnect s x : grows s x → grows s (disconnect x).
Proof.
  intros Hx. unfold disconnect. cbv zeta.
  assert (H1 : grows s
    (foldl (λ s interval, clearTimer interval s) x
       (map snd (map_to_list (keepAliveIntervals x))))).
  { apply (grows_foldl (λ _, True)); [done|apply Forall_trivial|].
    intros y a Ha Hy. gchain. }
  set (x1 := foldl (λ s interval, clearTimer interval s) x _) in *. clearbody x1.
  assert (H2 : grows s
    (foldl (λ s ws, close ws s) (set_keepAliveIntervals ∅ x1)
       (map snd (map_to_list (pageSessions (set_keepAliveIntervals ∅ x1)))))).
  { apply (grows_foldl (λ _, True)); [|apply Forall_trivial|].
    - gchain. intros _ pg i. by rewrite lookup_empty.
    - intros y a _ Hy. gchain. }
  set (x2 := foldl (λ s ws, close ws s) _ _) in *. clearbody x2.
  gchain.
Qed.

Lemma grows_reconnectKnownPages s x : grows s x → grows s (reconnectKnownPages h x).
Proof.
  intros Hx. unfold reconnectKnownPages.
  destruct (negb (has_session h)); [done|].
  apply (grows_foldl (λ _, True)); [done|apply Forall_trivial|].
  intros y a _ Hy. gchain.
Qed.

Lemma grows_sendWhenOpen q tg m a s x :
  grows s x → (q < nextHandle s)%nat → grows s (sendWhenOpen h q tg m a x).
Proof.
  intros Hx Hq. unfold sendWhenOpen. cbv zeta.
  assert (H1 : grows s (connectToPage h tg x)) by by apply grows_connectToPage.
  set (x1 := connectToPage h tg x) in *. clearbody x1.
  pose proof (grows_handle _ _ H1) as Hn.
  gchain; gside.
  intros w. apply bounded_queue. lia.
Qed.

Lemma grows_sendToPage tg m a s x : grows s x → grows s (sendToPage h tg m a x).
Proof.
  intros Hx. unfold sendToPage. cbv beta iota zeta delta [fresh].
  set (x1 := set_nextHandle (S (nextHandle x)) x).
  assert (H1 : grows x1 x1).
  { apply grows_refl. apply (wf_of s). unfold x1. gchain. }
  apply (grows_trans _ x1); [unfold x1; gchain|].
  assert (Hq : (nextHandle x < nextHandle x1)%nat) by (simpl; lia).
  clearbody x1.
  gchain; gside.
  all: first [by apply grows_sendWhenOpen | simpl; lia].
Qed.

Lemma grows_closeTarget tg s x : grows s x → grows s (closeTarget tg x).
Proof. intros Hx. unfold closeTarget. cbv zeta. gchain; gside. Qed.

Lemma grows_createTargetResolved tg s x :
  grows s x → grows s (createTargetResolved tg x).
Proof. intros Hx. unfold createTargetResolved. gchain. Qed.

Lemma grows_wsOpen ws s x : grows s x → grows s (wsOpen ws x).
Proof.
  intros Hx. pose proof (wf_of _ _ Hx) as Wx.
  apply (grows_trans _ x); [done|]. pose proof (grows_refl _ Wx) as Hxx.
  destruct Wx as [W1 W2 W3 W4 W5].
  unfold wsOpen. destruct (sockets x !! ws) as [w|] eqn:Hw; [|done].
  destruct (readyState w); try done.
  destruct (role w); cbv zeta.
  - gchain; gside.
  - apply (grows_foldl (λ q, (q_promise q < nextHandle x)%nat)).
    + gchain; gside.
    + by destruct (W2 _ _ Hw).
    + intros y q Hq Hy. apply grows_executeCommand; [done|].
      pose proof (grows_handle _ _ Hy). lia.
Qed.

Lemma grows_wsClose ws c s x : grows s x → grows s (wsClose h ws c x).
Proof.
  intros Hx. unfold wsClose. destruct (sockets x !! ws) as [w|] eqn:Hw; [|done].
  destruct (readyState w); try done; destruct (role w); cbv zeta;
    first [apply grows_control_onclose | apply grows_page_onclose]; gchain; gside.
Qed.

Lemma grows_wsError ws s x : grows s x → grows s (wsError ws x).
Proof.
  intros Hx. pose proof (wf_of _ _ Hx) as Wx.
  apply (grows_trans _ x); [done|]. pose proof (grows_refl _ Wx) as Hxx.
  destruct Wx as [W1 W2 W3 W4 W5].
  unfold wsError. destruct (sockets x !! ws) as [w|] eqn:Hw; [|done].
  destruct (role w); cbv zeta; [gchain|].
  apply (grows_foldl (λ q, (q < nextHandle x)%nat)).
  - gchain; gside.
  - by destruct (W2 _ _ Hw).
  - intros y q Hq Hy. gchain. intros _. simpl.
    pose proof (grows_handle _ _ Hy). lia.
Qed.

Lemma grows_wsMessage ws now rnd data s x :
  grows s x → grows s (wsMessage h ws now rnd data x).
Proof.
  intros Hx. pose proof (wf_of _ _ Hx) as Wx.
  apply (grows_trans _ x); [done|]. pose proof (grows_refl _ Wx) as Hxx.
  destruct Wx as [W1 W2 W3 W4 W5].
  unfold wsMessage. destruct (sockets x !! ws) as [w|] eqn:Hw; [|done].
  destruct (W2 _ _ Hw) as [C1 _ _].
  destruct (readyState w); try done; cbv zeta;
    (apply grows_runListeners; [|done]);
    destruct (role w);
    first [by apply grows_control_onmessage | by apply grows_page_onmessage].
Qed.

Lemma grows_handleScreencastMessage now rnd msg s x :
  grows s x → grows s (handleScreencastMessage h now rnd msg x).
Proof. intros Hx. unfold handleScreencastMessage. gchain. Qed.

Lemma grows_timerFired i s x : grows s x → grows s (timerFired i x).
Proof.
  intros Hx. pose proof (wf_of _ _ Hx) as [W1 W2 W3 W4 W5].
  unfold timerFired. destruct (timers x !! i) as [[d a]|] eqn:Hi; [|done].
  cbv zeta.
  assert (H1 : grows s (if is_interval a then x else clearTimer i x)).
  { destruct (is_interval a); [done|]. by apply grows_clearTimer. }
  set (x1 := if is_interval a then x else clearTimer i x) in *.
  assert (Hn1 : nextHandle x1 = nextHandle x).
  { unfold x1. by destruct (is_interval a). }
  clearbody x1. specialize (W3 _ _ _ Hi). destruct a; simpl in W3.
  - apply grows_sendTimedOut; [done|]. lia.
  - apply grows_pageCommandTimedOut; [done|]. lia.
  - by apply grows_removeEventListener.
  - by apply grows_navigationEnrichment.
  - by apply grows_keepAliveTick.
Qed.

Lemma step_grows s e : well_formed s → grows s (step h s e).
Proof.
  intros Ws. pose proof (grows_refl s Ws) as Hs.
  destruct e; simpl.
  - by apply grows_connect.
  - by apply grows_connectToPage.
  - by apply grows_ensurePageConnections.
  - by apply grows_reconnectKnownPages.
  - by apply grows_disconnect.
  - by apply grows_send.
  - by apply grows_sendToPage.
  - by apply grows_closeTarget.
  - by apply grows_createTargetResolved.
  - by apply grows_wsOpen.
  - by apply grows_wsMessage.
  - by apply grows_wsClose.
  - by apply grows_wsError.
  - by apply grows_timerFired.
  - by apply grows_mainKeepAliveTick.
  - by apply grows_handleScreencastMessage.
  - by apply grows_set_synth.
  - by apply grows_set_synth.
  - by apply grows_set_synth.
  - by apply grows_set_synth.
Qed.

Lemma run_grows s es : well_formed s → grows s (run h s es).
Proof.
  intros Ws. revert s Ws. induction es as [|e es IH]; intros s Ws.
  - by apply grows_refl.
  - simpl. pose proof (step_grows s e Ws) as H1.
    eapply grows_trans; [exact H1|]. apply IH. by eapply wf_of.
Qed.

(** Every state the hook reaches is well formed. *)
Lemma reachable_well_formed es : well_formed (run h init es).
Proof. eapply wf_of, run_grows, well_formed_init. Qed.

End WellFormed.

(** ** One command among the others *)

Section Command.
Context (h : Hook) (p : nat) (N : Z) (t : nat) (meth : string).

#[local] Abbreviation owned := (owned p N t meth).
#[local] Abbreviation left_alone := (left_alone p N t meth).
#[local] Abbreviation socket_clean := (socket_clean p N).
#[local] Abbreviation listener_clean := (listener_clean p N).
#[local] Abbreviation timer_clean := (timer_clean p N t meth).

Lemma left_alone_refl s : owned s → left_alone s s.
Proof. intros H. split; [done..|]. exists []. by rewrite app_nil_r. Qed.

Lemma left_alone_trans s1 s2 s3 : left_alone s1 s2 → left_alone s2 s3 → left_alone s1 s3.
Proof.
  intros [O2 P2 T2 (e2 & E2 & S2)] [O3 P3 T3 (e3 & E3 & S3)].
  split; [done|congruence|congruence|].
  exists (e2 ++ e3). rewrite E3, E2, app_assoc. split; [done|].
  by rewrite settlements_app, S2, S3.
Qed.

(** ** The primitives leave the command alone *)

(** A state that differs from an owned one in nothing the command depends
    on, but for more handles or ids handed out and more effects that are
    not settlements of its promise. *)
Lemma left_alone_same s s' eff :
  owned s →
  (nextHandle s <= nextHandle s')%nat →
  messageIdRef s <= messageIdRef s' →
  pendingRequests s' = pendingRequests s →
  sockets s' = sockets s →
  timers s' = timers s →
  keepAliveIntervals s' = keepAliveIntervals s →
  trace s' = trace s ++ eff → settlements p eff = [] →
  left_alone s s'.
Proof.
  intros [O1 O2 O3 O4 O5 O6 O6' O7] Hn Hm Hp Hs Ht Hk Htr Heff.
  split; [split| | |]; rewrite ?Hp, ?Hs, ?Ht, ?Hk; try done; try lia.
  by exists eff.
Qed.

Ltac same := intros; eapply (left_alone_same _ _ []);
  [eassumption|simpl; lia|simpl; lia|done|done|done|done|by rewrite app_nil_r|done].

(** Extending a run that left the command alone by one assignment. *)

Lemma ext_other s x x' :
  left_alone s x →
  nextHandle x' = nextHandle x → messageIdRef x' = messageIdRef x →
  pendingRequests x' = pendingRequests x → sockets x' = sockets x →
  timers x' = timers x → keepAliveIntervals x' = keepAliveIntervals x →
  trace x' = trace x →
  left_alone s x'.
Proof.
  intros Hx Hn Hm Hp Hs Ht Hk Htr. eapply left_alone_trans; [exact Hx|].
  eapply (left_alone_same _ _ []); rewrite ?Hn, ?Hm, ?Htr, ?app_nil_r; try done.
  apply Hx.
Qed.

Lemma ext_set_wsRef v s x : left_alone s x → left_alone s (set_wsRef v x).
Proof. intros; by eapply ext_other. Qed.
Lemma ext_set_currentPageIdRef v s x : left_alone s x → left_alone s (set_currentPageIdRef v x).
Proof. intros; by eapply ext_other. Qed.
Lemma ext_set_pageSessions v s x : left_alone s x → left_alone s (set_pageSessions v x).
Proof. intros; by eapply ext_other. Qed.
Lemma ext_set_knownPageIds v s x : left_alone s x → left_alone s (set_knownPageIds v x).
Proof. intros; by eapply ext_other. Qed.
Lemma ext_set_state v s x : left_alone s x → left_alone s (set_state v x).
Proof. intros; by eapply ext_other. Qed.
Lemma ext_set_synth v s x : left_alone s x → left_alone s (set_synth v x).
Proof. intros; by eapply ext_other. Qed.

Lemma ext_set_nextHandle n s x :
  left_alone s x → (nextHandle x <= n)%nat → left_alone s (set_nextHandle n x).
Proof.
  intros Hx Hn. eapply left_alone_trans; [exact Hx|].
  eapply (left_alone_same _ _ []); rewrite ?app_nil_r; try done. apply Hx.
Qed.

Lemma ext_set_messageIdRef n s x :
  left_alone s x → messageIdRef x <= n → left_alone s (set_messageIdRef n x).
Proof.
  intros Hx Hn. eapply left_alone_trans; [exact Hx|].
  eapply (left_alone_same _ _ []); rewrite ?app_nil_r; try done. apply Hx.
Qed.

Lemma ext_set_trace tr s x :
  left_alone s x →
  (∃ eff, tr = trace x ++ eff ∧ settlements p eff = []) →
  left_alone s (set_trace tr x).
Proof.
  intros Hx (eff & -> & He). eapply left_alone_trans; [exact Hx|].
  eapply (left_alone_same _ _ eff); try done. apply Hx.
Qed.

Lemma ext_emit e s x : left_alone s x → settles p e = false → left_alone s (emit e x).
Proof.
  intros Hx He. apply ext_set_trace; [done|]. exists [e]. split; [done|].
  unfold settlements. simpl. by rewrite He.
Qed.

Lemma ext_call_if b c s x : left_alone s x → left_alone s (call_if b c x).
Proof. intros Hx. unfold call_if. destruct b; [by apply ext_emit|done]. Qed.

Lemma ext_set_pendingRequests m s x :
  left_alone s x →
  (owned x →
   (∀ k q, m !! k = Some q → (q = p ∨ k = N) → k = N ∧ q = p)
   ∧ m !! N = pendingRequests x !! N) →
  left_alone s (set_pendingRequests m x).
Proof.
  intros Hx Hm. eapply left_alone_trans; [exact Hx|].
  pose proof (alone_owned _ _ _ _ _ _ Hx) as Ox. destruct (Hm Ox) as [Hm1 Hm2].
  destruct Ox as [O1 O2 O3 O4 O5 O6 O6' O7].
  split; [split| | |]; simpl; try done.
  exists []. by rewrite app_nil_r.
Qed.

Lemma ext_set_sockets m s x :
  left_alone s x →
  (owned x → ∀ ws w, m !! ws = Some w → socket_clean w) →
  left_alone s (set_sockets m x).
Proof.
  intros Hx Hm. eapply left_alone_trans; [exact Hx|].
  pose proof (alone_owned _ _ _ _ _ _ Hx) as Ox. specialize (Hm Ox).
  destruct Ox as [O1 O2 O3 O4 O5 O6 O6' O7].
  split; [split| | |]; simpl; try done.
  exists []. by rewrite app_nil_r.
Qed.

Lemma ext_update_socket ws f s x :
  left_alone s x → (∀ w, socket_clean w → socket_clean (f w)) →
  left_alone s (update_socket ws f x).
Proof.
  intros Hx Hf. apply ext_set_sockets; [done|].
  intros Ox ws' w [[-> (w0 & Hw0 & ->)]|[? Hw]]%lookup_alter_Some.
  - apply Hf. by eapply owned_sockets.
  - by eapply owned_sockets.
Qed.

Lemma ext_set_timers m s x :
  left_alone s x →
  (owned x →
   (∀ t' d a, m !! t' = Some (d, a) → timer_clean t' a)
   ∧ m !! t = timers x !! t) →
  left_alone s (set_timers m x).
Proof.
  intros Hx Hm. eapply left_alone_trans; [exact Hx|].
  pose proof (alone_owned _ _ _ _ _ _ Hx) as Ox. destruct (Hm Ox) as [Hm1 Hm2].
  destruct Ox as [O1 O2 O3 O4 O5 O6 O6' O7].
  split; [split| | |]; simpl; try done.
  - intros d a. rewrite Hm2. apply O6'.
  - exists []. by rewrite app_nil_r.
Qed.

Lemma ext_set_keepAliveIntervals m s x :
  left_alone s x →
  (owned x → ∀ pg i, m !! pg = Some i → i ≠ t) →
  left_alone s (set_keepAliveIntervals m x).
Proof.
  intros Hx Hm. eapply left_alone_trans; [exact Hx|].
  pose proof (alone_owned _ _ _ _ _ _ Hx) as Ox. specialize (Hm Ox).
  destruct Ox as [O1 O2 O3 O4 O5 O6 O6' O7].
  split; [split| | |]; simpl; try done.
  exists []. by rewrite app_nil_r.
Qed.

(** Insertions and deletions that keep the maps of an owned state in
    shape. *)

Lemma pending_insert_ok (M : gmap Z nat) id q :
  (∀ k q', M !! k = Some q' → (q' = p ∨ k = N) → k = N ∧ q' = p) →
  id ≠ N → q ≠ p →
  (∀ k q', <[id := q]> M !! k = Some q' → (q' = p ∨ k = N) → k = N ∧ q' = p)
  ∧ <[id := q]> M !! N = M !! N.
Proof.
  intros HM Hid Hq. split.
  - intros k q' [[<- <-]|[? Hk]]%lookup_insert_Some Hor; [by destruct Hor|by apply HM].
  - by rewrite lookup_insert_ne.
Qed.

Lemma pending_delete_ok (M : gmap Z nat) id :
  (∀ k q', M !! k = Some q' → (q' = p ∨ k = N) → k = N ∧ q' = p) →
  id ≠ N ∨ M !! N = None →
  (∀ k q', delete id M !! k = Some q' → (q' = p ∨ k = N) → k = N ∧ q' = p)
  ∧ delete id M !! N = M !! N.
Proof.
  intros HM Hid. split.
  - intros k q' [? Hk]%lookup_delete_Some Hor. by apply HM.
  - destruct Hid as [Hid|Hnone]; [by rewrite lookup_delete_ne|].
    rewrite Hnone. by apply lookup_delete_None; right.
Qed.

Lemma timers_insert_ok (M : gmap nat (Z * Timer)) k d a :
  (∀ t' d' a', M !! t' = Some (d', a') → timer_clean t' a') →
  k ≠ t → timer_clean k a →
  (∀ t' d' a', <[k := (d, a)]> M !! t' = Some (d', a') → timer_clean t' a')
  ∧ <[k := (d, a)]> M !! t = M !! t.
Proof.
  intros HM Hk Ha. split.
  - intros t' d' a' [[<- [= <- <-]]|[? Ht']]%lookup_insert_Some; [done|by eapply HM].
  - by rewrite lookup_insert_ne.
Qed.

Lemma timers_delete_ok (M : gmap nat (Z * Timer)) i :
  (∀ t' d' a', M !! t' = Some (d', a') → timer_clean t' a') →
  i ≠ t ∨ M !! t = None →
  (∀ t' d' a', delete i M !! t' = Some (d', a') → timer_clean t' a')
  ∧ delete i M !! t = M !! t.
Proof.
  intros HM Hi. split.
  - intros t' d' a' [? Ht']%lookup_delete_Some. by eapply HM.
  - destruct Hi as [Hi|Hnone]; [by rewrite lookup_delete_ne|].
    rewrite Hnone. by apply lookup_delete_None; right.
Qed.

Lemma keepalive_insert_ok (M : gmap string nat) pg i :
  (∀ pg' i', M !! pg' = Some i' → i' ≠ t) → i ≠ t →
  ∀ pg' i', <[pg := i]> M !! pg' = Some i' → i' ≠ t.
Proof.
  intros HM Hi pg' i' [[<- <-]|[? Hk]]%lookup_insert_Some; [done|by eapply HM].
Qed.

Lemma keepalive_delete_ok (M : gmap string nat) pg :
  (∀ pg' i', M !! pg' = Some i' → i' ≠ t) →
  ∀ pg' i', delete pg M !! pg' = Some i' → i' ≠ t.
Proof. intros HM pg' i' [? Hk]%lookup_delete_Some. by eapply HM. Qed.

Lemma sockets_insert_ok (M : gmap nat WebSocket) k w :
  (∀ ws w', M !! ws = Some w' → socket_clean w') → socket_clean w →
  ∀ ws w', <[k := w]> M !! ws = Some w' → socket_clean w'.
Proof.
  intros HM Hw ws w' [[<- <-]|[? Hk]]%lookup_insert_Some; [done|by eapply HM].
Qed.

Lemma clean_with_readyState r w : socket_clean w → socket_clean (with_readyState r w).
Proof. by intros [? ? ?]. Qed.

Lemma clean_with_msgId n w : socket_clean w → socket_clean (with_msgId n w).
Proof. by intros [? ? ?]. Qed.

Lemma clean_add_listener i l w :
  listener_clean l → socket_clean w →
  socket_clean (with_messageListeners (messageListeners w ++ [(i, l)]) w).
Proof.
  intros Hl [C1 C2 C3]. split; simpl; [|done..].
  apply Forall_app. split; [done|]. by apply Forall_singleton.
Qed.

Lemma clean_remove_listener i w :
  socket_clean w →
  socket_clean
    (with_messageListeners (filter (λ x : nat * Listener, x.1 ≠ i) (messageListeners w)) w).
Proof.
  intros [C1 C2 C3]. split; simpl; [|done..].
  apply Forall_forall. intros l [_ Hl]%list_elem_of_filter.
  by eapply Forall_forall in C1.
Qed.

Lemma clean_new_socket r pg :
  socket_clean {| role := r; page := pg; readyState := CONNECTING; msgId := 1000;
                  messageListeners := []; openListeners := []; errorListeners := [] |}.
Proof. by split. Qed.

(** ** The helpers *)

Ltac chain :=
  lazymatch goal with
  | H : left_alone ?s ?x |- left_alone ?s ?x => exact H
  | |- left_alone _ (set_wsRef _ _) => apply ext_set_wsRef; chain
  | |- left_alone _ (set_currentPageIdRef _ _) => apply ext_set_currentPageIdRef; chain
  | |- left_alone _ (set_pageSessions _ _) => apply ext_set_pageSessions; chain
  | |- left_alone _ (set_knownPageIds _ _) => apply ext_set_knownPageIds; chain
  | |- left_alone _ (set_state _ _) => apply ext_set_state; chain
  | |- left_alone _ (setState _ _ _) => apply ext_set_state; chain
  | |- left_alone _ (set_synth _ _) => apply ext_set_synth; chain
  | |- left_alone _ (set_nextHandle _ _) =>
      apply ext_set_nextHandle; [chain|simpl; try lia]
  | |- left_alone _ (set_messageIdRef _ _) =>
      apply ext_set_messageIdRef; [chain|simpl; try lia]
  | |- left_alone _ (emit _ _) => apply ext_emit; [chain|try reflexivity]
  | |- left_alone _ (call_if _ _ _) => apply ext_call_if; chain
  | |- left_alone _ (update_socket _ _ _) => apply ext_update_socket; [chain|]
  | |- left_alone _ (set_timers _ _) => apply ext_set_timers; [chain|]
  | |- left_alone _ (set_pendingRequests _ _) => apply ext_set_pendingRequests; [chain|]
  | |- left_alone _ (set_keepAliveIntervals _ _) =>
      apply ext_set_keepAliveIntervals; [chain|]
  | |- left_alone _ (set_sockets _ _) => apply ext_set_sockets; [chain|]
  | |- left_alone _ (if ?b then _ else _) => destruct b eqn:?; chain
  | |- left_alone _ (match ?o with _ => _ end) => destruct o eqn:?; chain
  | _ => idtac
  end.

Ltac side :=
  lazymatch goal with
  | |- settles _ _ = false =>
      simpl; first [reflexivity | apply bool_decide_eq_false_2; first [lia|congruence|auto]]
  | |- ∀ w, socket_clean w → socket_clean _ =>
      first [ apply clean_with_readyState | apply clean_with_msgId
            | intros ? ?; apply clean_add_listener; [simpl; try lia; auto|assumption]
            | apply clean_remove_listener
            | idtac ]
  | |- owned _ → _ =>
      let O := fresh "O" in
      intros O; destruct O as [?O1 ?O2 ?O3 ?O4 ?O5 ?O6 ?O6' ?O7]; simpl in *;
      first [ apply pending_insert_ok; [assumption|lia|lia]
            | apply pending_delete_ok; [assumption|auto]
            | apply timers_insert_ok; [assumption|lia|simpl; first [done|lia|auto]]
            | apply timers_delete_ok; [assumption|auto]
            | apply keepalive_insert_ok; [assumption|lia]
            | apply keepalive_delete_ok; assumption
            | apply sockets_insert_ok; [assumption|apply clean_new_socket]
            | solve [left; eauto]
            | idtac ]
  | _ => idtac
  end.

Ltac open_handler :=
  cbv beta iota zeta delta [fresh next_id setTimeout addEventListener new_socket fst snd].

Ltac auto_alone := open_handler; chain; side.

Lemma owned_of s x : left_alone s x → owned x.
Proof. apply alone_owned. Qed.

Lemma ext_close ws s x : left_alone s x → left_alone s (close ws x).
Proof. intros Hx. unfold close. auto_alone. Qed.

Lemma ext_clearTimer i s x :
  left_alone s x → (owned x → i ≠ t ∨ timers x !! t = None) →
  left_alone s (clearTimer i x).
Proof.
  intros Hx Hi. unfold clearTimer. chain.
  intros Ox. specialize (Hi Ox). destruct Ox as [O1 O2 O3 O4 O5 O6 O6' O7].
  by apply timers_delete_ok.
Qed.

Lemma ext_setTimeout d a s x :
  left_alone s x → (owned x → timer_clean (nextHandle x) a) →
  left_alone s (setTimeout d a x).2.
Proof.
  intros Hx Ha. pose proof (owned_of _ _ Hx) as Ox. specialize (Ha Ox).
  destruct Ox as [O1 O2 O3 O4 O5 O6 O6' O7].
  unfold setTimeout. auto_alone.
Qed.

Lemma ext_removeEventListener ws i s x :
  left_alone s x → left_alone s (removeEventListener ws i x).
Proof. intros Hx. unfold removeEventListener. auto_alone. Qed.

Lemma ext_setupKeepAlive pg ws s x :
  left_alone s x → left_alone s (setupKeepAlive pg ws x).
Proof.
  intros Hx. unfold setupKeepAlive.
  assert (H1 : left_alone s
    (match keepAliveIntervals x !! pg with
     | Some existingInterval => clearTimer existingInterval x
     | None => x
     end)).
  { destruct (keepAliveIntervals x !! pg) as [i|] eqn:Hi; [|done].
    apply ext_clearTimer; [done|]. intros Ox. left.
    by eapply (owned_keepalive _ _ _ _ _ Ox). }
  set (x1 := match keepAliveIntervals x !! pg with
             | Some existingInterval => clearTimer existingInterval x
             | None => x
             end) in *.
  pose proof (owned_of _ _ H1) as [O1 O2 O3 O4 O5 O6 O6' O7].
  auto_alone.
Qed.

Lemma ext_keepAliveTick ws s x : left_alone s x → left_alone s (keepAliveTick ws x).
Proof. intros Hx. unfold keepAliveTick. auto_alone. Qed.

Lemma ext_mainKeepAliveTick s x : left_alone s x → left_alone s (mainKeepAliveTick h x).
Proof. intros Hx. unfold mainKeepAliveTick. auto_alone. Qed.

Lemma ext_queryTitleAndFavicon ws pg s x :
  left_alone s x → left_alone s (queryTitleAndFavicon ws pg x).
Proof.
  intros Hx. pose proof (owned_of _ _ Hx) as [O1 O2 O3 O4 O5 O6 O6' O7].
  unfold queryTitleAndFavicon. auto_alone.
Qed.

Lemma ext_settle q m s x : left_alone s x → q ≠ p → left_alone s (settle q m x).
Proof. intros Hx Hq. unfold settle. auto_alone. Qed.

Lemma ext_settlePending m s x :
  left_alone s x → (msg_id m ≠ Some N ∨ pendingRequests x !! N = None) →
  left_alone s (settlePending m x).
Proof.
  intros Hx Hm. pose proof (owned_of _ _ Hx) as [O1 O2 O3 O4 O5 O6 O6' O7].
  unfold settlePending.
  destruct (msg_id m) as [id|] eqn:Hid; [|done].
  destruct (pendingRequests x !! id) as [q|] eqn:Hq; [|done].
  assert (HidN : id ≠ N) by (destruct Hm as [Hm|Hm]; congruence).
  apply ext_settle.
  - auto_alone.
  - intros ->. destruct (O4 _ _ Hq); [by left|done].
Qed.

Lemma ext_runListener ws m l s x :
  left_alone s x → listener_clean l.2 → left_alone s (runListener h ws m x l).
Proof.
  intros Hx Hl. unfold runListener. destruct l as [i [id q|a b pg]]; simpl in *.
  - destruct Hl as [? ?]. chain. apply ext_settle; [|done].
    by apply ext_removeEventListener.
  - chain.
Qed.

Lemma ext_runListeners ws data registered s x :
  left_alone s x → Forall (λ l : nat * Listener, listener_clean l.2) registered →
  left_alone s (runListeners h ws data registered x).
Proof.
  intros Hx Hr. unfold runListeners. destruct data as [m|]; [|done].
  revert x Hx. induction Hr as [|l ls Hl _ IH]; intros x Hx; simpl; [done|].
  apply IH. chain. by apply ext_runListener.
Qed.

Lemma ext_connect pg s x : left_alone s x → left_alone s (connect h pg x).
Proof.
  intros Hx. unfold connect. auto_alone. all: by apply ext_close.
Qed.

Lemma ext_control_onopen ws s x : left_alone s x → left_alone s (control_onopen ws x).
Proof. intros Hx. unfold control_onopen. auto_alone. Qed.

Lemma ext_control_onclose pg c s x :
  left_alone s x → left_alone s (control_onclose h pg c x).
Proof. intros Hx. unfold control_onclose. auto_alone. Qed.

Lemma ext_control_onerror s x : left_alone s x → left_alone s (control_onerror x).
Proof. intros Hx. unfold control_onerror. auto_alone. Qed.

Lemma ext_control_onmessage data s x :
  left_alone s x →
  (∀ m, data = Some m → msg_id m ≠ Some N ∨ pendingRequests x !! N = None) →
  left_alone s (control_onmessage h data x).
Proof.
  intros Hx Hm. unfold control_onmessage. destruct data as [m|]; [|done].
  assert (H1 : left_alone s (settlePending m x)) by (apply ext_settlePending; auto).
  auto_alone.
Qed.

Lemma ext_send m a s x : left_alone s x → left_alone s (send m a x).
Proof.
  intros Hx. pose proof (owned_of _ _ Hx) as [O1 O2 O3 O4 O5 O6 O6' O7].
  unfold send. auto_alone.
Qed.

Lemma ext_sendTimedOut id q m s x :
  left_alone s x → (id ≠ N ∨ pendingRequests x !! N = None) → (id ≠ N → q ≠ p) →
  left_alone s (sendTimedOut id q m x).
Proof.
  intros Hx Hid Hq. pose proof (owned_of _ _ Hx) as [O1 O2 O3 O4 O5 O6 O6' O7].
  unfold sendTimedOut.
  destruct (pendingRequests x !! id) as [q'|] eqn:Hq'; [|done].
  assert (HidN : id ≠ N) by (destruct Hid; congruence).
  auto_alone.
Qed.

Lemma ext_connectToPage pg s x : left_alone s x → left_alone s (connectToPage h pg x).
Proof. intros Hx. unfold connectToPage. auto_alone. Qed.

Lemma ext_sendLocal ws m a s x : left_alone s x → left_alone s (sendLocal ws m a x).
Proof. intros Hx. unfold sendLocal. auto_alone. Qed.

Lemma ext_executeCommand ws q m a s x :
  left_alone s x → q ≠ p → left_alone s (executeCommand ws q m a x).
Proof.
  intros Hx Hq. pose proof (owned_of _ _ Hx) as [O1 O2 O3 O4 O5 O6 O6' O7].
  unfold executeCommand. auto_alone.
Qed.

Lemma ext_pageCommandTimedOut ws l q m s x :
  left_alone s x → q ≠ p → left_alone s (pageCommandTimedOut ws l q m x).
Proof.
  intros Hx Hq. unfold pageCommandTimedOut. chain; side.
  by apply ext_removeEventListener.
Qed.

Lemma ext_page_onopen pg ws s x : left_alone s x → left_alone s (page_onopen pg ws x).
Proof.
  intros Hx. unfold page_onopen.
  by apply ext_sendLocal, ext_sendLocal, ext_sendLocal, ext_setupKeepAlive.
Qed.

Ltac chain ::=
  lazymatch goal with
  | H : left_alone ?s ?x |- left_alone ?s ?x => exact H
  | |- left_alone _ (set_wsRef _ _) => apply ext_set_wsRef; chain
  | |- left_alone _ (set_currentPageIdRef _ _) => apply ext_set_currentPageIdRef; chain
  | |- left_alone _ (set_pageSessions _ _) => apply ext_set_pageSessions; chain
  | |- left_alone _ (set_knownPageIds _ _) => apply ext_set_knownPageIds; chain
  | |- left_alone _ (set_state _ _) => apply ext_set_state; chain
  | |- left_alone _ (setState _ _ _) => apply ext_set_state; chain
  | |- left_alone _ (set_synth _ _) => apply ext_set_synth; chain
  | |- left_alone _ (set_nextHandle _ _) =>
      apply ext_set_nextHandle; [chain|simpl; try lia]
  | |- left_alone _ (set_messageIdRef _ _) =>
      apply ext_set_messageIdRef; [chain|simpl; try lia]
  | |- left_alone _ (emit _ _) => apply ext_emit; [chain|try reflexivity]
  | |- left_alone _ (call_if _ _ _) => apply ext_call_if; chain
  | |- left_alone _ (close _ _) => apply ext_close; chain
  | |- left_alone _ (setTimeout _ _ _).2 => apply ext_setTimeout; [chain|]
  | |- left_alone _ (clearTimer _ _) => apply ext_clearTimer; [chain|]
  | |- left_alone _ (removeEventListener _ _ _) => apply ext_removeEventListener; chain
  | |- left_alone _ (setupKeepAlive _ _ _) => apply ext_setupKeepAlive; chain
  | |- left_alone _ (keepAliveTick _ _) => apply ext_keepAliveTick; chain
  | |- left_alone _ (mainKeepAliveTick _ _) => apply ext_mainKeepAliveTick; chain
  | |- left_alone _ (queryTitleAndFavicon _ _ _) => apply ext_queryTitleAndFavicon; chain
  | |- left_alone _ (settle _ _ _) => apply ext_settle; [chain|]
  | |- left_alone _ (settlePending _ _) => apply ext_settlePending; [chain|]
  | |- left_alone _ (connect _ _ _) => apply ext_connect; chain
  | |- left_alone _ (control_onopen _ _) => apply ext_control_onopen; chain
  | |- left_alone _ (control_onclose _ _ _ _) => apply ext_control_onclose; chain
  | |- left_alone _ (control_onerror _) => apply ext_control_onerror; chain
  | |- left_alone _ (send _ _ _) => apply ext_send; chain
  | |- left_alone _ (connectToPage _ _ _) => apply ext_connectToPage; chain
  | |- left_alone _ (sendLocal _ _ _ _) => apply ext_sendLocal; chain
  | |- left_alone _ (executeCommand _ _ _ _ _) => apply ext_executeCommand; [chain|]
  | |- left_alone _ (pageCommandTimedOut _ _ _ _ _) =>
      apply ext_pageCommandTimedOut; [chain|]
  | |- left_alone _ (page_onopen _ _ _) => apply ext_page_onopen; chain
  | |- left_alone _ (update_socket _ _ _) => apply ext_update_socket; [chain|]
  | |- left_alone _ (set_timers _ _) => apply ext_set_timers; [chain|]
  | |- left_alone _ (set_pendingRequests _ _) => apply ext_set_pendingRequests; [chain|]
  | |- left_alone _ (set_keepAliveIntervals _ _) =>
      apply ext_set_keepAliveIntervals; [chain|]
  | |- left_alone _ (set_sockets _ _) => apply ext_set_sockets; [chain|]
  | |- left_alone _ (if ?b then _ else _) => destruct b eqn:?; chain
  | |- left_alone _ (match ?o with _ => _ end) => destruct o eqn:?; chain
  | _ => idtac
  end.

Lemma ext_page_onclose pg c s x :
  left_alone s x → left_alone s (page_onclose h pg c x).
Proof.
  intros Hx. unfold page_onclose. auto_alone.
Qed.

Lemma ext_navigationEnrichment ws pg s x :
  left_alone s x → left_alone s (navigationEnrichment ws pg x).
Proof. intros Hx. unfold navigationEnrichment. auto_alone. Qed.

(** One [let] of a handler at a time. *)
Ltac step_let :=
  lazymatch goal with
  | |- left_alone ?s0 (let y := ?v in @?b y) =>
      let H := fresh "H" in
      assert (H : left_alone s0 v);
      [ | let y' := fresh "y" in
          set (y' := v) in *; clearbody y';
          change (left_alone s0 (b y')); cbv beta ]
  end.

Lemma ext_page_onmessage ws pg now rnd data s x :
  left_alone s x →
  (∀ m, data = Some m → msg_id m ≠ Some N ∨ pendingRequests x !! N = None) →
  left_alone s (page_onmessage h ws pg now rnd data x).
Proof.
  intros Hx Hm. destruct data as [m|]; [|done].
  cbv beta iota delta [page_onmessage].
  step_let; [apply ext_settlePending; auto|].
  step_let; [chain|].
  step_let; [chain|].
  chain; side; cbv zeta; chain; side. done.
Qed.

(** What the two [onmessage] handlers do once the pending map has been
    consulted leaves the command alone. *)
Lemma ext_control_events m s x :
  left_alone s (settlePending m x) → left_alone s (control_onmessage h (Some m) x).
Proof. intros H1. unfold control_onmessage. auto_alone. Qed.

Lemma ext_page_events ws pg now rnd m s x :
  left_alone s (settlePending m x) →
  left_alone s (page_onmessage h ws pg now rnd (Some m) x).
Proof.
  intros H1. cbv beta iota delta [page_onmessage].
  step_let; [exact H1|].
  step_let; [chain|].
  step_let; [chain|].
  chain; side; cbv zeta; chain; side. done.
Qed.

Lemma ext_foldl {A} (P : A → Prop) (f : State → A → State) l s x :
  left_alone s x → Forall P l →
  (∀ y a, P a → left_alone s y → left_alone s (f y a)) →
  left_alone s (foldl f x l).
Proof.
  intros Hx Hl Hf. revert x Hx.
  induction Hl as [|a l Ha _ IH]; intros x Hx; simpl; [done|].
  apply IH. by apply Hf.
Qed.

Lemma Forall_True {A} (l : list A) : Forall (λ _, True) l.
Proof. by apply Forall_forall. Qed.

Lemma ext_ensurePageConnections pgs s x :
  left_alone s x → left_alone s (ensurePageConnections h pgs x).
Proof.
  intros Hx. unfold ensurePageConnections.
  destruct (negb (has_session h)); [done|].
  apply (ext_foldl (λ _, True)); [|apply Forall_True|].
  - apply (ext_foldl (λ _, True)); [done|apply Forall_True|].
    intros y a _ Hy. cbv zeta. chain.
  - intros y a _ Hy. cbv zeta. chain; side.
Qed.

Lemma ext_disconnect s x : left_alone s x → left_alone s (disconnect x).
Proof.
  intros Hx. pose proof (owned_of _ _ Hx) as [O1 O2 O3 O4 O5 O6 O6' O7].
  unfold disconnect. cbv zeta.
  assert (H1 : left_alone s
    (foldl (λ s interval, clearTimer interval s) x
       (map snd (map_to_list (keepAliveIntervals x))))).
  { apply (ext_foldl (λ i, i ≠ t)); [done| |].
    - apply Forall_forall. intros i Hi.
      apply list_elem_of_In, in_map_iff in Hi as ([pg i'] & <- & Hin).
      apply list_elem_of_In, elem_of_map_to_list in Hin. by eapply O7.
    - intros y a Ha Hy. chain. intros _. by left. }
  set (x1 := foldl (λ s interval, clearTimer interval s) x _) in *. clearbody x1.
  assert (H2 : left_alone s
    (foldl (λ s ws, close ws s) (set_keepAliveIntervals ∅ x1)
       (map snd (map_to_list (pageSessions (set_keepAliveIntervals ∅ x1)))))).
  { apply (ext_foldl (λ _, True)); [|apply Forall_True|].
    - chain. intros _ pg i. by rewrite lookup_empty.
    - intros y a _ Hy. chain. }
  set (x2 := foldl (λ s ws, close ws s) _ _) in *. clearbody x2.
  chain.
Qed.

Lemma ext_reconnectKnownPages s x :
  left_alone s x → left_alone s (reconnectKnownPages h x).
Proof.
  intros Hx. unfold reconnectKnownPages.
  destruct (negb (has_session h)); [done|].
  apply (ext_foldl (λ _, True)); [done|apply Forall_True|].
  intros y a _ Hy. chain.
Qed.

Lemma clean_queue q m a w :
  q ≠ p → socket_clean w →
  socket_clean
    (with_errorListeners (errorListeners w ++ [q])
       (with_openListeners
          (openListeners w ++ [{| q_promise := q; q_method := m; q_params := a |}]) w)).
Proof.
  intros Hq [C1 C2 C3]. split; simpl; [done| |].
  - apply Forall_app. split; [done|]. by apply Forall_singleton.
  - apply Forall_app. split; [done|]. by apply Forall_singleton.
Qed.

Lemma ext_sendWhenOpen q tg m a s x :
  left_alone s x → q ≠ p → left_alone s (sendWhenOpen h q tg m a x).
Proof.
  intros Hx Hq. unfold sendWhenOpen. cbv zeta. chain; side.
  intros w. by apply clean_queue.
Qed.

Lemma ext_sendToPage tg m a s x :
  left_alone s x → left_alone s (sendToPage h tg m a x).
Proof.
  intros Hx. pose proof (owned_of _ _ Hx) as [O1 O2 O3 O4 O5 O6 O6' O7].
  unfold sendToPage. cbv beta iota zeta delta [fresh].
  chain; side.
  all: first [apply ext_sendWhenOpen; [chain|simpl; lia] | simpl; lia].
Qed.

Lemma ext_closeTarget tg s x : left_alone s x → left_alone s (closeTarget tg x).
Proof.
  intros Hx. unfold closeTarget. cbv zeta. chain; side.
Qed.

Lemma ext_createTargetResolved tg s x :
  left_alone s x → left_alone s (createTargetResolved tg x).
Proof. intros Hx. unfold createTargetResolved. chain. Qed.

Lemma clean_with_openListeners_nil w :
  socket_clean w → socket_clean (with_openListeners [] w).
Proof. by intros [? ? ?]. Qed.

Lemma clean_with_errorListeners_nil w :
  socket_clean w → socket_clean (with_errorListeners [] w).
Proof. by intros [? ? ?]. Qed.

Lemma ext_wsOpen ws s x : left_alone s x → left_alone s (wsOpen ws x).
Proof.
  intros Hx. pose proof (owned_of _ _ Hx) as [O1 O2 O3 O4 O5 O6 O6' O7].
  unfold wsOpen. destruct (sockets x !! ws) as [w|] eqn:Hw; [|done].
  destruct (readyState w); try done.
  destruct (role w); cbv zeta.
  - chain; side.
  - apply (ext_foldl (λ q, q_promise q ≠ p)).
    + chain; side. apply clean_with_openListeners_nil.
    + by destruct (O5 _ _ Hw).
    + intros y q Hq Hy. by apply ext_executeCommand.
Qed.

Lemma ext_wsClose ws c s x : left_alone s x → left_alone s (wsClose h ws c x).
Proof.
  intros Hx. unfold wsClose. destruct (sockets x !! ws) as [w|] eqn:Hw; [|done].
  destruct (readyState w); try done; destruct (role w); cbv zeta;
    first [apply ext_control_onclose | apply ext_page_onclose]; chain; side.
Qed.

Lemma ext_wsError ws s x : left_alone s x → left_alone s (wsError ws x).
Proof.
  intros Hx. pose proof (owned_of _ _ Hx) as [O1 O2 O3 O4 O5 O6 O6' O7].
  unfold wsError. destruct (sockets x !! ws) as [w|] eqn:Hw; [|done].
  destruct (role w); cbv zeta; [chain|].
  apply (ext_foldl (λ q, q ≠ p)).
  - chain. apply clean_with_errorListeners_nil.
  - by destruct (O5 _ _ Hw).
  - intros y q Hq Hy. chain. simpl. by apply bool_decide_eq_false_2.
Qed.

Lemma ext_wsMessage ws now rnd data s x :
  left_alone s x →
  (∀ m, data = Some m → msg_id m ≠ Some N ∨ pendingRequests x !! N = None) →
  left_alone s (wsMessage h ws now rnd data x).
Proof.
  intros Hx Hm. pose proof (owned_of _ _ Hx) as [O1 O2 O3 O4 O5 O6 O6' O7].
  unfold wsMessage. destruct (sockets x !! ws) as [w|] eqn:Hw; [|done].
  destruct (O5 _ _ Hw) as [C1 _ _].
  destruct (readyState w); try done; cbv zeta;
    (apply ext_runListeners; [|done]);
    destruct (role w);
    first [by apply ext_control_onmessage | by apply ext_page_onmessage].
Qed.

Lemma ext_delivery ws w now rnd m s x :
  left_alone s (settlePending m x) →
  sockets x !! ws = Some w →
  readyState w = OPEN ∨ readyState w = CLOSING →
  Forall (λ l : nat * Listener, listener_clean l.2) (messageListeners w) →
  left_alone s (wsMessage h ws now rnd (Some m) x).
Proof.
  intros H1 Hw Hready Hc. unfold wsMessage. rewrite Hw.
  destruct Hready as [-> | ->]; cbv zeta;
    (apply ext_runListeners; [|done]);
    destruct (role w);
    first [by apply ext_control_events | by apply ext_page_events].
Qed.

Lemma ext_handleScreencastMessage now rnd msg s x :
  left_alone s x → left_alone s (handleScreencastMessage h now rnd msg x).
Proof. intros Hx. unfold handleScreencastMessage. chain. Qed.

Lemma ext_timerFired i s x :
  left_alone s x →
  ((pendingRequests x !! N = None ∧ timers x !! t = None)
   ∨ ∀ d id q m, timers x !! i = Some (d, SendTimeout id q m) → id ≠ N) →
  left_alone s (timerFired i x).
Proof.
  intros Hx Hcalm. pose proof (owned_of _ _ Hx) as [O1 O2 O3 O4 O5 O6 O6' O7].
  unfold timerFired. destruct (timers x !! i) as [[d a]|] eqn:Hi; [|done].
  cbv zeta.
  assert (Hit : i ≠ t ∨ timers x !! t = None).
  { destruct Hcalm as [[_ Hn]|Hc]; [by right|]. left. intros ->.
    destruct (O6' _ _ Hi) as [-> ->]. by eapply Hc. }
  assert (H1 : left_alone s (if is_interval a then x else clearTimer i x)).
  { destruct (is_interval a); [done|]. apply ext_clearTimer; [done|]. by intros _. }
  set (x1 := if is_interval a then x else clearTimer i x) in *.
  assert (Hp1 : pendingRequests x1 = pendingRequests x).
  { unfold x1. by destruct (is_interval a). }
  clearbody x1. specialize (O6 _ _ _ Hi). destruct a; simpl in O6.
  - apply ext_sendTimedOut; [done| |].
    + rewrite Hp1. destruct Hcalm as [[Hn _]|Hc]; [by right|]. left. by eapply Hc.
    + intros Hne ->. destruct O6 as (_ & ? & _); [by left|done].
  - by apply ext_pageCommandTimedOut.
  - by apply ext_removeEventListener.
  - by apply ext_navigationEnrichment.
  - by apply ext_keepAliveTick.
Qed.

(** ** One event, any number of events *)

Lemma step_left_alone s e :
  owned s → calm N t s e → left_alone s (step h s e).
Proof.
  intros Os Hcalm. pose proof (left_alone_refl s Os) as Hs.
  destruct e; simpl.
  - by apply ext_connect.
  - by apply ext_connectToPage.
  - by apply ext_ensurePageConnections.
  - by apply ext_reconnectKnownPages.
  - by apply ext_disconnect.
  - by apply ext_send.
  - by apply ext_sendToPage.
  - by apply ext_closeTarget.
  - by apply ext_createTargetResolved.
  - by apply ext_wsOpen.
  - apply ext_wsMessage; [done|]. intros m ->.
    destruct Hcalm as [[Hn _]|Hd]; [by right|]. left.
    simpl in Hd. by apply bool_decide_eq_false in Hd.
  - by apply ext_wsClose.
  - by apply ext_wsError.
  - apply ext_timerFired; [done|].
    destruct Hcalm as [Hn|Hd]; [by left|]. right. intros d id q m Ht.
    simpl in Hd. rewrite Ht in Hd. by apply bool_decide_eq_false in Hd.
  - by apply ext_mainKeepAliveTick.
  - by apply ext_handleScreencastMessage.
  - by apply ext_set_synth.
  - by apply ext_set_synth.
  - by apply ext_set_synth.
  - by apply ext_set_synth.
Qed.

End Command.

(** ** What the handlers do besides settling *)

Lemma quiet_refl s : quiet s s.
Proof. done. Qed.

Lemma quiet_trans s1 s2 s3 : quiet s1 s2 → quiet s2 s3 → quiet s1 s3.
Proof. intros [? ?] [? ?]. split; congruence. Qed.

Lemma quiet_call_if b c s : quiet s (call_if b c s).
Proof.
  destruct b; [|done]. split; [done|]. simpl.
  by rewrite all_settlements_app, app_nil_r.
Qed.

Lemma quiet_queryTitleAndFavicon ws pg s : quiet s (queryTitleAndFavicon ws pg s).
Proof.
  split; [done|]. unfold queryTitleAndFavicon. simpl.
  by rewrite !all_settlements_app, !app_nil_r.
Qed.

Lemma quiet_page_events h ws pg now rnd m s :
  quiet (settlePending m s) (page_onmessage h ws pg now rnd (Some m) s).
Proof.
  cbv beta iota delta [page_onmessage].
  set (s1 := settlePending m s). clearbody s1. cbv zeta.
  set (s2 := if bool_decide (method m = Some "Runtime.bindingCalled") then _ else _).
  assert (H2 : quiet s1 s2).
  { unfold s2. repeat case_match; by split. }
  clearbody s2.
  set (s3 := if bool_decide (method m = Some "Page.loadEventFired") || _ then _ else _).
  assert (H3 : quiet s2 s3).
  { unfold s3. repeat case_match; try by split. apply quiet_queryTitleAndFavicon. }
  clearbody s3.
  eapply quiet_trans; [exact H2|]. eapply quiet_trans; [exact H3|].
  repeat case_match; try by split.
  unfold setTimeout. simpl.
  apply (quiet_call_if _ _ (set_synth _ s3)).
Qed.

Lemma quiet_control_events h m s :
  quiet (settlePending m s) (control_onmessage h (Some m) s).
Proof.
  unfold control_onmessage. cbv zeta. repeat case_match; try by split.
  apply quiet_call_if.
Qed.

(** ** Runs that leave one command alone *)

Section Run.
Context (h : Hook) (p : nat) (N : Z) (t : nat) (meth : string).

#[local] Abbreviation owned := (owned p N t meth).
#[local] Abbreviation left_alone := (left_alone p N t meth).

Lemma run_left_alone s es :
  owned s → undisturbed h N s es → left_alone s (run h s es).
Proof.
  revert s. induction es as [|e es IH]; intros s Os Hes; simpl.
  - by apply left_alone_refl.
  - destruct Hes as [He Hes].
    assert (H1 : left_alone s (step h s e)).
    { apply (step_left_alone h); [done|]. by right. }
    eapply left_alone_trans; [exact H1|]. apply IH; [|done].
    by destruct H1.
Qed.


(** No listener waits for a message with id [N]. *)
Lemma runListeners_silent ws m registered s :
  Forall (λ l : nat * Listener, listener_clean p N l.2) registered →
  msg_id m = Some N →
  runListeners h ws (Some m) registered s = s.
Proof.
  intros Hr Hm. unfold runListeners.
  induction Hr as [|l ls Hl _ IH]; simpl; [done|].
  enough (runListener h ws m s l = s) as Hl'.
  { rewrite Hl'. destruct (sockets s !! ws); [|done]. by destruct (bool_decide _). }
  unfold runListener. destruct l as [i [id q|a b pg]]; simpl in *.
  - destruct Hl as [Hid _]. rewrite bool_decide_eq_false_2; [done|]. congruence.
  - destruct Hl as [Ha Hb].
    rewrite !bool_decide_eq_false_2; [done|congruence..].
Qed.

Lemma settlePending_settles m s :
  pendingRequests s !! N = Some p → msg_id m = Some N →
  pendingRequests (settlePending m s) = delete N (pendingRequests s)
  ∧ trace (settlePending m s) = trace s ++ [settlement_of p m].
Proof.
  intros Hp Hm. unfold settlePending, settle, settlement_of. rewrite Hm, Hp.
  by destruct (error m).
Qed.

Lemma all_settlements_settlement q m tr :
  all_settlements (tr ++ [settlement_of q m]) = all_settlements tr ++ [settlement_of q m].
Proof.
  rewrite all_settlements_app. f_equal. unfold settlement_of. by destruct (error m).
Qed.

(** A message with id [N] is delivered while the command is pending: its
    entry goes, its promise is settled, nothing else is. *)
Lemma response_settles ws w now rnd m s :
  owned s → pendingRequests s !! N = Some p → msg_id m = Some N →
  sockets s !! ws = Some w →
  readyState w = OPEN ∨ readyState w = CLOSING →
  pendingRequests (wsMessage h ws now rnd (Some m) s) = delete N (pendingRequests s)
  ∧ all_settlements (trace (wsMessage h ws now rnd (Some m) s))
    = all_settlements (trace s) ++ [settlement_of p m].
Proof.
  intros Os Hp Hm Hw Hready.
  assert (Hc : Forall (λ l : nat * Listener, listener_clean p N l.2) (messageListeners w)).
  { by destruct (owned_sockets _ _ _ _ _ Os _ _ Hw). }
  destruct (settlePending_settles m s Hp Hm) as [P1 T1].
  assert (Hon : quiet (settlePending m s) (wsMessage h ws now rnd (Some m) s)).
  { unfold wsMessage. rewrite Hw.
    destruct Hready as [-> | ->]; rewrite runListeners_silent by done;
      destruct (role w); first [apply quiet_control_events | apply quiet_page_events]. }
  destruct Hon as [-> ->]. split; [done|].
  by rewrite T1, all_settlements_settlement.
Qed.

(** The timer of the command comes due while the command is pending. *)
Lemma timeout_rejects s :
  owned s → pendingRequests s !! N = Some p →
  timers s !! t = Some (30000, SendTimeout N p meth) →
  owned (timerFired t s)
  ∧ pendingRequests (timerFired t s) = delete N (pendingRequests s)
  ∧ timers (timerFired t s) !! t = None
  ∧ trace (timerFired t s) = trace s ++ [Reject p ("CDP command timeout: " +:+ meth)].
Proof.
  intros Os Hp Ht. unfold timerFired, sendTimedOut. rewrite Ht. simpl. rewrite Hp. simpl.
  split; [|split; [done|split; [by rewrite lookup_delete_eq|done]]].
  destruct Os as [O1 O2 O3 O4 O5 O6 O6' O7]. split; simpl; try done.
  - intros k q [? Hk]%lookup_delete_Some. by apply O4.
  - intros t' d a [? Hk]%lookup_delete_Some. by eapply O6.
  - intros d a. by rewrite lookup_delete_eq.
Qed.


End Run.

(** ** What [send] sets up *)

Lemma bounded_listener_clean B M p N l :
  (B <= p)%nat → M <= N → listener_bounded B M l → listener_clean p N l.
Proof. intros HB HM. destruct l; simpl; lia. Qed.

Lemma bounded_socket_clean B M p N w :
  (B <= p)%nat → M <= N → socket_bounded B M w → socket_clean p N w.
Proof.
  intros HB HM [C1 C2 C3]. split.
  - eapply Forall_impl; [exact C1|]. intros l. by apply bounded_listener_clean.
  - eapply Forall_impl; [exact C2|]. simpl. lia.
  - eapply Forall_impl; [exact C3|]. simpl. lia.
Qed.

Lemma bounded_timer_clean B M p N t meth t' a :
  (B <= p)%nat → M <= N → timer_bounded B M a → timer_clean p N t meth t' a.
Proof. intros HB HM. destruct a; simpl; lia. Qed.

Lemma send_sets_up meth args ws s :
  well_formed s → wsRef s = Some ws → is_open ws s = true →
  let p := nextHandle s in
  let N := messageIdRef s in
  let t := S (nextHandle s) in
  owned p N t meth (send meth args s)
  ∧ pendingRequests (send meth args s) !! N = Some p
  ∧ timers (send meth args s) !! t = Some (30000, SendTimeout N p meth)
  ∧ trace (send meth args s) = trace s ++ [WsSend ws Shared N meth (Opaque args)].
Proof.
  intros [W1 W2 W3 W4 W5] Hws Hopen p N t.
  assert (Hs : send meth args s =
    emit (WsSend ws Shared N meth (Opaque args))
      (set_timers (<[t := (30000, SendTimeout N p meth)]> (timers s))
         (set_nextHandle (S t)
            (set_pendingRequests (<[N := p]> (pendingRequests s))
               (set_messageIdRef (N + 1) (set_nextHandle t s)))))).
  { unfold send. simpl. rewrite Hws.
    replace (is_open ws (set_nextHandle (S (nextHandle s)) s)) with (is_open ws s) by done.
    by rewrite Hopen. }
  rewrite Hs. simpl.
  split; [|split; [by rewrite lookup_insert_eq|split; [by rewrite lookup_insert_eq|done]]].
  split; simpl; try lia.
  - intros k q [[<- <-]|[? Hk]]%lookup_insert_Some; [done|].
    destruct (W1 _ _ Hk). unfold p, N. lia.
  - intros ws' w Hw. eapply bounded_socket_clean; [| |by eapply W2]; unfold p, N; lia.
  - intros t' d a [[<- [= <- <-]]|[? Hk]]%lookup_insert_Some; [by simpl|].
    eapply bounded_timer_clean; [| |by eapply W3]; unfold p, N; lia.
  - intros d a. rewrite lookup_insert_eq. by intros [= <- <-].
  - intros pg i Hi. specialize (W4 _ _ Hi). unfold t. lia.
Qed.

Lemma fresh_promise_unsettled s :
  well_formed s → settlements (nextHandle s) (trace s) = [].
Proof.
  intros [_ _ _ _ W5]. unfold settlements.
  induction W5 as [|e tr He _ IH]; simpl; [done|].
  destruct e; simpl in *; try done; rewrite bool_decide_eq_false_2 by lia; done.
Qed.

(** The command from its [send] up to an event that concerns it. *)
Lemma command_pending h meth args s0 es :
  well_formed s0 → control_open s0 →
  let N := messageIdRef s0 in
  let p := nextHandle s0 in
  let t := S (nextHandle s0) in
  let s2 := run h (send meth args s0) es in
  undisturbed h N (send meth args s0) es →
  owned p N t meth s2
  ∧ pendingRequests s2 !! N = Some p
  ∧ timers s2 !! t = Some (30000, SendTimeout N p meth)
  ∧ settlements p (trace s2) = [].
Proof.
  intros W0 (ws & Hws & Hopen) N p t s2 Hes.
  destruct (send_sets_up meth args ws s0 W0 Hws Hopen) as (O1 & P1 & T1 & Tr1).
  destruct (run_left_alone h p N t meth _ es O1 Hes) as [O2 P2 T2 (eff & Tr2 & Heff)].
  unfold s2. split; [done|]. split; [by rewrite P2|]. split; [by rewrite T2|].
  rewrite Tr2, Tr1, !settlements_app, Heff.
  unfold p. by rewrite (fresh_promise_unsettled s0 W0).
Qed.

(** C2 — A command is sent with [send] on the open control connection and
    gets id [N]; any events follow, none of them a message with id [N] or
    the timeout of the command.  Then the command is still pending and
    unsettled, and the message with id [N], once delivered, removes the
    entry [N] and no other from the pending map and calls [resolve] (or
    [reject], if it has an error field) of the promise of this command,
    and of no other promise. *)
Theorem response_settles_its_command (h : Hook) (es0 es : list Event)
    (meth args : string) (ws : nat) (w : WebSocket) (now : Z) (rnd : string)
    (m : CDPMessage) :
  let s0 := run h init es0 in
  let N := messageIdRef s0 in
  let p := nextHandle s0 in
  let s1 := send meth args s0 in
  let s2 := run h s1 es in
  let s3 := step h s2 (WsMessage ws now rnd (Some m)) in
  control_open s0 →
  undisturbed h N s1 es →
  sockets s2 !! ws = Some w →
  readyState w = OPEN ∨ readyState w = CLOSING →
  msg_id m = Some N →
  (∃ ws0, wsRef s0 = Some ws0
          ∧ trace s1 = trace s0 ++ [WsSend ws0 Shared N meth (Opaque args)])
  ∧ pendingRequests s2 !! N = Some p
  ∧ settlements p (trace s2) = []
  ∧ pendingRequests s3 = delete N (pendingRequests s2)
  ∧ all_settlements (trace s3) = all_settlements (trace s2) ++ [settlement_of p m].
Proof.
  intros s0 N p s1 s2 s3 Hopen Hes Hw Hready Hm.
  pose proof (reachable_well_formed h es0) as W0.
  destruct (command_pending h meth args s0 es W0 Hopen Hes) as (O2 & P2 & T2 & S2).
  split_and!; try done.
  - destruct Hopen as (ws0 & Hws0 & Hop). exists ws0. split; [done|].
    by destruct (send_sets_up meth args ws0 s0 W0 Hws0 Hop) as (_ & _ & _ & Tr1).
  - by apply (response_settles h p N (S (nextHandle s0)) meth ws w).
  - by apply (response_settles h p N (S (nextHandle s0)) meth ws w).
Qed.

Lemma response_settles_its_command_witness :
  (control_open (run recorder init connected)
   ∧ undisturbed recorder (messageIdRef (run recorder init connected))
       (send "Target.getTargets" "" (run recorder init connected)) interleaved
   ∧ sockets (run recorder (send "Target.getTargets" "" (run recorder init connected))
                interleaved) !! 0%nat = Some control_socket
   ∧ (readyState control_socket = OPEN ∨ readyState control_socket = CLOSING)
   ∧ msg_id targets = Some (messageIdRef (run recorder init connected)))
  ∧
  let s0 := run recorder init connected in
  let N := messageIdRef s0 in
  let p := nextHandle s0 in
  let s1 := send "Target.getTargets" "" s0 in
  let s2 := run recorder s1 interleaved in
  let s3 := step recorder s2 (WsMessage 0 8 "r" (Some targets)) in
  (∃ ws0, wsRef s0 = Some ws0
          ∧ trace s1 = trace s0 ++ [WsSend ws0 Shared N "Target.getTargets" (Opaque "")])
  ∧ pendingRequests s2 !! N = Some p
  ∧ settlements p (trace s2) = []
  ∧ pendingRequests s3 = delete N (pendingRequests s2)
  ∧ all_settlements (trace s3) = all_settlements (trace s2) ++ [settlement_of p targets].
Proof.
  assert (H1 : control_open (run recorder init connected)).
  { exists 0%nat. split; reflexivity. }
  assert (H2 : undisturbed recorder (messageIdRef (run recorder init connected))
                 (send "Target.getTargets" "" (run recorder init connected)) interleaved).
  { vm_compute. repeat split. }
  assert (H3 : sockets (run recorder (send "Target.getTargets" "" (run recorder init connected))
                          interleaved) !! 0%nat = Some control_socket).
  { vm_compute. reflexivity. }
  assert (H4 : readyState control_socket = OPEN ∨ readyState control_socket = CLOSING).
  { left. reflexivity. }
  assert (H5 : msg_id targets = Some (messageIdRef (run recorder init connected))).
  { vm_compute. reflexivity. }
  split; [by split_and!|].
  exact (response_settles_its_command recorder connected interleaved "Target.getTargets" ""
           0%nat control_socket 8 "r" targets H1 H2 H3 H4 H5).
Defined.

(** The responses of the scenario came back in the order 4, 3, 2, and
    each settled the promise of its own command. *)
Example responses_out_of_order :
  let s := run recorder init
             (connected ++ [Send "Target.getTargets" ""] ++ interleaved
              ++ [WsMessage 0 8 "r" (Some targets)]) in
  all_settlements (trace s)
  = [Resolve 3 {| json := "{targetId:'p2'}"; value := None |};
     Resolve 1 {| json := "{targetInfos:[]}"; value := None |}]
  ∧ pendingRequests s = ∅.
Proof. vm_compute. done. Qed.



(** X15 — The timer of a command sent to a page: armed with 30000 ms
    by [executeCommand]; when it comes due the listener of the command is
    removed and [reject] called once, and the timer is gone. *)
Lemma page_command_times_out pageWs promise meth args w s :
  sockets s !! pageWs = Some w →
  let listener := nextHandle s in
  let t := S (nextHandle s) in
  let s1 := executeCommand pageWs promise meth args s in
  let s2 := timerFired t s1 in
  timers s1 !! t = Some (30000, PageCommandTimeout pageWs listener promise meth)
  ∧ (∃ w1, sockets s1 !! pageWs = Some w1
           ∧ messageListeners w1
             = messageListeners w ++ [(listener, CommandListener (messageIdRef s) promise)])
  ∧ trace s2 = trace s1 ++ [Reject promise ("Page CDP command timeout: " +:+ meth)]
  ∧ timers s2 !! t = None
  ∧ (∀ w2, sockets s2 !! pageWs = Some w2 → listener ∉ (messageListeners w2).*1).
Proof.
  intros Hw. cbv zeta.
  assert (Ht : timers (executeCommand pageWs promise meth args s) !! S (nextHandle s)
               = Some (30000, PageCommandTimeout pageWs (nextHandle s) promise meth)).
  { unfold executeCommand. simpl. by rewrite lookup_insert_eq. }
  split; [done|]. split.
  { exists (with_messageListeners
              (messageListeners w
               ++ [(nextHandle s, CommandListener (messageIdRef s) promise)]) w).
    split; [|done]. unfold executeCommand. simpl. by rewrite lookup_alter_eq, Hw. }
  unfold timerFired. rewrite Ht. simpl. split; [done|].
  split; [by rewrite lookup_delete_eq|].
  intros w2. rewrite lookup_alter_eq. intros Hw2.
  destruct (alter _ pageWs (sockets s) !! pageWs) as [w1|]; [|done].
  injection Hw2 as <-. simpl. unfold fmap.
  intros (l & Hl1 & [Hl _]%list_elem_of_filter)%list_elem_of_fmap. by apply Hl.
Qed.

(** ** The ids on a page connection *)

(** C5 — Every outgoing command on a connection carries a unique,
    increasing id, and no two commands in flight share one: the code falls
    short of this on page connections.  The three commands sent when a
    page connection opens take the ids 1000, 1001, 1002 from a counter of
    their own, every other command on that connection takes its id from
    the shared counter.  After a long session the command that waited for
    the connection gets the id 1000 as well, with [Page.enable] still
    unanswered, and the answer to [Page.enable] resolves its promise; on a
    fresh hook the keep-alive of the page follows 1002 with id 1. *)
Theorem page_connection_repeats_id :
  let s := run recorder init page_opened in
  sent_ids 2 (trace s) = [1000; 1001; 1002; 1000]
  ∧ all_settlements (trace s) = []
  ∧ all_settlements
      (trace (step recorder s (WsMessage 2 0 "r" (Some (response 1000 None None)))))
    = [Resolve 1 empty_result]
  ∧ sent_ids 0 (trace (run recorder init page_kept_alive)) = [1000; 1001; 1002; 1].
Proof. vm_compute. done. Qed.

End BridgeProofs.

(** * More properties of the limiter *)

Module LimiterExtras.
Import Limiter LimiterLog LimiterProofs.

(** ** First come, first served *)

Lemma served_grantWhilePossible cfg now q s :
  map lease_source (leases (grantWhilePossible cfg now q s))
  ++ map source (queue (grantWhilePossible cfg now q s))
  = map lease_source (leases s) ++ map source q.
Proof.
  revert s. induction q as [|item rest IH]; intros s; cbn [grantWhilePossible]; [done|].
  destruct (canGrantNextLease cfg now s) as [s1 ok] eqn:E.
  pose proof (canGrantNextLease_state cfg now s) as Hs. rewrite E in Hs. simpl in Hs.
  subst s1. destruct ok; [|done].
  rewrite IH. simpl. rewrite map_app. simpl. by rewrite <- app_assoc.
Qed.

Lemma processQueue_fields cfg now s :
  ∃ d, processQueue cfg now s
       = set_processTimer d
           (grantWhilePossible cfg now (queue s)
              (pruneCreateTimestamps now (clearProcessTimer s))).
Proof.
  unfold processQueue.
  set (s2 := grantWhilePossible _ _ _ _).
  assert (Hid : s2 = set_processTimer (processTimer s2) s2) by by destruct s2.
  destruct (queue s2) eqn:Hq; [by eexists|].
  destruct (hasConcurrentCapacity cfg s2); [|by eexists].
  unfold scheduleWhenRateWindowOpens. rewrite Hq.
  destruct (createTimestamps s2); by eexists.
Qed.

Lemma served_processQueue cfg now s :
  served_then_waiting (processQueue cfg now s) = served_then_waiting s.
Proof.
  destruct (processQueue_fields cfg now s) as [d ->]. unfold served_then_waiting.
  cbn [leases queue set_processTimer]. by rewrite served_grantWhilePossible.
Qed.

Lemma served_finalize cfg now k sid s :
  served_then_waiting (finalize cfg now k sid s) = served_then_waiting s.
Proof.
  unfold finalize. destruct (leases s !! k) as [l|] eqn:Hk; [|done].
  destruct (finalized l); [done|]. cbv zeta. rewrite served_processQueue.
  unfold served_then_waiting.
  assert (Hl : map lease_source
                 (<[k := {| lease_source := lease_source l; finalized := true |}]> (leases s))
               = map lease_source (leases s)).
  { rewrite list_fmap_insert. simpl. apply list_insert_id.
    by rewrite list_lookup_fmap, Hk. }
  repeat case_match; simpl; by rewrite Hl.
Qed.

Lemma served_step cfg s e :
  served_then_waiting (step cfg s e) = served_then_waiting s ++ requested [e].
Proof.
  destruct e as [now ev]. unfold requested. destruct ev; simpl; rewrite ?app_nil_r.
  - unfold acquireCreateLease. cbv zeta. rewrite served_processQueue.
    unfold served_then_waiting. simpl. by rewrite map_app, app_assoc.
  - unfold confirmCreated. destruct (leases s !! k); [|done].
    destruct (falsy sessionId); by rewrite served_finalize.
  - apply served_finalize.
  - unfold registerActiveSession. destruct (falsy sessionId); [done|].
    by rewrite served_processQueue.
  - unfold releaseActiveSession. destruct (falsy sessionId); [done|].
    destruct (bool_decide _); [|done]. by rewrite served_processQueue.
  - done.
  - unfold timerFired. destruct (processTimer s); [|done]. by rewrite served_processQueue.
Qed.

(** X1 — Requests are answered first come, first served, and none is
    lost or answered twice: at any time the sources of the leases handed
    out, in the order they were handed out, followed by the sources of the
    requests still queued, are the sources of all requests made, in the
    order they were made. *)
Theorem leases_first_come_first_served (cfg : Config) (es : list (Z * Event)) :
  served_then_waiting (run cfg init es) = requested es.
Proof.
  enough (H : ∀ s, served_then_waiting (run cfg s es) = served_then_waiting s ++ requested es)
    by apply (H init).
  induction es as [|e es IH]; intros s; simpl.
  - by rewrite app_nil_r.
  - rewrite IH, served_step, <- app_assoc. f_equal.
    unfold requested. simpl. by destruct (match e.2 with AcquireCreateLease src => Some src | _ => None end).
Qed.

(** ** The wake-up timer *)

Lemma grantWhilePossible_stops cfg now q s :
  let s2 := grantWhilePossible cfg now q s in
  processTimer s2 = processTimer s
  ∧ (queue s2 = []
     ∨ (Z.of_nat (length (createTimestamps s2)) <? maxCreatesPerMinute cfg)
       && hasConcurrentCapacity cfg s2 = false).
Proof.
  revert s. induction q as [|item rest IH]; intros s; cbn [grantWhilePossible].
  - split; [done|by left].
  - destruct (canGrantNextLease cfg now s) as [s1 ok] eqn:E.
    pose proof (canGrantNextLease_state cfg now s) as Hs. rewrite E in Hs. simpl in Hs.
    destruct ok.
    + destruct (IH (grant now item (set_queue rest s1))) as [H1 H2].
      split; [|done]. rewrite H1. by subst s1.
    + split; [by subst s1|]. right.
      unfold canGrantNextLease, hasRateCapacity in E. injection E as _ E.
      subst s1. exact E.
Qed.

Lemma scheduled_processQueue cfg now s :
  1 <= maxCreatesPerMinute cfg → scheduled cfg (processQueue cfg now s).
Proof.
  intros Hmax. unfold processQueue.
  destruct (grantWhilePossible_stops cfg now
              (queue (pruneCreateTimestamps now (clearProcessTimer s)))
              (pruneCreateTimestamps now (clearProcessTimer s))) as [HT Hstop].
  set (s2 := grantWhilePossible _ _ _ _) in *. simpl in HT.
  destruct (queue s2) as [|item rest] eqn:Hq.
  { split; [|by rewrite HT]. rewrite HT, Hq. split; [done|]. by intros [? _]. }
  destruct Hstop as [?|Hstop]; [done|].
  destruct (hasConcurrentCapacity cfg s2) eqn:Hc.
  - rewrite andb_true_r in Hstop. apply Z.ltb_ge in Hstop.
    unfold scheduleWhenRateWindowOpens. rewrite Hq.
    destruct (createTimestamps s2) as [|t0 ts] eqn:Hts; [simpl in Hstop; lia|].
    split; simpl.
    + rewrite Hq. split; [by intros _; split|done].
    + intros d [= <-]. lia.
  - split; [|by rewrite HT]. rewrite HT, Hq, Hc. split; [done|]. by intros [_ ?].
Qed.

Lemma scheduled_same cfg s s' :
  scheduled cfg s → processTimer s' = processTimer s → queue s' = queue s →
  activeSessionIds s' = activeSessionIds s → pendingReservations s' = pendingReservations s →
  scheduled cfg s'.
Proof.
  intros [H1 H2] HT Hq Ha Hp. unfold scheduled, hasConcurrentCapacity, trackedConcurrent in *.
  by rewrite HT, Hq, Ha, Hp.
Qed.

Lemma scheduled_finalize cfg now k sid s :
  1 <= maxCreatesPerMinute cfg → scheduled cfg s → scheduled cfg (finalize cfg now k sid s).
Proof.
  intros Hmax Hs. unfold finalize. destruct (leases s !! k) as [l|]; [|done].
  destruct (finalized l); [done|]. by apply scheduled_processQueue.
Qed.

Lemma scheduled_step cfg s e :
  1 <= maxCreatesPerMinute cfg → scheduled cfg s → scheduled cfg (step cfg s e).
Proof.
  intros Hmax Hs. destruct e as [now ev]. destruct ev; simpl.
  - by apply scheduled_processQueue.
  - unfold confirmCreated. destruct (leases s !! k); [|done].
    destruct (falsy sessionId); apply scheduled_finalize; try done;
      by eapply scheduled_same.
  - by apply scheduled_finalize.
  - unfold registerActiveSession. destruct (falsy sessionId); [done|].
    by apply scheduled_processQueue.
  - unfold releaseActiveSession. destruct (falsy sessionId); [done|].
    destruct (bool_decide _); [|done]. by apply scheduled_processQueue.
  - by eapply scheduled_same.
  - unfold timerFired. destruct (processTimer s); [|done]. by apply scheduled_processQueue.
Qed.

(** X2 — For the limiter built by [getLimiter], after any sequence of
    events the wake-up timer is armed exactly when a request is queued
    while a concurrency slot is free (so the request waits for the rate
    window only), and its delay is at least 50 ms. *)
Theorem timer_armed_iff_waiting_for_rate (envp envc : option Z) (es : list (Z * Event)) :
  let cfg := getLimiter_config envp envc in
  let s := run cfg init es in
  (processTimer s ≠ None ↔ queue s ≠ [] ∧ hasConcurrentCapacity cfg s = true)
  ∧ ∀ d, processTimer s = Some d → 50 <= d.
Proof.
  cbv zeta. set (cfg := getLimiter_config envp envc).
  assert (Hmax : 1 <= maxCreatesPerMinute cfg).
  { destruct (getLimiter_config_positive envp envc). unfold cfg. lia. }
  enough (H : ∀ s, scheduled cfg s → scheduled cfg (run cfg s es)).
  { apply H. split; [|done]. simpl. split; [done|]. by intros [? _]. }
  induction es as [|e es IH]; intros s Hs; [done|].
  simpl. by apply IH, scheduled_step.
Qed.

Lemma shiftExpired_head cutoff t0 ts :
  t0 <= cutoff → (length (shiftExpired cutoff (t0 :: ts)) <= length ts)%nat.
Proof.
  intros H. simpl. rewrite (proj2 (Z.leb_le _ _) H). apply shiftExpired_length.
Qed.

(** X3 — When the timer fires with the head request [item] still queued,
    a concurrency slot free, no more creations counted than the rate
    allows, and the oldest counted creation at least 60 s old, the head
    request gets its lease: the wake-up makes progress. *)
Theorem timer_grants_head (cfg : Config) (now d t0 : Z) (ts : list Z)
    (item : QueueItem) (rest : list QueueItem) (s : State) :
  processTimer s = Some d →
  queue s = item :: rest →
  hasConcurrentCapacity cfg s = true →
  Z.of_nat (length (createTimestamps s)) <= maxCreatesPerMinute cfg →
  createTimestamps s = t0 :: ts →
  t0 + CREATE_WINDOW_MS <= now →
  leases (step cfg s (now, TimerFired)) !! length (leases s) = Some (lease_for item).
Proof.
  intros HT Hq Hc Hlen Hts Hopen. simpl. unfold timerFired. rewrite HT.
  destruct (processQueue_fields cfg now (set_processTimer None s)) as [d' ->].
  cbn [leases set_processTimer]. simpl queue. rewrite Hq. cbn [grantWhilePossible].
  set (s0 := pruneCreateTimestamps now (clearProcessTimer (set_processTimer None s))).
  destruct (canGrantNextLease cfg now s0) as [s1 ok] eqn:E.
  pose proof (canGrantNextLease_state cfg now s0) as Hs.
  rewrite E in Hs. simpl in Hs.
  assert (Hok : ok = true).
  { unfold canGrantNextLease, hasRateCapacity in E. injection E as _ <-.
    apply andb_true_iff. split.
    - apply Z.ltb_lt. simpl. rewrite Hts in *. unfold CREATE_WINDOW_MS in *.
      pose proof (shiftExpired_head (now - 60000) t0 ts ltac:(lia)) as H1.
      pose proof (shiftExpired_length (now - 60000) (shiftExpired (now - 60000) (t0 :: ts))).
      simpl in Hlen. lia.
    - exact Hc. }
  subst ok. apply leases_grantWhilePossible. subst s1. simpl.
  by rewrite lookup_app_r, Nat.sub_diag by lia.
Qed.

Lemma timer_grants_head_witness :
  let cfg := getLimiter_config (Some 1) None in
  let s := run cfg init [(1000, AcquireCreateLease "a"); (1500, AcquireCreateLease "b");
                         (1600, Cancel 0)] in
  (processTimer s = Some 59400
   ∧ queue s = [{| source := "b" |}]
   ∧ hasConcurrentCapacity cfg s = true
   ∧ Z.of_nat (length (createTimestamps s)) <= maxCreatesPerMinute cfg
   ∧ createTimestamps s = [1000]
   ∧ 1000 + CREATE_WINDOW_MS <= 61000)
  ∧ leases (step cfg s (61000, TimerFired)) !! length (leases s)
    = Some (lease_for {| source := "b" |}).
Proof.
  cbv zeta.
  split; [split_and!; solve [reflexivity | vm_compute; discriminate]|].
  apply (timer_grants_head (getLimiter_config (Some 1) None) 61000 59400 1000 []
           {| source := "b" |} []);
    solve [reflexivity | vm_compute; discriminate].
Defined.

(** ** The rate over any window of 60 s *)

Lemma shiftExpired_split cutoff ts :
  ∃ gone, ts = gone ++ shiftExpired cutoff ts ∧ Forall (λ g, g <= cutoff) gone.
Proof.
  induction ts as [|t ts (gone & Hts & Hgone)]; [by exists []|].
  simpl. destruct (t <=? cutoff) eqn:E.
  - exists (t :: gone). split; [simpl; congruence|]. constructor; [by apply Z.leb_le|done].
  - by exists [].
Qed.

Lemma counted_prune now now' log s :
  now <= now' → counted now log s → counted now' log (pruneCreateTimestamps now' s).
Proof.
  intros Hle (old & -> & Hold).
  destruct (shiftExpired_split (now' - CREATE_WINDOW_MS) (createTimestamps s))
    as (gone & Hts & Hgone).
  exists (old ++ gone). split.
  - simpl. by rewrite <- app_assoc, <- Hts.
  - apply Forall_app. split; [|done].
    eapply Forall_impl; [exact Hold|]. simpl. lia.
Qed.

Lemma paced_prune cfg now now' log s :
  now <= now' → paced cfg now log s → paced cfg now' log (pruneCreateTimestamps now' s).
Proof.
  intros Hle [H1 H2 H3]. split; [by apply (counted_prune now)|done|].
  simpl. pose proof (shiftExpired_length (now' - CREATE_WINDOW_MS) (createTimestamps s)). lia.
Qed.

Lemma paced_same cfg now log s s' :
  paced cfg now log s → createTimestamps s' = createTimestamps s → paced cfg now log s'.
Proof.
  intros [(old & H1 & Hold) H2 H3] Hts. split; [|done|by rewrite Hts].
  exists old. by rewrite Hts.
Qed.

Lemma filter_none {A} (f : A → bool) (l : list A) :
  Forall (λ x, f x = false) l → List.filter f l = [].
Proof. induction 1 as [|x l Hx _ IH]; simpl; [done|]. by rewrite Hx. Qed.

Lemma filter_length_le {A} (f : A → bool) (l : list A) :
  (length (List.filter f l) <= length l)%nat.
Proof. induction l as [|x l IH]; simpl; [lia|]. destruct (f x); simpl; lia. Qed.

(** A lease is handed out at [now], with room left under the rate. *)
Lemma paced_grant cfg now log item s :
  paced cfg now log s →
  Z.of_nat (length (createTimestamps s)) < maxCreatesPerMinute cfg →
  paced cfg now (log ++ [now]) (grant now item s).
Proof.
  intros [(old & -> & Hold) H2 H3] Hroom.
  assert (Hpush : paced cfg now ((old ++ createTimestamps s) ++ [now])
                    (set_createTimestamps (createTimestamps s ++ [now])
                       (set_pendingReservations (pendingReservations s + 1) s))).
  { split.
    - exists old. split; [by rewrite <- app_assoc|done].
    - intros upto. rewrite List.filter_app. simpl.
      destruct (in_window upto now) eqn:Hin; [|rewrite app_nil_r; apply H2].
      rewrite List.filter_app, (filter_none _ old).
      + rewrite !length_app. simpl.
        pose proof (filter_length_le (in_window upto) (createTimestamps s)). lia.
      + eapply Forall_impl; [exact Hold|]. intros g Hg. simpl in Hg.
        unfold in_window in *. apply andb_true_iff in Hin as [_ Hin%Z.leb_le].
        apply andb_false_iff. left. apply Z.ltb_ge. lia.
    - simpl. rewrite length_app. simpl. lia. }
  unfold grant. cbv zeta.
  apply (paced_same cfg now _ (logStats now
           (set_createTimestamps (createTimestamps s ++ [now])
              (set_pendingReservations (pendingReservations s + 1) s)))); [|done].
  unfold logStats. apply (paced_prune cfg now); [lia|]. exact Hpush.
Qed.

Lemma paced_grantWhilePossible cfg now log q s :
  paced cfg now log s →
  let s' := grantWhilePossible cfg now q s in
  paced cfg now (log ++ replicate (length (leases s') - length (leases s)) now) s'.
Proof.
  revert log s. induction q as [|item rest IH]; intros log s Hs; cbn [grantWhilePossible].
  - simpl. rewrite Nat.sub_diag. simpl. rewrite app_nil_r. by eapply paced_same.
  - destruct (canGrantNextLease cfg now s) as [s1 ok] eqn:E.
    pose proof (canGrantNextLease_state cfg now s) as Hs1. rewrite E in Hs1. simpl in Hs1.
    assert (H1 : paced cfg now log s1) by (subst s1; apply (paced_prune cfg now); [lia|done]).
    destruct ok.
    + apply canGrantNextLease_true in E as (_ & Hrate & _).
      assert (H2 : paced cfg now (log ++ [now]) (grant now item (set_queue rest s1))).
      { apply paced_grant; [by eapply paced_same|done]. }
      specialize (IH _ _ H2). cbv zeta in IH.
      set (s' := grantWhilePossible cfg now rest (grant now item (set_queue rest s1))) in *.
      assert (Hlen : length (leases (grant now item (set_queue rest s1)))
                     = S (length (leases s))).
      { subst s1. simpl. rewrite length_app. simpl. lia. }
      assert (Hmono : (length (leases (grant now item (set_queue rest s1)))
                       <= length (leases s'))%nat).
      { unfold s'. clear. generalize (grant now item (set_queue rest s1)). intros x.
        revert x. induction rest as [|i r IHr]; intros x; cbn [grantWhilePossible]; [done|].
        destruct (canGrantNextLease cfg now x) as [x1 ok] eqn:E.
        pose proof (canGrantNextLease_state cfg now x) as Hx. rewrite E in Hx. simpl in Hx.
        subst x1. destruct ok; [|done].
        etrans; [|apply IHr]. simpl. rewrite length_app. lia. }
      rewrite Hlen in IH, Hmono.
      replace (length (leases s') - length (leases s))%nat
        with (S (length (leases s') - S (length (leases s))))%nat by lia.
      simpl. by rewrite cons_middle, app_assoc.
    + simpl. rewrite Hs1. simpl. rewrite Nat.sub_diag. simpl. rewrite app_nil_r.
      eapply paced_same; [exact H1|]. by subst s1.
Qed.

Lemma paced_processQueue cfg now now' log s :
  now <= now' → paced cfg now log s →
  let s' := processQueue cfg now' s in
  paced cfg now' (log ++ replicate (length (leases s') - length (leases s)) now') s'.
Proof.
  intros Hle Hs. cbv zeta.
  destruct (processQueue_fields cfg now' s) as [d ->].
  set (s0 := pruneCreateTimestamps now' (clearProcessTimer s)).
  assert (H0 : paced cfg now' log s0).
  { apply (paced_prune cfg now); [done|]. by eapply paced_same. }
  pose proof (paced_grantWhilePossible cfg now' log (queue s) s0 H0) as H1.
  cbv zeta in H1. eapply paced_same; [exact H1|done].
Qed.

Lemma paced_idle cfg now now' log s :
  now <= now' → paced cfg now log s →
  paced cfg now' (log ++ replicate (length (leases s) - length (leases s)) now') s.
Proof.
  intros Hle [(old & H1 & Hold) H2 H3].
  rewrite Nat.sub_diag. simpl. rewrite app_nil_r. split; [|done..].
  exists old. split; [done|]. eapply Forall_impl; [exact Hold|]. simpl. lia.
Qed.

Lemma paced_finalize cfg now now' log k sid s :
  now <= now' → paced cfg now log s →
  let s' := finalize cfg now' k sid s in
  paced cfg now' (log ++ replicate (length (leases s') - length (leases s)) now') s'.
Proof.
  intros Hle Hs. cbv zeta. unfold finalize.
  pose proof (paced_idle cfg now now' log s Hle Hs) as Hidle.
  destruct (leases s !! k) as [l|] eqn:Hk; [|done].
  destruct (finalized l); [done|]. cbv zeta.
  set (s1 := match sid with Some _ => _ | None => _ end).
  assert (H1 : paced cfg now log s1).
  { apply (paced_same cfg now log s); [done|]. unfold s1. by repeat case_match. }
  assert (Hlen : length (leases s1) = length (leases s)).
  { unfold s1. repeat case_match; simpl; by rewrite length_insert. }
  rewrite <- Hlen. by apply (paced_processQueue cfg now).
Qed.

Lemma paced_step cfg now log s e :
  now <= e.1 → paced cfg now log s →
  paced cfg e.1
    (log ++ replicate (length (leases (step cfg s e)) - length (leases s)) e.1)
    (step cfg s e).
Proof.
  destruct e as [now' ev]. simpl. intros Hle Hs. destruct ev.
  - unfold acquireCreateLease. cbv zeta.
    apply (paced_processQueue cfg now' now' log
             (logStats now' (set_queue (queue s ++ [{| source := src |}]) s))); [done|].
    apply (paced_prune cfg now); [done|]. by apply (paced_same cfg now log s).
  - unfold confirmCreated. destruct (leases s !! k); [|by apply (paced_idle cfg now)].
    destruct (falsy sessionId); [by apply (paced_finalize cfg now)|].
    apply (paced_finalize cfg now' now' log k (Some sessionId) (logStats now' s)); [done|].
    by apply (paced_prune cfg now).
  - by apply (paced_finalize cfg now).
  - unfold registerActiveSession.
    destruct (falsy sessionId); [by apply (paced_idle cfg now)|].
    apply (paced_processQueue cfg now now' log
             (set_activeSessionIds ({[sessionId]} ∪ activeSessionIds s) s)); [done|].
    by apply (paced_same cfg now log s).
  - unfold releaseActiveSession.
    destruct (falsy sessionId); [by apply (paced_idle cfg now)|].
    destruct (bool_decide _); [|by apply (paced_idle cfg now)].
    apply (paced_processQueue cfg now now' log
             (set_activeSessionIds (activeSessionIds s ∖ {[sessionId]}) s)); [done|].
    by apply (paced_same cfg now log s).
  - unfold getStats. simpl. rewrite Nat.sub_diag. simpl. rewrite app_nil_r.
    by apply (paced_prune cfg now).
  - unfold timerFired. destruct (processTimer s); [|by apply (paced_idle cfg now)].
    apply (paced_processQueue cfg now now' log (set_processTimer None s)); [done|].
    by apply (paced_same cfg now log s).
Qed.

Lemma paced_run cfg now log s es :
  monotone now es → paced cfg now log s →
  within_rate (maxCreatesPerMinute cfg) (log ++ grant_times cfg s es).
Proof.
  revert now log s. induction es as [|e es IH]; intros now log s Hes Hs.
  - simpl. rewrite app_nil_r. by destruct Hs.
  - destruct Hes as [Hle Hes]. simpl. rewrite app_assoc.
    apply (IH e.1); [done|]. by apply (paced_step cfg now).
Qed.

(** X4 — For the limiter built by [getLimiter], driven by a clock that
    never goes back, no window of 60 s contains more lease grants than
    [maxCreatesPerMinute], whatever the events and wherever the window
    lies. *)
Theorem rate_respected_in_every_window (envp envc : option Z) (t0 upto : Z)
    (es : list (Z * Event)) :
  let cfg := getLimiter_config envp envc in
  monotone t0 es →
  Z.of_nat (length (List.filter (in_window upto) (grant_times cfg init es)))
  <= maxCreatesPerMinute cfg.
Proof.
  intros cfg Hes.
  assert (Hmax : 0 <= maxCreatesPerMinute cfg).
  { destruct (getLimiter_config_positive envp envc). unfold cfg. lia. }
  apply (paced_run cfg t0 [] init es Hes). split.
  - by exists [].
  - intros w. exact Hmax.
  - exact Hmax.
Qed.

Lemma rate_respected_in_every_window_witness :
  let es := [(1000, AcquireCreateLease "a"); (1000, AcquireCreateLease "b");
             (2000, AcquireCreateLease "c"); (2500, Cancel 0); (61000, TimerFired);
             (61500, GetStats); (62000, TimerFired)] in
  monotone 0 es
  ∧ Z.of_nat (length (List.filter (in_window 61000)
                        (grant_times (getLimiter_config (Some 2) None) init es)))
    <= maxCreatesPerMinute (getLimiter_config (Some 2) None).
Proof.
  assert (H : monotone 0
    [(1000, AcquireCreateLease "a"); (1000, AcquireCreateLease "b");
     (2000, AcquireCreateLease "c"); (2500, Cancel 0); (61000, TimerFired);
     (61500, GetStats); (62000, TimerFired)]) by (simpl; lia).
  split; [exact H|].
  exact (rate_respected_in_every_window (Some 2) None 0 61000 _ H).
Defined.

(** The grants of that run: two at once, the third when the window of the
    first two has passed. *)
Example grant_times_of_a_run :
  grant_times (getLimiter_config (Some 2) None) init
    [(1000, AcquireCreateLease "a"); (1000, AcquireCreateLease "b");
     (2000, AcquireCreateLease "c"); (2500, Cancel 0); (61000, TimerFired);
     (61500, GetStats); (62000, TimerFired)]
  = [1000; 1000; 61000].
Proof. vm_compute. done. Qed.

End LimiterExtras.

(** * More properties of the synthesizer *)

Module SynthExtras.
Import Synth SynthLog SynthProofs.

(** ** Navigation events *)

(** X5 — After a navigation was accepted at [now1], a navigation that
    comes 1000 ms later or less is dropped and leaves no trace; one that
    comes more than 1000 ms later is accepted and appends its own
    interaction. *)
Theorem navigation_throttle (s : State) (now1 now2 : Z) (rnd1 rnd2 : string)
    (url1 frame1 name1 url2 frame2 name2 page : string) :
  1000 < now1 - lastNavigationRefresh s →
  let s1 := (frameNavigated now1 rnd1 url1 frame1 name1 page s).1 in
  (frameNavigated now1 rnd1 url1 frame1 name1 page s).2 = true
  ∧ interactions s1
    = interactions s ++ [navigation_interaction now1 rnd1 url1 frame1 name1 page]
  ∧ (now2 - now1 <= 1000 →
     frameNavigated now2 rnd2 url2 frame2 name2 page s1 = (s1, false))
  ∧ (1000 < now2 - now1 →
     (frameNavigated now2 rnd2 url2 frame2 name2 page s1).2 = true
     ∧ interactions (frameNavigated now2 rnd2 url2 frame2 name2 page s1).1
       = interactions s1 ++ [navigation_interaction now2 rnd2 url2 frame2 name2 page]).
Proof.
  intros H1. cbv zeta.
  assert (Hnav : frameNavigated now1 rnd1 url1 frame1 name1 page s
                 = (addInteraction now1 rnd1 frame_navigation
                      {| tagName := Some "FRAME_NAVIGATION";
                         text := Some ("Navigated to " +:+ url1);
                         selector := Some frame1; href := Some url1; attributes := [] |}
                      (Some page) (NavigationPayload url1 frame1 name1 page)
                      (set_lastNavigationRefresh now1 s), true)).
  { unfold frameNavigated. by rewrite (proj2 (Z.ltb_lt _ _) H1). }
  rewrite Hnav. cbn [fst snd]. split_and!; try done.
  - intros H2. unfold frameNavigated. simpl. by rewrite (proj2 (Z.ltb_ge _ _) H2).
  - intros H2. unfold frameNavigated. simpl. by rewrite (proj2 (Z.ltb_lt _ _) H2).
Qed.

Lemma navigation_throttle_witness :
  1000 < 5000 - lastNavigationRefresh init
  ∧ let s1 := (frameNavigated 5000 "n1" "https://a.test/" "F1" "" "page-1" init).1 in
    (frameNavigated 5000 "n1" "https://a.test/" "F1" "" "page-1" init).2 = true
    ∧ interactions s1
      = interactions init
        ++ [navigation_interaction 5000 "n1" "https://a.test/" "F1" "" "page-1"]
    ∧ (6000 - 5000 <= 1000 →
       frameNavigated 6000 "n2" "https://b.test/" "F1" "" "page-1" s1 = (s1, false))
    ∧ (1000 < 6000 - 5000 →
       (frameNavigated 6000 "n2" "https://b.test/" "F1" "" "page-1" s1).2 = true
       ∧ interactions (frameNavigated 6000 "n2" "https://b.test/" "F1" "" "page-1" s1).1
         = interactions s1
           ++ [navigation_interaction 6000 "n2" "https://b.test/" "F1" "" "page-1"]).
Proof.
  split; [simpl; lia|].
  apply (navigation_throttle init 5000 6000 "n1" "n2" "https://a.test/" "F1" ""
           "https://b.test/" "F1" "" "page-1").
  simpl; lia.
Defined.

(** ** What an in-page event can do to the list *)

Lemma handleKeydown_extends now rnd e page s :
  ∃ more, map id (interactions (handleKeydown now rnd e page s))
          = map id (interactions s) ++ more
          ∧ (length more <= 1)%nat.
Proof.
  unfold handleKeydown. cbv zeta.
  assert (Hsame : ∃ more, map id (interactions s) = map id (interactions s) ++ more
                          ∧ (length more <= 1)%nat).
  { exists []. split; [by rewrite app_nil_r|simpl; lia]. }
  destruct (is_modifier_key (key e)); [done|].
  destruct (duplicate_keydown now (key e) s); [done|].
  destruct (ctrlKey e || altKey e || metaKey e).
  { eexists. simpl. rewrite map_app. split; [reflexivity|]. simpl. lia. }
  destruct (bool_decide (key e = "Backspace")).
  - destruct (mergeable _ _ _) as [b|]; [|done].
    destruct (0 <? String.length (buffered b))%nat; [|done].
    simpl. by rewrite retext_ids.
  - destruct (mergeable _ _ _) as [b|].
    + simpl. by rewrite retext_ids.
    + eexists. simpl. rewrite map_app. split; [reflexivity|]. simpl. lia.
Qed.

Lemma click_extends p now rnd e page s :
  ∃ more, map id (interactions (click p now rnd e page s))
          = map id (interactions s) ++ more
          ∧ (length more <= 1)%nat.
Proof.
  rewrite click_paths_agree. unfold bindingClick.
  destruct (now - lastClickTimestamp s <? 100).
  - exists []. split; [by rewrite app_nil_r|simpl; lia].
  - eexists. simpl. rewrite map_app. split; [reflexivity|]. simpl. lia.
Qed.

(** X6 — An event reported from the page, on either path (binding call or
    screencast message), never removes or reorders interactions: the ids
    of the list before are a prefix of the ids after, and at most one
    interaction is added. *)
Theorem page_event_appends_at_most_one (p : ClickPath) (now : Z) (rnd : string)
    (e : EventData) (page : string) (s : State) :
  let s' := match p with
            | BindingPath => onBindingCalled now rnd e page s
            | ScreencastPath => onScreencastEvent now rnd e page s
            end in
  ∃ more, map id (interactions s') = map id (interactions s) ++ more
          ∧ (length more <= 1)%nat.
Proof.
  cbv zeta.
  assert (Hsame : ∃ more, map id (interactions s) = map id (interactions s) ++ more
                          ∧ (length more <= 1)%nat).
  { exists []. split; [by rewrite app_nil_r|simpl; lia]. }
  destruct p; unfold onBindingCalled, onScreencastEvent.
  - destruct (bool_decide (ev_type e = "keydown")); [apply handleKeydown_extends|].
    destruct (bool_decide (ev_type e = "click")); [|done].
    apply (click_extends BindingPath).
  - destruct (bool_decide (ev_type e = "keydown")); [apply handleKeydown_extends|].
    destruct (bool_decide (ev_type e = "click")); [|done].
    apply (click_extends ScreencastPath).
Qed.


(** ** Backspace after a keystroke *)

Lemma retext_retext i now1 now2 t1 t2 l :
  retext i now2 t2 (retext i now1 t1 l) = retext i now2 t2 l.
Proof.
  unfold retext at 2 3.
  destruct (list_find (λ x, id x = i) l) as [[index x]|] eqn:Hfind;
    [|unfold retext; by rewrite Hfind].
  pose proof Hfind as (Hl & Hx & Hbefore)%list_find_Some.
  unfold retext.
  set (x1 := {| id := id x; type := type x; timestamp := now1; pageId := pageId x;
                screenshotUrl := screenshotUrl x; element := with_text t1 (element x);
                data := data x |}).
  assert (Hfind1 : list_find (λ y, id y = i) (<[index := x1]> l) = Some (index, x1)).
  { apply list_find_Some. split_and!.
    - apply list_lookup_insert_eq. by eapply lookup_lt_Some.
    - done.
    - intros j y Hj Hlt. rewrite list_lookup_insert_ne in Hj by lia. by eapply Hbefore. }
  rewrite Hfind1. simpl. by rewrite list_insert_insert_eq.
Qed.

Lemma erasable_backspaced pre k :
  erasable k = true → backspaced (pre +:+ char_of k) = pre.
Proof.
  unfold erasable, char_of. destruct (String.length k =? 1)%nat eqn:Hlen.
  - intros Hk%negb_true_iff%bool_decide_eq_false.
    apply Nat.eqb_eq in Hlen. destruct k as [|c [|c' k]]; try done.
    apply backspaced_char. intros ->. by apply Hk.
  - intros Hk%bool_decide_eq_true. by apply backspaced_token.
Qed.

Lemma erasable_not_backspace k : erasable k = true → char_of k ≠ "".
Proof.
  unfold char_of. destruct (String.length k =? 1)%nat eqn:Hlen; [|done].
  apply Nat.eqb_eq in Hlen. by destruct k.
Qed.

(** X7 — Backspace undoes the keystroke before it.  With a typing buffer
    active, a plain key whose rendering Backspace takes back as one unit
    (a character other than "]", or a named key such as Enter) followed,
    less than 3000 ms later, by Backspace on the same element leaves the
    buffered text and the text of the interaction as they were before the
    key; only the timestamps have moved. *)
Theorem backspace_undoes_keystroke (s : State) (k bs : Keystroke) (b : TypingBuffer) :
  plain (event k) = true →
  erasable (key (event k)) = true →
  duplicate_keydown (at_time k) (key (event k)) s = false →
  mergeable (at_time k) (selector_of (event k)) s = Some b →
  key (event bs) = "Backspace" →
  ctrlKey (event bs) = false → altKey (event bs) = false → metaKey (event bs) = false →
  selector_of (event bs) = selector_of (event k) →
  at_time bs - at_time k < 3000 →
  let s' := press (press s k) bs in
  typingBuffer s'
  = Some {| interactionId := interactionId b; buffered := buffered b;
            lastTimestamp := at_time bs; buffer_selector := buffer_selector b |}
  ∧ interactions s' = retext (interactionId b) (at_time bs) (buffered b) (interactions s).
Proof.
  intros Hplain Herase Hdup Hmerge Hkey Hc Ha Hm Hsel Hgap. cbv zeta.
  pose proof Hplain as (_ & _ & _ & _ & Hnb)%plain_inv.
  set (b1 := {| interactionId := interactionId b;
                buffered := buffered b +:+ char_of (key (event k));
                lastTimestamp := at_time k; buffer_selector := buffer_selector b |}).
  set (s1 := set_interactions
               (retext (interactionId b) (at_time k)
                  (buffered b +:+ char_of (key (event k))) (interactions s))
               (set_typingBuffer (Some b1)
                  (set_lastKeydown (Some (key (event k), at_time k)) s))).
  assert (H1 : press s k = s1).
  { unfold press. by rewrite (handleKeydown_append _ _ _ _ _ b). }
  rewrite H1.
  assert (Hsel_b : buffer_selector b = selector_of (event k)).
  { unfold mergeable in Hmerge. destruct (typingBuffer s) as [b0|]; [|done].
    destruct (bool_decide (buffer_selector b0 = _)) eqn:E; [|done].
    simpl in Hmerge. destruct (_ <? 3000); [|done]. injection Hmerge as <-.
    by apply bool_decide_eq_true in E. }
  assert (Hd : duplicate_keydown (at_time bs) "Backspace" s1 = false).
  { unfold duplicate_keydown, s1. simpl. rewrite bool_decide_eq_false_2; done. }
  assert (Hm1 : mergeable (at_time bs) (selector_of (event bs))
                  (set_lastKeydown (Some ("Backspace", at_time bs)) s1) = Some b1).
  { unfold mergeable, s1. simpl. rewrite Hsel, bool_decide_eq_true_2 by done.
    by rewrite (proj2 (Z.ltb_lt _ _) Hgap). }
  assert (Hlen : (0 <? String.length (buffered b1))%nat = true).
  { apply Nat.ltb_lt. simpl. rewrite length_append.
    pose proof (erasable_not_backspace _ Herase).
    destruct (char_of (key (event k))); [done|simpl; lia]. }
  assert (H2 : press s1 bs
               = set_interactions
                   (retext (interactionId b) (at_time bs) (buffered b) (interactions s1))
                   (set_typingBuffer
                      (Some {| interactionId := interactionId b; buffered := buffered b;
                               lastTimestamp := at_time bs;
                               buffer_selector := buffer_selector b |})
                      (set_lastKeydown (Some ("Backspace", at_time bs)) s1))).
  { unfold press, handleKeydown. rewrite Hkey, Hc, Ha, Hm.
    change (is_modifier_key "Backspace") with false. cbn [orb].
    rewrite Hd. cbv zeta. rewrite bool_decide_eq_true_2 by done.
    rewrite Hm1, Hlen. simpl. by rewrite erasable_backspaced. }
  rewrite H2. simpl. split; [done|]. apply retext_retext.
Qed.

Lemma backspace_undoes_keystroke_witness :
  let s := type_keys init [stroke 1000 "h" "#q"; stroke 1100 "i" "#q"] in
  let k := stroke 1200 "Enter" "#q" in
  let bs := backspace 1300 "#q" in
  let b := {| interactionId := fresh_id "typing" 1000 ("r" +:+ pretty 1000);
              buffered := "hi"; lastTimestamp := 1100; buffer_selector := "#q" |} in
  (plain (event k) = true ∧ erasable (key (event k)) = true
   ∧ duplicate_keydown (at_time k) (key (event k)) s = false
   ∧ mergeable (at_time k) (selector_of (event k)) s = Some b
   ∧ key (event bs) = "Backspace"
   ∧ ctrlKey (event bs) = false ∧ altKey (event bs) = false ∧ metaKey (event bs) = false
   ∧ selector_of (event bs) = selector_of (event k)
   ∧ at_time bs - at_time k < 3000)
  ∧ (typingBuffer (press (press s k) bs)
     = Some {| interactionId := interactionId b; buffered := buffered b;
               lastTimestamp := at_time bs; buffer_selector := buffer_selector b |}
     ∧ interactions (press (press s k) bs)
       = retext (interactionId b) (at_time bs) (buffered b) (interactions s)).
Proof.
  cbv zeta. split; [split_and!; solve [reflexivity | vm_compute; reflexivity | simpl; lia]|].
  apply (backspace_undoes_keystroke
           (type_keys init [stroke 1000 "h" "#q"; stroke 1100 "i" "#q"])
           (stroke 1200 "Enter" "#q") (backspace 1300 "#q")
           {| interactionId := fresh_id "typing" 1000 ("r" +:+ pretty 1000);
              buffered := "hi"; lastTimestamp := 1100; buffer_selector := "#q" |});
    solve [reflexivity | vm_compute; reflexivity | simpl; lia].
Defined.

(** A closing bracket is not taken back alone when an opening bracket
    stands before it: "a[b", then "]", then Backspace leaves "a". *)
Example backspace_after_bracket :
  let s := type_keys init [stroke 1000 "a" "#q"; stroke 1100 "[" "#q"; stroke 1200 "b" "#q";
                           stroke 1300 "]" "#q"; backspace 1400 "#q"] in
  erasable "]" = false
  ∧ map (λ i, text (element i)) (interactions s) = [Some "a"].
Proof. vm_compute. done. Qed.

(** ** Removing interactions *)

Lemma filter_other_ids i (l : list Interaction) :
  i ∉ map id l → filter (λ x, id x ≠ i) l = l.
Proof.
  induction l as [|x l IH]; [done|]. simpl. intros Hi.
  apply not_elem_of_cons in Hi as [Hx Hl].
  rewrite filter_cons_True by done. by rewrite IH.
Qed.

(** X8 — Removing the interaction that [addInteraction] has just appended
    gives back the list as it was, provided its id was not in use; the
    typing buffer, which [addInteraction] cleared, stays cleared. *)
Theorem remove_undoes_add (s : State) (now : Z) (rnd : string) (ty : InteractionType)
    (el : Element) (page : option string) (d : Data) :
  fresh_id (type_name ty) now rnd ∉ map id (interactions s) →
  let s' := removeInteraction (fresh_id (type_name ty) now rnd)
              (addInteraction now rnd ty el page d s) in
  interactions s' = interactions s ∧ typingBuffer s' = None.
Proof.
  intros Hfresh. cbv zeta. split; [|done]. unfold removeInteraction, addInteraction. simpl.
  rewrite filter_app, filter_other_ids by done.
  rewrite filter_cons_False by (simpl; intros H; by apply H).
  by rewrite filter_nil, app_nil_r.
Qed.

Lemma remove_undoes_add_witness :
  let s := type_keys init [stroke 1000 "h" "#q"] in
  (fresh_id (type_name user_event) 2000 "c1" ∉ map id (interactions s))
  ∧ (interactions (removeInteraction (fresh_id (type_name user_event) 2000 "c1")
                    (addInteraction 2000 "c1" user_event (click_element (click_at "#go"))
                       (Some "page-1") (EventPayload (click_at "#go")) s))
     = interactions s
     ∧ typingBuffer (removeInteraction (fresh_id (type_name user_event) 2000 "c1")
                       (addInteraction 2000 "c1" user_event (click_element (click_at "#go"))
                          (Some "page-1") (EventPayload (click_at "#go")) s))
       = None).
Proof.
  cbv zeta.
  assert (H : fresh_id (type_name user_event) 2000 "c1"
              ∉ map id (interactions (type_keys init [stroke 1000 "h" "#q"]))).
  { vm_compute. intros Hin. apply list_elem_of_singleton in Hin. discriminate. }
  split; [exact H|].
  exact (remove_undoes_add _ 2000 "c1" user_event (click_element (click_at "#go"))
           (Some "page-1") (EventPayload (click_at "#go")) H).
Defined.

(** [removeInteraction] removes every interaction with the given id
    and no other, keeps the order of the rest, and leaves the typing
    buffer as it is: the ids that remain are the ids before without the
    removed one. *)
Theorem removeInteraction_removes_exactly (i : string) (s : State) :
  map id (interactions (removeInteraction i s))
  = filter (λ j, j ≠ i) (map id (interactions s))
  ∧ (i ∉ map id (interactions (removeInteraction i s)))
  ∧ (∀ x, x ∈ interactions s → id x ≠ i → x ∈ interactions (removeInteraction i s))
  ∧ typingBuffer (removeInteraction i s) = typingBuffer s.
Proof.
  unfold removeInteraction. simpl. split_and!; [| | |done].
  - induction (interactions s) as [|x l IH]; [done|]. simpl.
    destruct (decide (id x = i)) as [Hx|Hx].
    + rewrite filter_cons_False by (by intros H). rewrite IH.
      by rewrite filter_cons_False by (by intros H).
    + rewrite filter_cons_True by done. simpl. rewrite IH.
      by rewrite filter_cons_True by done.
  - intros Hin. apply list_elem_of_fmap in Hin as (x & Hx & Hin').
    apply list_elem_of_filter in Hin' as [Hne _]. by apply Hne.
  - intros x Hx Hne. by apply list_elem_of_filter.
Qed.

(** X9 — Keystrokes after the removal of the interaction they belong to
    are lost to the list.  When the interaction of the active typing
    buffer has been removed, a plain keydown that merges into the buffer
    extends the buffered text, but the list of interactions stays as the
    removal left it. *)
Theorem keystroke_after_removal_not_shown (s : State) (k : Keystroke) (b : TypingBuffer) :
  plain (event k) = true →
  duplicate_keydown (at_time k) (key (event k)) s = false →
  mergeable (at_time k) (selector_of (event k)) s = Some b →
  let s1 := removeInteraction (interactionId b) s in
  interactions (press s1 k) = interactions s1
  ∧ (buffered <$> typingBuffer (press s1 k))
    = Some (buffered b +:+ char_of (key (event k))).
Proof.
  intros Hplain Hdup Hmerge. cbv zeta. unfold press.
  rewrite (handleKeydown_append _ _ _ _ _ b) by done. simpl. split; [|done].
  unfold retext.
  assert (Hnone : list_find (λ x, id x = interactionId b)
                    (filter (λ x, id x ≠ interactionId b) (interactions s)) = None).
  { apply list_find_None, Forall_forall. intros x [Hx _]%list_elem_of_filter. done. }
  by rewrite Hnone.
Qed.

Lemma keystroke_after_removal_not_shown_witness :
  let s := type_keys init [stroke 1000 "h" "#q"; stroke 1100 "i" "#q"] in
  let k := stroke 1200 "!" "#q" in
  let b := {| interactionId := fresh_id "typing" 1000 ("r" +:+ pretty 1000);
              buffered := "hi"; lastTimestamp := 1100; buffer_selector := "#q" |} in
  (plain (event k) = true
   ∧ duplicate_keydown (at_time k) (key (event k)) s = false
   ∧ mergeable (at_time k) (selector_of (event k)) s = Some b)
  ∧ (interactions (press (removeInteraction (interactionId b) s) k)
     = interactions (removeInteraction (interactionId b) s)
     ∧ (buffered <$> typingBuffer (press (removeInteraction (interactionId b) s) k))
       = Some (buffered b +:+ char_of (key (event k)))).
Proof.
  cbv zeta. split; [split_and!; solve [reflexivity | vm_compute; reflexivity]|].
  apply (keystroke_after_removal_not_shown
           (type_keys init [stroke 1000 "h" "#q"; stroke 1100 "i" "#q"])
           (stroke 1200 "!" "#q")
           {| interactionId := fresh_id "typing" 1000 ("r" +:+ pretty 1000);
              buffered := "hi"; lastTimestamp := 1100; buffer_selector := "#q" |});
    solve [reflexivity | vm_compute; reflexivity].
Defined.

End SynthExtras.

Module BridgeExtras.
Import Bridge Correlation BridgeLog BridgeProofs.

(** * More properties of the protocol bridge *)

(** ** A command is settled once *)

Section Lifecycle.
Context (h : Hook) (p : nat) (N : Z) (t : nat) (meth : string).

#[local] Abbreviation owned := (owned p N t meth).
#[local] Abbreviation left_alone := (left_alone p N t meth).
#[local] Abbreviation alive := (alive p N t meth).

(** Any event but a message with id [N] to a pending command, and but
    the timer of the command, leaves the command alone. *)
Lemma step_left_alone_unless s e :
  owned s →
  (∀ ws now rnd m, e = WsMessage ws now rnd (Some m) →
                   msg_id m ≠ Some N ∨ pendingRequests s !! N = None) →
  e ≠ TimerFired t →
  left_alone s (step h s e).
Proof.
  intros Os Hmsg Htimer.
  destruct e; try (apply (step_left_alone h); [done|by right]).
  - simpl. apply ext_wsMessage; [by apply left_alone_refl|].
    intros m ->. by eapply Hmsg.
  - simpl. apply ext_timerFired; [by apply left_alone_refl|]. right.
    intros d id q m Ht ->.
    destruct (owned_timers _ _ _ _ _ Os _ _ _ Ht) as [-> _]; [by right|done].
Qed.

(** The response arrives while the command is pending. *)
Lemma delivery_settles ws w now rnd m s :
  owned s → pendingRequests s !! N = Some p → msg_id m = Some N →
  sockets s !! ws = Some w → readyState w = OPEN ∨ readyState w = CLOSING →
  owned (wsMessage h ws now rnd (Some m) s)
  ∧ pendingRequests (wsMessage h ws now rnd (Some m) s) !! N = None
  ∧ settlements p (trace (wsMessage h ws now rnd (Some m) s))
    = settlements p (trace s) ++ [settlement_of p m].
Proof.
  intros Os Hp Hm Hw Hready.
  assert (Hc : Forall (λ l : nat * Listener, listener_clean p N l.2) (messageListeners w)).
  { by destruct (owned_sockets _ _ _ _ _ Os _ _ Hw). }
  destruct (settlePending_settles p N m s Hp Hm) as [P1 T1].
  assert (O1 : owned (settlePending m s)).
  { destruct Os as [O1 O2 O3 O4 O5 O6 O6' O7].
    unfold settlePending, settle. rewrite Hm, Hp.
    destruct (error m); split; simpl; try done.
    all: intros k q [? Hk]%lookup_delete_Some; by apply O4. }
  assert (Hsock : sockets (settlePending m s) = sockets s).
  { unfold settlePending, settle. rewrite Hm, Hp. by destruct (error m). }
  destruct (ext_delivery h p N t meth ws w now rnd m (settlePending m s) s
              (left_alone_refl p N t meth _ O1) Hw Hready Hc)
    as [O2 P2 _ (eff & Tr2 & Heff)].
  split; [done|]. split.
  - rewrite P2, P1. apply lookup_delete_eq.
  - rewrite Tr2, T1, !settlements_app, Heff, app_nil_r. f_equal.
    unfold settlement_of, settlements. destruct (error m); simpl;
      by rewrite bool_decide_eq_true_2.
Qed.

(** A message that is not delivered changes nothing. *)
Lemma wsMessage_undelivered ws now rnd data s :
  (∀ w, sockets s !! ws = Some w → readyState w ≠ OPEN ∧ readyState w ≠ CLOSING) →
  wsMessage h ws now rnd data s = s.
Proof.
  intros Hw. unfold wsMessage. destruct (sockets s !! ws) as [w|]; [|done].
  destruct (Hw w eq_refl). by destruct (readyState w).
Qed.

(** The timer of the command comes due after its entry is gone. *)
Lemma timer_after_settlement s :
  owned s → pendingRequests s !! N = None →
  owned (timerFired t s)
  ∧ pendingRequests (timerFired t s) = pendingRequests s
  ∧ trace (timerFired t s) = trace s.
Proof.
  intros Os Hp. unfold timerFired.
  destruct (timers s !! t) as [[d a]|] eqn:Ht; [|done].
  destruct (owned_timeout _ _ _ _ _ Os _ _ Ht) as [-> ->]. simpl.
  unfold sendTimedOut. simpl. rewrite Hp. split; [|done].
  destruct Os as [O1 O2 O3 O4 O5 O6 O6' O7]. split; simpl; try done.
  - intros t' d a [? Hk]%lookup_delete_Some. by eapply O6.
  - intros d a. by rewrite lookup_delete_eq.
Qed.

Lemma timer_or_not (e : Event) : e = TimerFired t ∨ e ≠ TimerFired t.
Proof.
  destruct e; try (right; discriminate).
  destruct (decide (t0 = t)) as [->|Hne]; [by left|right; congruence].
Qed.

Lemma alive_left_alone s s' : alive s → left_alone s s' → alive s'.
Proof.
  intros [Os Hs] [O' P' T' (eff & Tr & Heff)]. split; [done|].
  rewrite P', T', Tr, settlements_app, Heff, app_nil_r. done.
Qed.

Lemma alive_step s e : alive s → alive (step h s e).
Proof.
  intros Hs. pose proof Hs as [Os [(Hp & Ht & Hsett)|(Hp & e0 & Hsett & Hby)]].
  - (* pending *)
    destruct (timer_or_not e) as [->|Htimer].
    { destruct (timeout_rejects p N t meth s Os Hp Ht) as (O' & P' & T' & Tr').
      split; [done|]. right. simpl. rewrite P', Tr', settlements_app, Hsett.
      split; [apply lookup_delete_eq|]. eexists. split.
      - simpl. by rewrite bool_decide_eq_true_2.
      - by left. }
    destruct e; try (eapply alive_left_alone; [done|];
                     apply step_left_alone_unless; [done| |done]; by intros ???? [=]).
    destruct data as [m|];
      [|eapply alive_left_alone; [done|];
        apply step_left_alone_unless; [done| |done]; by intros ???? [=]].
    destruct (decide (msg_id m = Some N)) as [Hm|Hm];
      [|eapply alive_left_alone; [done|];
        apply step_left_alone_unless; [done| |done]; intros ???? [= -> -> -> ->]; by left].
    destruct (sockets s !! ws) as [w|] eqn:Hw;
      [|simpl; rewrite wsMessage_undelivered; [done|]; intros w; by rewrite Hw].
    destruct (decide (readyState w = OPEN ∨ readyState w = CLOSING)) as [Hready|Hready].
    + destruct (delivery_settles ws w now rnd m s Os Hp Hm Hw Hready) as (O' & P' & S').
      split; [done|]. right. split; [done|]. exists (settlement_of p m).
      split; [|right; by exists m].
      change (step h s (WsMessage ws now rnd (Some m)))
        with (wsMessage h ws now rnd (Some m) s).
      by rewrite S', Hsett.
    + simpl. rewrite wsMessage_undelivered; [done|]. intros w' Hw'.
      rewrite Hw in Hw'. injection Hw' as <-. split; intros ?; apply Hready; auto.
  - (* settled *)
    destruct (timer_or_not e) as [->|Htimer].
    { destruct (timer_after_settlement s Os Hp) as (O' & P' & Tr').
      split; [done|]. right. simpl. rewrite P', Tr'. split; [done|]. by exists e0. }
    eapply alive_left_alone; [done|].
    apply step_left_alone_unless; [done| |done]. intros. by right.
Qed.

Lemma alive_run s es : alive s → alive (run h s es).
Proof.
  revert s. induction es as [|e es IH]; intros s Hs; [done|].
  simpl. by apply IH, alive_step.
Qed.

End Lifecycle.

(** X10 — A command sent with [send] on the open control connection is
    settled at most once, whatever happens afterwards: at any later time
    either its entry is still in the pending map and neither [resolve] nor
    [reject] of its promise has been called, or the entry is gone and
    exactly one of them has been called once, by the timeout or for a
    message that carried the id of the command. *)
Theorem send_settled_at_most_once (h : Hook) (es0 es : list Event) (meth args : string) :
  let s0 := run h init es0 in
  control_open s0 →
  pending_or_settled_once (nextHandle s0) (messageIdRef s0) meth
    (run h (send meth args s0) es).
Proof.
  intros s0 (ws & Hws & Hopen).
  pose proof (reachable_well_formed h es0) as W0. fold s0 in W0.
  destruct (send_sets_up meth args ws s0 W0 Hws Hopen) as (O1 & P1 & T1 & Tr1).
  assert (H1 : alive (nextHandle s0) (messageIdRef s0) (S (nextHandle s0)) meth
                 (send meth args s0)).
  { split; [done|]. left. split_and!; try done.
    rewrite Tr1, settlements_app, (fresh_promise_unsettled s0 W0). done. }
  destruct (alive_run h _ _ _ _ _ es H1) as [_ [(Hp & _ & Hs)|Hs]]; [by left|by right].
Qed.

Lemma send_settled_at_most_once_witness :
  control_open (run recorder init connected)
  ∧ pending_or_settled_once (nextHandle (run recorder init connected))
      (messageIdRef (run recorder init connected)) "Target.getTargets"
      (run recorder (send "Target.getTargets" "" (run recorder init connected))
         (interleaved ++ [WsMessage 0 8 "r" (Some targets); TimerFired 2;
                          WsMessage 0 9 "r" (Some targets)])).
Proof.
  assert (H1 : control_open (run recorder init connected)).
  { exists 0%nat. split; reflexivity. }
  split; [exact H1|].
  exact (send_settled_at_most_once recorder connected
           (interleaved ++ [WsMessage 0 8 "r" (Some targets); TimerFired 2;
                            WsMessage 0 9 "r" (Some targets)])
           "Target.getTargets" "" H1).
Defined.

(** ** The shared counter numbers the frames consecutively *)

Section Numbering.
Context (h : Hook).

Lemma numbered_refl s : numbered s s.
Proof. split; [lia|]. by rewrite Z.sub_diag, app_nil_r. Qed.

Lemma numbered_trans s x y : numbered s x → numbered x y → numbered s y.
Proof.
  intros [L1 I1] [L2 I2]. split; [lia|]. rewrite I2, I1, <- app_assoc. f_equal.
  replace (messageIdRef y - messageIdRef s)
    with ((messageIdRef x - messageIdRef s) + (messageIdRef y - messageIdRef x)) by lia.
  rewrite seqZ_app by lia. do 2 f_equal. lia.
Qed.

Lemma numbered_same s x x' :
  numbered s x → messageIdRef x' = messageIdRef x → trace x' = trace x → numbered s x'.
Proof. intros [L I] Hm Ht. split; by rewrite Hm, ?Ht. Qed.

Lemma numbered_emit e s x : shared_id e = None → numbered s x → numbered s (emit e x).
Proof.
  intros He [L I]. split; [done|]. simpl. unfold shared_ids in *.
  rewrite omap_app. simpl. by rewrite He, app_nil_r.
Qed.

Lemma numbered_call_if b c s x : numbered s x → numbered s (call_if b c x).
Proof. intros Hx. unfold call_if. destruct b; [by apply numbered_emit|done]. Qed.

Lemma numbered_close ws s x : numbered s x → numbered s (close ws x).
Proof. intros Hx. unfold close. destruct (open_or_connecting ws x); [|done]. by eapply numbered_same. Qed.

(** A handler that took [k] ids from the counter and wrote them out. *)
Ltac numbering k :=
  split; simpl; [lia|]; unfold shared_ids; rewrite ?omap_app; simpl;
  rewrite <- ?app_assoc; f_equal;
  match goal with |- _ = seqZ ?m ?n => replace n with k by lia end;
  unfold seqZ; simpl; repeat (f_equal; try lia).

Ltac unit_of x Hx := eapply numbered_trans; [exact Hx|]; clear Hx.

Lemma numbered_keepAliveTick ws s x : numbered s x → numbered s (keepAliveTick ws x).
Proof.
  intros Hx. unit_of x Hx. unfold keepAliveTick.
  destruct (is_open ws x); [numbering 1|apply numbered_refl].
Qed.

Lemma numbered_mainKeepAliveTick s x : numbered s x → numbered s (mainKeepAliveTick h x).
Proof.
  intros Hx. unit_of x Hx. unfold mainKeepAliveTick.
  destruct (has_session h && isConnected (state x)); [|apply numbered_refl].
  destruct (wsRef x) as [ws|]; [|apply numbered_refl].
  destruct (is_open ws x); [numbering 1|apply numbered_refl].
Qed.

Lemma numbered_control_onopen ws s x : numbered s x → numbered s (control_onopen ws x).
Proof. intros Hx. unit_of x Hx. unfold control_onopen. numbering 1. Qed.

Lemma numbered_queryTitleAndFavicon ws pg s x :
  numbered s x → numbered s (queryTitleAndFavicon ws pg x).
Proof. intros Hx. unit_of x Hx. unfold queryTitleAndFavicon. numbering 2. Qed.

Lemma numbered_send m a s x : numbered s x → numbered s (send m a x).
Proof.
  intros Hx. unit_of x Hx. unfold send. simpl.
  destruct (wsRef x) as [ws|]; [|numbering 0].
  destruct (is_open ws _); [numbering 1|numbering 0].
Qed.

Lemma numbered_executeCommand ws q m a s x :
  numbered s x → numbered s (executeCommand ws q m a x).
Proof. intros Hx. unit_of x Hx. unfold executeCommand. numbering 1. Qed.

Ltac nsame := lazymatch goal with
  | |- numbered ?s (?f _ ?x) => apply (numbered_same s x); [|reflexivity..]
  | |- numbered ?s (?f _ _ ?x) => apply (numbered_same s x); [|reflexivity..]
  end.

Ltac nchain :=
  lazymatch goal with
  | H : numbered ?s ?x |- numbered ?s ?x => exact H
  | |- numbered _ (emit _ _) => apply numbered_emit; [reflexivity|nchain]
  | |- numbered _ (call_if _ _ _) => apply numbered_call_if; nchain
  | |- numbered _ (close _ _) => apply numbered_close; nchain
  | |- numbered _ (keepAliveTick _ _) => apply numbered_keepAliveTick; nchain
  | |- numbered _ (mainKeepAliveTick _ _) => apply numbered_mainKeepAliveTick; nchain
  | |- numbered _ (control_onopen _ _) => apply numbered_control_onopen; nchain
  | |- numbered _ (queryTitleAndFavicon _ _ _) => apply numbered_queryTitleAndFavicon; nchain
  | |- numbered _ (send _ _ _) => apply numbered_send; nchain
  | |- numbered _ (executeCommand _ _ _ _ _) => apply numbered_executeCommand; nchain
  | |- numbered _ (set_wsRef _ _) => nsame; nchain
  | |- numbered _ (set_currentPageIdRef _ _) => nsame; nchain
  | |- numbered _ (set_pageSessions _ _) => nsame; nchain
  | |- numbered _ (set_knownPageIds _ _) => nsame; nchain
  | |- numbered _ (set_state _ _) => nsame; nchain
  | |- numbered _ (setState _ _ _) => nsame; nchain
  | |- numbered _ (set_synth _ _) => nsame; nchain
  | |- numbered _ (set_nextHandle _ _) => nsame; nchain
  | |- numbered _ (update_socket _ _ _) => nsame; nchain
  | |- numbered _ (set_timers _ _) => nsame; nchain
  | |- numbered _ (clearTimer _ _) => nsame; nchain
  | |- numbered _ (removeEventListener _ _ _) => nsame; nchain
  | |- numbered _ (set_pendingRequests _ _) => nsame; nchain
  | |- numbered _ (set_keepAliveIntervals _ _) => nsame; nchain
  | |- numbered _ (set_sockets _ _) => nsame; nchain
  | |- numbered _ (if ?b then _ else _) => destruct b eqn:?; nchain
  | |- numbered _ (match ?o with _ => _ end) => destruct o eqn:?; nchain
  | _ => idtac
  end.

Ltac open_handler :=
  cbv beta iota zeta delta [fresh setTimeout addEventListener new_socket fst snd].

Ltac auto_numbered := open_handler; nchain.

Lemma numbered_setupKeepAlive pg ws s x : numbered s x → numbered s (setupKeepAlive pg ws x).
Proof.
  intros Hx. unfold setupKeepAlive.
  assert (H1 : numbered s
    (match keepAliveIntervals x !! pg with
     | Some existingInterval => clearTimer existingInterval x
     | None => x
     end)) by nchain.
  set (x1 := match keepAliveIntervals x !! pg with
             | Some existingInterval => clearTimer existingInterval x
             | None => x
             end) in *.
  clearbody x1. auto_numbered.
Qed.

Lemma numbered_settle q m s x : numbered s x → numbered s (settle q m x).
Proof. intros Hx. unfold settle. auto_numbered. Qed.

Lemma numbered_settlePending m s x : numbered s x → numbered s (settlePending m x).
Proof.
  intros Hx. unfold settlePending.
  destruct (msg_id m) as [id|]; [|done].
  destruct (pendingRequests x !! id) as [q|]; [|done].
  apply numbered_settle. nchain.
Qed.

Lemma numbered_runListener ws m l s x : numbered s x → numbered s (runListener h ws m x l).
Proof.
  intros Hx. unfold runListener. destruct l as [i [id q|a b pg]]; simpl.
  - destruct (bool_decide _); [|done]. apply numbered_settle. nchain.
  - nchain.
Qed.

Lemma numbered_foldl {A} (f : State → A → State) l s x :
  numbered s x → (∀ y a, numbered s y → numbered s (f y a)) → numbered s (foldl f x l).
Proof.
  intros Hx Hf. revert x Hx. induction l as [|a l IH]; intros x Hx; simpl; [done|].
  by apply IH, Hf.
Qed.

Lemma numbered_runListeners ws data registered s x :
  numbered s x → numbered s (runListeners h ws data registered x).
Proof.
  intros Hx. unfold runListeners. destruct data as [m|]; [|done].
  apply numbered_foldl; [done|]. intros y l Hy. nchain. by apply numbered_runListener.
Qed.

Lemma numbered_connect pg s x : numbered s x → numbered s (connect h pg x).
Proof. intros Hx. unfold connect. auto_numbered. Qed.

Lemma numbered_control_onclose pg c s x :
  numbered s x → numbered s (control_onclose h pg c x).
Proof. intros Hx. unfold control_onclose. auto_numbered. Qed.

Lemma numbered_control_onmessage data s x :
  numbered s x → numbered s (control_onmessage h data x).
Proof.
  intros Hx. unfold control_onmessage. destruct data as [m|]; [|done].
  assert (H1 : numbered s (settlePending m x)) by by apply numbered_settlePending.
  auto_numbered.
Qed.

Lemma numbered_sendTimedOut id q m s x : numbered s x → numbered s (sendTimedOut id q m x).
Proof. intros Hx. unfold sendTimedOut. auto_numbered. Qed.

Lemma numbered_connectToPage pg s x : numbered s x → numbered s (connectToPage h pg x).
Proof. intros Hx. unfold connectToPage. auto_numbered. Qed.

Lemma numbered_sendLocal ws m a s x : numbered s x → numbered s (sendLocal ws m a x).
Proof. intros Hx. unfold sendLocal. auto_numbered. Qed.

Lemma numbered_pageCommandTimedOut ws l q m s x :
  numbered s x → numbered s (pageCommandTimedOut ws l q m x).
Proof. intros Hx. unfold pageCommandTimedOut. auto_numbered. Qed.

Lemma numbered_page_onopen pg ws s x : numbered s x → numbered s (page_onopen pg ws x).
Proof.
  intros Hx. unfold page_onopen.
  by apply numbered_sendLocal, numbered_sendLocal, numbered_sendLocal,
    numbered_setupKeepAlive.
Qed.

Lemma numbered_page_onclose pg c s x : numbered s x → numbered s (page_onclose h pg c x).
Proof. intros Hx. unfold page_onclose. auto_numbered. Qed.

Lemma numbered_navigationEnrichment ws pg s x :
  numbered s x → numbered s (navigationEnrichment ws pg x).
Proof. intros Hx. unfold navigationEnrichment. auto_numbered. Qed.

Ltac nstep_let :=
  lazymatch goal with
  | |- numbered ?s0 (let y := ?v in @?b y) =>
      let H := fresh "H" in
      assert (H : numbered s0 v);
      [ | let y' := fresh "y" in
          set (y' := v) in *; clearbody y';
          change (numbered s0 (b y')); cbv beta ]
  end.

Lemma numbered_page_onmessage ws pg now rnd data s x :
  numbered s x → numbered s (page_onmessage h ws pg now rnd data x).
Proof.
  intros Hx. destruct data as [m|]; [|done].
  cbv beta iota delta [page_onmessage].
  nstep_let; [by apply numbered_settlePending|].
  nstep_let; [nchain|].
  nstep_let; [nchain|].
  auto_numbered.
Qed.

Lemma numbered_ensurePageConnections pgs s x :
  numbered s x → numbered s (ensurePageConnections h pgs x).
Proof.
  intros Hx. unfold ensurePageConnections.
  destruct (negb (has_session h)); [done|].
  apply numbered_foldl.
  - apply numbered_foldl; [done|]. intros y a Hy. cbv zeta. nchain.
    all: by apply numbered_connectToPage; nchain.
  - intros y a Hy. cbv zeta. nchain.
Qed.

Lemma numbered_disconnect s x : numbered s x → numbered s (disconnect x).
Proof.
  intros Hx. unfold disconnect. cbv zeta.
  assert (H1 : numbered s
    (foldl (λ s interval, clearTimer interval s) x
       (map snd (map_to_list (keepAliveIntervals x))))).
  { apply numbered_foldl; [done|]. intros y a Hy. nchain. }
  set (x1 := foldl (λ s interval, clearTimer interval s) x _) in *. clearbody x1.
  assert (H2 : numbered s
    (foldl (λ s ws, close ws s) (set_keepAliveIntervals ∅ x1)
       (map snd (map_to_list (pageSessions (set_keepAliveIntervals ∅ x1)))))).
  { apply numbered_foldl; [nchain|]. intros y a Hy. nchain. }
  set (x2 := foldl (λ s ws, close ws s) _ _) in *. clearbody x2.
  nchain.
Qed.

Lemma numbered_reconnectKnownPages s x :
  numbered s x → numbered s (reconnectKnownPages h x).
Proof.
  intros Hx. unfold reconnectKnownPages.
  destruct (negb (has_session h)); [done|].
  apply numbered_foldl; [done|]. intros y a Hy. nchain.
  all: by apply numbered_connectToPage.
Qed.

Lemma numbered_sendWhenOpen q tg m a s x :
  numbered s x → numbered s (sendWhenOpen h q tg m a x).
Proof.
  intros Hx. unfold sendWhenOpen. cbv zeta.
  assert (H1 : numbered s (connectToPage h tg x)) by by apply numbered_connectToPage.
  set (x1 := connectToPage h tg x) in *. clearbody x1. nchain.
Qed.

Lemma numbered_sendToPage tg m a s x : numbered s x → numbered s (sendToPage h tg m a x).
Proof.
  intros Hx. unfold sendToPage. cbv beta iota zeta delta [fresh]. nchain.
  all: apply numbered_sendWhenOpen; nchain.
Qed.

Lemma numbered_closeTarget tg s x : numbered s x → numbered s (closeTarget tg x).
Proof. intros Hx. unfold closeTarget. cbv zeta. nchain. Qed.

Lemma numbered_createTargetResolved tg s x :
  numbered s x → numbered s (createTargetResolved tg x).
Proof. intros Hx. unfold createTargetResolved. nchain. Qed.

Lemma numbered_wsOpen ws s x : numbered s x → numbered s (wsOpen ws x).
Proof.
  intros Hx. unfold wsOpen. destruct (sockets x !! ws) as [w|]; [|done].
  destruct (readyState w); try done.
  destruct (role w); cbv zeta; [nchain|].
  apply numbered_foldl.
  - nchain. apply numbered_page_onopen. nchain.
  - intros y q Hy. by apply numbered_executeCommand.
Qed.

Lemma numbered_wsClose ws c s x : numbered s x → numbered s (wsClose h ws c x).
Proof.
  intros Hx. unfold wsClose. destruct (sockets x !! ws) as [w|]; [|done].
  destruct (readyState w); try done; destruct (role w); cbv zeta;
    first [apply numbered_control_onclose | apply numbered_page_onclose]; nchain.
Qed.

Lemma numbered_wsError ws s x : numbered s x → numbered s (wsError ws x).
Proof.
  intros Hx. unfold wsError. destruct (sockets x !! ws) as [w|]; [|done].
  destruct (role w); cbv zeta; [unfold control_onerror; nchain|].
  apply numbered_foldl; [nchain|]. intros y q Hy. nchain.
Qed.

Lemma numbered_wsMessage ws now rnd data s x :
  numbered s x → numbered s (wsMessage h ws now rnd data x).
Proof.
  intros Hx. unfold wsMessage. destruct (sockets x !! ws) as [w|]; [|done].
  destruct (readyState w); try done; cbv zeta;
    apply numbered_runListeners;
    destruct (role w);
    first [by apply numbered_control_onmessage | by apply numbered_page_onmessage].
Qed.

Lemma numbered_handleScreencastMessage now rnd msg s x :
  numbered s x → numbered s (handleScreencastMessage h now rnd msg x).
Proof. intros Hx. unfold handleScreencastMessage. nchain. Qed.

Lemma numbered_timerFired i s x : numbered s x → numbered s (timerFired i x).
Proof.
  intros Hx. unfold timerFired. destruct (timers x !! i) as [[d a]|]; [|done].
  cbv zeta.
  assert (H1 : numbered s (if is_interval a then x else clearTimer i x)) by nchain.
  set (x1 := if is_interval a then x else clearTimer i x) in *. clearbody x1.
  destruct a.
  - by apply numbered_sendTimedOut.
  - by apply numbered_pageCommandTimedOut.
  - nchain.
  - by apply numbered_navigationEnrichment.
  - by apply numbered_keepAliveTick.
Qed.

Lemma numbered_step s e : numbered s (step h s e).
Proof.
  pose proof (numbered_refl s) as Hs. destruct e; simpl.
  - by apply numbered_connect.
  - by apply numbered_connectToPage.
  - by apply numbered_ensurePageConnections.
  - by apply numbered_reconnectKnownPages.
  - by apply numbered_disconnect.
  - by apply numbered_send.
  - by apply numbered_sendToPage.
  - by apply numbered_closeTarget.
  - by apply numbered_createTargetResolved.
  - by apply numbered_wsOpen.
  - by apply numbered_wsMessage.
  - by apply numbered_wsClose.
  - by apply numbered_wsError.
  - by apply numbered_timerFired.
  - by apply numbered_mainKeepAliveTick.
  - by apply numbered_handleScreencastMessage.
  - nchain.
  - nchain.
  - nchain.
  - nchain.
Qed.

Lemma numbered_run s es : numbered s (run h s es).
Proof.
  revert s. induction es as [|e es IH]; intros s; [apply numbered_refl|].
  simpl. eapply numbered_trans; [apply numbered_step|apply IH].
Qed.

End Numbering.

(** X11 — The ids taken from the shared counter [messageIdRef] are used
    once each and go out in order: at any time the ids of the frames
    numbered from the shared counter, over all sockets and in the order
    they were written, are exactly 1, 2, ..., up to the counter. *)
Theorem shared_ids_consecutive (h : Hook) (es : list Event) :
  let s := run h init es in
  shared_ids (trace s) = seqZ 1 (messageIdRef s - 1).
Proof. cbv zeta. by destruct (numbered_run h init es) as [_ ->]. Qed.

(** ** Keep-alive intervals are never orphaned *)

Section KeepAlive.
Context (h : Hook).

Lemma registered_same x x' :
  registered x → timers x' = timers x → keepAliveIntervals x' = keepAliveIntervals x →
  registered x'.
Proof. intros Hx Ht Hk i d pg ws. rewrite Ht, Hk. apply Hx. Qed.

Lemma registered_insert i d a x :
  registered x → is_interval a = false →
  registered (set_timers (<[i := (d, a)]> (timers x)) x).
Proof.
  intros Hx Ha j d' pg ws. simpl.
  intros [[_ Heq]|[? Hj]]%lookup_insert_Some; [|by eapply Hx].
  injection Heq as _ ->. discriminate.
Qed.

Lemma registered_clearTimer i x : registered x → registered (clearTimer i x).
Proof.
  intros Hx j d pg ws. simpl. intros [? Hj]%lookup_delete_Some. by eapply Hx.
Qed.

Lemma registered_drop pg i x :
  registered x → keepAliveIntervals x !! pg = Some i →
  registered (set_keepAliveIntervals (delete pg (keepAliveIntervals x)) (clearTimer i x)).
Proof.
  intros Hx Hpg j d pg' ws. simpl. intros [Hne Hj]%lookup_delete_Some.
  pose proof (Hx _ _ _ _ Hj) as Hreg.
  apply lookup_delete_Some. split; [|done]. intros <-. congruence.
Qed.

Lemma registered_setupKeepAlive pg ws x :
  registered x → registered (setupKeepAlive pg ws x).
Proof.
  intros Hx. unfold setupKeepAlive.
  set (x1 := match keepAliveIntervals x !! pg with
             | Some existingInterval => clearTimer existingInterval x
             | None => x
             end).
  assert (H1 : registered x1 ∧ keepAliveIntervals x1 = keepAliveIntervals x
               ∧ ∀ i d ws', timers x1 !! i = Some (d, KeepAliveInterval pg ws') → False).
  { unfold x1. destruct (keepAliveIntervals x !! pg) as [i0|] eqn:Hpg.
    - split; [by apply registered_clearTimer|]. split; [done|].
      intros i d ws'. simpl. intros [Hne Hi]%lookup_delete_Some.
      pose proof (Hx _ _ _ _ Hi). congruence.
    - split; [done|]. split; [done|]. intros i d ws' Hi.
      pose proof (Hx _ _ _ _ Hi). congruence. }
  destruct H1 as (R1 & K1 & Hnone). clearbody x1.
  cbv beta iota zeta delta [setTimeout fresh fst snd].
  intros j d pg' ws'. simpl.
  intros [[<- Heq]|[Hne Hj]]%lookup_insert_Some.
  - injection Heq as _ -> _. apply lookup_insert_eq.
  - destruct (decide (pg' = pg)) as [->|Hpg]; [by destruct (Hnone _ _ _ Hj)|].
    rewrite lookup_insert_ne by done. by eapply R1.
Qed.

(** Projections of a state that was built by setters. *)
Ltac fields :=
  lazy beta iota zeta delta
    [timers keepAliveIntervals
     set_messageIdRef set_pendingRequests set_wsRef set_currentPageIdRef
     set_pageSessions set_keepAliveIntervals set_knownPageIds set_state set_sockets
     set_timers set_nextHandle set_synth set_trace
     emit clearTimer setState update_socket removeEventListener].

Ltac rsame := lazymatch goal with
  | |- registered (?f _ ?x) => apply (registered_same x); [|fields; reflexivity..]
  | |- registered (?f _ _ ?x) => apply (registered_same x); [|fields; reflexivity..]
  end.

Lemma registered_close ws x : registered x → registered (close ws x).
Proof.
  intros Hx. unfold close. destruct (open_or_connecting ws x); [|done]. by rsame.
Qed.

Ltac rchain :=
  lazymatch goal with
  | H : registered ?x |- registered ?x => exact H
  | |- registered (set_keepAliveIntervals (delete _ _) (clearTimer _ _)) =>
      apply registered_drop; [rchain|eassumption]
  | |- registered (set_timers (<[_ := _]> _) _) =>
      apply registered_insert; [rchain|reflexivity]
  | |- registered (clearTimer _ _) => apply registered_clearTimer; rchain
  | |- registered (setupKeepAlive _ _ _) => apply registered_setupKeepAlive; rchain
  | |- registered (close _ _) => apply registered_close; rchain
  | |- registered (emit _ _) => rsame; rchain
  | |- registered (call_if _ _ _) => unfold call_if; rchain
  | |- registered (set_wsRef _ _) => rsame; rchain
  | |- registered (set_currentPageIdRef _ _) => rsame; rchain
  | |- registered (set_pageSessions _ _) => rsame; rchain
  | |- registered (set_knownPageIds _ _) => rsame; rchain
  | |- registered (set_state _ _) => rsame; rchain
  | |- registered (setState _ _ _) => rsame; rchain
  | |- registered (set_synth _ _) => rsame; rchain
  | |- registered (set_nextHandle _ _) => rsame; rchain
  | |- registered (set_messageIdRef _ _) => rsame; rchain
  | |- registered (update_socket _ _ _) => rsame; rchain
  | |- registered (removeEventListener _ _ _) => rsame; rchain
  | |- registered (set_pendingRequests _ _) => rsame; rchain
  | |- registered (set_sockets _ _) => rsame; rchain
  | |- registered (if ?b then _ else _) => destruct b eqn:?; rchain
  | |- registered (match ?o with _ => _ end) => destruct o eqn:?; rchain
  | _ => idtac
  end.

Ltac open_handler :=
  cbv beta iota zeta delta
    [fresh next_id setTimeout addEventListener new_socket fst snd].

Ltac auto_registered := open_handler; rchain.

Lemma registered_keepAliveTick ws x : registered x → registered (keepAliveTick ws x).
Proof. intros Hx. unfold keepAliveTick. auto_registered. Qed.

Lemma registered_mainKeepAliveTick x : registered x → registered (mainKeepAliveTick h x).
Proof. intros Hx. unfold mainKeepAliveTick. auto_registered. Qed.

Lemma registered_queryTitleAndFavicon ws pg x :
  registered x → registered (queryTitleAndFavicon ws pg x).
Proof. intros Hx. unfold queryTitleAndFavicon. auto_registered. Qed.

Lemma registered_settle q m x : registered x → registered (settle q m x).
Proof. intros Hx. unfold settle. auto_registered. Qed.

Lemma registered_settlePending m x : registered x → registered (settlePending m x).
Proof.
  intros Hx. unfold settlePending.
  destruct (msg_id m) as [id|]; [|done].
  destruct (pendingRequests x !! id) as [q|]; [|done].
  apply registered_settle. rchain.
Qed.

Lemma registered_runListener ws m l x : registered x → registered (runListener h ws m x l).
Proof.
  intros Hx. unfold runListener. destruct l as [i [id q|a b pg]]; simpl.
  - destruct (bool_decide _); [|done]. apply registered_settle. rchain.
  - rchain.
Qed.

Lemma registered_foldl {A} (f : State → A → State) l x :
  registered x → (∀ y a, registered y → registered (f y a)) → registered (foldl f x l).
Proof.
  intros Hx Hf. revert x Hx. induction l as [|a l IH]; intros x Hx; simpl; [done|].
  by apply IH, Hf.
Qed.

Lemma registered_runListeners ws data rs x :
  registered x → registered (runListeners h ws data rs x).
Proof.
  intros Hx. unfold runListeners. destruct data as [m|]; [|done].
  apply registered_foldl; [done|]. intros y l Hy. rchain. by apply registered_runListener.
Qed.

Lemma registered_connect pg x : registered x → registered (connect h pg x).
Proof. intros Hx. unfold connect. auto_registered. Qed.

Lemma registered_control_onopen ws x : registered x → registered (control_onopen ws x).
Proof. intros Hx. unfold control_onopen. auto_registered. Qed.

Lemma registered_control_onclose pg c x :
  registered x → registered (control_onclose h pg c x).
Proof. intros Hx. unfold control_onclose. auto_registered. Qed.

Lemma registered_control_onmessage data x :
  registered x → registered (control_onmessage h data x).
Proof.
  intros Hx. unfold control_onmessage. destruct data as [m|]; [|done].
  assert (H1 : registered (settlePending m x)) by by apply registered_settlePending.
  auto_registered.
Qed.

Lemma registered_send m a x : registered x → registered (send m a x).
Proof. intros Hx. unfold send. auto_registered. Qed.

Lemma registered_sendTimedOut id q m x : registered x → registered (sendTimedOut id q m x).
Proof. intros Hx. unfold sendTimedOut. auto_registered. Qed.

Lemma registered_connectToPage pg x : registered x → registered (connectToPage h pg x).
Proof. intros Hx. unfold connectToPage. auto_registered. Qed.

Lemma registered_sendLocal ws m a x : registered x → registered (sendLocal ws m a x).
Proof. intros Hx. unfold sendLocal. auto_registered. Qed.

Lemma registered_executeCommand ws q m a x :
  registered x → registered (executeCommand ws q m a x).
Proof. intros Hx. unfold executeCommand. auto_registered. Qed.

Lemma registered_pageCommandTimedOut ws l q m x :
  registered x → registered (pageCommandTimedOut ws l q m x).
Proof. intros Hx. unfold pageCommandTimedOut. auto_registered. Qed.

Lemma registered_page_onopen pg ws x : registered x → registered (page_onopen pg ws x).
Proof.
  intros Hx. unfold page_onopen.
  by apply registered_sendLocal, registered_sendLocal, registered_sendLocal,
    registered_setupKeepAlive.
Qed.

Lemma registered_page_onclose pg c x : registered x → registered (page_onclose h pg c x).
Proof. intros Hx. unfold page_onclose. cbv zeta. rchain. Qed.

Lemma registered_navigationEnrichment ws pg x :
  registered x → registered (navigationEnrichment ws pg x).
Proof.
  intros Hx. unfold navigationEnrichment.
  destruct (is_open ws x); [by apply registered_queryTitleAndFavicon|done].
Qed.

Ltac rstep_let :=
  lazymatch goal with
  | |- registered (let y := ?v in @?b y) =>
      let H := fresh "H" in
      assert (H : registered v);
      [ | let y' := fresh "y" in
          set (y' := v) in *; clearbody y';
          change (registered (b y')); cbv beta ]
  end.

Lemma registered_page_onmessage ws pg now rnd data x :
  registered x → registered (page_onmessage h ws pg now rnd data x).
Proof.
  intros Hx. destruct data as [m|]; [|done].
  cbv beta iota delta [page_onmessage].
  rstep_let; [by apply registered_settlePending|].
  rstep_let; [rchain|].
  rstep_let; [rchain; by apply registered_queryTitleAndFavicon|].
  auto_registered.
Qed.

Lemma registered_ensurePageConnections pgs x :
  registered x → registered (ensurePageConnections h pgs x).
Proof.
  intros Hx. unfold ensurePageConnections.
  destruct (negb (has_session h)); [done|].
  apply registered_foldl.
  - apply registered_foldl; [done|]. intros y a Hy. cbv zeta. rchain.
    all: apply registered_connectToPage; rchain.
  - intros y a Hy. cbv zeta. rchain.
Qed.

Lemma timers_cleared l x i v :
  timers (foldl (λ s interval, clearTimer interval s) x l) !! i = Some v →
  timers x !! i = Some v ∧ i ∉ l.
Proof.
  revert x. induction l as [|j l IH]; intros x; simpl.
  - intros Hi. split; [done|]. apply not_elem_of_nil.
  - intros Hi. apply IH in Hi as [Hi Hl]. simpl in Hi.
    apply lookup_delete_Some in Hi as [Hne Hi]. split; [done|].
    apply not_elem_of_cons. by split.
Qed.

Lemma timers_closed l x :
  timers (foldl (λ s ws, close ws s) x l) = timers x.
Proof.
  revert x. induction l as [|ws l IH]; intros x; simpl; [done|].
  rewrite IH. unfold close. by destruct (open_or_connecting ws x).
Qed.

Lemma disconnect_no_keepalive x : registered x → no_keepalive (disconnect x).
Proof.
  intros Hx i d a Hi. unfold disconnect in Hi. cbv zeta in Hi.
  set (x1 := foldl (λ s interval, clearTimer interval s) x _) in *.
  assert (Ht : timers (disconnect x) = timers x1).
  { unfold disconnect. cbv zeta. fold x1.
    set (x2 := foldl (λ s ws, close ws s) _ _).
    assert (H2 : timers x2 = timers x1) by (unfold x2; by rewrite timers_closed).
    clearbody x2. destruct (wsRef (set_pageSessions ∅ x2)) as [ws|]; simpl; [|done].
    unfold close. by destruct (open_or_connecting _ _). }
  assert (Hi1 : timers x1 !! i = Some (d, a)).
  { rewrite <- Ht. unfold disconnect. cbv zeta. exact Hi. }
  apply timers_cleared in Hi1 as [Hi0 Hnot].
  destruct a; try done. exfalso. apply Hnot.
  pose proof (Hx _ _ _ _ Hi0) as Hreg.
  apply list_elem_of_In, in_map_iff. exists (pageId, i). split; [done|].
  apply list_elem_of_In, elem_of_map_to_list. exact Hreg.
Qed.

Lemma no_keepalive_registered x : no_keepalive x → registered x.
Proof. intros Hx i d pg ws Hi. by pose proof (Hx _ _ _ Hi). Qed.

Lemma registered_disconnect x : registered x → registered (disconnect x).
Proof. intros Hx. by apply no_keepalive_registered, disconnect_no_keepalive. Qed.

Lemma registered_reconnectKnownPages x :
  registered x → registered (reconnectKnownPages h x).
Proof.
  intros Hx. unfold reconnectKnownPages.
  destruct (negb (has_session h)); [done|].
  apply registered_foldl; [done|]. intros y a Hy. rchain.
  all: by apply registered_connectToPage.
Qed.

Lemma registered_sendWhenOpen q tg m a x :
  registered x → registered (sendWhenOpen h q tg m a x).
Proof.
  intros Hx. unfold sendWhenOpen. cbv zeta.
  assert (H1 : registered (connectToPage h tg x)) by by apply registered_connectToPage.
  set (x1 := connectToPage h tg x) in *. clearbody x1. rchain.
Qed.

Lemma registered_sendToPage tg m a x : registered x → registered (sendToPage h tg m a x).
Proof.
  intros Hx. unfold sendToPage. cbv beta iota zeta delta [fresh]. rchain.
  all: first [apply registered_sendWhenOpen | apply registered_executeCommand]; rchain.
Qed.

Lemma registered_closeTarget tg x : registered x → registered (closeTarget tg x).
Proof.
  intros Hx. unfold closeTarget. cbv zeta. apply registered_send. rchain.
Qed.

Lemma registered_createTargetResolved tg x :
  registered x → registered (createTargetResolved tg x).
Proof. intros Hx. unfold createTargetResolved. rchain. Qed.

Lemma registered_wsOpen ws x : registered x → registered (wsOpen ws x).
Proof.
  intros Hx. unfold wsOpen. destruct (sockets x !! ws) as [w|]; [|done].
  destruct (readyState w); try done.
  destruct (role w); cbv zeta; [apply registered_control_onopen; rchain|].
  apply registered_foldl.
  - rchain. apply registered_page_onopen. rchain.
  - intros y q Hy. by apply registered_executeCommand.
Qed.

Lemma registered_wsClose ws c x : registered x → registered (wsClose h ws c x).
Proof.
  intros Hx. unfold wsClose. destruct (sockets x !! ws) as [w|]; [|done].
  destruct (readyState w); try done; destruct (role w); cbv zeta;
    first [apply registered_control_onclose | apply registered_page_onclose]; rchain.
Qed.

Lemma registered_wsError ws x : registered x → registered (wsError ws x).
Proof.
  intros Hx. unfold wsError. destruct (sockets x !! ws) as [w|]; [|done].
  destruct (role w); cbv zeta; [unfold control_onerror; rchain|].
  apply registered_foldl; [rchain|]. intros y q Hy. rchain.
Qed.

Lemma registered_wsMessage ws now rnd data x :
  registered x → registered (wsMessage h ws now rnd data x).
Proof.
  intros Hx. unfold wsMessage. destruct (sockets x !! ws) as [w|]; [|done].
  destruct (readyState w); try done; cbv zeta;
    apply registered_runListeners;
    destruct (role w);
    first [by apply registered_control_onmessage | by apply registered_page_onmessage].
Qed.

Lemma registered_handleScreencastMessage now rnd msg x :
  registered x → registered (handleScreencastMessage h now rnd msg x).
Proof.
  intros Hx. unfold handleScreencastMessage. rchain.
  by apply registered_queryTitleAndFavicon.
Qed.

Lemma registered_timerFired i x : registered x → registered (timerFired i x).
Proof.
  intros Hx. unfold timerFired. destruct (timers x !! i) as [[d a]|]; [|done].
  cbv zeta.
  assert (H1 : registered (if is_interval a then x else clearTimer i x)) by rchain.
  set (x1 := if is_interval a then x else clearTimer i x) in *. clearbody x1.
  destruct a.
  - by apply registered_sendTimedOut.
  - by apply registered_pageCommandTimedOut.
  - rchain.
  - by apply registered_navigationEnrichment.
  - by apply registered_keepAliveTick.
Qed.

Lemma registered_step s e : registered s → registered (step h s e).
Proof.
  intros Hs. destruct e; simpl.
  - by apply registered_connect.
  - by apply registered_connectToPage.
  - by apply registered_ensurePageConnections.
  - by apply registered_reconnectKnownPages.
  - by apply registered_disconnect.
  - by apply registered_send.
  - by apply registered_sendToPage.
  - by apply registered_closeTarget.
  - by apply registered_createTargetResolved.
  - by apply registered_wsOpen.
  - by apply registered_wsMessage.
  - by apply registered_wsClose.
  - by apply registered_wsError.
  - by apply registered_timerFired.
  - by apply registered_mainKeepAliveTick.
  - by apply registered_handleScreencastMessage.
  - rchain.
  - rchain.
  - rchain.
  - rchain.
Qed.

Lemma registered_run s es : registered s → registered (run h s es).
Proof.
  revert s. induction es as [|e es IH]; intros s Hs; [done|].
  simpl. by apply IH, registered_step.
Qed.

End KeepAlive.

(** X12 — Keep-alive intervals are never orphaned.  At any time every
    armed keep-alive interval is the one registered for its page, so a
    page has at most one; and after [disconnect] no keep-alive interval is
    armed at all, whatever happened before. *)
Theorem keepalive_intervals_accounted (h : Hook) (es : list Event) :
  let s := run h init es in
  (∀ i d pg ws, timers s !! i = Some (d, KeepAliveInterval pg ws) →
                keepAliveIntervals s !! pg = Some i)
  ∧ (∀ i j d d' pg ws ws',
       timers s !! i = Some (d, KeepAliveInterval pg ws) →
       timers s !! j = Some (d', KeepAliveInterval pg ws') → i = j)
  ∧ (∀ i d a, timers (step h s Disconnect) !! i = Some (d, a) → is_interval a = false).
Proof.
  cbv zeta.
  assert (Hreg : registered (run h init es)).
  { apply registered_run. intros i d pg ws. simpl. by rewrite lookup_empty. }
  split_and!.
  - exact Hreg.
  - intros i j d d' pg ws ws' Hi Hj.
    pose proof (Hreg _ _ _ _ Hi). pose proof (Hreg _ _ _ _ Hj). congruence.
  - by apply disconnect_no_keepalive.
Qed.

(** A page that goes through two connections ends with the one interval
    of the second. *)
Example keepalive_replaced :
  let s := run recorder init
             [ConnectToPage "p1"; WsOpen 0; WsClose 0 1006; ConnectToPage "p1"; WsOpen 2] in
  map_to_list (timers s) = [(3%nat, (2000, KeepAliveInterval "p1" 2))]
  ∧ map_to_list (timers (step recorder s Disconnect)) = [].
Proof. vm_compute. done. Qed.

(** ** Without a session the hook does nothing *)

Lemma inert_same s s' :
  inert s → sockets s' = sockets s → timers s' = timers s →
  pendingRequests s' = pendingRequests s → keepAliveIntervals s' = keepAliveIntervals s →
  pageSessions s' = pageSessions s → wsRef s' = wsRef s →
  messageIdRef s' = messageIdRef s → trace s' = trace s → inert s'.
Proof.
  intros [H1 H2 H3 H4 H5 H6 H7 H8] E1 E2 E3 E4 E5 E6 E7 E8.
  split; congruence.
Qed.

Lemma inert_reject q reason s s' :
  inert s → sockets s' = sockets s → timers s' = timers s →
  pendingRequests s' = pendingRequests s → keepAliveIntervals s' = keepAliveIntervals s →
  pageSessions s' = pageSessions s → wsRef s' = wsRef s →
  messageIdRef s' = messageIdRef s → trace s' = trace s ++ [Reject q reason] → inert s'.
Proof.
  intros [H1 H2 H3 H4 H5 H6 H7 H8] E1 E2 E3 E4 E5 E6 E7 E8.
  split; try congruence. rewrite E8. apply Forall_app. split; [done|].
  by apply Forall_singleton.
Qed.

Lemma inert_send m a s : inert s → inert (send m a s).
Proof.
  intros Hs. pose proof Hs as [H1 H2 H3 H4 H5 H6 H7 H8].
  unfold send. simpl. rewrite H6. by eapply inert_reject.
Qed.

Lemma inert_step h s e : has_session h = false → inert s → inert (step h s e).
Proof.
  intros Hh Hs. pose proof Hs as [H1 H2 H3 H4 H5 H6 H7 H8].
  destruct e; simpl.
  - unfold connect. by rewrite Hh.
  - unfold connectToPage. by rewrite Hh.
  - unfold ensurePageConnections. by rewrite Hh.
  - unfold reconnectKnownPages. by rewrite Hh.
  - unfold disconnect. rewrite H4, map_to_list_empty. simpl.
    rewrite H5, map_to_list_empty. simpl. rewrite H6. by eapply inert_same.
  - by apply inert_send.
  - unfold sendToPage. simpl. rewrite Hh. simpl. by eapply inert_reject.
  - unfold closeTarget. cbv zeta. apply inert_send. simpl.
    rewrite H4, lookup_empty. simpl. rewrite H5, lookup_empty.
    by eapply inert_same.
  - unfold createTargetResolved. destruct (truthy target); [|done]. by eapply inert_same.
  - unfold wsOpen. by rewrite H1, lookup_empty.
  - unfold wsMessage. by rewrite H1, lookup_empty.
  - unfold wsClose. by rewrite H1, lookup_empty.
  - unfold wsError. by rewrite H1, lookup_empty.
  - unfold timerFired. by rewrite H2, lookup_empty.
  - unfold mainKeepAliveTick. by rewrite Hh.
  - unfold handleScreencastMessage. by rewrite Hh.
  - by eapply inert_same.
  - by eapply inert_same.
  - by eapply inert_same.
  - by eapply inert_same.
Qed.

(** X13 — A hook without a session id does nothing on the network.
    After any sequence of calls and events no socket exists, no timer is
    armed, nothing is pending, no id was taken from the counter, and the
    trace holds nothing but rejections: every [send] and [sendToPage] was
    rejected at once. *)
Theorem no_session_no_traffic (h : Hook) (es : list Event) :
  has_session h = false →
  let s := run h init es in
  sockets s = ∅ ∧ timers s = ∅ ∧ pendingRequests s = ∅ ∧ messageIdRef s = 1
  ∧ Forall is_reject (trace s).
Proof.
  intros Hh. cbv zeta.
  enough (H : ∀ s, inert s → inert (run h s es)).
  { destruct (H init) as [H1 H2 H3 H4 H5 H6 H7 H8]; [by split|]. done. }
  induction es as [|e es IH]; intros s Hs; [done|].
  simpl. by apply IH, inert_step.
Qed.

Lemma no_session_no_traffic_witness :
  let es := [Connect "p0"; ConnectToPage "p1"; Send "Target.getTargets" "";
             SendToPage "p1" "Page.reload" ""; CloseTarget "p1"; MainKeepAliveTick;
             Disconnect] in
  has_session no_session = false
  ∧ (sockets (run no_session init es) = ∅ ∧ timers (run no_session init es) = ∅
     ∧ pendingRequests (run no_session init es) = ∅
     ∧ messageIdRef (run no_session init es) = 1
     ∧ Forall is_reject (trace (run no_session init es))).
Proof.
  cbv zeta. split; [reflexivity|].
  exact (no_session_no_traffic no_session _ eq_refl).
Defined.

(** What the trace of that run holds: three rejections. *)
Example no_session_rejections :
  trace (run no_session init
           [Connect "p0"; ConnectToPage "p1"; Send "Target.getTargets" "";
            SendToPage "p1" "Page.reload" ""; CloseTarget "p1"; MainKeepAliveTick;
            Disconnect])
  = [Reject 0 "WebSocket not connected"; Reject 1 "No session ID";
     Reject 2 "WebSocket not connected"].
Proof. vm_compute. done. Qed.

(** ** A command to a page *)

Lemma page_command_times_out_witness :
  sockets (run recorder init page_open) !! 0%nat = Some page_socket
  ∧ let s := run recorder init page_open in
    let listener := nextHandle s in
    let t := S (nextHandle s) in
    let s1 := executeCommand 0 7 "Page.reload" "" s in
    let s2 := timerFired t s1 in
    timers s1 !! t = Some (30000, PageCommandTimeout 0 listener 7 "Page.reload")
    ∧ (∃ w1, sockets s1 !! 0%nat = Some w1
             ∧ messageListeners w1
               = messageListeners page_socket
                 ++ [(listener, CommandListener (messageIdRef s) 7)])
    ∧ trace s2 = trace s1 ++ [Reject 7 ("Page CDP command timeout: " +:+ "Page.reload")]
    ∧ timers s2 !! t = None
    ∧ (∀ w2, sockets s2 !! 0%nat = Some w2 → listener ∉ (messageListeners w2).*1).
Proof.
  assert (H : sockets (run recorder init page_open) !! 0%nat = Some page_socket)
    by (vm_compute; reflexivity).
  split; [exact H|].
  exact (page_command_times_out 0 7 "Page.reload" "" page_socket
           (run recorder init page_open) H).
Defined.

(** ** No pending command is stranded *)

Section Timed.
Context (h : Hook).

Lemma timed_same x x' :
  timed x → (nextHandle x <= nextHandle x')%nat →
  pendingRequests x' = pendingRequests x → timers x' = timers x →
  keepAliveIntervals x' = keepAliveIntervals x → timed x'.
Proof.
  intros [T1 T2 T3] Hn Hp Ht Hk. split; rewrite ?Hp, ?Ht, ?Hk.
  - done.
  - intros t d a Hi. specialize (T2 _ _ _ Hi). lia.
  - intros pg i Hi. destruct (T3 _ _ Hi). split; [lia|done].
Qed.

Lemma timed_fresh_timer d a x :
  timed x → is_interval a = false →
  timed (set_timers (<[nextHandle x := (d, a)]> (timers x))
           (set_nextHandle (S (nextHandle x)) x)).
Proof.
  intros [T1 T2 T3] Ha. split; simpl.
  - intros N p Hp. destruct (T1 _ _ Hp) as (t & m & Ht). exists t, m.
    rewrite lookup_insert_ne; [done|]. specialize (T2 _ _ _ Ht). lia.
  - intros t d' a' [[<- _]|[_ Ht]]%lookup_insert_Some; [lia|].
    specialize (T2 _ _ _ Ht). lia.
  - intros pg i Hi. destruct (T3 _ _ Hi) as [Hlt Hint]. split; [lia|].
    intros d' a'. rewrite lookup_insert_ne by lia. apply Hint.
Qed.

Lemma timed_clearTimer i x :
  timed x → (timed x → ∀ d a, timers x !! i = Some (d, a) → is_send_timeout a = false) →
  timed (clearTimer i x).
Proof.
  intros Hx Hi. specialize (Hi Hx). destruct Hx as [T1 T2 T3]. split; simpl.
  - intros N p Hp. destruct (T1 _ _ Hp) as (t & m & Ht). exists t, m.
    rewrite lookup_delete_ne; [done|]. intros <-. by pose proof (Hi _ _ Ht).
  - intros t d a [_ Ht]%lookup_delete_Some. by eapply T2.
  - intros pg j Hj. destruct (T3 _ _ Hj) as [Hlt Hint]. split; [done|].
    intros d a [_ Ht]%lookup_delete_Some. by eapply Hint.
Qed.

Lemma timed_forget N x :
  timed x → timed (set_pendingRequests (delete N (pendingRequests x)) x).
Proof.
  intros [T1 T2 T3]. split; simpl; try done.
  intros N' p [_ Hp]%lookup_delete_Some. by apply T1.
Qed.

Lemma timed_unregister pg x :
  timed x → timed (set_keepAliveIntervals (delete pg (keepAliveIntervals x)) x).
Proof.
  intros [T1 T2 T3]. split; simpl; try done.
  intros pg' i [_ Hi]%lookup_delete_Some. by apply (T3 pg').
Qed.

Lemma timed_unregister_all x : timed x → timed (set_keepAliveIntervals ∅ x).
Proof.
  intros [T1 T2 T3]. split; simpl; try done.
Qed.

Lemma interval_not_timeout a : is_interval a = true → is_send_timeout a = false.
Proof. by destruct a. Qed.

Lemma timed_setupKeepAlive pg ws x : timed x → timed (setupKeepAlive pg ws x).
Proof.
  intros Hx. unfold setupKeepAlive.
  set (x1 := match keepAliveIntervals x !! pg with
             | Some existingInterval => clearTimer existingInterval x
             | None => x
             end).
  assert (H1 : timed x1 ∧ keepAliveIntervals x1 = keepAliveIntervals x).
  { unfold x1. destruct (keepAliveIntervals x !! pg) as [i0|] eqn:Hpg; [|done].
    split; [|done]. apply timed_clearTimer; [done|]. intros [_ _ T3] d a Hi.
    destruct (T3 _ _ Hpg) as [_ Hint]. by eapply interval_not_timeout, Hint. }
  destruct H1 as [[T1 T2 T3] K1]. clearbody x1.
  cbv beta iota zeta delta [setTimeout fresh fst snd]. split; simpl.
  - intros N p Hp. destruct (T1 _ _ Hp) as (t & m & Ht). exists t, m.
    rewrite lookup_insert_ne; [done|]. specialize (T2 _ _ _ Ht). lia.
  - intros t d' a' [[<- _]|[_ Ht]]%lookup_insert_Some; [lia|].
    specialize (T2 _ _ _ Ht). lia.
  - intros pg' i [[<- <-]|[Hne Hi]]%lookup_insert_Some.
    + split; [lia|]. intros d a. rewrite lookup_insert_eq. by intros [= <- <-].
    + destruct (T3 _ _ Hi) as [Hlt Hint]. split; [lia|].
      intros d a. rewrite lookup_insert_ne by lia. apply Hint.
Qed.

Lemma timed_send m a x : timed x → timed (send m a x).
Proof.
  intros [T1 T2 T3]. unfold send. simpl.
  assert (Hrej : ∀ r, timed (emit r (set_nextHandle (S (nextHandle x)) x))).
  { intros r. split; simpl; [done| |].
    - intros t d a' Ht. specialize (T2 _ _ _ Ht). lia.
    - intros pg i Hi. destruct (T3 _ _ Hi). split; [lia|done]. }
  destruct (wsRef x) as [ws|]; [|apply Hrej].
  destruct (is_open ws _); [|apply Hrej].
  split; simpl.
  - intros N p [[<- <-]|[Hne Hp]]%lookup_insert_Some.
    + eexists _, _. apply lookup_insert_eq.
    + destruct (T1 _ _ Hp) as (t & m' & Ht). exists t, m'.
      rewrite lookup_insert_ne; [done|]. specialize (T2 _ _ _ Ht). lia.
  - intros t d a' [[<- _]|[_ Ht]]%lookup_insert_Some; [lia|].
    specialize (T2 _ _ _ Ht). lia.
  - intros pg i Hi. destruct (T3 _ _ Hi) as [Hlt Hint]. split; [lia|].
    intros d a'. rewrite lookup_insert_ne by lia. apply Hint.
Qed.

(** Projections of a state that was built by setters. *)
Ltac fields :=
  lazy beta iota zeta delta
    [pendingRequests timers keepAliveIntervals nextHandle
     set_messageIdRef set_pendingRequests set_wsRef set_currentPageIdRef
     set_pageSessions set_keepAliveIntervals set_knownPageIds set_state set_sockets
     set_timers set_nextHandle set_synth set_trace
     emit clearTimer setState update_socket removeEventListener].

Ltac tsame := lazymatch goal with
  | |- timed (?f _ ?x) => apply (timed_same x); [|fields; lia|fields; reflexivity..]
  | |- timed (?f _ _ ?x) => apply (timed_same x); [|fields; lia|fields; reflexivity..]
  end.

Lemma timed_close ws x : timed x → timed (close ws x).
Proof.
  intros Hx. unfold close. destruct (open_or_connecting ws x); [|done]. by tsame.
Qed.

(** The interval registered for a page is no timeout of a command. *)
Ltac registered_interval :=
  let T := fresh "T" in
  intros T; intros ? ? ?;
  match goal with
  | E : keepAliveIntervals _ !! ?pg = Some _ |- _ =>
      destruct (timed_keepalive _ T pg _ E) as [_ ?];
      eapply interval_not_timeout; eauto
  end.

Ltac tchain :=
  lazymatch goal with
  | H : timed ?x |- timed ?x => exact H
  | |- timed (set_timers (<[nextHandle ?x := (?d, ?a)]> _) (set_nextHandle _ ?x)) =>
      apply (timed_fresh_timer d a x); [tchain|reflexivity]
  | |- timed (set_keepAliveIntervals (delete ?pg _) ?x) =>
      apply (timed_unregister pg x); tchain
  | |- timed (set_keepAliveIntervals ∅ _) => apply timed_unregister_all; tchain
  | |- timed (set_pendingRequests (delete ?N _) ?x) => apply (timed_forget N x); tchain
  | |- timed (clearTimer _ _) => apply timed_clearTimer; [tchain|try registered_interval]
  | |- timed (setupKeepAlive _ _ _) => apply timed_setupKeepAlive; tchain
  | |- timed (send _ _ _) => apply timed_send; tchain
  | |- timed (close _ _) => apply timed_close; tchain
  | |- timed (emit _ _) => tsame; tchain
  | |- timed (call_if _ _ _) => unfold call_if; tchain
  | |- timed (set_wsRef _ _) => tsame; tchain
  | |- timed (set_currentPageIdRef _ _) => tsame; tchain
  | |- timed (set_pageSessions _ _) => tsame; tchain
  | |- timed (set_knownPageIds _ _) => tsame; tchain
  | |- timed (set_state _ _) => tsame; tchain
  | |- timed (setState _ _ _) => tsame; tchain
  | |- timed (set_synth _ _) => tsame; tchain
  | |- timed (set_nextHandle _ _) => tsame; tchain
  | |- timed (set_messageIdRef _ _) => tsame; tchain
  | |- timed (update_socket _ _ _) => tsame; tchain
  | |- timed (removeEventListener _ _ _) => tsame; tchain
  | |- timed (set_sockets _ _) => tsame; tchain
  | |- timed (if ?b then _ else _) => destruct b eqn:?; tchain
  | |- timed (match ?o with _ => _ end) => destruct o eqn:?; tchain
  | _ => idtac
  end.

Ltac open_handler :=
  cbv beta iota zeta delta
    [fresh next_id setTimeout addEventListener new_socket fst snd].

Ltac auto_timed := open_handler; tchain.

Lemma timed_keepAliveTick ws x : timed x → timed (keepAliveTick ws x).
Proof. intros Hx. unfold keepAliveTick. auto_timed. Qed.

Lemma timed_mainKeepAliveTick x : timed x → timed (mainKeepAliveTick h x).
Proof. intros Hx. unfold mainKeepAliveTick. auto_timed. Qed.

Lemma timed_queryTitleAndFavicon ws pg x : timed x → timed (queryTitleAndFavicon ws pg x).
Proof. intros Hx. unfold queryTitleAndFavicon. auto_timed. Qed.

Lemma timed_settle q m x : timed x → timed (settle q m x).
Proof. intros Hx. unfold settle. auto_timed. Qed.

Lemma timed_settlePending m x : timed x → timed (settlePending m x).
Proof.
  intros Hx. unfold settlePending.
  destruct (msg_id m) as [id|]; [|done].
  destruct (pendingRequests x !! id) as [q|]; [|done].
  apply timed_settle. tchain.
Qed.

Lemma timed_runListener ws m l x : timed x → timed (runListener h ws m x l).
Proof.
  intros Hx. unfold runListener. destruct l as [i [id q|a b pg]]; simpl.
  - destruct (bool_decide _); [|done]. apply timed_settle. tchain.
  - tchain.
Qed.

Lemma timed_foldl {A} (f : State → A → State) l x :
  timed x → (∀ y a, timed y → timed (f y a)) → timed (foldl f x l).
Proof.
  intros Hx Hf. revert x Hx. induction l as [|a l IH]; intros x Hx; simpl; [done|].
  by apply IH, Hf.
Qed.

Lemma timed_runListeners ws data rs x : timed x → timed (runListeners h ws data rs x).
Proof.
  intros Hx. unfold runListeners. destruct data as [m|]; [|done].
  apply timed_foldl; [done|]. intros y l Hy. tchain. by apply timed_runListener.
Qed.

Lemma timed_connect pg x : timed x → timed (connect h pg x).
Proof. intros Hx. unfold connect. auto_timed. Qed.

Lemma timed_control_onopen ws x : timed x → timed (control_onopen ws x).
Proof. intros Hx. unfold control_onopen. auto_timed. Qed.

Lemma timed_control_onclose pg c x : timed x → timed (control_onclose h pg c x).
Proof. intros Hx. unfold control_onclose. auto_timed. Qed.

Lemma timed_control_onmessage data x : timed x → timed (control_onmessage h data x).
Proof.
  intros Hx. unfold control_onmessage. destruct data as [m|]; [|done].
  assert (H1 : timed (settlePending m x)) by by apply timed_settlePending.
  auto_timed.
Qed.

Lemma timed_connectToPage pg x : timed x → timed (connectToPage h pg x).
Proof. intros Hx. unfold connectToPage. auto_timed. Qed.

Lemma timed_sendLocal ws m a x : timed x → timed (sendLocal ws m a x).
Proof. intros Hx. unfold sendLocal. auto_timed. Qed.

Lemma timed_executeCommand ws q m a x : timed x → timed (executeCommand ws q m a x).
Proof. intros Hx. unfold executeCommand. auto_timed. Qed.

Lemma timed_pageCommandTimedOut ws l q m x :
  timed x → timed (pageCommandTimedOut ws l q m x).
Proof. intros Hx. unfold pageCommandTimedOut. auto_timed. Qed.

Lemma timed_page_onopen pg ws x : timed x → timed (page_onopen pg ws x).
Proof.
  intros Hx. unfold page_onopen.
  by apply timed_sendLocal, timed_sendLocal, timed_sendLocal, timed_setupKeepAlive.
Qed.

Lemma timed_page_onclose pg c x : timed x → timed (page_onclose h pg c x).
Proof. intros Hx. unfold page_onclose. cbv zeta. tchain. Qed.

Lemma timed_navigationEnrichment ws pg x : timed x → timed (navigationEnrichment ws pg x).
Proof.
  intros Hx. unfold navigationEnrichment.
  destruct (is_open ws x); [by apply timed_queryTitleAndFavicon|done].
Qed.

Ltac tstep_let :=
  lazymatch goal with
  | |- timed (let y := ?v in @?b y) =>
      let H := fresh "H" in
      assert (H : timed v);
      [ | let y' := fresh "y" in
          set (y' := v) in *; clearbody y';
          change (timed (b y')); cbv beta ]
  end.

Lemma timed_page_onmessage ws pg now rnd data x :
  timed x → timed (page_onmessage h ws pg now rnd data x).
Proof.
  intros Hx. destruct data as [m|]; [|done].
  cbv beta iota delta [page_onmessage].
  tstep_let; [by apply timed_settlePending|].
  tstep_let; [tchain|].
  tstep_let; [tchain; by apply timed_queryTitleAndFavicon|].
  auto_timed.
Qed.

Lemma timed_ensurePageConnections pgs x : timed x → timed (ensurePageConnections h pgs x).
Proof.
  intros Hx. unfold ensurePageConnections.
  destruct (negb (has_session h)); [done|].
  apply timed_foldl.
  - apply timed_foldl; [done|]. intros y a Hy. cbv zeta. tchain.
    all: apply timed_connectToPage; tchain.
  - intros y a Hy. cbv zeta. tchain.
Qed.

Lemma timed_clear_intervals l x :
  timed x → (∀ i, i ∈ l → ∃ pg, keepAliveIntervals x !! pg = Some i) →
  timed (foldl (λ s interval, clearTimer interval s) x l).
Proof.
  revert x. induction l as [|i l IH]; intros x Hx Hl; simpl; [done|].
  apply IH.
  - apply timed_clearTimer; [done|]. intros [_ _ T3] d a Hi.
    destruct (Hl i) as [pg Hpg]; [by left|].
    destruct (T3 _ _ Hpg) as [_ Hint]. by eapply interval_not_timeout, Hint.
  - intros j Hj. simpl. apply Hl. by right.
Qed.

Lemma timed_disconnect x : timed x → timed (disconnect x).
Proof.
  intros Hx. unfold disconnect. cbv zeta.
  assert (H1 : timed
    (foldl (λ s interval, clearTimer interval s) x
       (map snd (map_to_list (keepAliveIntervals x))))).
  { apply timed_clear_intervals; [done|]. intros i Hi.
    apply list_elem_of_In, in_map_iff in Hi as ([pg i'] & <- & Hin).
    exists pg. by apply list_elem_of_In, elem_of_map_to_list in Hin. }
  set (x1 := foldl (λ s interval, clearTimer interval s) x _) in *. clearbody x1.
  assert (H2 : timed
    (foldl (λ s ws, close ws s) (set_keepAliveIntervals ∅ x1)
       (map snd (map_to_list (pageSessions (set_keepAliveIntervals ∅ x1)))))).
  { apply timed_foldl; [tchain|]. intros y a Hy. tchain. }
  set (x2 := foldl (λ s ws, close ws s) _ _) in *. clearbody x2.
  tchain.
Qed.

Lemma timed_reconnectKnownPages x : timed x → timed (reconnectKnownPages h x).
Proof.
  intros Hx. unfold reconnectKnownPages.
  destruct (negb (has_session h)); [done|].
  apply timed_foldl; [done|]. intros y a Hy. tchain.
  all: by apply timed_connectToPage.
Qed.

Lemma timed_sendWhenOpen q tg m a x : timed x → timed (sendWhenOpen h q tg m a x).
Proof.
  intros Hx. unfold sendWhenOpen. cbv zeta.
  assert (H1 : timed (connectToPage h tg x)) by by apply timed_connectToPage.
  set (x1 := connectToPage h tg x) in *. clearbody x1. tchain.
Qed.

Lemma timed_sendToPage tg m a x : timed x → timed (sendToPage h tg m a x).
Proof.
  intros Hx. unfold sendToPage. cbv beta iota zeta delta [fresh]. tchain.
  all: first [apply timed_sendWhenOpen | apply timed_executeCommand]; tchain.
Qed.

Lemma timed_closeTarget tg x : timed x → timed (closeTarget tg x).
Proof. intros Hx. unfold closeTarget. cbv zeta. tchain. Qed.

Lemma timed_createTargetResolved tg x : timed x → timed (createTargetResolved tg x).
Proof. intros Hx. unfold createTargetResolved. tchain. Qed.

Lemma timed_wsOpen ws x : timed x → timed (wsOpen ws x).
Proof.
  intros Hx. unfold wsOpen. destruct (sockets x !! ws) as [w|]; [|done].
  destruct (readyState w); try done.
  destruct (role w); cbv zeta; [apply timed_control_onopen; tchain|].
  apply timed_foldl.
  - tchain. apply timed_page_onopen. tchain.
  - intros y q Hy. by apply timed_executeCommand.
Qed.

Lemma timed_wsClose ws c x : timed x → timed (wsClose h ws c x).
Proof.
  intros Hx. unfold wsClose. destruct (sockets x !! ws) as [w|]; [|done].
  destruct (readyState w); try done; destruct (role w); cbv zeta;
    first [apply timed_control_onclose | apply timed_page_onclose]; tchain.
Qed.

Lemma timed_wsError ws x : timed x → timed (wsError ws x).
Proof.
  intros Hx. unfold wsError. destruct (sockets x !! ws) as [w|]; [|done].
  destruct (role w); cbv zeta; [unfold control_onerror; tchain|].
  apply timed_foldl; [tchain|]. intros y q Hy. tchain.
Qed.

Lemma timed_wsMessage ws now rnd data x : timed x → timed (wsMessage h ws now rnd data x).
Proof.
  intros Hx. unfold wsMessage. destruct (sockets x !! ws) as [w|]; [|done].
  destruct (readyState w); try done; cbv zeta;
    apply timed_runListeners;
    destruct (role w);
    first [by apply timed_control_onmessage | by apply timed_page_onmessage].
Qed.

Lemma timed_handleScreencastMessage now rnd msg x :
  timed x → timed (handleScreencastMessage h now rnd msg x).
Proof.
  intros Hx. unfold handleScreencastMessage. tchain.
  by apply timed_queryTitleAndFavicon.
Qed.

(** The timeout of a command takes the entry of that command with it. *)
Lemma timed_send_timeout i d id q m x :
  timed x → timers x !! i = Some (d, SendTimeout id q m) →
  timed (sendTimedOut id q m (clearTimer i x)).
Proof.
  intros [T1 T2 T3] Hi.
  assert (Hothers : ∀ N p, N ≠ id → pendingRequests x !! N = Some p →
                    ∃ t meth, delete i (timers x) !! t = Some (30000, SendTimeout N p meth)).
  { intros N p Hne Hp. destruct (T1 _ _ Hp) as (t & m' & Ht). exists t, m'.
    rewrite lookup_delete_ne; [done|]. intros <-. congruence. }
  assert (Hkeys : ∀ t d' a, delete i (timers x) !! t = Some (d', a) → (t < nextHandle x)%nat).
  { intros t d' a [_ Ht]%lookup_delete_Some. by eapply T2. }
  assert (Hka : ∀ pg j, keepAliveIntervals x !! pg = Some j →
                (j < nextHandle x)%nat
                ∧ ∀ d' a, delete i (timers x) !! j = Some (d', a) → is_interval a = true).
  { intros pg j Hj. destruct (T3 _ _ Hj) as [Hlt Hint]. split; [done|].
    intros d' a [_ Ht]%lookup_delete_Some. by eapply Hint. }
  unfold sendTimedOut. simpl.
  destruct (pendingRequests x !! id) as [q'|] eqn:Hid.
  - split; simpl; try done.
    intros N p [Hne Hp]%lookup_delete_Some. by apply Hothers.
  - split; simpl; try done.
    intros N p Hp. apply Hothers; [|done]. intros ->. congruence.
Qed.

Lemma timed_timerFired i x : timed x → timed (timerFired i x).
Proof.
  intros Hx. unfold timerFired. destruct (timers x !! i) as [[d a]|] eqn:Hi; [|done].
  cbv zeta.
  assert (Hclear : is_send_timeout a = false → timed (clearTimer i x)).
  { intros Ha. apply timed_clearTimer; [done|]. intros _ d' a' Hi'. congruence. }
  destruct a; simpl.
  - by eapply timed_send_timeout.
  - apply timed_pageCommandTimedOut. by apply Hclear.
  - specialize (Hclear eq_refl). tchain.
  - apply timed_navigationEnrichment. by apply Hclear.
  - by apply timed_keepAliveTick.
Qed.

Lemma timed_step s e : timed s → timed (step h s e).
Proof.
  intros Hs. destruct e; simpl.
  - by apply timed_connect.
  - by apply timed_connectToPage.
  - by apply timed_ensurePageConnections.
  - by apply timed_reconnectKnownPages.
  - by apply timed_disconnect.
  - by apply timed_send.
  - by apply timed_sendToPage.
  - by apply timed_closeTarget.
  - by apply timed_createTargetResolved.
  - by apply timed_wsOpen.
  - by apply timed_wsMessage.
  - by apply timed_wsClose.
  - by apply timed_wsError.
  - by apply timed_timerFired.
  - by apply timed_mainKeepAliveTick.
  - by apply timed_handleScreencastMessage.
  - tchain.
  - tchain.
  - tchain.
  - tchain.
Qed.

Lemma timed_run s es : timed s → timed (run h s es).
Proof.
  revert s. induction es as [|e es IH]; intros s Hs; [done|].
  simpl. by apply IH, timed_step.
Qed.

End Timed.

(** X16 — No pending command is stranded: at any time every entry of the
    pending map has the 30 s timer of its [send] armed, with its id and
    its promise, so the entry goes when the timer comes due if no response
    took it before. *)
Theorem pending_entries_have_timers (h : Hook) (es : list Event) (N : Z) (p : nat) :
  let s := run h init es in
  pendingRequests s !! N = Some p →
  ∃ t meth, timers s !! t = Some (30000, SendTimeout N p meth)
            ∧ pendingRequests (step h s (TimerFired t)) !! N = None.
Proof.
  cbv zeta. intros Hp.
  assert (Ht : timed (run h init es)).
  { apply timed_run. split; simpl; intros *; by rewrite lookup_empty. }
  destruct (timed_pending _ Ht _ _ Hp) as (t & meth & Htimer).
  exists t, meth. split; [done|]. simpl. unfold timerFired. rewrite Htimer. simpl.
  unfold sendTimedOut. simpl. rewrite Hp. simpl. apply lookup_delete_eq.
Qed.

Lemma pending_entries_have_timers_witness :
  pendingRequests (run recorder init (connected ++ [Send "Target.getTargets" ""]
                                      ++ interleaved)) !! 2 = Some 1%nat
  ∧ ∃ t meth,
      timers (run recorder init (connected ++ [Send "Target.getTargets" ""]
                                 ++ interleaved)) !! t
      = Some (30000, SendTimeout 2 1 meth)
      ∧ pendingRequests
          (step recorder (run recorder init (connected ++ [Send "Target.getTargets" ""]
                                             ++ interleaved)) (TimerFired t)) !! 2
        = None.
Proof.
  assert (H : pendingRequests (run recorder init (connected ++ [Send "Target.getTargets" ""]
                                                  ++ interleaved)) !! 2 = Some 1%nat)
    by (vm_compute; reflexivity).
  split; [exact H|].
  exact (pending_entries_have_timers recorder _ 2 1 H).
Defined.

(** ** The pages that stay connected *)

Section Paged.
Context (h : Hook).

Lemma paged_same x x' :
  paged x → (nextHandle x <= nextHandle x')%nat →
  pageSessions x' = pageSessions x → sockets x' = sockets x →
  knownPageIds x' = knownPageIds x → paged x'.
Proof.
  intros [P1 P2 P3] Hn Hp Hs Hk. split; rewrite ?Hp, ?Hs, ?Hk; [done| |done].
  intros ws w Hw. specialize (P2 _ _ Hw). lia.
Qed.

Lemma paged_update_socket ws f x :
  paged x → (∀ w, page (f w) = page w) → paged (update_socket ws f x).
Proof.
  intros [P1 P2 P3] Hf. split; simpl; [| |done].
  - intros pg ws' Hpg. destruct (P1 _ _ Hpg) as (w & Hw & Hpage).
    destruct (decide (ws' = ws)) as [->|Hne].
    + exists (f w). rewrite lookup_alter_eq, Hw. simpl. by rewrite Hf.
    + exists w. by rewrite lookup_alter_ne.
  - intros ws' w [[-> (w0 & Hw0 & _)]|[_ Hw]]%lookup_alter_Some; by eapply P2.
Qed.

Lemma paged_fresh_socket w x :
  paged x →
  paged (set_sockets (<[nextHandle x := w]> (sockets x)) (set_nextHandle (S (nextHandle x)) x)).
Proof.
  intros [P1 P2 P3]. split; simpl; [| |done].
  - intros pg ws Hpg. destruct (P1 _ _ Hpg) as (w' & Hw' & Hpage). exists w'.
    rewrite lookup_insert_ne; [done|]. specialize (P2 _ _ Hw'). lia.
  - intros ws w' [[<- _]|[_ Hw]]%lookup_insert_Some; [lia|].
    specialize (P2 _ _ Hw). lia.
Qed.

Lemma paged_know pg x :
  paged x → paged (set_knownPageIds ({[pg]} ∪ knownPageIds x) x).
Proof.
  intros [P1 P2 P3]. split; simpl; [done|done|].
  intros pg' ws Hpg. apply elem_of_union_r. by eapply P3.
Qed.

Lemma paged_unregister pg x :
  paged x → paged (set_pageSessions (delete pg (pageSessions x)) x).
Proof.
  intros [P1 P2 P3]. split; simpl; [|done|].
  - intros pg' ws [_ Hpg]%lookup_delete_Some. by apply P1.
  - intros pg' ws [_ Hpg]%lookup_delete_Some. by eapply P3.
Qed.

Lemma paged_unregister_all x : paged x → paged (set_pageSessions ∅ x).
Proof. intros [P1 P2 P3]. split; simpl; [|done|]; intros pg ws; by rewrite lookup_empty. Qed.

(** Projections of a state that was built by setters. *)
Ltac fields :=
  lazy beta iota zeta delta
    [pageSessions sockets knownPageIds nextHandle
     set_messageIdRef set_pendingRequests set_wsRef set_currentPageIdRef
     set_pageSessions set_keepAliveIntervals set_knownPageIds set_state set_sockets
     set_timers set_nextHandle set_synth set_trace
     emit clearTimer setState update_socket].

Ltac psame := lazymatch goal with
  | |- paged (?f _ ?x) => apply (paged_same x); [|fields; lia|fields; reflexivity..]
  | |- paged (?f _ _ ?x) => apply (paged_same x); [|fields; lia|fields; reflexivity..]
  end.

Lemma paged_close ws x : paged x → paged (close ws x).
Proof.
  intros Hx. unfold close. destruct (open_or_connecting ws x); [|done].
  by apply paged_update_socket.
Qed.

(** Forgetting a page: its name leaves the known pages and its
    registration goes; sockets at most start closing. *)
Lemma paged_removed pg x y :
  paged x →
  knownPageIds y = knownPageIds x ∖ {[pg]} →
  pageSessions y = delete pg (pageSessions x) →
  nextHandle y = nextHandle x →
  (sockets y = sockets x
   ∨ ∃ ws, sockets y = alter (with_readyState CLOSING) ws (sockets x)) →
  paged y.
Proof.
  intros Hx Hk Hp Hn Hs.
  assert (Hy : paged (set_sockets (sockets y) x)).
  { destruct Hs as [->|[ws ->]].
    - by psame.
    - by apply (paged_update_socket ws (with_readyState CLOSING) x). }
  destruct Hy as [P1 P2 P3]. simpl in *. split; rewrite ?Hk, ?Hp, ?Hn.
  - intros pg' ws [_ Hpg]%lookup_delete_Some. by apply P1.
  - done.
  - intros pg' ws [Hne Hpg]%lookup_delete_Some.
    apply elem_of_difference. split; [by eapply P3|]. by intros ->%elem_of_singleton.
Qed.

Lemma close_fields ws x :
  pageSessions (close ws x) = pageSessions x
  ∧ knownPageIds (close ws x) = knownPageIds x
  ∧ nextHandle (close ws x) = nextHandle x
  ∧ keepAliveIntervals (close ws x) = keepAliveIntervals x
  ∧ (sockets (close ws x) = sockets x
     ∨ sockets (close ws x) = alter (with_readyState CLOSING) ws (sockets x)).
Proof.
  unfold close. destruct (open_or_connecting ws x); simpl; split_and!; auto.
Qed.

Lemma forget_fields pg x :
  knownPageIds (forget x pg) = knownPageIds x ∖ {[pg]}
  ∧ pageSessions (forget x pg) = delete pg (pageSessions x)
  ∧ nextHandle (forget x pg) = nextHandle x
  ∧ (sockets (forget x pg) = sockets x
     ∨ ∃ ws, pageSessions x !! pg = Some ws
             ∧ sockets (forget x pg) = alter (with_readyState CLOSING) ws (sockets x)).
Proof.
  unfold forget. cbv zeta. simpl.
  destruct (pageSessions x !! pg) as [ws|] eqn:Hpg.
  - destruct (close_fields ws (set_knownPageIds (knownPageIds x ∖ {[pg]}) x))
      as (Hp & Hk & Hn & Hi & Hs). simpl in *.
    destruct (keepAliveIntervals _ !! pg); simpl; rewrite ?Hp, ?Hk, ?Hn;
      (split_and!; [done..|]); destruct Hs as [->| ->]; eauto.
  - destruct (keepAliveIntervals _ !! pg); simpl; split_and!; auto;
      by rewrite delete_id.
Qed.

Lemma paged_forget pg x : paged x → paged (forget x pg).
Proof.
  intros Hx. destruct (forget_fields pg x) as (Hk & Hp & Hn & Hs).
  apply (paged_removed pg x); try done.
  destruct Hs as [?|(ws & _ & ?)]; eauto.
Qed.

Lemma paged_send m a x : paged x → paged (send m a x).
Proof.
  intros Hx. apply (paged_same x); [done|..]; unfold send; simpl;
    destruct (wsRef x) as [ws|]; try destruct (is_open ws _); simpl; try done; lia.
Qed.

Lemma paged_closeTarget tg x : paged x → paged (closeTarget tg x).
Proof.
  intros Hx. unfold closeTarget. cbv zeta. apply paged_send. simpl.
  destruct (keepAliveIntervals x !! tg) as [i|]; simpl;
    destruct (pageSessions x !! tg) as [ws|] eqn:Hpg; simpl.
  1, 3: match goal with
        | |- context [close ?ws ?y] =>
            destruct (close_fields ws y) as (Hp & Hk & Hn & Hi & Hs)
        end; simpl in *; apply (paged_removed tg x); simpl; rewrite ?Hp, ?Hk, ?Hn;
        try done; destruct Hs as [->| ->]; eauto.
  all: apply (paged_removed tg x); simpl; rewrite ?delete_id; auto.
Qed.

Lemma paged_connectToPage pg x : paged x → paged (connectToPage h pg x).
Proof.
  intros Hx. unfold connectToPage. destruct (negb (has_session h)); [done|].
  cbv zeta. simpl.
  destruct (match pageSessions x !! pg with
            | Some existingWs =>
                open_or_connecting existingWs (set_knownPageIds ({[pg]} ∪ knownPageIds x) x)
            | None => false
            end); [by apply paged_know|].
  destruct Hx as [P1 P2 P3]. split; simpl.
  - intros pg' ws [[<- <-]|[Hne Hpg]]%lookup_insert_Some.
    + eexists. by rewrite lookup_insert_eq.
    + destruct (P1 _ _ Hpg) as (w & Hw & Hpage). exists w.
      rewrite lookup_insert_ne; [done|]. specialize (P2 _ _ Hw). lia.
  - intros ws w [[<- _]|[_ Hw]]%lookup_insert_Some; [lia|].
    specialize (P2 _ _ Hw). lia.
  - intros pg' ws [[<- <-]|[Hne Hpg]]%lookup_insert_Some.
    + by apply elem_of_union_l, elem_of_singleton.
    + apply elem_of_union_r. by eapply P3.
Qed.

Lemma paged_setupKeepAlive pg ws x : paged x → paged (setupKeepAlive pg ws x).
Proof.
  intros Hx. apply (paged_same x); [done|..]; unfold setupKeepAlive;
    destruct (keepAliveIntervals x !! pg); simpl; try done; lia.
Qed.

Ltac pchain :=
  lazymatch goal with
  | H : paged ?x |- paged ?x => exact H
  | |- paged (set_sockets (<[nextHandle ?x := ?w]> _) (set_nextHandle _ ?x)) =>
      apply (paged_fresh_socket w x); pchain
  | |- paged (update_socket ?ws ?f ?x) =>
      apply (paged_update_socket ws f x); [pchain|intros ?; reflexivity]
  | |- paged (removeEventListener _ _ _) => unfold removeEventListener; pchain
  | |- paged (set_pageSessions (delete ?pg _) ?x) => apply (paged_unregister pg x); pchain
  | |- paged (set_pageSessions ∅ _) => apply paged_unregister_all; pchain
  | |- paged (set_knownPageIds ({[?pg]} ∪ _) ?x) => apply (paged_know pg x); pchain
  | |- paged (connectToPage _ _ _) => apply paged_connectToPage; pchain
  | |- paged (setupKeepAlive _ _ _) => apply paged_setupKeepAlive; pchain
  | |- paged (send _ _ _) => apply paged_send; pchain
  | |- paged (close _ _) => apply paged_close; pchain
  | |- paged (emit _ _) => psame; pchain
  | |- paged (call_if _ _ _) => unfold call_if; pchain
  | |- paged (clearTimer _ _) => psame; pchain
  | |- paged (set_wsRef _ _) => psame; pchain
  | |- paged (set_currentPageIdRef _ _) => psame; pchain
  | |- paged (set_keepAliveIntervals _ _) => psame; pchain
  | |- paged (set_pendingRequests _ _) => psame; pchain
  | |- paged (set_timers _ _) => psame; pchain
  | |- paged (set_state _ _) => psame; pchain
  | |- paged (setState _ _ _) => psame; pchain
  | |- paged (set_synth _ _) => psame; pchain
  | |- paged (set_nextHandle _ _) => psame; pchain
  | |- paged (set_messageIdRef _ _) => psame; pchain
  | |- paged (if ?b then _ else _) => destruct b eqn:?; pchain
  | |- paged (match ?o with _ => _ end) => destruct o eqn:?; pchain
  | _ => idtac
  end.

Ltac open_handler :=
  cbv beta iota zeta delta
    [fresh next_id setTimeout addEventListener new_socket fst snd].

Ltac auto_paged := open_handler; pchain.

Lemma paged_keepAliveTick ws x : paged x → paged (keepAliveTick ws x).
Proof. intros Hx. unfold keepAliveTick. auto_paged. Qed.

Lemma paged_mainKeepAliveTick x : paged x → paged (mainKeepAliveTick h x).
Proof. intros Hx. unfold mainKeepAliveTick. auto_paged. Qed.

Lemma paged_queryTitleAndFavicon ws pg x : paged x → paged (queryTitleAndFavicon ws pg x).
Proof. intros Hx. unfold queryTitleAndFavicon. auto_paged. Qed.

Lemma paged_settle q m x : paged x → paged (settle q m x).
Proof. intros Hx. unfold settle. auto_paged. Qed.

Lemma paged_settlePending m x : paged x → paged (settlePending m x).
Proof.
  intros Hx. unfold settlePending.
  destruct (msg_id m) as [id|]; [|done].
  destruct (pendingRequests x !! id) as [q|]; [|done].
  apply paged_settle. pchain.
Qed.

Lemma paged_runListener ws m l x : paged x → paged (runListener h ws m x l).
Proof.
  intros Hx. unfold runListener. destruct l as [i [id q|a b pg]]; simpl.
  - destruct (bool_decide _); [|done]. apply paged_settle. pchain.
  - pchain.
Qed.

Lemma paged_foldl {A} (f : State → A → State) l x :
  paged x → (∀ y a, paged y → paged (f y a)) → paged (foldl f x l).
Proof.
  intros Hx Hf. revert x Hx. induction l as [|a l IH]; intros x Hx; simpl; [done|].
  by apply IH, Hf.
Qed.

Lemma paged_runListeners ws data rs x : paged x → paged (runListeners h ws data rs x).
Proof.
  intros Hx. unfold runListeners. destruct data as [m|]; [|done].
  apply paged_foldl; [done|]. intros y l Hy. pchain. by apply paged_runListener.
Qed.

Lemma paged_connect pg x : paged x → paged (connect h pg x).
Proof. intros Hx. unfold connect. auto_paged. Qed.

Lemma paged_control_onopen ws x : paged x → paged (control_onopen ws x).
Proof. intros Hx. unfold control_onopen. auto_paged. Qed.

Lemma paged_control_onclose pg c x : paged x → paged (control_onclose h pg c x).
Proof. intros Hx. unfold control_onclose. auto_paged. Qed.

Lemma paged_control_onmessage data x : paged x → paged (control_onmessage h data x).
Proof.
  intros Hx. unfold control_onmessage. destruct data as [m|]; [|done].
  assert (H1 : paged (settlePending m x)) by by apply paged_settlePending.
  auto_paged.
Qed.

Lemma paged_sendLocal ws m a x : paged x → paged (sendLocal ws m a x).
Proof. intros Hx. unfold sendLocal. auto_paged. Qed.

Lemma paged_executeCommand ws q m a x : paged x → paged (executeCommand ws q m a x).
Proof. intros Hx. unfold executeCommand. auto_paged. Qed.

Lemma paged_pageCommandTimedOut ws l q m x :
  paged x → paged (pageCommandTimedOut ws l q m x).
Proof. intros Hx. unfold pageCommandTimedOut. auto_paged. Qed.

Lemma paged_page_onopen pg ws x : paged x → paged (page_onopen pg ws x).
Proof.
  intros Hx. unfold page_onopen.
  by apply paged_sendLocal, paged_sendLocal, paged_sendLocal, paged_setupKeepAlive.
Qed.

Lemma paged_page_onclose pg c x : paged x → paged (page_onclose h pg c x).
Proof. intros Hx. unfold page_onclose. cbv zeta. pchain. Qed.

Lemma paged_navigationEnrichment ws pg x : paged x → paged (navigationEnrichment ws pg x).
Proof.
  intros Hx. unfold navigationEnrichment.
  destruct (is_open ws x); [by apply paged_queryTitleAndFavicon|done].
Qed.

Ltac pstep_let :=
  lazymatch goal with
  | |- paged (let y := ?v in @?b y) =>
      let H := fresh "H" in
      assert (H : paged v);
      [ | let y' := fresh "y" in
          set (y' := v) in *; clearbody y';
          change (paged (b y')); cbv beta ]
  end.

Lemma paged_page_onmessage ws pg now rnd data x :
  paged x → paged (page_onmessage h ws pg now rnd data x).
Proof.
  intros Hx. destruct data as [m|]; [|done].
  cbv beta iota delta [page_onmessage].
  pstep_let; [by apply paged_settlePending|].
  pstep_let; [pchain|].
  pstep_let; [pchain; by apply paged_queryTitleAndFavicon|].
  auto_paged.
Qed.

Lemma paged_ensurePageConnections pgs x : paged x → paged (ensurePageConnections h pgs x).
Proof.
  intros Hx. unfold ensurePageConnections.
  destruct (negb (has_session h)); [done|].
  apply paged_foldl.
  - apply paged_foldl; [done|]. intros y a Hy. cbv zeta. pchain.
  - intros y a Hy. by apply paged_forget.
Qed.

Lemma paged_disconnect x : paged x → paged (disconnect x).
Proof.
  intros Hx. unfold disconnect. cbv zeta.
  assert (H1 : paged
    (foldl (λ s interval, clearTimer interval s) x
       (map snd (map_to_list (keepAliveIntervals x))))).
  { apply paged_foldl; [done|]. intros y a Hy. pchain. }
  set (x1 := foldl (λ s interval, clearTimer interval s) x _) in *. clearbody x1.
  assert (H2 : paged
    (foldl (λ s ws, close ws s) (set_keepAliveIntervals ∅ x1)
       (map snd (map_to_list (pageSessions (set_keepAliveIntervals ∅ x1)))))).
  { apply paged_foldl; [pchain|]. intros y a Hy. pchain. }
  set (x2 := foldl (λ s ws, close ws s) _ _) in *. clearbody x2.
  pchain.
Qed.

Lemma paged_reconnectKnownPages x : paged x → paged (reconnectKnownPages h x).
Proof.
  intros Hx. unfold reconnectKnownPages.
  destruct (negb (has_session h)); [done|].
  apply paged_foldl; [done|]. intros y a Hy. pchain.
Qed.

Lemma paged_sendWhenOpen q tg m a x : paged x → paged (sendWhenOpen h q tg m a x).
Proof.
  intros Hx. unfold sendWhenOpen. cbv zeta.
  assert (H1 : paged (connectToPage h tg x)) by by apply paged_connectToPage.
  set (x1 := connectToPage h tg x) in *. clearbody x1. pchain.
Qed.

Lemma paged_sendToPage tg m a x : paged x → paged (sendToPage h tg m a x).
Proof.
  intros Hx. unfold sendToPage. cbv beta iota zeta delta [fresh]. pchain.
  all: first [apply paged_sendWhenOpen | apply paged_executeCommand]; pchain.
Qed.

Lemma paged_createTargetResolved tg x : paged x → paged (createTargetResolved tg x).
Proof. intros Hx. unfold createTargetResolved. pchain. Qed.

Lemma paged_wsOpen ws x : paged x → paged (wsOpen ws x).
Proof.
  intros Hx. unfold wsOpen. destruct (sockets x !! ws) as [w|]; [|done].
  destruct (readyState w); try done.
  destruct (role w); cbv zeta; [apply paged_control_onopen; pchain|].
  apply paged_foldl.
  - pchain. apply paged_page_onopen. pchain.
  - intros y q Hy. by apply paged_executeCommand.
Qed.

Lemma paged_wsClose ws c x : paged x → paged (wsClose h ws c x).
Proof.
  intros Hx. unfold wsClose. destruct (sockets x !! ws) as [w|]; [|done].
  destruct (readyState w); try done; destruct (role w); cbv zeta;
    first [apply paged_control_onclose | apply paged_page_onclose]; pchain.
Qed.

Lemma paged_wsError ws x : paged x → paged (wsError ws x).
Proof.
  intros Hx. unfold wsError. destruct (sockets x !! ws) as [w|]; [|done].
  destruct (role w); cbv zeta; [unfold control_onerror; pchain|].
  apply paged_foldl; [pchain|]. intros y q Hy. pchain.
Qed.

Lemma paged_wsMessage ws now rnd data x : paged x → paged (wsMessage h ws now rnd data x).
Proof.
  intros Hx. unfold wsMessage. destruct (sockets x !! ws) as [w|]; [|done].
  destruct (readyState w); try done; cbv zeta;
    apply paged_runListeners;
    destruct (role w);
    first [by apply paged_control_onmessage | by apply paged_page_onmessage].
Qed.

Lemma paged_handleScreencastMessage now rnd msg x :
  paged x → paged (handleScreencastMessage h now rnd msg x).
Proof.
  intros Hx. unfold handleScreencastMessage. pchain.
  by apply paged_queryTitleAndFavicon.
Qed.

Lemma paged_sendTimedOut id q m x : paged x → paged (sendTimedOut id q m x).
Proof. intros Hx. unfold sendTimedOut. auto_paged. Qed.

Lemma paged_timerFired i x : paged x → paged (timerFired i x).
Proof.
  intros Hx. unfold timerFired. destruct (timers x !! i) as [[d a]|] eqn:Hi; [|done].
  cbv zeta.
  assert (Hclear : paged (clearTimer i x)) by pchain.
  destruct a; simpl.
  - by apply paged_sendTimedOut.
  - by apply paged_pageCommandTimedOut.
  - pchain.
  - by apply paged_navigationEnrichment.
  - by apply paged_keepAliveTick.
Qed.

Lemma paged_step s e : paged s → paged (step h s e).
Proof.
  intros Hs. destruct e; simpl.
  - by apply paged_connect.
  - by apply paged_connectToPage.
  - by apply paged_ensurePageConnections.
  - by apply paged_reconnectKnownPages.
  - by apply paged_disconnect.
  - by apply paged_send.
  - by apply paged_sendToPage.
  - by apply paged_closeTarget.
  - by apply paged_createTargetResolved.
  - by apply paged_wsOpen.
  - by apply paged_wsMessage.
  - by apply paged_wsClose.
  - by apply paged_wsError.
  - by apply paged_timerFired.
  - by apply paged_mainKeepAliveTick.
  - by apply paged_handleScreencastMessage.
  - pchain.
  - pchain.
  - pchain.
  - pchain.
Qed.

Lemma paged_run s es : paged s → paged (run h s es).
Proof.
  revert s. induction es as [|e es IH]; intros s Hs; [done|].
  simpl. by apply IH, paged_step.
Qed.

Lemma paged_init : paged init.
Proof. split; simpl; intros *; by rewrite lookup_empty. Qed.

End Paged.

Section Pages.
Context (h : Hook) (Hsession : has_session h = true).

Lemma open_or_connecting_socket ws x :
  open_or_connecting ws x = true → ∃ w, sockets x !! ws = Some w.
Proof.
  unfold open_or_connecting, ready. destruct (sockets x !! ws) as [w|]; [eauto|].
  simpl. discriminate.
Qed.

Lemma open_or_connecting_ext ws x y :
  sockets y !! ws = sockets x !! ws → open_or_connecting ws y = open_or_connecting ws x.
Proof. intros H. unfold open_or_connecting, ready. by rewrite H. Qed.

Lemma ensurePageConnections_loops pgs x :
  ensurePageConnections h pgs x
  = foldl forget (foldl (remember h) x pgs)
      (filter (λ id, id ∉ pgs) (elements (knownPageIds (foldl (remember h) x pgs)))).
Proof. unfold ensurePageConnections. by rewrite Hsession. Qed.

Lemma paged_remember pg x : paged x → paged (remember h x pg).
Proof.
  intros Hx. unfold remember. cbv zeta.
  destruct (negb _); [apply paged_connectToPage|]; by apply paged_know.
Qed.

Lemma connectToPage_spec pg x :
  paged x →
  knownPageIds (connectToPage h pg x) = {[pg]} ∪ knownPageIds x
  ∧ connected_page pg (connectToPage h pg x)
  ∧ ∀ pg', connected_page pg' x → connected_page pg' (connectToPage h pg x).
Proof.
  intros Hx.
  destruct (match pageSessions x !! pg with
            | Some existingWs => open_or_connecting existingWs x
            | None => false
            end) eqn:Hc.
  all: assert (Hc1 : match pageSessions x !! pg with
                     | Some existingWs =>
                         open_or_connecting existingWs
                           (set_knownPageIds ({[pg]} ∪ knownPageIds x) x)
                     | None => false
                     end = _) by exact Hc.
  all: unfold connectToPage; rewrite Hsession; cbv zeta; simpl; rewrite Hc1; simpl.
  - split_and!; [done| |].
    + destruct (pageSessions x !! pg) as [ws|] eqn:Hpg; [|done]. by exists ws.
    + intros pg' (ws & Hpg & Ho). by exists ws.
  - split_and!; [done| |].
    + exists (nextHandle x). simpl. rewrite lookup_insert_eq. split; [done|].
      unfold open_or_connecting, ready. simpl. by rewrite lookup_insert_eq.
    + intros pg' (ws & Hpg & Ho). destruct (decide (pg' = pg)) as [->|Hne].
      { rewrite Hpg in Hc. congruence. }
      exists ws. simpl. rewrite lookup_insert_ne by done. split; [done|].
      rewrite <- Ho. apply open_or_connecting_ext. simpl.
      destruct (open_or_connecting_socket _ _ Ho) as [w Hw].
      pose proof (paged_keys _ Hx _ _ Hw). rewrite lookup_insert_ne; [done|lia].
Qed.

Lemma remember_spec pg x :
  paged x →
  knownPageIds (remember h x pg) = {[pg]} ∪ knownPageIds x
  ∧ connected_page pg (remember h x pg)
  ∧ ∀ pg', connected_page pg' x → connected_page pg' (remember h x pg).
Proof.
  intros Hx. unfold remember. cbv zeta.
  destruct (match pageSessions (set_knownPageIds ({[pg]} ∪ knownPageIds x) x) !! pg with
            | Some existingWs =>
                open_or_connecting existingWs (set_knownPageIds ({[pg]} ∪ knownPageIds x) x)
            | None => false
            end) eqn:Hc; simpl.
  - split_and!; [done| |].
    + simpl in Hc. destruct (pageSessions x !! pg) as [ws|] eqn:Hpg; [|done]. by exists ws.
    + intros pg' (ws & Hpg & Ho). by exists ws.
  - destruct (connectToPage_spec pg (set_knownPageIds ({[pg]} ∪ knownPageIds x) x))
      as (Hk & Hpg & Hkeep); [by apply paged_know|].
    split_and!; [|done|].
    + rewrite Hk. simpl. set_solver.
    + intros pg' (ws & Hpg' & Ho). apply Hkeep. by exists ws.
Qed.

(** The effect that reconnects: every page of the list is connected
    afterwards. *)
Lemma reconnect_all l x :
  paged x →
  let y := foldl (λ s pageId,
                    match pageSessions s !! pageId with
                    | Some existingWs =>
                        if is_open existingWs s then s else connectToPage h pageId s
                    | None => connectToPage h pageId s
                    end) x l in
  paged y
  ∧ knownPageIds x ⊆ knownPageIds y
  ∧ knownPageIds y ⊆ list_to_set l ∪ knownPageIds x
  ∧ (∀ pg, pg ∈ l → connected_page pg y)
  ∧ (∀ pg, connected_page pg x → connected_page pg y).
Proof.
  revert x. induction l as [|pg l IH]; intros x Hx; simpl.
  - split_and!; [done|done|set_solver| |done]. intros pg []%elem_of_nil.
  - set (x1 := match pageSessions x !! pg with
               | Some existingWs =>
                   if is_open existingWs x then x else connectToPage h pg x
               | None => connectToPage h pg x
               end).
    destruct (connectToPage_spec pg x Hx) as (Hk & Hpg & Hkeep).
    assert (H1 : paged x1
                 ∧ knownPageIds x ⊆ knownPageIds x1
                 ∧ knownPageIds x1 ⊆ {[pg]} ∪ knownPageIds x
                 ∧ connected_page pg x1
                 ∧ ∀ pg', connected_page pg' x → connected_page pg' x1).
    { unfold x1. destruct (pageSessions x !! pg) as [ws|] eqn:Hws.
      - destruct (is_open ws x) eqn:Hopen.
        + split_and!; [done|done|apply union_subseteq_r| |done]. exists ws. split; [done|].
          unfold is_open in Hopen. apply bool_decide_eq_true in Hopen.
          unfold open_or_connecting. rewrite Hopen. done.
        + split_and!; [by apply paged_connectToPage| | |done..]; rewrite Hk;
            [apply union_subseteq_r|done].
      - split_and!; [by apply paged_connectToPage| | |done..]; rewrite Hk;
          [apply union_subseteq_r|done]. }
    clearbody x1. destruct H1 as (H1 & Hsub1 & Hsub2 & Hpg1 & Hkeep1).
    destruct (IH _ H1) as (IH1 & IH2 & IH3 & IH4 & IH5). cbv zeta in *.
    split_and!; [done| | | |].
    + clear -Hsub1 IH2. set_solver.
    + clear -Hsub2 IH3. set_solver.
    + intros pg' [->|Hin]%elem_of_cons; [by apply IH5|by apply IH4].
    + intros pg' Hc. by apply IH5, Hkeep1.
Qed.

Lemma remember_all pgs x :
  paged x →
  paged (foldl (remember h) x pgs)
  ∧ knownPageIds (foldl (remember h) x pgs) = list_to_set pgs ∪ knownPageIds x
  ∧ (∀ pg, pg ∈ pgs → connected_page pg (foldl (remember h) x pgs))
  ∧ (∀ pg, connected_page pg x → connected_page pg (foldl (remember h) x pgs)).
Proof.
  revert x. induction pgs as [|pg pgs IH]; intros x Hx; simpl.
  - split_and!; [done|set_solver| |done]. intros pg []%elem_of_nil.
  - destruct (remember_spec pg x Hx) as (Hk & Hpg & Hkeep).
    destruct (IH _ (paged_remember pg x Hx)) as (IH1 & IH2 & IH3 & IH4).
    split_and!; [done| | |].
    + rewrite IH2, Hk. set_solver.
    + intros pg' [->|Hin]%elem_of_cons; [by apply IH4|by apply IH3].
    + intros pg' Hc. by apply IH4, Hkeep.
Qed.

End Pages.

Lemma forget_spec pg x pg' :
  paged x → pg' ≠ pg → connected_page pg' x → connected_page pg' (forget x pg).
Proof.
  intros Hx Hne (ws' & Hpg' & Ho).
  destruct (forget_fields pg x) as (_ & Hp & _ & Hs).
  exists ws'. rewrite Hp, lookup_delete_ne by done. split; [done|].
  rewrite <- Ho. apply open_or_connecting_ext.
  destruct Hs as [->|(ws & Hpg & ->)]; [done|].
  rewrite lookup_alter_ne; [done|]. intros ->.
  destruct (paged_socket _ Hx _ _ Hpg) as (w & Hw & Hpage).
  destruct (paged_socket _ Hx _ _ Hpg') as (w' & Hw' & Hpage'). congruence.
Qed.

Lemma forget_all l x :
  paged x →
  paged (foldl forget x l)
  ∧ knownPageIds (foldl forget x l) = knownPageIds x ∖ list_to_set l
  ∧ (∀ pg ws, pageSessions (foldl forget x l) !! pg = Some ws →
              (pg ∉ l) ∧ pageSessions x !! pg = Some ws)
  ∧ (∀ pg, (pg ∉ l) → connected_page pg x → connected_page pg (foldl forget x l)).
Proof.
  revert x. induction l as [|pg l IH]; intros x Hx; simpl.
  - split_and!; [done|set_solver| |done]. intros pg ws Hpg. split; [|done].
    by intros ?%elem_of_nil.
  - destruct (forget_fields pg x) as (Hk & Hp & _ & _).
    destruct (IH _ (paged_forget pg x Hx)) as (IH1 & IH2 & IH3 & IH4).
    split_and!; [done| | |].
    + rewrite IH2, Hk. set_solver.
    + intros pg' ws Hpg'. destruct (IH3 _ _ Hpg') as [Hnin Hf].
      rewrite Hp in Hf. apply lookup_delete_Some in Hf as [Hne Hf].
      split; [|done]. intros [->|?]%elem_of_cons; done.
    + intros pg' Hnin Hc. apply not_elem_of_cons in Hnin as [Hne Hnin].
      by apply IH4, forget_spec.
Qed.


(** X17 — After [ensurePageConnections pageIds] the known pages are exactly
    the pages of the list, every page of the list has a registered socket
    that is open or connecting, and no other page has a socket
    registered. *)
Theorem ensurePageConnections_syncs (h : Hook) (es : list Event) (pageIds : list string) :
  has_session h = true →
  let s := ensurePageConnections h pageIds (run h init es) in
  knownPageIds s = list_to_set pageIds
  ∧ (∀ pg, pg ∈ pageIds → connected_page pg s)
  ∧ (∀ pg ws, pageSessions s !! pg = Some ws → pg ∈ pageIds).
Proof.
  intros Hsession. cbv zeta. rewrite ensurePageConnections_loops by done.
  pose proof (paged_run h init es paged_init) as Hx.
  destruct (remember_all h Hsession pageIds _ Hx) as (H1 & Hk1 & Hc1 & _).
  set (s1 := foldl (remember h) (run h init es) pageIds) in *. clearbody s1.
  set (l := filter (λ id, id ∉ pageIds) (elements (knownPageIds s1))).
  assert (Hl : ∀ pg, pg ∈ l ↔ (pg ∉ pageIds) ∧ pg ∈ knownPageIds s1).
  { intros pg. unfold l. rewrite list_elem_of_filter, elem_of_elements. done. }
  destruct (forget_all l s1 H1) as (H2 & Hk2 & Hp2 & Hc2).
  split_and!.
  - rewrite Hk2, Hk1. apply set_eq. intros pg.
    rewrite elem_of_difference, elem_of_union, !elem_of_list_to_set, Hl, Hk1.
    rewrite elem_of_union, elem_of_list_to_set.
    destruct (decide (pg ∈ pageIds)); naive_solver.
  - intros pg Hin. apply Hc2; [|by apply Hc1]. rewrite Hl. naive_solver.
  - intros pg ws Hpg. destruct (Hp2 _ _ Hpg) as [Hnin Hpg1].
    pose proof (paged_known _ H1 _ _ Hpg1) as Hkn.
    destruct (decide (pg ∈ pageIds)); [done|]. exfalso. apply Hnin, Hl. done.
Qed.

Lemma ensurePageConnections_syncs_witness :
  has_session recorder = true
  ∧ let s := ensurePageConnections recorder ["p2"; "p3"]
               (run recorder init page_opened) in
    knownPageIds s = list_to_set ["p2"; "p3"]
    ∧ (∀ pg, pg ∈ ["p2"; "p3"] → connected_page pg s)
    ∧ (∀ pg ws, pageSessions s !! pg = Some ws → pg ∈ ["p2"; "p3"]).
Proof.
  split; [reflexivity|].
  exact (ensurePageConnections_syncs recorder page_opened ["p2"; "p3"]
           eq_refl).
Defined.

(** X18 — The effect that reconnects leaves the set of known pages as
    it is and every known page with a registered socket that is open or
    connecting. *)
Theorem reconnect_connects_known_pages (h : Hook) (es : list Event) :
  has_session h = true →
  let s := reconnectKnownPages h (run h init es) in
  knownPageIds s = knownPageIds (run h init es)
  ∧ ∀ pg, pg ∈ knownPageIds s → connected_page pg s.
Proof.
  intros Hsession. cbv zeta. unfold reconnectKnownPages. rewrite Hsession. simpl.
  pose proof (paged_run h init es paged_init) as Hx.
  destruct (reconnect_all h Hsession (elements (knownPageIds (run h init es))) _ Hx)
    as (_ & Hk1 & Hk2 & Hc & _). cbv zeta in *.
  assert (Hk : ∀ K K' : gset string, K ⊆ K' → K' ⊆ list_to_set (elements K) ∪ K → K' = K).
  { clear. intros K K' H1 H2. apply set_eq. intros pg. split; [|by apply H1].
    intros [Hin|Hin]%H2%elem_of_union; [|done].
    by apply elem_of_list_to_set, elem_of_elements in Hin. }
  split; [by apply Hk|].
  intros pg Hin. apply Hc. apply elem_of_elements. by rewrite <- (Hk _ _ Hk1 Hk2).
Qed.

Lemma reconnect_connects_known_pages_witness :
  has_session recorder = true
  ∧ let s := reconnectKnownPages recorder
               (run recorder init (page_opened ++ [WsClose 2 1006; Disconnect])) in
    knownPageIds s
    = knownPageIds (run recorder init (page_opened ++ [WsClose 2 1006; Disconnect]))
    ∧ ∀ pg, pg ∈ knownPageIds s → connected_page pg s.
Proof.
  split; [reflexivity|].
  exact (reconnect_connects_known_pages recorder
           (page_opened ++ [WsClose 2 1006; Disconnect]) eq_refl).
Defined.

(** X19 — Connecting to a page twice is connecting once: the second call
    opens no socket and changes nothing. *)
Theorem connectToPage_idempotent (h : Hook) (pageId : string) (s : State) :
  connectToPage h pageId (connectToPage h pageId s) = connectToPage h pageId s.
Proof.
  destruct (has_session h) eqn:Hs; [|unfold connectToPage; by rewrite Hs].
  assert (Hk : ∀ K : gset string, {[pageId]} ∪ ({[pageId]} ∪ K) = {[pageId]} ∪ K)
    by set_solver.
  assert (Hknown : knownPageIds (connectToPage h pageId s) = {[pageId]} ∪ knownPageIds s).
  { unfold connectToPage. rewrite Hs. cbv zeta. simpl.
    match goal with |- context [if ?b then _ else _] => destruct b end; simpl; by rewrite ?Hk. }
  assert (Hconn : match pageSessions (connectToPage h pageId s) !! pageId with
                  | Some existingWs =>
                      open_or_connecting existingWs
                        (set_knownPageIds
                           ({[pageId]} ∪ knownPageIds (connectToPage h pageId s))
                           (connectToPage h pageId s))
                  | None => false
                  end = true).
  { unfold connectToPage. rewrite Hs. cbv zeta. simpl.
    match goal with |- context [if ?b then _ else _] => destruct b eqn:Hc end; simpl.
    - destruct (pageSessions s !! pageId); [exact Hc|done].
    - rewrite lookup_insert_eq. unfold open_or_connecting, ready. simpl.
      by rewrite lookup_insert_eq. }
  set (y := connectToPage h pageId s) in *. clearbody y.
  unfold connectToPage. rewrite Hs. cbv zeta. simpl. rewrite Hconn, Hknown, Hk, <- Hknown.
  by destruct y.
Qed.

End BridgeExtras.

Module FocusProofs.
Import Focus.

(** * Properties of the retry loop *)

Lemma attempts_success remaining attempt outcome k :
  (attempt <= k < attempt + remaining)%nat →
  outcome k = Resolved true →
  (∀ j, (attempt <= j < k)%nat → outcome j ≠ Resolved true) →
  attempts remaining attempt outcome = (true, S k).
Proof.
  revert attempt. induction remaining as [|r IH]; intros attempt Hk Hok Hbefore; [lia|].
  simpl. destruct (decide (attempt = k)) as [->|Hne]; [by rewrite Hok|].
  assert (Hnot : outcome attempt ≠ Resolved true) by (apply Hbefore; lia).
  assert (Hrec : attempts r (S attempt) outcome = (true, S k)).
  { apply IH; [lia|done|]. intros j Hj. apply Hbefore. lia. }
  destruct (outcome attempt) as [[]|]; done.
Qed.

Lemma attempts_failure remaining attempt outcome :
  (∀ j, (attempt <= j < attempt + remaining)%nat → outcome j ≠ Resolved true) →
  attempts remaining attempt outcome = (false, (attempt + remaining)%nat).
Proof.
  revert attempt. induction remaining as [|r IH]; intros attempt Hnone; simpl.
  - f_equal. lia.
  - assert (Hnot : outcome attempt ≠ Resolved true) by (apply Hnone; lia).
    assert (Hrec : attempts r (S attempt) outcome = (false, (attempt + S r)%nat)).
    { rewrite IH; [f_equal; lia|]. intros j Hj. apply Hnone. lia. }
    destruct (outcome attempt) as [[]|]; done.
Qed.

Lemma search outcome n :
  (∃ k, (k < n)%nat ∧ first_success outcome k)
  ∨ (∀ j, (j < n)%nat → outcome j ≠ Resolved true).
Proof.
  induction n as [|n [(k & Hk & Hfirst)|Hnone]].
  - right. intros j Hj. lia.
  - left. exists k. split; [lia|done].
  - destruct (outcome n) as [[]|] eqn:Hn.
    + left. exists n. split; [lia|]. split; [done|]. intros j Hj. by apply Hnone.
    + right. intros j Hj. destruct (decide (j = n)) as [->|]; [by rewrite Hn|].
      apply Hnone. lia.
    + right. intros j Hj. destruct (decide (j = n)) as [->|]; [by rewrite Hn|].
      apply Hnone. lia.
Qed.

(** X14 — [focusElement] stops at the first attempt that reports [true]
    and returns [true], having sent one command per attempt made; when
    none of the first [maxAttempts] attempts reports [true], by a result
    that is not [true] or by a rejection, it returns [false] after
    [maxAttempts] commands, and after none when [maxAttempts] is zero or
    negative. *)
Theorem focusElement_retries (maxAttempts : Z) (outcome : nat → Outcome) :
  (∀ k, Z.of_nat k < maxAttempts → first_success outcome k →
        focusElement maxAttempts outcome = (true, S k))
  ∧ ((∀ k, Z.of_nat k < maxAttempts → outcome k ≠ Resolved true) →
     focusElement maxAttempts outcome = (false, Z.to_nat maxAttempts))
  ∧ ((focusElement maxAttempts outcome).1 = true
     ↔ ∃ k, Z.of_nat k < maxAttempts ∧ outcome k = Resolved true).
Proof.
  unfold focusElement.
  assert (Hyes : ∀ k, Z.of_nat k < maxAttempts → first_success outcome k →
                      attempts (Z.to_nat maxAttempts) 0 outcome = (true, S k)).
  { intros k Hk [Hok Hbefore]. apply attempts_success; [lia|done|].
    intros j Hj. apply Hbefore. lia. }
  assert (Hno : (∀ k, Z.of_nat k < maxAttempts → outcome k ≠ Resolved true) →
                attempts (Z.to_nat maxAttempts) 0 outcome = (false, Z.to_nat maxAttempts)).
  { intros Hnone. rewrite attempts_failure; [done|]. intros j Hj. apply Hnone. lia. }
  split_and!; [done|done|].
  destruct (search outcome (Z.to_nat maxAttempts)) as [(k & Hk & Hfirst)|Hnone].
  - rewrite (Hyes k) by (done || lia). split; [|done]. intros _.
    exists k. split; [lia|]. by destruct Hfirst.
  - rewrite Hno by (intros k Hk; apply Hnone; lia). split; [done|].
    intros (k & Hk & Hok). exfalso. apply (Hnone k); [lia|done].
Qed.

(** The element appears on the third attempt of ten; with no attempts
    allowed nothing is sent. *)
Example focus_on_third_attempt :
  let outcome := λ k : nat, match k with
                            | 0%nat => Resolved false
                            | 1%nat => Rejected
                            | _ => Resolved true
                            end in
  focusElement 10 outcome = (true, 3%nat) ∧ focusElement 0 outcome = (false, 0%nat)
  ∧ focusElement 2 outcome = (false, 2%nat).
Proof. done. Qed.

End FocusProofs.
